(* ===== verification/_CoqProject ===== *)
-Q . S2P
Prelude.v
CLib.v
TextUtil.v
Double.v
Clock.v
Log.v
Json.v
IpAddr.v
Http.v
HttpSpec.v
Config.v
ConfigSpec.v
GeoIp.v
GeoIpSpec.v
GeoIpConc.v
Metrics.v
MetricsSpec.v
ThreadPool.v
Response.v
ResponseSpec.v
Report.v
ReportSpec.v
Server.v
ServerSpec.v
System.v
Lifecycle.v
LifecycleSpec.v
LifecycleTrace.v
LifecycleLoop.v
LifecycleTime.v
LifecycleProps.v
Main.v
MainSpec.v
