(* ===== verification/Prelude.v ===== *)
(** * nshgeoip: a verification library

    nshgeoip is a daemon that answers one HTTP request per connection with
    what the MaxMind databases know about an IP address.  This library
    translates the program (the files of src/src/) into executable definitions
    and proves what makes them correct.  Names are those of the source; a
    definition that stands for a part of a function says which in its comment.

    ** The parts of the program and the files that model them

    - text_util.cpp: [TextUtil].  [json_escape], [sanitize_header_value].
    - ip_addr.cpp: [IpAddr].  [parse_ip_address] over a parameter [inet_pton].
    - http.cpp, http.h: [Http] (the timed read of a request head, the parser,
      negotiation, the serialiser), proved in [HttpSpec].
    - config.cpp, config.h: [Config] (file, environment, default databases),
      proved in [ConfigSpec].
    - geoip.cpp, geoip.h: [GeoIp] (the three database slots with the handles
      of libmaxminddb, lookups, metadata), proved in [GeoIpSpec];
      [GeoIpConc] has the interleavings of lookups and reloads under the
      [shared_mutex].
    - metrics.cpp, metrics.h: [Metrics] (counters, Prometheus text, the JSON
      of /health), proved in [MetricsSpec].
    - thread_pool.cpp, thread_pool.h: [ThreadPool], a transition system whose
      steps are the critical sections, notifications, joins and handlers.
    - server.cpp, the response builders: [Response], proved in [ResponseSpec].
    - server.cpp, one connection, reloads and the metrics file: [Server],
      proved in [ServerSpec].
    - server.cpp and server.h, the object's life: [Lifecycle] ([init] with
      signals, UNIX socket, TCP listeners and pool, [run], [cleanup], the
      destructor), as programs over the system calls of [System].  Proved in
      [LifecycleSpec] (what the process owns), [LifecycleTrace] (start-up),
      [LifecycleLoop] (the accept loop and the pool), [LifecycleTime] (its
      timeouts), with the properties in [LifecycleProps].
    - geoip.cpp, print_db_metadata: [Report], proved in [ReportSpec].
    - log.h: [Log].
    - main.cpp: [Main] (arguments, help, health check, configuration, the
      server), proved in [MainSpec].

    [Prelude] (this file) has the notations, tactics and list lemmas the
    components share; [CLib] the C and C++ library functions the source calls
    ([strtol], [std::getline], [find], decimal printing); [Double] IEEE 754
    binary64 with the two output formats; [Clock] [gmtime_r] and [strftime];
    [Json] JSON values with an independent reader; [System] system calls, the
    state of the process they act on, programs over them, and the rules to
    reason about results, states and traces.

    ** How the parts interact

    The accept loop hands a file descriptor to the pool ([ThreadPool.submit]);
    a worker runs [Server.handle_connection] on it, which reads with
    [Http.read_http_head], parses with [Http.parse_http_request], counts in
    [Metrics], looks up with [IpAddr.parse_ip_address] and [GeoIp.lookup],
    builds the response with [Response.build_success_response] or
    [Http.make_error_response], serialises it with [Http.build_http_response]
    and closes.  On SIGHUP the accept loop runs [Server.reload_databases],
    which calls the [reload_*] of [GeoIp] while workers look addresses up: the
    interleavings are those of [GeoIpConc], whose theorem is why [Server] may
    treat a lookup as one step.  [Main.main] reads the arguments and, unless
    they ask for something else, the configuration of [Config], and runs
    [Lifecycle.serve]: [init], [run], the destructor.  [init] calls the
    [open_*] of [GeoIp], [run] the reload and the metrics writer of [Server];
    what it asks of the pool drives [ThreadPool], and [every_connection_served]
    composes the two.  The health check of [Main] meets the server's own
    answer in [health_check_agrees].

    ** Programs over system calls

    A method of the server or a part of [main] is a tree of calls with one
    branch per answer ([System.prog]); failures with a message are values, so
    that the destructor gets the object a failed [init] leaves.  An oracle
    gives the answers, from the whole state and its history; [lawful] is what
    the kernel guarantees of it: a new descriptor is not one that is open,
    [poll] answers for each descriptor, the steady clock does not run
    backwards.  Everything else may happen, each call failing or not, and the
    time of day may be anything.  So a program can reach undefined behaviour,
    the age of a database that was built after the time just read
    ([future_build_undefined], [database_from_the_future]); [System.triple]
    has a predicate for the states where that happens ([undatable],
    [MainSpec.undefined_at]), and every theorem about a program says that it
    is undefined nowhere else.  That nothing is undefined at all is proved
    under [timely]: the time of day is not set back and lies before 2116, and
    database files were built before they are opened.

    ** What the theorems show

    - The program: no descriptor is left open whatever fails, nor a socket file
      unless removing it failed ([program_leaves_nothing]), every accepted
      connection is handled before the end ([every_connection_served]), what
      each command line runs ([command_line_exact]), a help table that is true
      ([help_documents_configuration]), the health check ([check_health_spec],
      [health_check_agrees]).
    - The server's life: only a socket whose probe was not answered, for
      whatever reason, is taken over ([takes_over_unanswered_socket_only]), the listeners are those configured
      ([listens_as_configured]), the loop ends on a signal
      ([ends_on_signal]) and sleeps no longer than it may
      ([poll_timeouts_bounded]).
    - Connections: exactly one response or none, counted once, closed last
      ([one_response_per_connection], [connection_always_closed]); a lookup
      gets the answer its databases call for ([lookup_end_to_end]); HEAD is
      GET without its body ([head_mirrors_get]); every body is a text of the
      type it is announced with ([content_type_true]); [write_all_prefix].
    - Databases: the handles implement three optional databases, never use a
      dead handle and leak none ([geoip_refines_spec]); where every field
      comes from ([lookup_spec]); lookups are atomic under concurrent reloads
      ([lookups_atomic]), without deadlock, though a swap may be overtaken by
      lookups without bound ([lock_progress]); reloads keep
      or replace ([reload_keeps_or_replaces]); build times and ages
      ([make_metadata_exact]).
    - Worker pool: no connection is lost or handled twice, first in first out
      ([connections_conserved]); [shutdown] returns when all work is done
      ([join_only_when_drained]), no lost wake-up ([pool_progress]), and the
      pool always drains ([pool_drains]).
    - HTTP: soundness and round trip of the parser, its loops against
      references, termination and outcome of the timed read, and responses
      that cannot be split.
    - Output: the JSON, text, Prometheus and /health bodies, the database
      reports and the log lines are read back by independent readers into
      exactly the values they should carry.
    - Configuration: round trip through a file, ranges as an invariant of
      file, environment and defaults, the outcome of every load, environment
      overrides and default databases.
    - Metrics: counters count their events modulo 2^64 in any interleaving;
      the metrics file changes only by a rename ([metrics_file_atomic]).

    ** Parameters

    What is not in the repository is a parameter: libmaxminddb (the class
    [GeoIp.MaxMindDB], with a concrete instance to evaluate), [inet_pton]
    ([IpAddr.InetPton]), and what the operating system answers ([poll],
    [recv], [send], the clock, [getenv], [stat], the content of files, and
    the oracle of [System]; [strerror] and [inet_ntop] are the class
    [System.Libc]).  A connection or a read is a function of the sequence of
    those answers.

    ** Bounds and fuel

    Counters are 64-bit and wrap; [long] is 64-bit; conversions that C++
    leaves undefined give [None].  [Http.parse_query] is run with two more
    units of fuel than the query has bytes and [Http.scan_headers] with one
    more than the request has; [parser_loops_reference] proves that they end.
    [CLib.dec_digits] gets one unit more than the number has bits.  The loops over
    answers of the operating system recurse on the answers; that they end is
    proved ([read_http_head_terminates], [write_all_prefix]).  The accept loop
    runs until a signal, so [run] takes a number of turns, and a number of
    connections one drain may accept; [ends_on_signal] says that running out
    of either is the only way not to have ended.

    ** Not modelled

    The tests, scripts and container files are not part of the daemon.  Of the
    daemon: the signal mask, socket flags and buffer sizes the calls set up
    are not part of the calls' arguments where nothing depends on them; a
    worker's socket is the business of [Server] and the pool's history, not of
    the main thread's descriptors; [uptime_seconds] is an answer of the
    system; two processes racing for the same socket path between the probe
    and the bind.  Undefined behaviour of [std::mutex] and of memory itself is
    outside the model. *)

From Stdlib Require Export ZArith Lia ZifyBool ZifyN ZifyNat.
From stdpp Require Export base tactics option numbers strings list.
From Stdlib Require Import Ascii.
From Stdlib Require Strings.String.

(** ** Byte strings

    [std::string] is a sequence of 8-bit characters, so it is modelled as a
    list of [ascii].  Positions and sizes ([size_t]) are [nat]. *)

Declare Scope nsh_scope.
Delimit Scope nsh_scope with nsh.
Open Scope nsh_scope.

Abbreviation bytes := (list ascii).

Definition lit (s : string) : bytes := Stdlib.Strings.String.list_ascii_of_string s.
Arguments lit _ : simpl never.

(** [#"text"] is the C++ literal ["text"]. *)
Notation "# s" := (lit s) (at level 1, s at level 0) : nsh_scope.

(** The C++ operator [==] on strings and characters, as a boolean. *)
Notation "x == y" := (bool_decide (x = y)) (at level 70, no associativity) : nsh_scope.

Definition NUL : ascii := "000".
Definition BS : ascii := "008".
Definition HT : ascii := "009".
Definition LF : ascii := "010".
Definition FF : ascii := "012".
Definition CR : ascii := "013".
Definition SP : ascii := "032".
Definition DQ : ascii := "034".
Definition BSL : ascii := "092".
Definition DEL : ascii := "127".
Definition CRLF : bytes := [CR; LF].

(** A literal of the source that holds double quotes, written here with
    single quotes in their place. *)
Definition jlit (s : string) : bytes :=
  map (fun c => if c == "'"%char then DQ else c) (lit s).
Arguments jlit _ : simpl never.
Notation "#j s" := (jlit s) (at level 1, s at level 0) : nsh_scope.

(** The unsigned value of a character ([static_cast<unsigned char>]). *)
Definition code (c : ascii) : N := N_of_ascii c.

(** ** Character classes and line safety *)

(** A byte that neither ends nor splits a line of text. *)
Definition line_char (c : ascii) : bool := negb (c == CR) && negb (c == LF).
Definition line_safe (s : bytes) : Prop := Forall (fun c => line_char c = true) s.

(** A byte that is not a control character (nor DEL). *)
Definition printable (c : ascii) : bool := (32 <=? code c)%N && negb (c == DEL).

(** ** Reasoning about all 256 characters *)

Definition all_chars : list ascii := map ascii_of_nat (seq 0 256).

Lemma elem_of_all_chars c : c ∈ all_chars.
Proof.
  unfold all_chars. apply list_elem_of_In, in_map_iff. exists (nat_of_ascii c).
  split; [apply ascii_nat_embedding|].
  apply in_seq. pose proof (nat_ascii_bounded c). lia.
Qed.

Lemma forall_chars (P : ascii -> bool) :
  forallb P all_chars = true -> forall c, P c = true.
Proof.
  intros H c. rewrite forallb_forall in H.
  apply H, list_elem_of_In, elem_of_all_chars.
Qed.

Lemma forall_chars_impl (P Q : ascii -> bool) :
  forallb (fun c => implb (P c) (Q c)) all_chars = true ->
  forall c, P c = true -> Q c = true.
Proof.
  intros H c Hc. pose proof (forall_chars _ H c) as Hi. simpl in Hi.
  by rewrite Hc in Hi.
Qed.

(** ** Generic list lemmas *)

Lemma Forall_flat_map {A B} (f : A -> list B) (P : B -> Prop) l :
  Forall (fun x => Forall P (f x)) l -> Forall P (flat_map f l).
Proof. induction 1; simpl; [constructor|]. by apply Forall_app. Qed.

Lemma flat_map_app {A B} (f : A -> list B) l1 l2 :
  flat_map f (l1 ++ l2) = flat_map f l1 ++ flat_map f l2.
Proof. induction l1; simpl; [done|]. by rewrite IHl1, app_assoc. Qed.

Lemma take_length_app {A} (l1 l2 : list A) n :
  n = length l1 -> take n (l1 ++ l2) = l1.
Proof. intros ->. apply take_app_length. Qed.

Lemma drop_length_app {A} (l1 l2 : list A) n :
  n = length l1 -> drop n (l1 ++ l2) = l2.
Proof. intros ->. apply drop_app_length. Qed.

Lemma forallb_Forall_true {A} (P : A -> bool) l :
  forallb P l = true <-> Forall (fun x => P x = true) l.
Proof.
  induction l; simpl; [split; [constructor|done]|].
  rewrite andb_true_iff, IHl, Forall_cons. done.
Qed.

(** What replacing one element does to a concatenation, up to order. *)
Lemma flat_map_insert {A B} (f : A -> list B) (l : list A) (i : nat) x y : l !! i = Some x ->
  exists rest, flat_map f l ≡ₚ f x ++ rest /\ flat_map f (<[i := y]> l) ≡ₚ f y ++ rest.
Proof.
  intros Hi. exists (flat_map f (take i l) ++ flat_map f (drop (S i) l)). split.
  - rewrite <- (take_drop_middle _ _ _ Hi) at 1. rewrite flat_map_app. cbn [flat_map].
    rewrite !app_assoc. f_equiv. apply Permutation_app_comm.
  - rewrite insert_take_drop by (by apply lookup_lt_Some in Hi). rewrite flat_map_app. cbn [flat_map].
    rewrite !app_assoc. f_equiv. apply Permutation_app_comm.
Qed.

(** Associates every [++] to the right, so that two texts built from the same
    pieces compare by conversion. *)
Ltac flatten_app := repeat (rewrite <- app_assoc || rewrite <- app_comm_cons).
