(* ===== verification/CLib.v ===== *)
(** * The C and C++ library operations the program uses

    Executable definitions of the character classes, string searches,
    decimal printing, [strtol] and [std::getline], for the "C" locale and a
    64-bit [long], with the lemmas the components share. *)

From S2P Require Export Prelude.
From Stdlib Require Import Ascii.

(** ** Characters: <cctype> in the "C" locale *)

Definition isspace (c : ascii) : bool :=
  let n := code c in (n =? 32)%N || ((9 <=? n)%N && (n <=? 13)%N).

Definition isupper (c : ascii) : bool :=
  let n := code c in (65 <=? n)%N && (n <=? 90)%N.

Definition tolower (c : ascii) : ascii :=
  if isupper c then ascii_of_N (code c + 32) else c.

Definition isdigit (c : ascii) : bool :=
  let n := code c in (48 <=? n)%N && (n <=? 57)%N.

(** ** Strings: indexing, [find], [substr] *)

(** [s[i]]; [s[s.size()]] is the terminating NUL. *)
Definition char_at (s : bytes) (i : nat) : ascii := nth i s NUL.

Fixpoint find_char (c : ascii) (s : bytes) : option nat :=
  match s with
  | [] => None
  | d :: s' => if d == c then Some 0 else S <$> find_char c s'
  end.

Fixpoint starts_with (pat s : bytes) : bool :=
  match pat, s with
  | [], _ => true
  | p :: pat', c :: s' => (p == c) && starts_with pat' s'
  | _ :: _, [] => false
  end.

Fixpoint find_str (pat s : bytes) : option nat :=
  if starts_with pat s then Some 0
  else match s with [] => None | _ :: s' => S <$> find_str pat s' end.

(** [s.find(c, pos)] and [s.find(pat, pos)]. *)
Definition find_char_from (c : ascii) (s : bytes) (pos : nat) : option nat :=
  Nat.add pos <$> find_char c (drop pos s).
Definition find_str_from (pat s : bytes) (pos : nat) : option nat :=
  if length s <? pos then None else Nat.add pos <$> find_str pat (drop pos s).

(** [s.find_first_not_of(c)], [s.find_last_not_of(c)], [s.find_last_of(c)]. *)
Fixpoint find_first_not_of (c : ascii) (s : bytes) : option nat :=
  match s with
  | [] => None
  | d :: s' => if d == c then S <$> find_first_not_of c s' else Some 0
  end.
Fixpoint find_last_sat (P : ascii -> bool) (s : bytes) : option nat :=
  match s with
  | [] => None
  | d :: s' =>
      match find_last_sat P s' with
      | Some i => Some (S i)
      | None => if P d then Some 0 else None
      end
  end.
Definition find_last_not_of (c : ascii) := find_last_sat (fun d => negb (d == c)).
Definition find_last_of (c : ascii) := find_last_sat (fun d => d == c).

(** [s.substr(pos, n)] and [s.substr(pos)] for [pos <= s.size()]. *)
Definition substr (s : bytes) (pos n : nat) : bytes := take n (drop pos s).
Definition substr_from (s : bytes) (pos : nat) : bytes := drop pos s.

(** The text [c_str()] stands for: everything before the first NUL. *)
Fixpoint c_str (s : bytes) : bytes :=
  match s with
  | [] => []
  | c :: s' => if c == NUL then [] else c :: c_str s'
  end.

(** ** Reference operations the theorems compare with *)

Fixpoint drop_while (P : ascii -> bool) (s : bytes) : bytes :=
  match s with
  | [] => []
  | c :: s' => if P c then drop_while P s' else s
  end.
Fixpoint take_while (P : ascii -> bool) (s : bytes) : bytes :=
  match s with
  | [] => []
  | c :: s' => if P c then c :: take_while P s' else []
  end.

(** [s] without the longest prefix and suffix of characters satisfying [P]. *)
Definition strip (P : ascii -> bool) (s : bytes) : bytes :=
  rev (drop_while P (rev (drop_while P s))).

(** The pieces of [s] between the occurrences of [c]. *)
Fixpoint split_on (c : ascii) (s : bytes) : list bytes :=
  match s with
  | [] => [[]]
  | d :: s' =>
      if d == c then [] :: split_on c s'
      else match split_on c s' with
           | [] => [[d]]
           | p :: ps => (d :: p) :: ps
           end
  end.

(** ** Numbers: [std::to_string] and [std::strtol] *)

Definition digit (n : N) : ascii := ascii_of_N (48 + n).
Definition digit_val (c : ascii) : N := code c - 48.

Fixpoint dec_digits (fuel : nat) (n : N) (acc : bytes) : bytes :=
  match fuel with
  | O => acc
  | S f =>
      if (n <? 10)%N then digit n :: acc
      else dec_digits f (n / 10) (digit (n mod 10) :: acc)
  end.

(** A number has at most as many decimal digits as binary ones. *)
Definition dec_of_N (n : N) : bytes := dec_digits (S (N.size_nat n)) n [].

Definition to_string (z : Z) : bytes :=
  if (z <? 0)%Z then "-"%char :: dec_of_N (Z.to_N (- z)) else dec_of_N (Z.to_N z).

(** [strtol(s, &end, base)] for [base] 8 or 10. *)
Record strtol_res := mkStrtol {
  st_value : Z;      (* the returned long *)
  st_end : nat;      (* end - s, 0 when there is no number *)
  st_erange : bool;  (* errno = ERANGE *)
}.

Definition LONG_MAX : Z := 2 ^ 63 - 1.
Definition LONG_MIN : Z := - 2 ^ 63.

Definition is_base_digit (base : N) (c : ascii) : bool :=
  isdigit c && (digit_val c <? base)%N.

Definition digits_value (base : N) (ds : bytes) : N :=
  fold_left (fun acc c => acc * base + digit_val c)%N ds 0%N.

(** An optional sign: whether it is a minus, and its length. *)
Definition strtol_sign (s : bytes) : bool * nat :=
  match s with
  | c :: _ => if c == "-"%char then (true, 1) else if c == "+"%char then (false, 1) else (false, 0)
  | [] => (false, 0)
  end.

Definition strtol (base : N) (s : bytes) : strtol_res :=
  let ws := length (take_while isspace s) in
  let '(neg, sl) := strtol_sign (drop ws s) in
  let ds := take_while (is_base_digit base) (drop (ws + sl) s) in
  match ds with
  | [] => mkStrtol 0 0 false
  | _ :: _ =>
      let v := if neg then (- Z.of_N (digits_value base ds))%Z else Z.of_N (digits_value base ds) in
      let e := (ws + sl + length ds)%nat in
      if (v <? LONG_MIN)%Z then mkStrtol LONG_MIN e true
      else if (LONG_MAX <? v)%Z then mkStrtol LONG_MAX e true
      else mkStrtol v e false
  end.

(** ** Streams: the lines [std::getline] yields from a file's content.  A last
    line without a newline counts, an empty rest after the last one does not. *)
Fixpoint getlines (s : bytes) : list bytes :=
  match s with
  | [] => []
  | c :: s' =>
      if c == LF then [] :: getlines s'
      else match getlines s' with
           | [] => [[c]]
           | l :: ls => (c :: l) :: ls
           end
  end.

(** ** Facts about the operations *)

Create HintDb clib.

Lemma bool_decide_neq {A} (x y : A) `{Decision (x = y)} : x <> y -> (x == y) = false.
Proof. apply bool_decide_eq_false_2. Qed.

Lemma bool_decide_refl {A} (x : A) `{Decision (x = x)} : (x == x) = true.
Proof. by apply bool_decide_eq_true_2. Qed.

Lemma eqb_char_refl (c : ascii) : (c == c) = true.
Proof. by apply bool_decide_eq_true_2. Qed.

(** *** Searching for a character *)

Lemma find_char_app_absent c s1 s2 :
  c ∉ s1 -> find_char c (s1 ++ s2) = Nat.add (length s1) <$> find_char c s2.
Proof.
  induction s1 as [|d s1 IH]; simpl; intros Hn.
  - by destruct (find_char c s2).
  - apply not_elem_of_cons in Hn as [Hd Hn].
    rewrite bool_decide_neq by congruence. rewrite IH by done.
    by destruct (find_char c s2).
Qed.

Lemma find_char_hit c s1 s2 : c ∉ s1 -> find_char c (s1 ++ c :: s2) = Some (length s1).
Proof.
  intros Hn. rewrite find_char_app_absent by done. simpl.
  rewrite eqb_char_refl. simpl. f_equal. lia.
Qed.

Lemma find_char_None c s : find_char c s = None <-> c ∉ s.
Proof.
  induction s as [|d s IH]; simpl; [split; [intros _; apply not_elem_of_nil|done]|].
  rewrite not_elem_of_cons. case_bool_decide as Hd.
  - subst. split; [done|]. by intros [? _].
  - destruct (find_char c s); simpl; split.
    + done.
    + intros [_ Hn]. apply IH in Hn. done.
    + intros _. split; [congruence|]. by apply IH.
    + done.
Qed.

Lemma find_char_Some c s i :
  find_char c s = Some i ->
  s = take i s ++ c :: drop (S i) s /\ (c ∉ take i s) /\ i < length s.
Proof.
  revert i. induction s as [|d s IH]; simpl; intros i; [done|].
  case_bool_decide as Hd.
  - intros [= <-]. subst. simpl. split; [done|]. split; [apply not_elem_of_nil|lia].
  - destruct (find_char c s) as [j|]; simpl; [|done]. intros [= <-].
    destruct (IH j eq_refl) as (Hs & Hn & Hl). simpl. split; [by f_equal|].
    split; [|lia]. apply not_elem_of_cons. split; congruence.
Qed.

(** *** Searching for a string *)

Lemma starts_with_app pat s : starts_with pat (pat ++ s) = true.
Proof. induction pat; simpl; [done|]. by rewrite eqb_char_refl. Qed.

Lemma starts_with_true pat s :
  starts_with pat s = true <-> exists t, s = pat ++ t.
Proof.
  split; [|intros [t ->]; apply starts_with_app].
  revert s. induction pat as [|p pat IH]; intros s; simpl; [eauto|].
  destruct s as [|c s]; [done|]. intros [Hp Hs]%andb_true_iff.
  apply bool_decide_eq_true in Hp as ->. destruct (IH _ Hs) as [t ->]. by exists t.
Qed.

Lemma find_str_Some pat s i :
  find_str pat s = Some i -> exists t, s = take i s ++ pat ++ t /\ i <= length s.
Proof.
  revert i. induction s as [|c s IH]; intros i; simpl;
    destruct (starts_with pat _) eqn:E; try done.
  - intros [= <-]. apply starts_with_true in E as [t Ht]. exists t. simpl. split; [done|lia].
  - intros [= <-]. apply starts_with_true in E as [t Ht]. exists t. simpl. split; [done|lia].
  - destruct (find_str pat s) as [j|]; simpl; [|done]. intros [= <-].
    destruct (IH j eq_refl) as (t & Ht & Hl). exists t. simpl. split; [by f_equal|lia].
Qed.

Lemma find_str_is_Some pat s :
  is_Some (find_str pat s) <-> exists s1 s2, s = s1 ++ pat ++ s2.
Proof.
  split.
  - intros [i H]. apply find_str_Some in H as (t & H & _). eauto.
  - intros (s1 & s2 & ->). induction s1 as [|c s1 IH]; simpl.
    + destruct (pat ++ s2) eqn:E; simpl; rewrite <- E, starts_with_app; eauto.
    + destruct (starts_with pat _); [eauto|]. destruct IH as [j ->]. simpl. eauto.
Qed.

(** The first CRLF after a line that holds no CR. *)
Lemma find_crlf_hit s1 s2 : CR ∉ s1 -> find_str CRLF (s1 ++ CRLF ++ s2) = Some (length s1).
Proof.
  induction s1 as [|c s1 IH]; intros Hn; [done|].
  apply not_elem_of_cons in Hn as [Hc Hn].
  change ((c :: s1) ++ CRLF ++ s2) with (c :: (s1 ++ CRLF ++ s2)).
  simpl. rewrite bool_decide_neq by done. simpl in *. by rewrite IH.
Qed.

#[export] Hint Resolve find_char_hit find_crlf_hit starts_with_app : clib.

(** *** Splitting *)

Lemma split_on_nonempty c s : split_on c s <> [].
Proof. destruct s as [|d s]; simpl; [done|]. case_bool_decide; [done|]. by destruct (split_on c s). Qed.

Lemma split_on_absent c s : c ∉ s -> split_on c s = [s].
Proof.
  induction s as [|d s IH]; simpl; [done|]. intros [Hd Hn]%not_elem_of_cons.
  rewrite bool_decide_neq by congruence. by rewrite IH.
Qed.

Lemma split_on_hit c s1 s2 : c ∉ s1 -> split_on c (s1 ++ c :: s2) = s1 :: split_on c s2.
Proof.
  induction s1 as [|d s1 IH]; simpl; intros Hn.
  - by rewrite eqb_char_refl.
  - apply not_elem_of_cons in Hn as [Hd Hn].
    rewrite bool_decide_neq by congruence. by rewrite IH.
Qed.

(** *** Decimal numbers *)

Lemma code_lt c : (code c < 256)%N.
Proof. unfold code. apply N_ascii_bounded. Qed.

Lemma code_ascii_of_N n : (n < 256)%N -> code (ascii_of_N n) = n.
Proof. apply N_ascii_embedding. Qed.

Lemma code_digit n : (n < 10)%N -> code (digit n) = (48 + n)%N.
Proof. intros. unfold digit. apply code_ascii_of_N. lia. Qed.

Lemma digit_val_digit n : (n < 10)%N -> digit_val (digit n) = n.
Proof. intros H. unfold digit_val. rewrite code_digit by done. lia. Qed.

Lemma isdigit_digit n : (n < 10)%N -> isdigit (digit n) = true.
Proof.
  intros H. unfold isdigit. rewrite code_digit by done.
  apply andb_true_intro. split; apply N.leb_le; lia.
Qed.

Lemma isdigit_printable c : isdigit c = true -> printable c = true.
Proof. revert c. apply forall_chars_impl. by vm_compute. Qed.

Lemma printable_line_char c : printable c = true -> line_char c = true.
Proof. revert c. apply forall_chars_impl. by vm_compute. Qed.

Definition all_digits (s : bytes) : Prop := Forall (fun c => isdigit c = true) s.

Lemma dec_digits_all fuel n acc : all_digits acc -> all_digits (dec_digits fuel n acc).
Proof.
  revert n acc. induction fuel as [|f IH]; intros n acc Ha; simpl; [done|].
  destruct (n <? 10)%N eqn:E.
  - constructor; [|done]. apply isdigit_digit. lia.
  - apply IH. constructor; [|done]. apply isdigit_digit. lia.
Qed.

Lemma dec_of_N_digits n : all_digits (dec_of_N n).
Proof. apply dec_digits_all. constructor. Qed.

Lemma digits_value_app base s1 s2 :
  digits_value base (s1 ++ s2) =
  fold_left (fun acc c => acc * base + digit_val c)%N s2 (digits_value base s1).
Proof. apply fold_left_app. Qed.

Lemma dec_digits_fold fuel n acc a :
  (n < 2 ^ N.of_nat fuel)%N -> (0 < fuel)%nat ->
  exists k, dec_digits fuel n acc = k ++ acc /\ k <> [] /\
    fold_left (fun x c => x * 10 + digit_val c)%N k a = (a * 10 ^ N.of_nat (length k) + n)%N.
Proof.
  revert n acc a. induction fuel as [|f IH]; intros n acc a Hn Hf; [lia|]. simpl.
  destruct (n <? 10)%N eqn:E.
  - exists [digit n]. split; [done|]. split; [done|]. simpl.
    rewrite digit_val_digit by lia. lia.
  - assert (10 * (n / 10) <= n)%N by (apply N.Div0.mul_div_le).
    assert (n mod 10 < 10)%N by (apply N.mod_lt; lia).
    assert (Hdm : n = (10 * (n / 10) + n mod 10)%N) by (apply N.div_mod; lia).
    rewrite Nat2N.inj_succ, N.pow_succ_r' in Hn.
    assert (0 < f)%nat.
    { destruct f; [|lia]. change (2 ^ N.of_nat 0)%N with 1%N in Hn. lia. }
    destruct (IH (n / 10)%N (digit (n mod 10) :: acc) a) as (k & Hk & Hne & Hv); [lia|done|].
    exists (k ++ [digit (n mod 10)]). rewrite Hk, <- app_assoc. split; [done|].
    split; [by destruct k|].
    rewrite fold_left_app, Hv. simpl. rewrite digit_val_digit by done.
    rewrite length_app, Nat2N.inj_add, N.pow_add_r. simpl. lia.
Qed.

Lemma size_nat_bound n : (n < 2 ^ N.of_nat (S (N.size_nat n)))%N.
Proof.
  assert (H : (n < 2 ^ N.of_nat (N.size_nat n))%N).
  { destruct n as [|p]; [done|]. simpl.
    induction p as [p IH|p IH|]; simpl Pos.size_nat; [| |done];
      rewrite Nat2N.inj_succ, N.pow_succ_r'; lia. }
  rewrite Nat2N.inj_succ, N.pow_succ_r'. lia.
Qed.

Lemma digits_value_dec n : digits_value 10 (dec_of_N n) = n.
Proof.
  unfold dec_of_N. destruct (dec_digits_fold (S (N.size_nat n)) n [] 0) as (k & -> & _ & Hv);
    [apply size_nat_bound|lia|].
  rewrite app_nil_r. unfold digits_value. rewrite Hv. lia.
Qed.

Lemma dec_of_N_nonempty n : dec_of_N n <> [].
Proof.
  unfold dec_of_N. destruct (dec_digits_fold (S (N.size_nat n)) n [] 0) as (k & -> & Hne & _);
    [apply size_nat_bound|lia|]. by rewrite app_nil_r.
Qed.

Lemma dec_of_N_inj n m : dec_of_N n = dec_of_N m -> n = m.
Proof. intros H. by rewrite <- (digits_value_dec n), H, digits_value_dec. Qed.

Lemma all_digits_line_safe s : all_digits s -> line_safe s.
Proof. intros H. apply (Forall_impl _ _ _ H). intros c Hc. by apply printable_line_char, isdigit_printable. Qed.

#[export] Hint Resolve dec_of_N_digits all_digits_line_safe : clib.

Lemma line_safe_lit s : forallb line_char s = true -> line_safe s.
Proof. apply forallb_Forall_true. Qed.

Lemma line_safe_app s t : line_safe (s ++ t) <-> line_safe s /\ line_safe t.
Proof. apply Forall_app. Qed.

Lemma line_safe_CR s : line_safe s -> CR ∉ s.
Proof. intros H Hin. unfold line_safe in H. rewrite Forall_forall in H. by specialize (H _ Hin). Qed.

Lemma line_safe_dec n : line_safe (dec_of_N n).
Proof. auto with clib. Qed.

Lemma line_safe_to_string z : line_safe (to_string z).
Proof.
  unfold to_string. destruct (z <? 0)%Z; [|apply line_safe_dec].
  constructor; [done|]. apply line_safe_dec.
Qed.

Lemma getlines_render ls :
  Forall (fun l => LF ∉ l) ls -> getlines (flat_map (fun l => l ++ [LF]) ls) = ls.
Proof.
  induction 1 as [|l ls Hl _ IH]; [done|]. cbn [flat_map]. rewrite <- app_assoc. cbn [app].
  induction l as [|c l IHl]; cbn [app getlines]; [by rewrite bool_decide_refl, IH|].
  rewrite not_elem_of_cons in Hl. destruct Hl as [Hc Hl].
  rewrite bool_decide_neq by congruence. by rewrite IHl.
Qed.

Lemma find_last_sat_lt P s i : find_last_sat P s = Some i -> i < length s.
Proof.
  revert i. induction s as [|d s IH]; intros i; [done|]. cbn. destruct (find_last_sat P s) as [j|].
  - intros [= <-]. specialize (IH j eq_refl). lia.
  - destruct (P d); [|done]. intros [= <-]. lia.
Qed.

Lemma c_str_no_nul s : NUL ∉ c_str s.
Proof.
  induction s as [|c s IH]; simpl; [by apply not_elem_of_nil|].
  destruct (bool_decide_reflect (c = NUL)); [by apply not_elem_of_nil|].
  rewrite not_elem_of_cons. split; [congruence|done].
Qed.

Lemma c_str_id s : NUL ∉ s -> c_str s = s.
Proof.
  induction s as [|c s IH]; simpl; [done|]. rewrite not_elem_of_cons. intros [Hc Hs].
  rewrite bool_decide_neq by congruence. by rewrite IH.
Qed.

#[export] Hint Resolve line_safe_dec line_safe_to_string : clib.
