(* ===== verification/TextUtil.v ===== *)
(** * Text sanitisation (src/src/text_util.cpp)

    [json_escape] and [sanitize_header_value], the reference reader of a JSON
    string literal they are compared with, and what makes their output safe
    to place inside a JSON document and inside an HTTP header line. *)

From S2P Require Import Prelude CLib.
From Stdlib Require Import Ascii.

(** ** The code *)

(** The digits [%x] prints for a value below 16. *)
Definition hex_digit (n : N) : ascii :=
  if (n <? 10)%N then digit n else ascii_of_N (87 + n).

(** [snprintf(buf, sizeof(buf), "\\u%04x", c)] for a byte [c]. *)
Definition snprintf_u04x (c : ascii) : bytes :=
  [BSL; "u"; "0"; "0"; hex_digit (code c / 16); hex_digit (code c mod 16)]%char.

(** One turn of the loop of [json_escape]: what is appended for [c]. *)
Definition json_escape_char (c : ascii) : bytes :=
  if c == DQ then [BSL; DQ]
  else if c == BSL then [BSL; BSL]
  else if c == BS then [BSL; "b"%char]
  else if c == FF then [BSL; "f"%char]
  else if c == LF then [BSL; "n"%char]
  else if c == CR then [BSL; "r"%char]
  else if c == HT then [BSL; "t"%char]
  else if (code c <? 32)%N then snprintf_u04x c
  else [c].

Fixpoint json_escape (s : bytes) : bytes :=
  match s with
  | [] => []
  | c :: s' => json_escape_char c ++ json_escape s'
  end.

Fixpoint sanitize_header_value (s : bytes) : bytes :=
  match s with
  | [] => []
  | c :: s' =>
      if (c == CR) || (c == LF) || (code c <? 32)%N || (c == DEL)
      then sanitize_header_value s'
      else c :: sanitize_header_value s'
  end.

(** ** Reference: reading a JSON string (RFC 8259, section 7) *)

Definition hex_value (c : ascii) : option N :=
  let n := code c in
  if isdigit c then Some (n - 48)%N
  else if (97 <=? n)%N && (n <=? 102)%N then Some (n - 87)%N
  else if (65 <=? n)%N && (n <=? 70)%N then Some (n - 55)%N
  else None.

Definition hex4_value (a b c d : ascii) : option N :=
  match hex_value a, hex_value b, hex_value c, hex_value d with
  | Some w, Some x, Some y, Some z => Some (((w * 16 + x) * 16 + y) * 16 + z)%N
  | _, _, _, _ => None
  end.

(** UTF-8 for a code point of the basic plane, surrogates excluded. *)
Definition utf8_encode (v : N) : option bytes :=
  if (v <? 128)%N then Some [ascii_of_N v]
  else if (v <? 2048)%N then Some [ascii_of_N (192 + v / 64); ascii_of_N (128 + v mod 64)]
  else if (55296 <=? v)%N && (v <? 57344)%N then None
  else Some [ascii_of_N (224 + v / 4096); ascii_of_N (128 + (v / 64) mod 64); ascii_of_N (128 + v mod 64)].

Definition simple_escape (e : ascii) : option ascii :=
  if e == DQ then Some DQ
  else if e == BSL then Some BSL
  else if e == "/"%char then Some "/"%char
  else if e == "b"%char then Some BS
  else if e == "f"%char then Some FF
  else if e == "n"%char then Some LF
  else if e == "r"%char then Some CR
  else if e == "t"%char then Some HT
  else None.

(** Reads the characters after the opening quote up to the closing one: the
    string's value and what follows it.  [None] for a text that is not a
    JSON string: an unknown escape, a raw control character, no end. *)
Fixpoint json_read_string (s : bytes) : option (bytes * bytes) :=
  match s with
  | [] => None
  | c :: s' =>
      if c == DQ then Some ([], s')
      else if c == BSL then
        match s' with
        | e :: s'' =>
            if e == "u"%char then
              match s'' with
              | h1 :: h2 :: h3 :: h4 :: r =>
                  match hex4_value h1 h2 h3 h4 with
                  | Some v =>
                      match utf8_encode v, json_read_string r with
                      | Some u, Some (t, rest) => Some (u ++ t, rest)
                      | _, _ => None
                      end
                  | None => None
                  end
              | _ => None
              end
            else
              match simple_escape e, json_read_string s'' with
              | Some d, Some (t, rest) => Some (d :: t, rest)
              | _, _ => None
              end
        | [] => None
        end
      else if (code c <? 32)%N then None
      else match json_read_string s' with
           | Some (t, rest) => Some (c :: t, rest)
           | None => None
           end
  end.

(** ** Supporting lemmas *)

(** The reader undoes the escape of one character, whatever follows. *)
Lemma json_read_escaped_char c s :
  json_read_string (json_escape_char c ++ s) =
  match json_read_string s with Some (t, rest) => Some (c :: t, rest) | None => None end.
Proof. destruct c as [[] [] [] [] [] [] [] []]; reflexivity. Qed.

Lemma json_read_escaped s rest :
  json_read_string (json_escape s ++ DQ :: rest) = Some (s, rest).
Proof.
  induction s as [|c s IH]; [done|].
  simpl json_escape. rewrite <- app_assoc, json_read_escaped_char. by rewrite IH.
Qed.

Lemma json_escape_char_printable c :
  forallb (fun d => (32 <=? code d)%N) (json_escape_char c) = true.
Proof. revert c. apply forall_chars. by vm_compute. Qed.

Lemma sanitize_filter s : sanitize_header_value s = filter (fun c => printable c = true) s.
Proof.
  induction s as [|c s IH]; [done|]. rewrite filter_cons. cbn [sanitize_header_value]. rewrite IH.
  assert (Hc : (c == CR) || (c == LF) || (code c <? 32)%N || (c == DEL) = negb (printable c)).
  { destruct c as [[] [] [] [] [] [] [] []]; reflexivity. }
  rewrite Hc. destruct (printable c); [by rewrite decide_True|by rewrite decide_False].
Qed.

Lemma sanitize_printable s : Forall (fun c => printable c = true) (sanitize_header_value s).
Proof. rewrite sanitize_filter. apply Forall_forall. intros c Hc. by apply list_elem_of_filter in Hc as [? _]. Qed.

Lemma printable_line_safe s : Forall (fun c => printable c = true) s -> line_safe s.
Proof. intros H. apply (Forall_impl _ _ _ H). intros c. apply printable_line_char. Qed.

Lemma sanitize_line_safe s : line_safe (sanitize_header_value s).
Proof. apply printable_line_safe, sanitize_printable. Qed.

#[export] Hint Resolve sanitize_line_safe printable_line_safe : clib.

(** ** Properties *)

(** [json_escape] is inverted by a JSON reader: whatever bytes a database
    field holds, reading the escaped text as the inside of a string literal
    gives exactly those bytes back and stops exactly at the closing quote, so
    no field value can end its literal early or be read as something else. *)
Theorem json_escape_roundtrip (s rest : bytes) :
  json_read_string (json_escape s ++ DQ :: rest) = Some (s, rest).
Proof. apply json_read_escaped. Qed.

(** [sanitize_header_value] keeps exactly the bytes that are neither
    control characters nor DEL, in order: its result is line-safe, a value
    without such bytes is unchanged, and sanitising twice changes nothing. *)
Theorem sanitize_header_value_spec (s : bytes) :
  sanitize_header_value s = filter (fun c => printable c = true) s /\
  line_safe (sanitize_header_value s) /\
  (Forall (fun c => printable c = true) s <-> sanitize_header_value s = s) /\
  sanitize_header_value (sanitize_header_value s) = sanitize_header_value s.
Proof.
  assert (Hid : forall t, Forall (fun c => printable c = true) t -> sanitize_header_value t = t).
  { intros t Ht. rewrite sanitize_filter. induction Ht as [|c t Hc Ht IH]; [done|].
    rewrite filter_cons_True by done. by f_equal. }
  split; [apply sanitize_filter|]. split; [apply sanitize_line_safe|]. split; [split|].
  - apply Hid.
  - intros <-. apply sanitize_printable.
  - apply Hid, sanitize_printable.
Qed.
