(* ===== verification/Double.v ===== *)
(** * IEEE 754 binary64 and its decimal output

    The C++ [double] of the program: database coordinates and database ages.
    A value keeps its sign, an integer significand and a binary exponent;
    products and quotients are the exact result rounded to nearest, ties to
    even.  The two output formats the program uses are here: [%.9g]
    ([std::setprecision(9)]) and [%.Nf] ([std::fixed]). *)

From S2P Require Import Prelude CLib.
From Stdlib Require Import Ascii.

Inductive double :=
| Dfinite (neg : bool) (m : N) (e : Z)   (* (-1)^neg * m * 2^e *)
| Dinf (neg : bool)
| Dnan (neg : bool).

Definition is_finite (v : double) : bool := match v with Dfinite _ _ _ => true | _ => false end.

(** The value of a 64-bit pattern. *)
Definition double_of_bits (w : Z) : double :=
  let neg := Z.testbit w 63 in
  let ex := Z.land (Z.shiftr w 52) 2047 in
  let fr := Z.to_N (Z.land w (2 ^ 52 - 1)) in
  if (ex =? 2047)%Z then (if (fr =? 0)%N then Dinf neg else Dnan neg)
  else if (ex =? 0)%Z then Dfinite neg fr (-1074)
  else Dfinite neg (fr + 2 ^ 52) (ex - 1075).

(** [num / den] rounded to the nearest integer, ties to even. *)
Definition round_div (num den : N) : N :=
  let q := (num / den)%N in
  let r := (num mod den)%N in
  if (den <? 2 * r)%N then (q + 1)%N
  else if (2 * r =? den)%N && N.odd q then (q + 1)%N
  else q.

(** The fraction [num / den] of a non-negative finite value [m * 2^e]. *)
Definition frac_of (m : N) (e : Z) : N * N :=
  if (0 <=? e)%Z then ((m * 2 ^ Z.to_N e)%N, 1%N) else (m, (2 ^ Z.to_N (- e))%N).

(** The double nearest to [(-1)^neg * num / den]. *)
Definition round_double (neg : bool) (num den : N) : double :=
  if (num =? 0)%N then Dfinite neg 0 0 else
  let scale (e : Z) : N * N :=
    if (0 <=? e)%Z then (num, (den * 2 ^ Z.to_N e)%N) else ((num * 2 ^ Z.to_N (- e))%N, den) in
  let e0 := (Z.of_N (N.log2 num) - Z.of_N (N.log2 den) - 53)%Z in
  let '(n0, d0) := scale e0 in
  let e1 := if (d0 * 2 ^ 53 <=? n0)%N then (e0 + 1)%Z else e0 in
  let e := Z.max e1 (-1074) in
  let '(n, d) := scale e in
  let m := round_div n d in
  if (1024 <=? Z.of_N (N.log2 m) + e)%Z then Dinf neg else Dfinite neg m e.

Definition double_of_Z (z : Z) : double := round_double (z <? 0)%Z (Z.to_N (Z.abs z)) 1.

(** Multiplication and division by a finite positive constant. *)
Definition dmul_const (x : double) (k : N) : double :=
  match x with
  | Dfinite neg m e => let '(n, d) := frac_of m e in round_double neg (n * k) d
  | _ => x
  end.
Definition ddiv_const (x : double) (k : N) : double :=
  match x with
  | Dfinite neg m e => let '(n, d) := frac_of m e in round_double neg n (d * k)
  | _ => x
  end.

(** ** Output *)

Definition sign_text (neg : bool) : bytes := if neg then #"-" else [].

Definition zeros (n : nat) : bytes := repeat "0"%char n.

(** Removes the trailing zeros of a fraction, and the point before an empty one. *)
Definition drop_trailing_zeros (s : bytes) : bytes :=
  rev (drop_while (fun c => c == "0"%char) (rev s)).
Definition with_fraction (int frac : bytes) : bytes :=
  match frac with [] => int | _ => int ++ #"." ++ frac end.

(** The decimal exponent of [num / den > 0]: 10^X <= num/den < 10^(X+1). *)
Definition dec_exponent (num den : N) : Z :=
  if (den <=? num)%N then Z.of_nat (length (dec_of_N (num / den))) - 1
  else - Z.of_nat (length (dec_of_N ((den - 1) / num))).

(** [prec] significant digits of [num / den], and the exponent after rounding. *)
Definition significant (prec : nat) (num den : N) : N * Z :=
  let X := dec_exponent num den in
  let s := (Z.of_nat prec - 1 - X)%Z in
  let D := if (0 <=? s)%Z then round_div (num * 10 ^ Z.to_N s) den
           else round_div num (den * 10 ^ Z.to_N (- s)) in
  if (D =? 10 ^ N.of_nat prec)%N then ((10 ^ N.of_nat (prec - 1))%N, (X + 1)%Z) else (D, X).

(** The exponent part [e+NN] of scientific notation. *)
Definition exponent_text (X : Z) : bytes :=
  let d := dec_of_N (Z.to_N (Z.abs X)) in
  #"e" ++ (if (X <? 0)%Z then #"-" else #"+") ++ (if (length d <? 2)%nat then #"0" ++ d else d).

(** The digits [D] of a value with exponent [X], laid out as [%g] does. *)
Definition layout_g (prec : nat) (D : N) (X : Z) : bytes :=
  let ds := dec_of_N D in
  if (X <? -4)%Z || (Z.of_nat prec <=? X)%Z then
    with_fraction (take 1 ds) (drop_trailing_zeros (drop 1 ds)) ++ exponent_text X
  else if (0 <=? X)%Z then
    with_fraction (take (Z.to_nat X + 1) ds) (drop_trailing_zeros (drop (Z.to_nat X + 1) ds))
  else
    with_fraction #"0" (drop_trailing_zeros (zeros (Z.to_nat (- X - 1)) ++ ds)).

(** [oss << std::setprecision(prec) << v]. *)
Definition format_general (prec : nat) (v : double) : bytes :=
  match v with
  | Dinf neg => sign_text neg ++ #"inf"
  | Dnan neg => sign_text neg ++ #"nan"
  | Dfinite neg m e =>
      if (m =? 0)%N then sign_text neg ++ #"0" else
      let '(num, den) := frac_of m e in
      let '(D, X) := significant prec num den in
      sign_text neg ++ layout_g prec D X
  end.

(** [oss << std::fixed << std::setprecision(prec) << v]. *)
Definition format_fixed (prec : nat) (v : double) : bytes :=
  match v with
  | Dinf neg => sign_text neg ++ #"inf"
  | Dnan neg => sign_text neg ++ #"nan"
  | Dfinite neg m e =>
      let '(num, den) := frac_of m e in
      let R := round_div (num * 10 ^ N.of_nat prec) den in
      let int := dec_of_N (R / 10 ^ N.of_nat prec) in
      let fr := dec_of_N (R mod 10 ^ N.of_nat prec) in
      sign_text neg ++ int ++
        (if (prec =? 0)%nat then [] else #"." ++ zeros (prec - length fr) ++ fr)
  end.

(** ** Exact integers *)

(** The integer a finite double with an integral value stands for. *)
Definition double_is (x : double) (neg : bool) (n : N) : Prop :=
  exists m e, x = Dfinite neg m e /\ (let '(num, den) := frac_of m e in num = n * den)%N.

Lemma round_div_exact n d : (d <> 0)%N -> round_div (n * d) d = n.
Proof.
  intros Hd. unfold round_div. rewrite N.div_mul, N.Div0.mod_mul by done.
  rewrite N.mul_0_r. destruct (N.ltb_spec d 0); [lia|]. destruct (N.eqb_spec 0 d); [lia|done].
Qed.

Lemma frac_den_pos m e : ((frac_of m e).2 <> 0)%N.
Proof. unfold frac_of. destruct (0 <=? e)%Z; [done|]. cbn. apply N.pow_nonzero. done. Qed.

(** An integer whose significant bits fit in 53 is represented exactly, also
    when it comes as a fraction over a power of two. *)
Lemma round_double_exact neg a k j :
  (a < 2 ^ 53)%N -> (N.log2 (a * 2 ^ k) < 1024)%N ->
  double_is (round_double neg (a * 2 ^ k * 2 ^ j) (2 ^ j)) neg (a * 2 ^ k).
Proof.
  intros Ha Hlog. unfold round_double. assert (Hj : (2 ^ j <> 0)%N) by (by apply N.pow_nonzero).
  destruct (N.eqb_spec (a * 2 ^ k * 2 ^ j) 0) as [E|Hne].
  { exists 0%N, 0%Z. split; [done|]. apply N.mul_eq_0 in E as [->|]; done. }
  set (num := (a * 2 ^ k)%N) in *. set (L := N.log2 num).
  assert (Hnum0 : (num <> 0)%N) by (intros E; rewrite E in Hne; lia).
  assert (Hspec : (2 ^ L <= num < 2 ^ N.succ L)%N) by (apply N.log2_spec; lia).
  assert (HLk : (L < 53 + k)%N).
  { assert (a <> 0)%N by (intros E; unfold num in Hnum0; rewrite E in Hnum0; lia).
    unfold L, num. rewrite N.log2_mul_pow2 by lia. assert (N.log2 a < 53)%N by (apply N.log2_lt_pow2; lia). lia. }
  rewrite N.log2_mul_pow2, N.log2_pow2 by lia. cbn zeta. fold L.
  replace (Z.of_N (j + L) - Z.of_N j - 53)%Z with (Z.of_N L - 53)%Z by lia.
  assert (Hd53 : exists n0 d0, (if (0 <=? Z.of_N L - 53)%Z then ((num * 2 ^ j)%N, (2 ^ j * 2 ^ Z.to_N (Z.of_N L - 53))%N)
      else ((num * 2 ^ j * 2 ^ Z.to_N (- (Z.of_N L - 53)))%N, (2 ^ j)%N)) = (n0, d0) /\ (d0 * 2 ^ 53 <= n0)%N).
  { destruct (Z.leb_spec 0 (Z.of_N L - 53)); do 2 eexists; (split; [done|]).
    - rewrite <- N.mul_assoc, <- N.pow_add_r, N.mul_comm. apply N.mul_le_mono_r.
      replace (Z.to_N (Z.of_N L - 53) + 53)%N with L by lia. apply Hspec.
    - rewrite (N.mul_comm (num * 2 ^ j)), N.mul_assoc, (N.mul_comm (2 ^ j)), (N.mul_comm (2 ^ _) num).
      apply N.mul_le_mono_r.
      transitivity (2 ^ L * 2 ^ Z.to_N (- (Z.of_N L - 53)))%N.
      + rewrite <- N.pow_add_r. apply N.pow_le_mono_r; lia.
      + apply N.mul_le_mono_r, Hspec. }
  destruct Hd53 as (n0 & d0 & -> & Hge). rewrite (proj2 (N.leb_le _ _) Hge).
  replace (Z.of_N L - 53 + 1)%Z with (Z.of_N L - 52)%Z by lia.
  rewrite Z.max_l by lia. set (e := (Z.of_N L - 52)%Z).
  assert (Hm : exists m, (num * 2 ^ Z.to_N (- e) = m * 2 ^ Z.to_N e)%N /\
     (let '(n, d) := if (0 <=? e)%Z then ((num * 2 ^ j)%N, (2 ^ j * 2 ^ Z.to_N e)%N)
        else ((num * 2 ^ j * 2 ^ Z.to_N (- e))%N, (2 ^ j)%N) in round_div n d) = m).
  { destruct (Z.leb_spec 0 e) as [He|He].
    - exists (a * 2 ^ (k - Z.to_N e))%N. assert (Hek : (Z.to_N e <= k)%N) by lia.
      assert (Hnum : num = ((a * 2 ^ (k - Z.to_N e)) * 2 ^ Z.to_N e)%N).
      { unfold num. rewrite <- N.mul_assoc, <- N.pow_add_r. f_equal. f_equal. lia. }
      replace (Z.to_N (- e)) with 0%N by lia. rewrite N.mul_1_r. split; [done|].
      rewrite Hnum at 1. rewrite <- N.mul_assoc, (N.mul_comm (2 ^ Z.to_N e)). apply round_div_exact.
      apply N.neq_mul_0. split; [done|]. by apply N.pow_nonzero.
    - exists (num * 2 ^ Z.to_N (- e))%N. replace (Z.to_N e) with 0%N by lia. rewrite N.mul_1_r. split; [done|].
      rewrite <- N.mul_assoc, (N.mul_comm (2 ^ j)), N.mul_assoc. by apply round_div_exact. }
  destruct Hm as (m & Hm & Hr).
  assert (Hlm : (Z.of_N (N.log2 m) + e = Z.of_N L)%Z).
  { assert (Hl : N.log2 (num * 2 ^ Z.to_N (- e)) = N.log2 (m * 2 ^ Z.to_N e)) by (by rewrite Hm).
    assert (Hm0 : (m <> 0)%N).
    { intros ->. rewrite N.mul_0_l in Hm. apply N.mul_eq_0 in Hm as [|Hp]; [done|]. by apply N.pow_nonzero in Hp. }
    rewrite !N.log2_mul_pow2 in Hl by lia. fold L in Hl. lia. }
  match type of Hr with (let '(n, d) := ?p in _) = _ => destruct p as [n d] end.
  rewrite Hr, Hlm. destruct (Z.leb_spec 1024 (Z.of_N L)); [lia|].
  exists m, e. split; [done|]. unfold frac_of. destruct (Z.leb_spec 0 e) as [He|He].
  - rewrite N.mul_1_r, <- Hm. replace (Z.to_N (- e)) with 0%N by lia. by rewrite N.mul_1_r.
  - rewrite Hm. replace (Z.to_N e) with 0%N by lia. by rewrite N.mul_1_r.
Qed.

Lemma double_of_Z_exact z : (Z.abs z < 2 ^ 53)%Z -> double_is (double_of_Z z) (z <? 0)%Z (Z.to_N (Z.abs z)).
Proof.
  intros Hz. unfold double_of_Z.
  assert (Hlog : (N.log2 (Z.to_N (Z.abs z) * 2 ^ 0) < 1024)%N).
  { rewrite N.mul_1_r. destruct (N.eq_dec (Z.to_N (Z.abs z)) 0%N) as [->|]; [done|].
    assert (N.log2 (Z.to_N (Z.abs z)) < 53)%N by (apply N.log2_lt_pow2; lia). lia. }
  pose proof (round_double_exact (z <? 0)%Z (Z.to_N (Z.abs z)) 0 0 ltac:(lia) Hlog) as Hr.
  by rewrite !N.mul_1_r in Hr.
Qed.

(** A product with a constant is exact when the odd part of the constant
    leaves the significand within 53 bits. *)
Lemma dmul_const_exact x neg n c k :
  double_is x neg n -> (n * c < 2 ^ 53)%N -> (k < 900)%N ->
  double_is (dmul_const x (c * 2 ^ k)) neg (n * (c * 2 ^ k)).
Proof.
  intros (m & e & -> & Hn) Hc Hk. unfold dmul_const. unfold frac_of in *.
  assert (Hlog : (N.log2 (n * c * 2 ^ k) < 1024)%N).
  { destruct (N.eq_dec (n * c)%N 0%N) as [->|]; [done|]. rewrite N.log2_mul_pow2 by lia.
    assert (N.log2 (n * c) < 53)%N by (apply N.log2_lt_pow2; lia). lia. }
  rewrite (N.mul_assoc n c).
  destruct (0 <=? e)%Z; subst.
  - rewrite N.mul_1_r in Hn. rewrite Hn.
    pose proof (round_double_exact neg (n * c) k 0 Hc Hlog) as Hr. rewrite !N.mul_1_r in Hr.
    by rewrite N.mul_assoc.
  - pose proof (round_double_exact neg (n * c) k (Z.to_N (- e)) Hc Hlog) as Hr.
    by replace (n * 2 ^ Z.to_N (- e) * (c * 2 ^ k))%N with (n * c * 2 ^ k * 2 ^ Z.to_N (- e))%N by lia.
Qed.

(** ** Finite results *)

Lemma round_div_le n d K : (d <> 0)%N -> (n < 2 ^ K * d)%N -> (round_div n d <= 2 ^ K)%N.
Proof.
  intros Hd Hn. assert (Hq : (n / d < 2 ^ K)%N) by (apply N.Div0.div_lt_upper_bound; lia).
  unfold round_div. destruct (d <? _)%N; [lia|]. destruct (_ && _); lia.
Qed.

Lemma round_double_scaled (num den : N) e : (num <> 0)%N -> (den <> 0)%N ->
  (Z.of_N (N.log2 num) - Z.of_N (N.log2 den) - 53 <= e)%Z ->
  let '(n, d) := if (0 <=? e)%Z then (num, (den * 2 ^ Z.to_N e)%N) else ((num * 2 ^ Z.to_N (- e))%N, den) in
  (round_div n d <= 2 ^ 54)%N.
Proof.
  intros Hn Hd He. pose proof (N.log2_spec num ltac:(lia)) as [_ Hnum]. pose proof (N.log2_spec den ltac:(lia)) as [Hden _].
  destruct (Z.leb_spec 0 e) as [H0|H0]; apply round_div_le; try done.
  - apply N.neq_mul_0. split; [done|by apply N.pow_nonzero].
  - apply (N.lt_le_trans _ _ _ Hnum). transitivity (2 ^ 54 * (2 ^ N.log2 den * 2 ^ Z.to_N e))%N.
    + rewrite <- !N.pow_add_r. apply N.pow_le_mono_r; lia.
    + by apply N.mul_le_mono_l, N.mul_le_mono_r.
  - apply (N.lt_le_trans _ (2 ^ N.succ (N.log2 num) * 2 ^ Z.to_N (- e))).
    { apply N.mul_lt_mono_pos_r; [|done]. apply N.neq_0_lt_0. by apply N.pow_nonzero. }
    transitivity (2 ^ 54 * 2 ^ N.log2 den)%N; [|by apply N.mul_le_mono_l].
    rewrite <- !N.pow_add_r. apply N.pow_le_mono_r; lia.
Qed.

Lemma round_double_finite neg num den : (den <> 0)%N -> 
  (Z.of_N (N.log2 num) - Z.of_N (N.log2 den) < 900)%Z -> is_finite (round_double neg num den) = true.
Proof.
  intros Hd Hlog. unfold round_double. destruct (N.eqb_spec num 0) as [->|Hn]; [done|]. cbn zeta.
  set (e0 := (Z.of_N (N.log2 num) - Z.of_N (N.log2 den) - 53)%Z).
  destruct (if (0 <=? e0)%Z then _ else _) as [n0 d0].
  set (e := Z.max (if (d0 * 2 ^ 53 <=? n0)%N then (e0 + 1)%Z else e0) (-1074)).
  assert (He : (e0 <= e)%Z) by (unfold e; destruct (_ <=? _)%N; lia).
  assert (He' : (e <= 848)%Z) by (unfold e; destruct (_ <=? _)%N; lia).
  pose proof (round_double_scaled num den e Hn Hd He) as Hr.
  destruct (if (0 <=? e)%Z then _ else _) as [n d].
  assert (N.log2 (round_div n d) <= 54)%N by (apply (N.log2_le_mono _ (2 ^ 54)%N) in Hr; by rewrite N.log2_pow2 in Hr).
  destruct (Z.leb_spec 1024 (Z.of_N (N.log2 (round_div n d)) + e)); [lia|done].
Qed.

(** A quotient of an integer is finite. *)
Lemma ddiv_const_finite x neg n k : double_is x neg n -> (n < 2 ^ 64)%N -> (k <> 0)%N -> is_finite (ddiv_const x k) = true.
Proof.
  intros (m & e & -> & Hn) Hlt Hk. unfold ddiv_const. pose proof (frac_den_pos m e) as Hd.
  destruct (frac_of m e) as [num den]. cbn in Hd. subst num. apply round_double_finite; [by apply N.neq_mul_0|].
  destruct (N.eq_dec n 0%N) as [->|Hn0]; [rewrite N.mul_0_l; change (N.log2 0) with 0%N; lia|].
  assert (N.log2 n < 64)%N by (apply N.log2_lt_pow2; lia).
  pose proof (N.log2_mul_above n den ltac:(lia) ltac:(lia)).
  pose proof (N.log2_le_mono den (den * k) ltac:(nia)). lia.
Qed.
