(* ===== verification/Clock.v ===== *)
(** * Calendar time: [gmtime_r] and the one [strftime] format the program uses

    [time_t] counts seconds since 1970-01-01T00:00:00Z.  The calendar is the
    proleptic Gregorian one, computed from the number of days since
    0000-03-01, so that the leap day is the last day of a year; [days_of] is
    the inverse reference. *)

From S2P Require Import Prelude CLib.
From Stdlib Require Import Ascii.

(** ** The code's view: broken-down time and its text *)

Record tm := mkTm { tm_year : Z; tm_mon : Z; tm_mday : Z; tm_hour : Z; tm_min : Z; tm_sec : Z }.

(** Year (from 0000-03-01, so a year starts in March), month index from
    March and day of month from 0, of day [doe] of a 400-year era. *)
Definition era_year (doe : Z) : Z := ((doe - doe / 1460 + doe / 36524 - doe / 146096) / 365)%Z.
Definition year_start (y : Z) : Z := (365 * y + y / 4 - y / 100)%Z.
Definition month_start (m : Z) : Z := ((153 * m + 2) / 5)%Z.

Definition civil_from_days (days : Z) : Z * Z * Z :=
  let z := (days + 719468)%Z in
  let era := (z / 146097)%Z in
  let doe := (z mod 146097)%Z in
  let yoe := era_year doe in
  let doy := (doe - year_start yoe)%Z in
  let mp := ((5 * doy + 2) / 153)%Z in
  let d := (doy - month_start mp + 1)%Z in
  let m := (if mp <? 10 then mp + 3 else mp - 9)%Z in
  ((yoe + era * 400 + if (m <=? 2)%Z then 1 else 0)%Z, m, d).

(** [gmtime_r]; [None] when the year does not fit in [int]. *)
Definition gmtime (t : Z) : option tm :=
  let '(y, m, d) := civil_from_days (t / 86400) in
  let s := (t mod 86400)%Z in
  if ((- 2 ^ 31 <=? y - 1900) && (y - 1900 <? 2 ^ 31))%Z
  then Some (mkTm (y - 1900) (m - 1) d (s / 3600) (s / 60 mod 60) (s mod 60))
  else None.

(** A number of at least two digits. *)
Definition two_digits (n : Z) : bytes := if (n <? 10)%Z then "0"%char :: to_string n else to_string n.

(** [strftime] with the format of ISO 8601 dates, [%Y-%m-%dT%H:%M:%SZ]. *)
Definition strftime_iso (t : tm) : bytes :=
  to_string (tm_year t + 1900) ++ #"-" ++ two_digits (tm_mon t + 1) ++ #"-" ++ two_digits (tm_mday t) ++
  #"T" ++ two_digits (tm_hour t) ++ #":" ++ two_digits (tm_min t) ++ #":" ++ two_digits (tm_sec t) ++ #"Z".

(** ** Reference: the day number of a date *)

Definition days_of (y m d : Z) : Z :=
  let y' := (if m <=? 2 then y - 1 else y)%Z in
  let mp := (if m <=? 2 then m + 9 else m - 3)%Z in
  (y' / 400 * 146097 + year_start (y' mod 400) + month_start mp + d - 1 - 719468)%Z.

Definition seconds_of (t : tm) : Z :=
  (days_of (tm_year t + 1900) (tm_mon t + 1) (tm_mday t) * 86400 + tm_hour t * 3600 + tm_min t * 60 + tm_sec t)%Z.

(** Days of a month in the Gregorian calendar. *)
Definition leap (y : Z) : bool := ((y mod 4 =? 0) && (negb (y mod 100 =? 0) || (y mod 400 =? 0)))%Z.
Definition month_length (y m : Z) : Z :=
  if (m =? 2)%Z then if leap y then 29 else 28
  else if bool_decide (m ∈ [4; 6; 9; 11]%Z) then 30 else 31.

Definition valid_date (y m d : Z) : Prop := (1 <= m <= 12 /\ 1 <= d <= month_length y m)%Z.
Definition valid_dateb (y m d : Z) : bool :=
  ((1 <=? m) && (m <=? 12) && (1 <=? d) && (d <=? month_length y m))%Z.

(** ** Correctness of the calendar *)

Fixpoint all_below (n : nat) (P : Z -> bool) (z : Z) : bool :=
  match n with O => true | S n' => P z && all_below n' P (z + 1)%Z end.

Lemma all_below_spec n P z : all_below n P z = true -> forall x, (z <= x < z + Z.of_nat n)%Z -> P x = true.
Proof.
  revert z. induction n as [|n IH]; intros z H x Hx; [lia|].
  cbn [all_below] in H. apply andb_true_iff in H as [H1 H2].
  destruct (Z.eq_dec x z) as [->|Hne]; [done|]. apply (IH _ H2). lia.
Qed.

(** The numerator of [era_year] never decreases, so a year's first and last
    day decide for all its days. *)
Definition era_scaled (doe : Z) : Z := (doe - doe / 1460 + doe / 36524 - doe / 146096)%Z.

Lemma era_scaled_step x : (era_scaled x <= era_scaled (x + 1))%Z.
Proof. unfold era_scaled. Z.to_euclidean_division_equations. lia. Qed.

Lemma era_scaled_mono x y : (x <= y)%Z -> (era_scaled x <= era_scaled y)%Z.
Proof.
  intros Hxy. replace y with (x + Z.of_nat (Z.to_nat (y - x)))%Z by lia.
  induction (Z.to_nat (y - x)) as [|n IH]; [by rewrite Z.add_0_r|].
  pose proof (era_scaled_step (x + Z.of_nat n)). replace (x + Z.of_nat (S n))%Z with (x + Z.of_nat n + 1)%Z by lia.
  lia.
Qed.

Lemma year_bounds y : (0 <= y < 400)%Z ->
  era_year (year_start y) = y /\
  era_year (year_start (y + 1) - (if y =? 399 then 0 else 1))%Z = y /\
  (year_start y < year_start (y + 1) <= year_start y + 366)%Z.
Proof.
  intros Hy.
  assert (H : all_below 400 (fun y => (era_year (year_start y) =? y) &&
    (era_year (year_start (y + 1) - (if y =? 399 then 0 else 1)) =? y) &&
    (year_start y <? year_start (y + 1)) && (year_start (y + 1) <=? year_start y + 366))%Z 0 = true) by (by vm_compute).
  pose proof (all_below_spec _ _ _ H y) as Hp. rewrite !andb_true_iff in Hp. lia.
Qed.

(** The days of the era belong to its years; the last one has a day more. *)
Definition year_end (y : Z) : Z := (if y =? 399 then 146097 else year_start (y + 1))%Z.

Lemma era_year_of y doe :
  (0 <= y < 400)%Z -> (year_start y <= doe < year_end y)%Z -> era_year doe = y.
Proof.
  intros Hy Hd. destruct (year_bounds y Hy) as (H1 & H2 & _). unfold year_end in Hd.
  change (era_year doe) with (era_scaled doe / 365)%Z.
  change (era_year (year_start y)) with (era_scaled (year_start y) / 365)%Z in H1.
  assert (Hl := era_scaled_mono (year_start y) doe).
  set (last := (year_start (y + 1) - (if y =? 399 then 0 else 1))%Z) in *.
  change (era_year last) with (era_scaled last / 365)%Z in H2.
  assert (Hu := era_scaled_mono doe last).
  assert (doe <= last)%Z.
  { unfold last. destruct (Z.eqb_spec y 399) as [->|]; [|lia]. change (year_start (399 + 1)) with 146096%Z. lia. }
  Z.to_euclidean_division_equations. lia.
Qed.

Lemma era_year_exists doe : (0 <= doe < 146097)%Z ->
  exists y, (0 <= y < 400 /\ year_start y <= doe < year_end y)%Z.
Proof.
  intros Hd. assert (H : forall n, (n <= 399)%nat -> (doe < year_end (Z.of_nat n))%Z ->
    exists y, (0 <= y < 400 /\ year_start y <= doe < year_end y)%Z).
  { induction n as [|n IH]; intros Hn Hlt.
    - change (Z.of_nat 0) with 0%Z in Hlt. exists 0%Z. change (year_start 0) with 0%Z. lia.
    - destruct (Z.leb_spec (year_start (Z.of_nat (S n))) doe).
      + exists (Z.of_nat (S n)). lia.
      + apply IH; [lia|]. unfold year_end. destruct (Z.eqb_spec (Z.of_nat n) 399); [lia|].
        by replace (Z.of_nat n + 1)%Z with (Z.of_nat (S n)) by lia. }
  apply (H 399%nat); [lia|]. change (year_end (Z.of_nat 399)) with 146097%Z. lia.
Qed.

(** The months of a year, by computation over its days. *)
Lemma month_of_day doy : (0 <= doy < 366)%Z ->
  let mp := ((5 * doy + 2) / 153)%Z in
  (0 <= mp < 12 /\ 0 <= doy - month_start mp <= 30 /\
   doy - month_start mp < month_length 0 (if mp <? 10 then mp + 3 else mp - 9))%Z /\
  (mp = 11 -> doy < 365 -> doy - month_start mp < 28)%Z.
Proof.
  intros Hd.
  assert (H : all_below 366 (fun doy => let mp := ((5 * doy + 2) / 153) in
    (0 <=? mp) && (mp <? 12) && (0 <=? doy - month_start mp) && (doy - month_start mp <=? 30) &&
    (doy - month_start mp <? month_length 0 (if mp <? 10 then mp + 3 else mp - 9)) &&
    (negb (mp =? 11) || negb (doy <? 365) || (doy - month_start mp <? 28)))%Z 0 = true) by (by vm_compute).
  pose proof (all_below_spec _ _ _ H doy) as Hp. cbn zeta beta in Hp. rewrite !andb_true_iff in Hp. cbn zeta. lia.
Qed.

Lemma leap_year_length y : (0 <= y < 400)%Z ->
  (year_end y - year_start y = if leap (y + 1) then 366 else 365)%Z.
Proof.
  intros Hy. assert (H : all_below 400 (fun y =>
    (year_end y - year_start y =? if leap (y + 1) then 366 else 365))%Z 0 = true) by (by vm_compute).
  pose proof (all_below_spec _ _ _ H y). lia.
Qed.

Lemma leap_era y k : leap (y + k * 400) = leap y.
Proof.
  unfold leap. replace ((y + k * 400) mod 4)%Z with (y mod 4)%Z by (Z.to_euclidean_division_equations; lia).
  replace ((y + k * 400) mod 100)%Z with (y mod 100)%Z by (Z.to_euclidean_division_equations; lia).
  by rewrite Z_mod_plus_full.
Qed.

Lemma civil_from_days_spec n y m d :
  civil_from_days n = (y, m, d) -> valid_date y m d /\ days_of y m d = n.
Proof.
  unfold civil_from_days. set (z := (n + 719468)%Z). set (era := (z / 146097)%Z). set (doe := (z mod 146097)%Z).
  assert (Hdoe : (0 <= doe < 146097)%Z) by (apply Z.mod_pos_bound; lia).
  destruct (era_year_exists doe Hdoe) as (yoe & Hy & Hd). rewrite (era_year_of yoe) by done.
  pose proof (leap_year_length _ Hy) as Hlen. set (doy := (doe - year_start yoe)%Z) in *.
  assert (Hdl : (0 <= doy < year_end yoe - year_start yoe)%Z) by (unfold doy; lia).
  assert (Hdoy : (0 <= doy < 366)%Z) by (destruct (leap (yoe + 1)); lia).
  destruct (month_of_day doy Hdoy) as [(Hmp & Hday & Hml) Hfeb]. set (mp := ((5 * doy + 2) / 153)%Z) in *.
  intros [= <- <- <-]. split.
  - unfold valid_date. split; [destruct (Z.ltb_spec mp 10); lia|]. split; [lia|].
    unfold month_length in *. destruct (Z.ltb_spec mp 10).
    + destruct (Z.eqb_spec (mp + 3) 2); [lia|]. case_bool_decide; lia.
    + destruct (Z.eqb_spec (mp - 9) 2); [|case_bool_decide; lia].
      destruct (Z.leb_spec (mp - 9) 2); [|lia]. replace (yoe + era * 400 + 1)%Z with (yoe + 1 + era * 400)%Z by lia.
      rewrite leap_era. change (if leap 0 then 29 else 28)%Z with 29%Z in Hml. destruct (leap (yoe + 1)); lia.
  - unfold days_of.
    assert (Hz : (z = 146097 * era + doe)%Z) by apply Z_div_mod_eq_full.
    destruct (Z.ltb_spec mp 10).
    + destruct (Z.leb_spec (mp + 3) 2); [lia|]. rewrite Z.add_0_r, Z_mod_plus_full, (Z.mod_small yoe), Z.div_add, (Z.div_small yoe) by lia.
      replace (mp + 3 - 3)%Z with mp by lia. unfold z, doy in *. lia.
    + destruct (Z.leb_spec (mp - 9) 2); [|lia]. replace (yoe + era * 400 + 1 - 1)%Z with (yoe + era * 400)%Z by lia.
      rewrite Z_mod_plus_full, (Z.mod_small yoe), Z.div_add, (Z.div_small yoe) by lia.
      replace (mp - 9 + 9)%Z with mp by lia. unfold z, doy in *. lia.
Qed.

Lemma gmtime_inverse t b : gmtime t = Some b ->
  seconds_of b = t /\ valid_date (tm_year b + 1900) (tm_mon b + 1) (tm_mday b) /\
  (0 <= tm_hour b < 24 /\ 0 <= tm_min b < 60 /\ 0 <= tm_sec b < 60)%Z.
Proof.
  unfold gmtime. destruct (civil_from_days (t / 86400)) as [[y m] d] eqn:E.
  apply civil_from_days_spec in E as [Hv Hd]. destruct (_ && _); [|done]. intros [= <-].
  unfold seconds_of. cbn. replace (y - 1900 + 1900)%Z with y by lia. replace (m - 1 + 1)%Z with m by lia.
  rewrite Hd. split; [|split; [done|]]; Z.to_euclidean_division_equations; lia.
Qed.

Lemma gmtime_defined t : (0 <= t < 2 ^ 50)%Z -> is_Some (gmtime t).
Proof.
  intros Ht. unfold gmtime, civil_from_days.
  set (z := (t / 86400 + 719468)%Z). assert (Hz : (0 <= z < 2 ^ 34)%Z) by (unfold z; Z.to_euclidean_division_equations; lia).
  destruct (era_year_exists (z mod 146097)) as (y & Hy & Hd); [apply Z.mod_pos_bound; lia|].
  rewrite (era_year_of y) by done. set (b := (_ <=? 2)%Z).
  assert (He : (0 <= z / 146097 < 2 ^ 34)%Z) by (Z.to_euclidean_division_equations; lia).
  assert (Hb : (0 <= z / 146097 <= 120000)%Z) by (Z.to_euclidean_division_equations; lia).
  destruct (_ && _) eqn:E; [by eexists|]. exfalso. destruct b; lia.
Qed.
