(* ===== verification/Log.v ===== *)
(** * The log (src/src/log.h)

    A log call is a line on one of two streams, or nothing.  The line starts
    with the time of day in UTC and the level; a reader gets both and the
    message back, if the message has no line break. *)

From S2P Require Import Prelude CLib Clock.
From Stdlib Require Import Ascii.

Inductive LogLevel := Debug | Info | Warn | Error | Fatal.

Inductive stream := Stdout | Stderr.

#[export] Instance log_level_eq_dec : EqDecision LogLevel.
Proof. solve_decision. Defined.
#[export] Instance stream_eq_dec : EqDecision stream.
Proof. solve_decision. Defined.

Record Logger := mkLogger { debug_enabled_ : bool }.

Definition Logger_init : Logger := mkLogger false.

Definition set_debug_enabled (enabled : bool) (_ : Logger) : Logger := mkLogger enabled.

Definition level_name (level : LogLevel) : bytes :=
  match level with
  | Debug => #"DEBUG" | Info => #"INFO" | Warn => #"WARN" | Error => #"ERROR" | Fatal => #"FATAL"
  end.

(** [None]: [gmtime_r] cannot represent the year. *)
Definition timestamp (now : Z) : option bytes := strftime_iso <$> gmtime now.

Inductive logged := Nothing | Line (to : stream) (text : bytes).

(** [fprintf] stops at the first NUL of the message. *)
Definition log (lg : Logger) (now : Z) (level : LogLevel) (msg : bytes) : option logged :=
  if bool_decide (level = Debug) && negb (debug_enabled_ lg) then Some Nothing
  else
    let to := if bool_decide (level = Info) then Stdout else Stderr in
    ts ← timestamp now;
    Some (Line to (c_str ts ++ #" [" ++ level_name level ++ #"] " ++ c_str msg ++ [LF])).

(** ** Reading a line *)

Definition read_level (name : bytes) : option LogLevel :=
  find (fun l => level_name l == name) [Debug; Info; Warn; Error; Fatal].

(** Time, level and message of a line without its line break. *)
Definition read_log_line (line : bytes) : option (bytes * LogLevel * bytes) :=
  i ← find_char " "%char line;
  let rest := drop (i + 2) line in
  j ← find_char "]"%char rest;
  level ← read_level (take j rest);
  Some (take i line, level, drop (j + 2) rest).

(** ** Characters of a time *)

Definition time_char (c : ascii) : bool := isdigit c || existsb (fun d => c == d) [ "-"; "T"; ":"; "Z" ]%char.

Lemma digits_time s : all_digits s -> Forall (fun c => time_char c = true) s.
Proof. intros H. eapply Forall_impl; [exact H|]. intros c Hc. unfold time_char. cbn beta in Hc. by rewrite Hc. Qed.

Lemma to_string_time z : Forall (fun c => time_char c = true) (to_string z).
Proof.
  unfold to_string. destruct (z <? 0)%Z; [constructor; [done|]|]; apply digits_time, dec_of_N_digits.
Qed.

Lemma strftime_time t : Forall (fun c => time_char c = true) (strftime_iso t).
Proof.
  assert (H2 : forall n, Forall (fun c => time_char c = true) (two_digits n)).
  { intros n. unfold two_digits. destruct (n <? 10)%Z; [constructor; [done|]|]; apply to_string_time. }
  unfold strftime_iso. rewrite !Forall_app.
  repeat (split; [first [apply to_string_time|apply H2|by repeat constructor]|]). by repeat constructor.
Qed.

Lemma time_absent c s : time_char c = false -> Forall (fun c => time_char c = true) s -> (c ∉ s).
Proof. intros Hc Hs Hin. rewrite Forall_forall in Hs. specialize (Hs _ Hin). cbn beta in Hs. congruence. Qed.

Lemma read_level_name level : read_level (level_name level) = Some level.
Proof. by destruct level. Qed.

Lemma level_name_plain level : "]"%char ∉ level_name level /\ LF ∉ level_name level.
Proof. destruct level; split; by apply find_char_None. Qed.

Lemma read_log_line_text t level msg : read_log_line (strftime_iso t ++ #" [" ++ level_name level ++ #"] " ++ msg) =
  Some (strftime_iso t, level, msg).
Proof.
  unfold read_log_line. change (#" [" ++ ?r) with (" "%char :: "["%char :: r).
  rewrite find_char_hit by (apply time_absent; [done|apply strftime_time]). cbn [mbind option_bind].
  rewrite take_app_length. rewrite <- drop_drop, drop_app_length. cbn [drop]. rewrite !drop_0.
  change (#"] " ++ ?r) with ("]"%char :: " "%char :: r). rewrite find_char_hit by apply level_name_plain.
  cbn [mbind option_bind]. rewrite take_app_length, read_level_name. cbn [mbind option_bind].
  by rewrite <- drop_drop, drop_app_length.
Qed.

(** ** Properties *)

(** C40. What a log call leaves: nothing for a debug message while debugging
    is off, and otherwise one line, on stdout for the level info and on stderr
    for warn, error and fatal (for the stream of debug lines the comment and
    the code differ, the finding at log.h:9).  When the message has no line break and no NUL, what is
    written is a single line, from which time, level and message are read
    back, and the time is the present second in UTC. *)
Theorem log_line_reads_back (lg : Logger) (now : Z) (level : LogLevel) (msg : bytes) (Hnow : (0 <= now < 2 ^ 50)%Z) :
  (level = Debug -> debug_enabled_ lg = false -> log lg now level msg = Some Nothing) /\
  (~ (level = Debug /\ debug_enabled_ lg = false) ->
     exists to text, log lg now level msg = Some (Line to text) /\ (level <> Debug -> to = Stdout <-> level = Info) /\
       (LF ∉ msg -> NUL ∉ msg -> exists line t, getlines text = [line] /\
          read_log_line line = Some (strftime_iso t, level, msg) /\ seconds_of t = now /\
          valid_date (tm_year t + 1900) (tm_mon t + 1) (tm_mday t))).
Proof.
  unfold log. split; [by intros -> ->|]. intros Hd.
  replace (bool_decide (level = Debug) && negb (debug_enabled_ lg)) with false.
  2: { case_bool_decide; [|done]. destruct (debug_enabled_ lg); [done|]. by destruct Hd. }
  unfold timestamp. destruct (gmtime_defined now Hnow) as [t Ht]. rewrite Ht. cbn [fmap option_fmap option_map mbind option_bind].
  do 2 eexists. split; [done|]. split; [intros _; by case_bool_decide|]. intros Hlf Hnul.
  apply gmtime_inverse in Ht as (Hs & Hv & _). pose proof (strftime_time t) as Htime.
  rewrite !c_str_id by (done || by apply time_absent).
  exists (strftime_iso t ++ #" [" ++ level_name level ++ #"] " ++ msg), t.
  split; [|split; [apply read_log_line_text|done]].
  pose proof (getlines_render [strftime_iso t ++ #" [" ++ level_name level ++ #"] " ++ msg]) as Hg. cbn [flat_map] in Hg.
  rewrite app_nil_r, <- !app_assoc in Hg. apply Hg. constructor; [|done].
  rewrite !not_elem_of_app. pose proof (level_name_plain level) as [_ Hl].
  repeat split; try done; [by apply time_absent|by apply find_char_None..].
Qed.

(** Witness of C40: a warning at the start of 2024. *)
Example log_line_reads_back_witness :
  (Warn = Debug -> debug_enabled_ Logger_init = false -> log Logger_init 1704067200 Warn #"poll() failed" = Some Nothing) /\
  (~ (Warn = Debug /\ debug_enabled_ Logger_init = false) ->
     exists to text, log Logger_init 1704067200 Warn #"poll() failed" = Some (Line to text) /\ (Warn <> Debug -> to = Stdout <-> Warn = Info) /\
       (LF ∉ #"poll() failed" -> NUL ∉ #"poll() failed" -> exists line t, getlines text = [line] /\
          read_log_line line = Some (strftime_iso t, Warn, #"poll() failed") /\ seconds_of t = 1704067200%Z /\
          valid_date (tm_year t + 1900) (tm_mon t + 1) (tm_mday t))).
Proof. apply (log_line_reads_back Logger_init 1704067200 Warn #"poll() failed"). lia. Defined.

Example log_line_sample : log Logger_init 1704067200 Warn #"poll() failed" =
  Some (Line Stderr (#"2024-01-01T00:00:00Z [WARN] poll() failed" ++ [LF])).
Proof. by vm_compute. Qed.
