(* ===== verification/Json.v ===== *)
(** * JSON documents: the reference the JSON bodies are checked against

    A JSON value, its compact text, and a reader of compact JSON text (no
    white space between tokens, which the program never writes).  The text of
    a string is produced by the program's own [json_escape]; the reader is
    independent of it.  [json_read_print] is the round trip. *)

From S2P Require Import Prelude CLib TextUtil Double.
From Stdlib Require Import Ascii.

#[warnings="-register-all"]
Inductive jval :=
| JNull
| JBool (b : bool)
| JNum (text : bytes)
| JStr (s : bytes)
| JArr (l : list jval)
| JObj (l : list (bytes * jval)).

(** ** Writing *)

Definition jstring (s : bytes) : bytes := DQ :: json_escape s ++ [DQ].

(** The pieces joined by commas. *)
Fixpoint commas (l : list bytes) : bytes :=
  match l with
  | [] => []
  | [x] => x
  | x :: l' => x ++ #"," ++ commas l'
  end.

Fixpoint json_print (v : jval) : bytes :=
  match v with
  | JNull => #"null"
  | JBool true => #"true"
  | JBool false => #"false"
  | JNum t => t
  | JStr s => jstring s
  | JArr l => #"[" ++ commas (map json_print l) ++ #"]"
  | JObj l => #"{" ++ commas (map (fun kv => jstring kv.1 ++ #":" ++ json_print kv.2) l) ++ #"}"
  end.

(** ** Numbers (RFC 8259, section 6) *)

Definition number_char (c : ascii) : bool :=
  isdigit c || (c == "-"%char) || (c == "+"%char) || (c == "."%char) || (c == "e"%char) || (c == "E"%char).

Definition number_minus (s : bytes) : bytes :=
  match s with c :: r => if c == "-"%char then r else s | [] => [] end.

Definition number_int (s : bytes) : option bytes :=
  match s with
  | c :: r => if c == "0"%char then Some r else if isdigit c then Some (drop_while isdigit r) else None
  | [] => None
  end.

Definition digits1 (s : bytes) : option bytes :=
  match s with
  | c :: r => if isdigit c then Some (drop_while isdigit r) else None
  | [] => None
  end.

Definition number_frac (s : bytes) : option bytes :=
  match s with c :: r => if c == "."%char then digits1 r else Some s | [] => Some [] end.

Definition number_exp (s : bytes) : option bytes :=
  match s with
  | c :: r =>
      if (c == "e"%char) || (c == "E"%char) then
        digits1 (match r with d :: r' => if (d == "+"%char) || (d == "-"%char) then r' else r | [] => r end)
      else Some s
  | [] => Some []
  end.

Definition json_number_ok (s : bytes) : bool :=
  match (number_int (number_minus s) ≫= number_frac) ≫= number_exp with
  | Some [] => true
  | _ => false
  end.

(** ** Reading *)

Definition read_scalar (s : bytes) : option (jval * bytes) :=
  if starts_with #"null" s then Some (JNull, drop 4 s)
  else if starts_with #"true" s then Some (JBool true, drop 4 s)
  else if starts_with #"false" s then Some (JBool false, drop 5 s)
  else
    let t := take_while number_char s in
    if json_number_ok t then Some (JNum t, drop (length t) s) else None.

(** [read_members] and [read_elems] read the rest of a non-empty object or
    array, its closing bracket included.  The fuel bounds the nesting and the
    number of items together: the length of the text is enough. *)
Fixpoint read_value (fuel : nat) (s : bytes) {struct fuel} : option (jval * bytes) :=
  match fuel with
  | O => None
  | S f =>
      match s with
      | [] => None
      | c :: s' =>
          if c == DQ then
            match json_read_string s' with Some (t, r) => Some (JStr t, r) | None => None end
          else if c == "["%char then
            match s' with
            | d :: r => if d == "]"%char then Some (JArr [], r)
                        else match read_elems f s' with Some (l, r) => Some (JArr l, r) | None => None end
            | [] => None
            end
          else if c == "{"%char then
            match s' with
            | d :: r => if d == "}"%char then Some (JObj [], r)
                        else match read_members f s' with Some (l, r) => Some (JObj l, r) | None => None end
            | [] => None
            end
          else read_scalar s
      end
  end
with read_elems (fuel : nat) (s : bytes) {struct fuel} : option (list jval * bytes) :=
  match fuel with
  | O => None
  | S f =>
      match read_value f s with
      | Some (v, c :: r) =>
          if c == "]"%char then Some ([v], r)
          else if c == ","%char then
            match read_elems f r with Some (l, r') => Some (v :: l, r') | None => None end
          else None
      | _ => None
      end
  end
with read_members (fuel : nat) (s : bytes) {struct fuel} : option (list (bytes * jval) * bytes) :=
  match fuel with
  | O => None
  | S f =>
      match s with
      | q :: s' =>
          if q == DQ then
            match json_read_string s' with
            | Some (k, colon :: s'') =>
                if colon == ":"%char then
                  match read_value f s'' with
                  | Some (v, c :: r) =>
                      if c == "}"%char then Some ([(k, v)], r)
                      else if c == ","%char then
                        match read_members f r with
                        | Some (l, r') => Some ((k, v) :: l, r')
                        | None => None
                        end
                      else None
                  | _ => None
                  end
                else None
            | _ => None
            end
          else None
      | [] => None
      end
  end.

(** A whole document. *)
Definition json_read (s : bytes) : option jval :=
  match read_value (length s) s with Some (v, []) => Some v | _ => None end.

(** Values whose numbers are JSON numbers: those that have a text. *)
Fixpoint jwf (v : jval) : bool :=
  match v with
  | JNum t => json_number_ok t && forallb number_char t
  | JArr l => forallb jwf l
  | JObj l => forallb (fun kv => jwf kv.2) l
  | _ => true
  end.

(** ** Supporting lemmas: numbers *)

Lemma drop_while_all P s1 s2 :
  Forall (fun c => P c = true) s1 ->
  match s2 with c :: _ => P c = false | [] => True end ->
  drop_while P (s1 ++ s2) = s2.
Proof.
  induction 1 as [|c s1 Hc _ IH]; simpl; intros H2.
  - destruct s2 as [|d s2]; simpl; [done|]. by rewrite H2.
  - rewrite Hc. by apply IH.
Qed.

Lemma take_while_all P s1 s2 :
  Forall (fun c => P c = true) s1 ->
  match s2 with c :: _ => P c = false | [] => True end ->
  take_while P (s1 ++ s2) = s1.
Proof.
  induction 1 as [|c s1 Hc _ IH]; simpl; intros H2.
  - destruct s2 as [|d s2]; simpl; [done|]. by rewrite H2.
  - rewrite Hc. by rewrite IH.
Qed.

(** The integer part of a JSON number: digits, no leading zero. *)
Definition good_int (s : bytes) : Prop :=
  s = [ "0"%char ] \/ exists c r, s = c :: r /\ isdigit c = true /\ c <> "0"%char /\ all_digits r.

Definition not_digit_next (s : bytes) : Prop :=
  match s with c :: _ => isdigit c = false | [] => True end.

Lemma number_int_good s r : good_int s -> not_digit_next r -> number_int (s ++ r) = Some r.
Proof.
  intros [->|(c & t & -> & Hc & Hz & Ht)] Hr; simpl; [done|].
  rewrite bool_decide_neq by done. rewrite Hc. by rewrite drop_while_all.
Qed.

Lemma digits1_good s r : all_digits s -> s <> [] -> not_digit_next r -> digits1 (s ++ r) = Some r.
Proof.
  intros Hs Hn Hr. destruct s as [|c s]; [done|]. inversion Hs; subst. simpl.
  rewrite H1. by rewrite drop_while_all.
Qed.

Lemma isdigit_not_minus c : isdigit c = true -> (c == "-"%char) = false.
Proof. intros H. apply bool_decide_neq. by intros ->. Qed.

Lemma digit_nonzero d : (0 < d)%N -> (d < 10)%N -> digit d <> "0"%char.
Proof.
  intros H0 H1 E. apply (f_equal code) in E. rewrite code_digit in E by done.
  change (code "0"%char) with 48%N in E. lia.
Qed.

Lemma dec_digits_head fuel n acc :
  (0 < n)%N -> (n < 2 ^ N.of_nat fuel)%N ->
  exists d r, dec_digits fuel n acc = digit d :: r /\ (0 < d < 10)%N /\ (all_digits acc -> all_digits r).
Proof.
  revert n acc. induction fuel as [|f IH]; intros n acc H0 Hn.
  - change (2 ^ N.of_nat 0)%N with 1%N in Hn. lia.
  - simpl. destruct (n <? 10)%N eqn:E.
    + exists n, acc. split; [done|]. split; [lia|done].
    + rewrite Nat2N.inj_succ, N.pow_succ_r' in Hn.
      assert (10 * (n / 10) <= n)%N by (apply N.Div0.mul_div_le).
      assert (1 <= n / 10)%N by (apply N.div_le_lower_bound; lia).
      destruct (IH (n / 10)%N (digit (n mod 10) :: acc)) as (d & r & Hd & Hr & Ha); [lia|lia|].
      exists d, r. split; [done|]. split; [done|]. intros Hacc. apply Ha.
      constructor; [|done]. apply isdigit_digit, N.mod_lt. lia.
Qed.

Lemma dec_of_N_head n :
  dec_of_N n = [ "0"%char ] \/
  exists d r, dec_of_N n = digit d :: r /\ (0 < d < 10)%N /\ all_digits r.
Proof.
  destruct (N.eq_dec n 0%N) as [->|Hn]; [left; done|right].
  destruct (dec_digits_head (S (N.size_nat n)) n []) as (d & r & Hd & Hr & Ha);
    [lia|apply size_nat_bound|].
  exists d, r. split; [done|]. split; [done|]. apply Ha. constructor.
Qed.

Lemma good_int_take n k : (0 < k)%nat -> good_int (take k (dec_of_N n)).
Proof.
  intros Hk. destruct k as [|k]; [lia|].
  destruct (dec_of_N_head n) as [->|(d & r & -> & Hd & Hr)]; simpl.
  - left. by rewrite take_nil.
  - right. exists (digit d), (take k r). split; [done|]. split; [apply isdigit_digit; lia|].
    split; [apply digit_nonzero; lia|]. by apply Forall_take.
Qed.

Lemma good_int_dec n : good_int (dec_of_N n).
Proof.
  rewrite <- (firstn_all (dec_of_N n)). apply good_int_take.
  pose proof (dec_of_N_nonempty n). destruct (dec_of_N n); simpl; [done|lia].
Qed.

(** *** The numbers the program prints *)

Lemma Forall_drop_while (P : ascii -> Prop) Q s : Forall P s -> Forall P (drop_while Q s).
Proof. induction 1; simpl; [done|]. destruct (Q x); [done|]. by constructor. Qed.

Lemma drop_trailing_digits s : all_digits s -> all_digits (drop_trailing_zeros s).
Proof.
  intros H. unfold drop_trailing_zeros, all_digits.
  apply Forall_rev, Forall_drop_while, Forall_rev, H.
Qed.

Lemma zeros_digits n : all_digits (zeros n).
Proof. induction n; simpl; by constructor. Qed.

(** The text after the integer part and the fraction. *)
Definition good_exp (s : bytes) : Prop :=
  s = [] \/ exists d, all_digits d /\ d <> [] /\ (s = #"e-" ++ d \/ s = #"e+" ++ d).

Lemma good_exp_not_digit s : good_exp s -> not_digit_next s.
Proof. by intros [->|(d & _ & _ & [-> | ->])]. Qed.

Lemma number_exp_good s : good_exp s -> number_exp s = Some [].
Proof.
  intros [->|(d & Hd & Hn & [-> | ->])]; [done| |];
    change (digits1 d = Some []); rewrite <- (app_nil_r d) at 1; by apply digits1_good.
Qed.

Lemma number_frac_exp s : good_exp s -> number_frac s = Some s.
Proof. by intros [->|(d & _ & _ & [-> | ->])]. Qed.

Lemma number_minus_good neg s :
  match s with c :: _ => isdigit c = true | [] => False end ->
  number_minus (sign_text neg ++ s) = s.
Proof.
  destruct s as [|c s]; [done|]. intros Hc. destruct neg; [done|]. simpl.
  by rewrite isdigit_not_minus.
Qed.

Lemma good_int_head s r : good_int s -> match s ++ r with c :: _ => isdigit c = true | [] => False end.
Proof. by intros [->|(c & t & -> & Hc & _)]. Qed.

Lemma json_number_steps s r1 r2 :
  number_int (number_minus s) = Some r1 -> number_frac r1 = Some r2 -> number_exp r2 = Some [] ->
  json_number_ok s = true.
Proof. intros H1 H2 H3. unfold json_number_ok. rewrite H1. simpl. rewrite H2. simpl. by rewrite H3. Qed.

Lemma json_number_parts neg int frac ex :
  good_int int -> all_digits frac -> good_exp ex ->
  json_number_ok (sign_text neg ++ with_fraction int frac ++ ex) = true.
Proof.
  intros Hi Hf He. unfold with_fraction. destruct frac as [|c frac].
  - apply (json_number_steps _ ex ex); [|by apply number_frac_exp|by apply number_exp_good].
    rewrite number_minus_good by by apply good_int_head.
    apply number_int_good; [done|by apply good_exp_not_digit].
  - apply (json_number_steps _ (#"." ++ (c :: frac) ++ ex) ex); [| |by apply number_exp_good].
    + rewrite <- !app_assoc, number_minus_good by by apply good_int_head.
      by apply number_int_good.
    + change (digits1 ((c :: frac) ++ ex) = Some ex).
      apply digits1_good; [done|done|by apply good_exp_not_digit].
Qed.

Lemma good_exp_text X : good_exp (exponent_text X).
Proof.
  right. unfold exponent_text. pose proof (dec_of_N_digits (Z.to_N (Z.abs X))) as Hd.
  pose proof (dec_of_N_nonempty (Z.to_N (Z.abs X))) as Hn.
  exists (if (length (dec_of_N (Z.to_N (Z.abs X))) <? 2)%nat
          then #"0" ++ dec_of_N (Z.to_N (Z.abs X)) else dec_of_N (Z.to_N (Z.abs X))).
  split; [destruct (_ <? _)%nat; [by constructor|done]|].
  split; [by destruct (_ <? _)%nat|].
  destruct (X <? 0)%Z; [by left|by right].
Qed.

Lemma json_number_layout neg prec D X : json_number_ok (sign_text neg ++ layout_g prec D X) = true.
Proof.
  pose proof (dec_of_N_digits D) as Hd. unfold layout_g.
  assert (forall s : bytes, s = s ++ []) as Hnil by (intros; by rewrite app_nil_r).
  destruct (_ || _); [|destruct (0 <=? X)%Z eqn:E].
  - apply json_number_parts; [apply good_int_take; lia| |apply good_exp_text].
    by apply drop_trailing_digits, Forall_drop.
  - rewrite (Hnil (with_fraction _ _)). apply json_number_parts; [apply good_int_take; lia| |by left].
    by apply drop_trailing_digits, Forall_drop.
  - rewrite (Hnil (with_fraction _ _)). apply json_number_parts; [by left| |by left].
    apply drop_trailing_digits, Forall_app. split; [apply zeros_digits|done].
Qed.

Lemma json_number_general prec v : is_finite v = true -> json_number_ok (format_general prec v) = true.
Proof.
  destruct v as [neg m e|neg|neg]; try done. intros _. simpl.
  destruct (m =? 0)%N; [by destruct neg|].
  destruct (frac_of m e) as [num den]. destruct (significant prec num den) as [D X].
  apply json_number_layout.
Qed.

Lemma json_number_dec n : json_number_ok (dec_of_N n) = true.
Proof.
  pose proof (json_number_parts false (dec_of_N n) [] []) as H. simpl in H.
  rewrite app_nil_r in H. apply H; [apply good_int_dec|constructor|by left].
Qed.

(** *** The round trip *)

Section jval_induction.
  Context (P : jval -> Prop).
  Context (HNull : P JNull) (HBool : forall b, P (JBool b)) (HNum : forall t, P (JNum t))
    (HStr : forall s, P (JStr s)) (HArr : forall l, Forall P l -> P (JArr l))
    (HObj : forall l, Forall (fun kv => P kv.2) l -> P (JObj l)).

Fixpoint jval_nested_ind (v : jval) : P v :=
  match v with
  | JNull => HNull
  | JBool b => HBool b
  | JNum t => HNum t
  | JStr s => HStr s
  | JArr l => HArr l ((fix go l : Forall P l :=
      match l with [] => Forall_nil_2 _ | v :: l' => Forall_cons_2 _ _ _ (jval_nested_ind v) (go l') end) l)
  | JObj l => HObj l ((fix go l : Forall (fun kv => P kv.2) l :=
      match l with
      | [] => Forall_nil_2 _
      | kv :: l' => Forall_cons_2 (fun kv => P kv.2) kv l' (jval_nested_ind kv.2) (go l')
      end) l)
  end.
End jval_induction.

(** The fuel [read_value] needs for the text of a value. *)
Fixpoint jsize (v : jval) : nat :=
  match v with
  | JArr l => S (list_sum (map (fun v => S (jsize v)) l))
  | JObj l => S (list_sum (map (fun kv => S (jsize kv.2)) l))
  | _ => 1
  end.

(** What may follow a value: not a character that would extend a number. *)
Definition ends_value (rest : bytes) : Prop :=
  match rest with c :: _ => number_char c = false | [] => True end.

Lemma json_number_first t :
  json_number_ok t = true -> exists c r, t = c :: r /\ (isdigit c = true \/ c = "-"%char).
Proof.
  unfold json_number_ok. destruct t as [|c r]; [done|]. intros H. exists c, r. split; [done|].
  simpl in H. case_bool_decide; [by right|]. left.
  simpl in H. case_bool_decide as Hz; [by subst|]. by destruct (isdigit c).
Qed.

Lemma read_scalar_number t rest :
  json_number_ok t = true -> forallb number_char t = true -> ends_value rest ->
  read_scalar (t ++ rest) = Some (JNum t, rest).
Proof.
  intros Ht Hc Hr. destruct (json_number_first t Ht) as (c & r & -> & Hd). unfold read_scalar.
  assert (Hn : forall p s, p = "n"%char \/ p = "t"%char \/ p = "f"%char -> starts_with (p :: s) ((c :: r) ++ rest) = false).
  { intros p s Hp. simpl. rewrite bool_decide_neq; [done|].
    intros <-. by destruct Hd as [Hd| ->], Hp as [Hp|[Hp|Hp]]; subst. }
  change #"null" with ("n"%char :: #"ull"). change #"true" with ("t"%char :: #"rue").
  change #"false" with ("f"%char :: #"alse").
  rewrite !Hn by auto.
  rewrite take_while_all; [|by apply forallb_Forall_true|done].
  rewrite Ht. by rewrite drop_app_length.
Qed.

Lemma first_not_special c r :
  json_number_ok (c :: r) = true -> c <> DQ /\ c <> "["%char /\ c <> "{"%char.
Proof.
  intros H. destruct (json_number_first _ H) as (d & t & [= <- <-] & Hd).
  repeat split; intros ->; by destruct Hd.
Qed.

Lemma read_value_scalar f c r :
  c <> DQ -> c <> "["%char -> c <> "{"%char ->
  read_value (S f) (c :: r) = read_scalar (c :: r).
Proof. intros. cbn [read_value]. by rewrite !bool_decide_neq. Qed.

Lemma read_value_string f s rest :
  read_value (S f) (jstring s ++ rest) = Some (JStr s, rest).
Proof.
  unfold jstring. rewrite <- app_comm_cons, <- app_assoc.
  cbn [read_value]. rewrite eqb_char_refl.
  change ([DQ] ++ rest) with (DQ :: rest). by rewrite json_read_escaped.
Qed.

(** What the round trip says of one value. *)
Definition reads_back (v : jval) : Prop :=
  forall fuel rest, jwf v = true -> jsize v <= fuel -> ends_value rest ->
  read_value fuel (json_print v ++ rest) = Some (v, rest).

Lemma commas_cons x y l : commas (x :: y :: l) = x ++ #"," ++ commas (y :: l).
Proof. done. Qed.

(** A loop that writes a comma before every item but the first. *)
Lemma commas_loop {A} (g : nat -> list A -> bytes) (f : A -> bytes) l :
  (forall i, g i [] = []) ->
  (forall i x l, g i (x :: l) = (if (0 <? i)%nat then #"," else []) ++ f x ++ g (S i) l) ->
  g 0 l = commas (map f l).
Proof.
  intros Hnil Hcons. assert (Hrest : forall l i, g (S i) l = flat_map (fun y => #"," ++ f y) l).
  { clear l. induction l as [|x l IH]; intros i; [apply Hnil|]. rewrite Hcons, IH. cbn. done. }
  destruct l as [|x l]; [apply Hnil|]. rewrite Hcons, Hrest. cbn [app map].
  change ((0 <? 0)%nat) with false. cbn [app]. revert x. induction l as [|y l IH]; intros x; [cbn; by rewrite app_nil_r|].
  cbn [map flat_map]. rewrite commas_cons, <- IH. by rewrite <- !app_assoc.
Qed.

Lemma read_elems_print l v fuel rest :
  Forall reads_back (v :: l) -> forallb jwf (v :: l) = true ->
  list_sum (map (fun v => S (jsize v)) (v :: l)) <= fuel ->
  read_elems fuel (commas (map json_print (v :: l)) ++ #"]" ++ rest) = Some (v :: l, rest).
Proof.
  revert v fuel. induction l as [|w l IH]; intros v fuel Hall Hwf Hf;
    apply Forall_cons in Hall as [Hv Hall]; simpl in Hwf; apply andb_true_iff in Hwf as [Hwv Hwf];
    simpl list_sum in Hf; (destruct fuel as [|f]; [lia|]).
  - simpl commas. cbn [read_elems]. rewrite Hv; [done|done|lia|done].
  - simpl map. rewrite commas_cons, <- !app_assoc. cbn [read_elems].
    rewrite Hv; [|done|lia|done]. change (#"," ++ ?x) with (","%char :: x). cbv iota beta.
    change ((","%char == "]"%char)) with false. change ((","%char == ","%char)) with true. cbv iota.
    specialize (IH w f Hall Hwf ltac:(simpl; lia)). simpl map in IH. by rewrite IH.
Qed.

Lemma jmember_text k v rest :
  (jstring k ++ #":" ++ json_print v) ++ rest =
  DQ :: json_escape k ++ DQ :: ":"%char :: json_print v ++ rest.
Proof.
  unfold jstring. change #":" with [":"%char]. rewrite <- !app_assoc. simpl.
  by rewrite <- app_assoc.
Qed.

(** One step of [read_members], on a member's text. *)
Lemma read_members_step f k v rest :
  reads_back v -> jwf v = true -> jsize v <= f -> ends_value rest ->
  read_members (S f) ((jstring k ++ #":" ++ json_print v) ++ rest) =
  match rest with
  | c :: r =>
      if c == "}"%char then Some ([(k, v)], r)
      else if c == ","%char then
        match read_members f r with Some (l, r') => Some ((k, v) :: l, r') | None => None end
      else None
  | [] => None
  end.
Proof.
  intros Hv Hwf Hf Hr. rewrite jmember_text. cbn [read_members].
  rewrite eqb_char_refl, json_read_escaped. cbv iota beta. rewrite eqb_char_refl.
  by rewrite Hv.
Qed.

Lemma read_members_print l k v fuel rest :
  Forall (fun kv => reads_back kv.2) ((k, v) :: l) -> forallb (fun kv => jwf kv.2) ((k, v) :: l) = true ->
  list_sum (map (fun kv => S (jsize kv.2)) ((k, v) :: l)) <= fuel ->
  read_members fuel
    (commas (map (fun kv => jstring kv.1 ++ #":" ++ json_print kv.2) ((k, v) :: l)) ++ #"}" ++ rest)
  = Some ((k, v) :: l, rest).
Proof.
  revert k v fuel. induction l as [|[k' v'] l IH]; intros k v fuel Hall Hwf Hf;
    apply Forall_cons in Hall as [Hv Hall]; simpl in Hwf; apply andb_true_iff in Hwf as [Hwv Hwf];
    simpl list_sum in Hf; (destruct fuel as [|f]; [lia|]).
  - cbn [map commas fst snd]. by rewrite read_members_step by (done || lia).
  - cbn [map fst snd]. rewrite commas_cons. rewrite <- app_assoc.
    rewrite read_members_step; [|done|done|lia|done].
    rewrite <- app_assoc. change (#"," ++ ?x) with (","%char :: x). cbv iota beta.
    change ((","%char == "}"%char)) with false. change ((","%char == ","%char)) with true. cbv iota.
    specialize (IH k' v' f Hall Hwf ltac:(simpl; lia)). cbn [map fst snd] in IH. by rewrite IH.
Qed.

Lemma json_print_first v : jwf v = true -> exists c r, json_print v = c :: r /\ c <> "]"%char.
Proof.
  destruct v as [|[]|t|s|l|l]; intros Hwf; simpl; eauto.
  apply andb_true_iff in Hwf as [Ht _]. destruct (json_number_first t Ht) as (c & r & -> & Hd).
  exists c, r. split; [done|]. intros ->. by destruct Hd.
Qed.

Lemma commas_first x l y : exists z, commas (x :: l) ++ y = x ++ z.
Proof. destruct l; [eauto|]. rewrite commas_cons, <- app_assoc. eauto. Qed.

Lemma read_value_array f v l rest :
  Forall reads_back (v :: l) -> jwf (JArr (v :: l)) = true -> jsize (JArr (v :: l)) <= S f ->
  read_value (S f) (json_print (JArr (v :: l)) ++ rest) = Some (JArr (v :: l), rest).
Proof.
  intros IH Hwf Hf.
  pose proof (read_elems_print l v f rest IH Hwf ltac:(simpl in *; lia)) as He.
  change (json_print (JArr (v :: l))) with ("["%char :: commas (map json_print (v :: l)) ++ #"]").
  rewrite <- app_comm_cons, <- app_assoc.
  assert (Hwv : jwf v = true) by (simpl in Hwf; by apply andb_true_iff in Hwf as [? _]).
  destruct (json_print_first v Hwv) as (c & r & Hc & Hne).
  destruct (commas_first (json_print v) (map json_print l) (#"]" ++ rest)) as [z Hz].
  change (map json_print (v :: l)) with (json_print v :: map json_print l) in *.
  rewrite Hz, Hc in *. cbn [read_value app].
  change ("["%char == DQ) with false. change ("["%char == "["%char) with true. cbv iota.
  rewrite bool_decide_neq by done. cbn [app] in He. by rewrite He.
Qed.

Lemma read_value_object f k v l rest :
  Forall (fun kv => reads_back kv.2) ((k, v) :: l) -> jwf (JObj ((k, v) :: l)) = true ->
  jsize (JObj ((k, v) :: l)) <= S f ->
  read_value (S f) (json_print (JObj ((k, v) :: l)) ++ rest) = Some (JObj ((k, v) :: l), rest).
Proof.
  intros IH Hwf Hf.
  pose proof (read_members_print l k v f rest IH Hwf ltac:(simpl in *; lia)) as He.
  set (g := fun kv : bytes * jval => jstring kv.1 ++ #":" ++ json_print kv.2) in *.
  change (json_print (JObj ((k, v) :: l))) with ("{"%char :: commas (map g ((k, v) :: l)) ++ #"}").
  rewrite <- app_comm_cons, <- app_assoc.
  destruct (commas_first (g (k, v)) (map g l) (#"}" ++ rest)) as [z Hz].
  change (map g ((k, v) :: l)) with (g (k, v) :: map g l) in *. rewrite Hz in *.
  unfold g, jstring in *. cbn [read_value app fst snd] in *.
  change ("{"%char == DQ) with false. change ("{"%char == "["%char) with false.
  change ("{"%char == "{"%char) with true. cbv iota.
  change (DQ == "}"%char) with false. cbv iota. by rewrite He.
Qed.

Lemma json_print_reads_back v : reads_back v.
Proof.
  induction v as [|b|t|s|l IH|l IH] using jval_nested_ind; intros fuel rest Hwf Hf Hr;
    (destruct fuel as [|f]; [simpl in Hf; lia|]).
  - done.
  - by destruct b.
  - apply andb_true_iff in Hwf as [Ht Hc]. cbn [json_print].
    rewrite <- (read_scalar_number t rest) by done.
    destruct (json_number_first t Ht) as (c & r & -> & _).
    destruct (first_not_special c r Ht) as (? & ? & ?). by apply read_value_scalar.
  - apply read_value_string.
  - destruct l as [|v l]; [done|]. by apply read_value_array.
  - destruct l as [|[k v] l]; [done|]. by apply read_value_object.
Qed.

Lemma commas_length l : list_sum (map (fun t => S (length t)) l) <= S (length (commas l)).
Proof.
  induction l as [|x [|y l] IH]; [simpl; lia|simpl; lia|].
  rewrite commas_cons, !length_app. change (length #",") with 1. simpl in *. lia.
Qed.

Lemma list_sum_le {A} (f g : A -> nat) l :
  Forall (fun x => f x <= g x) l -> list_sum (map f l) <= list_sum (map g l).
Proof. induction 1; simpl; lia. Qed.

Lemma jsize_items {A} (item : A -> bytes) (val : A -> jval) l :
  Forall (fun x => jsize (val x) <= length (item x)) l ->
  S (list_sum (map (fun x => S (jsize (val x))) l)) <= 2 + length (commas (map item l)).
Proof.
  intros Hall. pose proof (commas_length (map item l)) as Hc. rewrite map_map in Hc.
  assert (H : list_sum (map (fun x => S (jsize (val x))) l) <=
              list_sum (map (fun x => S (length (item x))) l)).
  { apply list_sum_le, (Forall_impl _ _ _ Hall). lia. }
  lia.
Qed.

Lemma jsize_length v : jwf v = true -> jsize v <= length (json_print v).
Proof.
  induction v as [|b|t|s|l IH|l IH] using jval_nested_ind; intros Hwf.
  - compute; lia.
  - destruct b; compute; lia.
  - apply andb_true_iff in Hwf as [Ht _]. destruct (json_number_first t Ht) as (c & r & -> & _). simpl. lia.
  - simpl. lia.
  - apply forallb_Forall_true in Hwf. rewrite Forall_forall in IH, Hwf.
    cbn [json_print jsize]. rewrite !length_app. change (length #"[") with 1. change (length #"]") with 1.
    etransitivity; [apply (jsize_items json_print id)|lia].
    apply Forall_forall. intros x Hx. simpl. auto.
  - apply forallb_Forall_true in Hwf. rewrite Forall_forall in IH, Hwf.
    cbn [json_print jsize]. rewrite !length_app. change (length #"{") with 1. change (length #"}") with 1.
    etransitivity; [apply (jsize_items (fun kv => jstring kv.1 ++ #":" ++ json_print kv.2) snd)|lia].
    apply Forall_forall. intros x Hx. rewrite !length_app. specialize (IH x Hx (Hwf x Hx)). lia.
Qed.

(** Every document the printer writes is read back to the same value. *)
Lemma json_read_print v : jwf v = true -> json_read (json_print v) = Some v.
Proof.
  intros Hwf. unfold json_read. rewrite <- (app_nil_r (json_print v)) at 2.
  rewrite json_print_reads_back; [done|done|by apply jsize_length|done].
Qed.

(** ** Texts that are numbers *)

(** What a part of the number grammar consumes is made of number characters. *)
Definition consumes (p : bytes -> option bytes) : Prop :=
  forall s r, p s = Some r -> exists u, s = u ++ r /\ forallb number_char u = true.

Lemma isdigit_number_char c : isdigit c = true -> number_char c = true.
Proof. unfold number_char. by intros ->. Qed.

Lemma drop_digits_consumes s : exists u, s = u ++ drop_while isdigit s /\ forallb number_char u = true.
Proof.
  induction s as [|c s (u & Hu & Hn)]; [by exists []|]. cbn [drop_while]. destruct (isdigit c) eqn:E; [|by exists []].
  exists (c :: u). cbn [app forallb]. rewrite <- Hu, isdigit_number_char by done. done.
Qed.

Lemma digits1_consumes : consumes digits1.
Proof.
  intros [|c s] r; [done|]. cbn. destruct (isdigit c) eqn:E; [|done]. intros [= <-].
  destruct (drop_digits_consumes s) as (u & Hu & Hn). exists (c :: u). cbn [app forallb].
  by rewrite <- Hu, isdigit_number_char.
Qed.

Lemma number_int_consumes : consumes number_int.
Proof.
  intros [|c s] r; [done|]. cbn. destruct (bool_decide_reflect (c = "0"%char)) as [->|].
  { intros [= <-]. by exists [ "0"%char ]. }
  intros H. by apply (digits1_consumes (c :: s)).
Qed.

Lemma number_frac_consumes : consumes number_frac.
Proof.
  intros [|c s] r; cbn; [intros [= <-]; by exists []|].
  destruct (bool_decide_reflect (c = "."%char)) as [->|]; [|intros [= <-]; by exists []].
  intros (u & -> & Hu)%digits1_consumes. by exists ("."%char :: u).
Qed.

Lemma number_exp_consumes : consumes number_exp.
Proof.
  intros [|c s] r; cbn; [intros [= <-]; by exists []|].
  destruct (_ || _) eqn:E; [|intros [= <-]; by exists []].
  assert (Hc : number_char c = true).
  { by apply orb_true_iff in E as [ ->%bool_decide_eq_true| ->%bool_decide_eq_true]. }
  destruct s as [|d s]; [done|].
  destruct ((d == "+"%char) || (d == "-"%char)) eqn:Ed.
  - assert (Hd : number_char d = true).
    { by apply orb_true_iff in Ed as [ ->%bool_decide_eq_true| ->%bool_decide_eq_true]. }
    intros (u & -> & Hu)%digits1_consumes. exists (c :: d :: u). cbn. by rewrite Hc, Hd.
  - intros (u & E2 & Hu)%digits1_consumes. exists (c :: u). cbn. by rewrite E2, Hc.
Qed.

Lemma json_number_chars t : json_number_ok t = true -> forallb number_char t = true.
Proof.
  unfold json_number_ok. destruct (number_int (number_minus t)) as [r1|] eqn:E1; [|done]. cbn.
  destruct (number_frac r1) as [r2|] eqn:E2; [|done]. cbn. destruct (number_exp r2) as [[|? ?]|] eqn:E3; try done.
  intros _. apply number_int_consumes in E1 as (u1 & H1 & N1). apply number_frac_consumes in E2 as (u2 & -> & N2).
  apply number_exp_consumes in E3 as (u3 & -> & N3). rewrite app_nil_r in H1.
  assert (Hm : forallb number_char (number_minus t) = true) by (by rewrite H1, !forallb_app, N1, N2, N3).
  destruct t as [|c t]; [done|]. cbn in Hm |- *.
  destruct (bool_decide_reflect (c = "-"%char)) as [->|]; [|done]. cbn. done.
Qed.

Lemma jwf_number t : json_number_ok t = true -> jwf (JNum t) = true.
Proof. intros H. cbn [jwf]. by rewrite H, json_number_chars. Qed.

Lemma json_number_to_string z : json_number_ok (to_string z) = true.
Proof.
  unfold to_string. destruct (z <? 0)%Z; [|apply json_number_dec].
  pose proof (json_number_parts true (dec_of_N (Z.to_N (- z))) [] []) as H. cbn in H.
  rewrite app_nil_r in H. apply H; [apply good_int_dec|constructor|by left].
Qed.

Lemma json_number_fixed prec v : is_finite v = true -> json_number_ok (format_fixed prec v) = true.
Proof.
  destruct v as [neg m e| |]; try done. intros _. cbn [format_fixed].
  destruct (frac_of m e) as [num den]. cbn zeta. set (R := round_div _ _).
  assert (Hd := dec_of_N_digits (R mod 10 ^ N.of_nat prec)).
  set (z := zeros (prec - length (dec_of_N (R mod 10 ^ N.of_nat prec)))).
  pose proof (fun frac H => json_number_parts neg (dec_of_N (R / 10 ^ N.of_nat prec)) frac [] (good_int_dec _) H (or_introl eq_refl)) as Hp.
  destruct (Nat.eqb_spec prec 0).
  - specialize (Hp [] (Forall_nil_2 _)). cbn [with_fraction] in Hp. by rewrite app_nil_r in Hp |- *.
  - specialize (Hp (z ++ dec_of_N (R mod 10 ^ N.of_nat prec))). unfold with_fraction in Hp. rewrite app_nil_r in Hp.
    destruct (z ++ dec_of_N _) eqn:E.
    { apply app_eq_nil in E as [_ E]. by apply dec_of_N_nonempty in E. }
    apply Hp. rewrite <- E. apply Forall_app. split; [apply zeros_digits|done].
Qed.

(** ** Numbers as text are one line *)

Lemma number_text_safe t : json_number_ok t = true -> line_safe t.
Proof.
  intros H%json_number_chars%forallb_Forall_true. apply (Forall_impl _ _ _ H).
  apply (forall_chars_impl number_char line_char). by vm_compute.
Qed.

Lemma format_fixed_safe prec v : line_safe (format_fixed prec v).
Proof.
  destruct v as [neg m e|neg|neg]; [by apply number_text_safe, json_number_fixed| |]; by destruct neg; apply line_safe_lit.
Qed.

Lemma format_general_safe prec v : line_safe (format_general prec v).
Proof.
  destruct v as [neg m e|neg|neg]; [by apply number_text_safe, json_number_general| |]; by destruct neg; apply line_safe_lit.
Qed.

#[export] Hint Resolve format_fixed_safe format_general_safe : clib.

(** ** No control characters *)

(** A JSON text is one line and holds no NUL. *)
Definition no_control (c : ascii) : Prop := (32 <= code c)%N.

Lemma no_control_lit s : forallb (fun c => (32 <=? code c)%N) s = true -> Forall no_control s.
Proof. intros Hs%forallb_Forall_true. apply (Forall_impl _ _ _ Hs). intros c Hc. by apply N.leb_le. Qed.

Lemma no_control_absent c s : Forall no_control s -> (code c < 32)%N -> c ∉ s.
Proof. intros Hs Hc Hin. rewrite Forall_forall in Hs. specialize (Hs _ Hin). unfold no_control in Hs. lia. Qed.

Lemma commas_no_control l : Forall (Forall no_control) l -> Forall no_control (commas l).
Proof.
  induction 1 as [|x l Hx Hl IH]; [constructor|]. destruct l as [|y l]; [done|].
  rewrite commas_cons, !Forall_app. split; [done|]. split; [by apply no_control_lit|done].
Qed.

Lemma jstring_no_control s : Forall no_control (jstring s).
Proof.
  unfold jstring. constructor; [by unfold no_control; vm_compute|]. apply Forall_app. split; [|by apply no_control_lit].
  induction s as [|c s IH]; [constructor|]. cbn [json_escape]. apply Forall_app. split; [|done].
  apply no_control_lit, json_escape_char_printable.
Qed.

Lemma json_print_no_control v : jwf v = true -> Forall no_control (json_print v).
Proof.
  induction v as [|b|t|s|l IH|l IH] using jval_nested_ind; intros Hwf; cbn [json_print].
  - by apply no_control_lit.
  - destruct b; by apply no_control_lit.
  - apply andb_true_iff in Hwf as [_ Hc]. apply forallb_Forall_true in Hc. apply (Forall_impl _ _ _ Hc).
    intros c Hn. apply N.leb_le. revert c Hn. apply (forall_chars_impl number_char (fun c => (32 <=? code c)%N)). by vm_compute.
  - apply jstring_no_control.
  - apply forallb_Forall_true in Hwf. rewrite !Forall_app. split; [by apply no_control_lit|].
    split; [|by apply no_control_lit]. apply commas_no_control, Forall_map.
    apply Forall_forall. intros x Hx. rewrite Forall_forall in IH, Hwf. auto.
  - apply forallb_Forall_true in Hwf. rewrite !Forall_app. split; [by apply no_control_lit|].
    split; [|by apply no_control_lit]. apply commas_no_control, Forall_map.
    apply Forall_forall. intros x Hx. rewrite Forall_forall in IH, Hwf. rewrite !Forall_app.
    split; [apply jstring_no_control|]. split; [by apply no_control_lit|auto].
Qed.

Lemma number_no_control t : json_number_ok t = true -> Forall no_control t.
Proof. intros Ht. apply (json_print_no_control (JNum t)), jwf_number, Ht. Qed.

Lemma to_string_no_control z : Forall no_control (to_string z).
Proof. apply number_no_control, json_number_to_string. Qed.

Lemma format_fixed_no_control prec v : Forall no_control (format_fixed prec v).
Proof.
  destruct v as [neg m e|neg|neg]; [by apply number_no_control, json_number_fixed| |]; by destruct neg; apply no_control_lit.
Qed.

Lemma sanitize_no_control s : Forall no_control (sanitize_header_value s).
Proof.
  apply (Forall_impl _ _ _ (sanitize_printable s)). intros c Hc. unfold printable in Hc.
  apply andb_true_iff in Hc as [Hc _]. by apply N.leb_le.
Qed.

Lemma no_control_line_safe s : Forall no_control s -> line_safe s.
Proof.
  intros Hs. apply (Forall_impl _ _ _ Hs). intros c Hc%N.leb_le. revert c Hc.
  apply (forall_chars_impl (fun c => (32 <=? code c)%N) line_char). by vm_compute.
Qed.
