(* ===== verification/IpAddr.v ===== *)
(** * IP address parsing (src/src/ip_addr.cpp, src/src/ip_addr.h)

    [inet_pton] belongs to the C library of the platform and is a parameter,
    the class [InetPton]; the laws of [InetPtonLaws] are its documented
    behaviour. *)

From S2P Require Import Prelude CLib.
From Stdlib Require Import Ascii.

(** [inet_pton(AF_INET, ...)] and [inet_pton(AF_INET6, ...)] on the text of a
    C string: the address in network order, or [None] for a result other than 1. *)
Class InetPton := {
  inet_pton4 : bytes -> option bytes;
  inet_pton6 : bytes -> option bytes;
}.

Class InetPtonLaws `{InetPton} := {
  inet_pton4_length : forall t a, inet_pton4 t = Some a -> length a = 4;
  inet_pton6_length : forall t a, inet_pton6 t = Some a -> length a = 16;
}.

Definition AF_UNSPEC : Z := 0.
Definition AF_INET : Z := 2.
Definition AF_INET6 : Z := 10.

(** What a [sockaddr_storage] holds: nothing (all zero), a [sockaddr_in] or a
    [sockaddr_in6], with the port as the number in host order. *)
Inductive sockaddr_storage :=
| Szero
| Sin (sin_port : Z) (sin_addr : bytes)
| Sin6 (sin6_port : Z) (sin6_addr : bytes).

Definition sizeof_sockaddr_in : Z := 16.
Definition sizeof_sockaddr_in6 : Z := 28.

Record ParsedAddr := mkParsedAddr {
  storage : sockaddr_storage;
  len : Z;
  family : Z;
}.

Definition ParsedAddr_default : ParsedAddr := mkParsedAddr Szero 0 AF_UNSPEC.

Definition kMaxAddrTextLen : nat := 45.

(** [Some out] when the function returns true; when it returns false [out]
    is left as it was. *)
Definition parse_ip_address `{InetPton} (text : bytes) : option ParsedAddr :=
  if (text == []) || (kMaxAddrTextLen <? length text)%nat then None
  else
    match inet_pton4 (c_str text) with
    | Some addr4 => Some (mkParsedAddr (Sin 0 addr4) sizeof_sockaddr_in AF_INET)
    | None =>
        match inet_pton6 (c_str text) with
        | Some addr6 => Some (mkParsedAddr (Sin6 0 addr6) sizeof_sockaddr_in6 AF_INET6)
        | None => None
        end
    end.

(** The [sockaddr] a successful parse leaves: its family, its length and the
    member of the storage agree, and the address has the size of its family. *)
Definition addr_ok (a : ParsedAddr) : Prop :=
  match storage a with
  | Szero => False
  | Sin port addr => family a = AF_INET /\ len a = sizeof_sockaddr_in /\ length addr = 4 /\ port = 0%Z
  | Sin6 port addr => family a = AF_INET6 /\ len a = sizeof_sockaddr_in6 /\ length addr = 16 /\ port = 0%Z
  end.

(** ** A concrete [inet_pton] to evaluate the model with: dotted quads and ["::1"] *)

Definition octet (s : bytes) : option ascii :=
  if (1 <=? length s)%nat && (length s <=? 3)%nat && forallb isdigit s
     && (digits_value 10 s <? 256)%N
  then Some (ascii_of_N (digits_value 10 s)) else None.

Definition dotted_quad (s : bytes) : option bytes :=
  match split_on "."%char s with
  | [a; b; c; d] =>
      match octet a, octet b, octet c, octet d with
      | Some w, Some x, Some y, Some z => Some [w; x; y; z]
      | _, _, _, _ => None
      end
  | _ => None
  end.

#[export] Instance simple_inet_pton : InetPton := {
  inet_pton4 := dotted_quad;
  inet_pton6 t := if t == #"::1" then Some (repeat NUL 15 ++ ["001"%char]) else None;
}.

#[export] Instance simple_inet_pton_laws : InetPtonLaws.
Proof.
  split.
  - intros t a. simpl. unfold dotted_quad.
    destruct (split_on _ t) as [|a1 [|a2 [|a3 [|a4 [|]]]]]; try done.
    destruct (octet a1), (octet a2), (octet a3), (octet a4); try done. by intros [= <-].
  - intros t a. simpl. case_bool_decide; [by intros [= <-]|done].
Qed.

(** ** Properties *)

(** [parse_ip_address] accepts exactly the texts of 1 to 45 bytes that
    [inet_pton] reads as IPv4 or IPv6 (up to their first NUL), prefers IPv4,
    and what it fills in is consistent: family, socket address length and
    address size agree and the port is zero. *)
Theorem parse_ip_address_spec `{InetPton, !InetPtonLaws} (text : bytes) :
  (is_Some (parse_ip_address text) <->
     1 <= length text <= 45 /\
     (is_Some (inet_pton4 (c_str text)) \/ is_Some (inet_pton6 (c_str text)))) /\
  (forall a, parse_ip_address text = Some a -> addr_ok a) /\
  (forall a addr4, parse_ip_address text = Some a -> inet_pton4 (c_str text) = Some addr4 ->
     storage a = Sin 0 addr4).
Proof.
  unfold parse_ip_address, kMaxAddrTextLen.
  assert (Hlen : (text == []) || (45 <? length text)%nat = negb ((1 <=? length text)%nat && (length text <=? 45)%nat)).
  { destruct text as [|c t]; [done|]. change ((c :: t) == []) with false. simpl. lia. }
  rewrite Hlen. destruct ((1 <=? length text)%nat && (length text <=? 45)%nat) eqn:E; simpl.
  - pose proof (inet_pton4_length (c_str text)) as L4.
    pose proof (inet_pton6_length (c_str text)) as L6.
    destruct (inet_pton4 (c_str text)) as [a4|] eqn:E4;
      [|destruct (inet_pton6 (c_str text)) as [a6|] eqn:E6].
    + split; [split; [intros _; split; [lia|eauto]|eauto]|]. split.
      * intros a [= <-]. simpl. repeat split; auto.
      * by intros a addr4 [= <-] [= <-].
    + split; [split; [intros _; split; [lia|eauto]|eauto]|]. split.
      * intros a [= <-]. simpl. repeat split; auto.
      * done.
    + split; [|done]. split; [by intros []|]. by intros (_ & [[]|[]]).
  - split; [|done]. split; [by intros []|]. lia.
Qed.

(** An instance: a dotted quad evaluated with the concrete [inet_pton]. *)
Example parse_ip_address_spec_witness :
  parse_ip_address #"8.8.8.8" = Some (mkParsedAddr (Sin 0 ["008"; "008"; "008"; "008"]%char) 16 AF_INET) /\
  addr_ok (mkParsedAddr (Sin 0 ["008"; "008"; "008"; "008"]%char) 16 AF_INET).
Proof.
  split; [by vm_compute|].
  apply (proj1 (proj2 (parse_ip_address_spec #"8.8.8.8"))). by vm_compute.
Defined.
