(* ===== verification/Http.v ===== *)
(** * HTTP: one request per connection (src/src/http.cpp, src/src/http.h)

    The bounded, timed read of a request head, the parser of the request line,
    query string and Accept header, content negotiation, and the serialiser
    of responses. *)

From S2P Require Import Prelude CLib TextUtil.
From Stdlib Require Import Ascii.

(** ** Data *)

Inductive ReadResult := ReadOk | ReadTooLarge | ReadConnectionClosed | ReadTimeout | ReadIoError.

Record HttpRequest := mkHttpRequest {
  method : bytes;
  path : bytes;
  query : list (bytes * bytes);
  accept : bytes;
}.

Inductive ResponseFormat := Json | Text | Prometheus.

#[export] Instance ResponseFormat_eq_dec : EqDecision ResponseFormat.
Proof. solve_decision. Defined.
#[export] Instance ReadResult_eq_dec : EqDecision ReadResult.
Proof. solve_decision. Defined.

Record HttpResponse := mkHttpResponse {
  status : Z;
  format : ResponseFormat;
  headers : list (bytes * bytes);
  body : bytes;
}.

Definition HttpResponse_default : HttpResponse := mkHttpResponse 200 Json [] [].

(** ** Percent decoding, trimming, case folding *)

Definition hex_val (h : ascii) : Z :=
  let n := Z.of_N (code h) in
  if (48 <=? n)%Z && (n <=? 57)%Z then n - 48
  else if (97 <=? n)%Z && (n <=? 102)%Z then n - 97 + 10
  else if (65 <=? n)%Z && (n <=? 70)%Z then n - 65 + 10
  else -1.

(** [static_cast<char>((hi << 4) | lo)] for nibbles [hi] and [lo]. *)
Definition nibbles (hi lo : Z) : ascii :=
  ascii_of_N (Z.to_N (Z.lor (Z.shiftl hi 4) lo)).

(** The loop of [percent_decode] from position [i] on, [in] being the rest. *)
Fixpoint percent_decode (in_ : bytes) : option bytes :=
  match in_ with
  | [] => Some []
  | c :: rest =>
      if c == "+"%char then cons SP <$> percent_decode rest
      else if c == "%"%char then
        match rest with
        | h :: l :: rest' =>
            let hi := hex_val h in
            let lo := hex_val l in
            if (hi <? 0)%Z || (lo <? 0)%Z then None
            else
              let decoded := nibbles hi lo in
              if decoded == NUL then None
              else cons decoded <$> percent_decode rest'
        | _ => None
        end
      else if (code c <? 32)%N || (c == DEL) then None
      else cons c <$> percent_decode rest
  end.

Definition trim_spaces (s : bytes) : bytes :=
  match find_first_not_of SP s with
  | None => []
  | Some start =>
      match find_last_not_of SP s with
      | None => []
      | Some end_ => substr s start (end_ - start + 1)
      end
  end.

Definition to_lower (s : bytes) : bytes := map tolower s.

(** ** Reading the head of a request *)

(** One turn of the read loop: the clock when it starts (nanoseconds), what
    [poll] answers, and what [recv] answers if it is called. *)
Inductive poll_result := PollReady | PollTimedOut | PollEintr | PollFailed.
Inductive recv_result := RecvData (d : bytes) | RecvClosed | RecvEintr | RecvFailed.
Record read_turn := mkTurn { now : Z; poll : poll_result; recv : recv_result }.

Definition recv_buffer : nat := 4096.
Definition ns_per_s : Z := 1000000000.
Definition ns_per_ms : Z := 1000000.

(** The wait passed to [poll]. *)
Definition remaining_ms (deadline now : Z) : Z := Z.quot (deadline - now) ns_per_ms.

(** The result, the buffer [out] and the waits passed to [poll]; [None] when
    the turns run out first, the call being still in progress. *)
Fixpoint read_loop (max_bytes : nat) (deadline : Z) (turns : list read_turn)
    (out : bytes) (waits : list Z) : option (ReadResult * bytes * list Z) :=
  match turns with
  | [] => None
  | t :: turns' =>
      if (deadline <=? now t)%Z then Some (ReadTimeout, out, waits)
      else
        let waits' := waits ++ [remaining_ms deadline (now t)] in
        match poll t with
        | PollTimedOut => Some (ReadTimeout, out, waits')
        | PollEintr => read_loop max_bytes deadline turns' out waits'
        | PollFailed => Some (ReadIoError, out, waits')
        | PollReady =>
            match recv t with
            | RecvClosed => Some (ReadConnectionClosed, out, waits')
            | RecvEintr => read_loop max_bytes deadline turns' out waits'
            | RecvFailed => Some (ReadIoError, out, waits')
            | RecvData d =>
                let out' := out ++ d in
                if (max_bytes <? length out')%nat then Some (ReadTooLarge, out', waits')
                else match find_str (CRLF ++ CRLF) out' with
                     | Some _ => Some (ReadOk, out', waits')
                     | None => read_loop max_bytes deadline turns' out' waits'
                     end
            end
        end
  end.

Definition read_http_head (max_bytes : nat) (timeout_seconds : Z) (start : Z) (turns : list read_turn) :=
  read_loop max_bytes (start + timeout_seconds * ns_per_s) turns [] [].

(** ** Parsing a request *)

(** The request line: method, target and version are the pieces at the first
    two spaces. *)
Definition parse_request_line (line : bytes) : option (bytes * bytes) :=
  match find_char SP line with
  | None => None
  | Some sp1 =>
      match find_char_from SP line (sp1 + 1) with
      | None => None
      | Some sp2 =>
          let method := substr line 0 sp1 in
          let target := substr line (sp1 + 1) (sp2 - sp1 - 1) in
          let version := substr_from line (sp2 + 1) in
          if negb (version == #"HTTP/1.1") && negb (version == #"HTTP/1.0") then None
          else if (method == []) || (target == []) || negb (char_at target 0 == "/"%char) then None
          else if forallb isupper method then Some (method, target) else None
      end
  end.

(** What a header line makes of the Accept value found so far. *)
Definition scan_header_line (header_line : bytes) (accept : bytes) : bytes :=
  match find_char ":"%char header_line with
  | None => accept
  | Some colon =>
      let name := to_lower (trim_spaces (substr header_line 0 colon)) in
      if name == #"accept" then trim_spaces (substr_from header_line (colon + 1)) else accept
  end.

(** The header loop; [None] when the fuel runs out. *)
Fixpoint scan_headers (fuel : nat) (raw : bytes) (header_pos : nat) (accept : bytes) : option bytes :=
  match fuel with
  | O => None
  | S f =>
      if (header_pos <? length raw)%nat then
        match find_str_from CRLF raw header_pos with
        | None => Some accept
        | Some next =>
            if next =? header_pos then Some accept
            else scan_headers f raw (next + 2)
                   (scan_header_line (substr raw header_pos (next - header_pos)) accept)
        end
      else Some accept
  end.

(** One non-empty piece of the query string. *)
Definition parse_pair (pair : bytes) : option (bytes * bytes) :=
  let '(k_enc, v_enc) :=
    match find_char "="%char pair with
    | None => (pair, [])
    | Some eq => (substr pair 0 eq, substr_from pair (eq + 1))
    end in
  match percent_decode k_enc, percent_decode v_enc with
  | Some k, Some v => Some (k, v)
  | _, _ => None
  end.

(** The query loop: the outer [None] is the fuel running out, the inner one
    the loop's [return false]. *)
Fixpoint parse_query (fuel : nat) (query_enc : bytes) (start : nat) (acc : list (bytes * bytes))
    : option (option (list (bytes * bytes))) :=
  match fuel with
  | O => None
  | S f =>
      if negb (query_enc == []) && (start <=? length query_enc)%nat then
        let amp := find_char_from "&"%char query_enc start in
        let pair := match amp with
                    | None => substr_from query_enc start
                    | Some a => substr query_enc start (a - start)
                    end in
        match (if pair == [] then Some acc
               else match parse_pair pair with Some kv => Some (acc ++ [kv]) | None => None end) with
        | None => Some None
        | Some acc' =>
            match amp with
            | None => Some (Some acc')
            | Some a => parse_query f query_enc (a + 1) acc'
            end
        end
      else Some (Some acc)
  end.

Definition parse_http_request (raw : bytes) : option HttpRequest :=
  match find_str CRLF raw with
  | None => None
  | Some line_end =>
      match parse_request_line (substr raw 0 line_end) with
      | None => None
      | Some (method, target) =>
          match scan_headers (S (length raw)) raw (line_end + 2) [] with
          | None => None
          | Some accept =>
              let qpos := find_char "?"%char target in
              let path_enc := match qpos with None => target | Some q => substr target 0 q end in
              let query_enc := match qpos with None => [] | Some q => substr_from target (q + 1) end in
              match percent_decode path_enc with
              | None => None
              | Some path =>
                  match parse_query (S (S (length query_enc))) query_enc 0 [] with
                  | Some (Some query) => Some (mkHttpRequest method path query accept)
                  | _ => None
                  end
              end
          end
      end
  end.

Fixpoint find_query_param (query : list (bytes * bytes)) (key : bytes) : option bytes :=
  match query with
  | [] => None
  | kv :: query' => if kv.1 == key then Some kv.2 else find_query_param query' key
  end.

(** ** Content negotiation *)

Definition contains (pat s : bytes) : bool :=
  match find_str pat s with Some _ => true | None => false end.

Definition negotiate_format (accept_header : bytes) : ResponseFormat :=
  let lower := to_lower accept_header in
  if contains #"application/json" lower then Json
  else if contains #"text/plain" lower then Text
  else Json.

Definition accept_wants_json (accept_header : bytes) : bool :=
  contains #"application/json" (to_lower accept_header).

(** ** Responses *)

Definition reason (status : Z) : bytes :=
  if (status =? 200)%Z then #"OK"
  else if (status =? 400)%Z then #"Bad Request"
  else if (status =? 404)%Z then #"Not Found"
  else if (status =? 405)%Z then #"Method Not Allowed"
  else if (status =? 500)%Z then #"Internal Server Error"
  else #"Unknown".

Definition content_type (f : ResponseFormat) : bytes :=
  match f with
  | Json => #"application/json"
  | Text => #"text/plain; charset=utf-8"
  | Prometheus => #"text/plain; version=0.0.4; charset=utf-8"
  end.

Definition header_line (h : bytes * bytes) : bytes := h.1 ++ #": " ++ h.2 ++ CRLF.

Definition build_http_response (resp : HttpResponse) (include_body : bool) : bytes :=
  #"HTTP/1.1 " ++ to_string (status resp) ++ #" " ++ reason (status resp) ++ CRLF ++
  (if include_body then #"Content-Type: " ++ content_type (format resp) ++ CRLF else []) ++
  #"Content-Length: " ++ dec_of_N (N.of_nat (length (body resp))) ++ CRLF ++
  #"Connection: close" ++ CRLF ++
  flat_map header_line (headers resp) ++
  CRLF ++
  (if include_body then body resp else []).

Definition make_error_response (status : Z) (message : bytes) (f : ResponseFormat) : HttpResponse :=
  mkHttpResponse status f []
    (match f with
     | Json => #j"{'error':'" ++ json_escape message ++ #j"'}"
     | _ => #"error=" ++ message ++ [LF]
     end).
