(* ===== verification/HttpSpec.v ===== *)
(** * HTTP: reference definitions and correctness of [Http]

    The query string, the header scan and the response text are compared with
    independent references: splitting at ['&'], the list of header lines, and
    a reader of HTTP heads.  Requests have a renderer, and parsing is its
    inverse.  The read loop is characterised for every sequence of clock,
    [poll] and [recv] answers. *)

From S2P Require Import Prelude CLib TextUtil Http.
From Stdlib Require Import Ascii.

(** ** References *)

(** Percent encoding: unreserved characters and ['/'] stay as they are. *)
Definition unreserved (c : ascii) : bool :=
  isdigit c || isupper c || ((97 <=? code c)%N && (code c <=? 122)%N) ||
  (c == "-"%char) || (c == "."%char) || (c == "_"%char) || (c == "~"%char) || (c == "/"%char).

Definition percent_encode_char (c : ascii) : bytes :=
  if unreserved c then [c] else ["%"%char; hex_digit (code c / 16); hex_digit (code c mod 16)].

Definition percent_encode (s : bytes) : bytes := flat_map percent_encode_char s.

(** The pairs of a query string: the non-empty pieces between ['&']s, each
    decoded. *)
Definition query_pairs (q : bytes) : option (list (bytes * bytes)) :=
  mapM parse_pair (filter (fun p => p <> []) (split_on "&"%char q)).

(** The complete lines of [s] before its first empty one. *)
Fixpoint header_lines (cur s : bytes) : list bytes :=
  match s with
  | [] => []
  | c :: s' =>
      match s' with
      | d :: s'' =>
          if (c == CR) && (d == LF) then
            match cur with [] => [] | _ => rev cur :: header_lines [] s'' end
          else header_lines (c :: cur) s'
      | [] => []
      end
  end.

(** Reads the head of an HTTP message: its lines up to the empty one, and
    what follows it. *)
Fixpoint read_head (cur : bytes) (s : bytes) : option (list bytes * bytes) :=
  match s with
  | [] => None
  | c :: s' =>
      match s' with
      | d :: s'' =>
          if (c == CR) && (d == LF) then
            match cur with
            | [] => Some ([], s'')
            | _ => match read_head [] s'' with
                   | Some (ls, rest) => Some (rev cur :: ls, rest)
                   | None => None
                   end
            end
          else read_head (c :: cur) s'
      | [] => None
      end
  end.

(** The text of a request with one header line. *)
Definition join (sep : ascii) (l : list bytes) : bytes :=
  match l with [] => [] | x :: l' => x ++ flat_map (fun y => sep :: y) l' end.

Definition render_pair (kv : bytes * bytes) : bytes :=
  percent_encode kv.1 ++ "="%char :: percent_encode kv.2.

Definition render_target (r : HttpRequest) : bytes :=
  percent_encode (path r) ++
  match query r with [] => [] | q => "?"%char :: join "&"%char (map render_pair q) end.

Definition render_request (r : HttpRequest) : bytes :=
  method r ++ SP :: render_target r ++ SP :: #"HTTP/1.1" ++ CRLF ++
  #"Accept: " ++ accept r ++ CRLF ++ CRLF.

Definition trimmed (s : bytes) : bool :=
  match s with [] => true | c :: _ => negb (c == SP) && negb (List.last s NUL == SP) end.

(** The requests that have a text. *)
Definition wf_request (r : HttpRequest) : bool :=
  negb (method r == []) && forallb isupper (method r) &&
  (match path r with c :: _ => c == "/"%char | [] => false end) &&
  forallb (fun c => negb (c == NUL)) (path r) &&
  forallb (fun kv => forallb (fun c => negb (c == NUL)) (kv.1 ++ kv.2)) (query r) &&
  trimmed (accept r) && forallb line_char (accept r).

(** ** Percent coding *)

Lemma percent_decode_encode_char c s :
  c <> NUL -> percent_decode (percent_encode_char c ++ s) = cons c <$> percent_decode s.
Proof. destruct c as [[] [] [] [] [] [] [] []]; intros; try reflexivity; done. Qed.

Lemma percent_decode_encode s t :
  Forall (fun c => c <> NUL) s -> percent_decode (percent_encode s ++ t) = app s <$> percent_decode t.
Proof.
  induction 1 as [|c s Hc _ IH]; simpl.
  - by destruct (percent_decode t).
  - rewrite <- app_assoc, percent_decode_encode_char, IH by done. by destruct (percent_decode t).
Qed.

(** Characters that never occur in percent-encoded text. *)
Definition encoded_char (c : ascii) : bool := unreserved c || (c == "%"%char).

Lemma percent_encode_chars s : Forall (fun c => encoded_char c = true) (percent_encode s).
Proof.
  apply Forall_flat_map, Forall_forall. intros c _.
  apply forallb_Forall_true. revert c. apply forall_chars. by vm_compute.
Qed.

Lemma percent_encode_absent c s : encoded_char c = false -> c ∉ percent_encode s.
Proof.
  intros Hc Hin. pose proof (percent_encode_chars s) as H. rewrite Forall_forall in H.
  specialize (H c Hin). simpl in H. congruence.
Qed.

(** What a decoded text holds: no NUL, and no more bytes than its encoding. *)
Lemma percent_decode_sound n s t :
  length s <= n -> percent_decode s = Some t -> (NUL ∉ t) /\ length t <= length s.
Proof.
  revert s t. induction n as [|n IH]; intros s t Hn H.
  { destruct s; [|simpl in Hn; lia]. injection H as <-. split; [apply not_elem_of_nil|done]. }
  assert (Hcons : forall c r u, length r <= n -> c <> NUL -> cons c <$> percent_decode r = Some u ->
            (NUL ∉ u) /\ length u <= S (length r)).
  { intros c r u Hr Hc Hu. destruct (percent_decode r) as [v|] eqn:E; simpl in Hu; [|done].
    injection Hu as <-. destruct (IH r v Hr E) as [Hv Hl]. split; [|simpl; lia].
    apply not_elem_of_cons. by split. }
  destruct s as [|c rest]; [injection H as <-; split; [apply not_elem_of_nil|done]|].
  simpl in Hn, H. destruct (c == "+"%char) eqn:E1; [apply (Hcons SP rest); [lia|done|done]|].
  destruct (c == "%"%char) eqn:E2.
  - destruct rest as [|h [|l rest']]; [done|done|]. simpl in Hn.
    destruct ((hex_val h <? 0)%Z || (hex_val l <? 0)%Z); [done|].
    destruct (nibbles (hex_val h) (hex_val l) == NUL) eqn:E3; [done|].
    apply bool_decide_eq_false in E3.
    destruct (Hcons _ rest' t ltac:(lia) E3 H). split; [done|simpl; lia].
  - destruct ((code c <? 32)%N || (c == DEL)) eqn:E3; [done|].
    apply (Hcons c rest); [lia| |done]. by intros ->.
Qed.

(** ** The query loop is splitting at ['&'] *)

Lemma parse_query_loop fuel q start acc :
  q <> [] -> start <= length q -> length q < fuel + start ->
  parse_query fuel q start acc =
  Some (app acc <$> mapM parse_pair (filter (fun p => p <> []) (split_on "&"%char (drop start q)))).
Proof.
  intros Hq. revert start acc. induction fuel as [|f IH]; intros start acc Hs Hf; [lia|].
  cbn [parse_query]. rewrite bool_decide_neq by done.
  replace (start <=? length q)%nat with true by lia. cbn [negb andb].
  unfold find_char_from, substr_from, substr.
  destruct (find_char "&"%char (drop start q)) as [i|] eqn:E; cbn [fmap option_fmap option_map].
  - destruct (find_char_Some _ _ _ E) as (Hsplit & Hn & Hi). rewrite length_drop in Hi.
    replace (start + i - start) with i by lia.
    assert (Hd : split_on "&"%char (drop start q) =
                 take i (drop start q) :: split_on "&"%char (drop (S i) (drop start q))).
    { rewrite <- (split_on_hit _ _ _ Hn). by f_equal. }
    rewrite Hd, drop_drop. replace (start + S i) with (start + i + 1) by lia.
    set (p := take i (drop start q)). case_bool_decide as Hp.
    + rewrite Hp, filter_cons_False by (intros ?; done). apply IH; lia.
    + rewrite filter_cons_True by done. cbn [mapM]. destruct (parse_pair p) as [kv|]; simpl; [|done].
      rewrite IH by lia. destruct (mapM _ _); simpl; [|done]. by rewrite <- app_assoc.
  - apply find_char_None in E. rewrite split_on_absent by done.
    case_bool_decide as Hp.
    + rewrite Hp, filter_cons_False by (intros ?; done). simpl. by rewrite app_nil_r.
    + rewrite filter_cons_True by done. simpl. by destruct (parse_pair _).
Qed.

Lemma parse_query_pairs q : parse_query (S (S (length q))) q 0 [] = Some (query_pairs q).
Proof.
  unfold query_pairs. destruct (decide (q = [])) as [->|Hq]; [done|].
  rewrite parse_query_loop by (done || lia). rewrite drop_0.
  by destruct (mapM _ _).
Qed.

(** ** The header loop goes through the header lines *)

Lemma header_lines_cons cur c d s :
  header_lines cur (c :: d :: s) =
  if (c == CR) && (d == LF)
  then match cur with [] => [] | _ => rev cur :: header_lines [] s end
  else header_lines (c :: cur) (d :: s).
Proof. done. Qed.

Lemma find_crlf_cons c d s :
  find_str CRLF (c :: d :: s) =
  if (c == CR) && (d == LF) then Some 0 else S <$> find_str CRLF (d :: s).
Proof.
  assert (Hsw : (CR == c) && ((LF == d) && true) = (c == CR) && (d == LF)).
  { rewrite andb_true_r. f_equal; by apply bool_decide_ext. }
  rewrite <- Hsw. done.
Qed.

Lemma header_lines_find cur s :
  header_lines cur s =
  match find_str CRLF s with
  | None => []
  | Some i => match rev cur ++ take i s with
              | [] => []
              | l => l :: header_lines [] (drop (i + 2) s)
              end
  end.
Proof.
  revert cur. induction s as [|c s IH]; intros cur; [done|].
  destruct s as [|d s]; [simpl; by destruct (bool_decide _)|].
  rewrite header_lines_cons, find_crlf_cons. destruct ((c == CR) && (d == LF)) eqn:E.
  - cbn [take drop Nat.add]. rewrite app_nil_r.
    destruct cur as [|x cur]; [done|]. simpl. by destruct (rev cur ++ [x]) eqn:Ex; [destruct (rev cur)|].
  - rewrite IH.
    destruct (find_str CRLF (d :: s)) as [i|]; [|done].
    cbn [fmap option_fmap option_map take drop Nat.add rev]. by rewrite <- app_assoc.
Qed.

Definition scan_lines (ls : list bytes) (acc : bytes) : bytes :=
  fold_left (fun a l => scan_header_line l a) ls acc.

Lemma find_str_nil pat : pat <> [] -> find_str pat [] = None.
Proof. by destruct pat. Qed.

Lemma scan_headers_loop fuel raw pos acc :
  length raw - pos < fuel ->
  scan_headers fuel raw pos acc = Some (scan_lines (header_lines [] (drop pos raw)) acc).
Proof.
  revert pos acc. induction fuel as [|f IH]; intros pos acc Hf; [lia|simpl].
  rewrite header_lines_find. cbn [rev app]. unfold find_str_from, substr.
  destruct (pos <? length raw)%nat eqn:E.
  - replace (length raw <? pos)%nat with false by lia.
    destruct (find_str CRLF (drop pos raw)) as [i|] eqn:Ef; cbn [fmap option_fmap option_map]; [|done].
    destruct (find_str_Some _ _ _ Ef) as (t & Ht & Hi). rewrite length_drop in Hi.
    replace (pos + i - pos) with i by lia.
    destruct i as [|i]; [rewrite Nat.add_0_r, Nat.eqb_refl; done|].
    replace (pos + S i =? pos)%nat with false by lia.
    rewrite IH by lia. rewrite drop_drop. replace (pos + (S i + 2)) with (pos + S i + 2) by lia.
    destruct (take (S i) (drop pos raw)) as [|x l] eqn:Etk; [|done].
    apply (f_equal length) in Etk. rewrite length_take, length_drop in Etk. cbn [length] in Etk. lia.
  - rewrite drop_ge by lia. done.
Qed.

(** ** [trim_spaces] strips the spaces *)

Lemma find_first_not_of_drop c s :
  drop_while (fun d => d == c) s =
  match find_first_not_of c s with Some i => drop i s | None => [] end.
Proof.
  induction s as [|d s IH]; simpl; [done|]. destruct (d == c); [|done].
  rewrite IH. by destruct (find_first_not_of c s).
Qed.

Lemma drop_while_snoc P s c :
  drop_while P (s ++ [c]) =
  match drop_while P s with [] => drop_while P [c] | l => l ++ [c] end.
Proof. induction s as [|d s IH]; [done|]. simpl. destruct (P d); [done|]. done. Qed.

Lemma rev_drop_while_last P s :
  rev (drop_while P (rev s)) =
  match find_last_sat (fun d => negb (P d)) s with Some i => take (S i) s | None => [] end.
Proof.
  induction s as [|c s IH]; [done|]. simpl rev. rewrite drop_while_snoc. simpl find_last_sat.
  destruct (find_last_sat _ s) as [i|] eqn:Ef;
    destruct (drop_while P (rev s)) as [|x l]; simpl in IH.
  - destruct s; [done|]. by apply (f_equal length) in IH.
  - simpl. rewrite rev_app_distr. simpl. f_equal. by rewrite <- IH.
  - simpl. by destruct (P c).
  - by destruct (rev l).
Qed.

Lemma find_last_sat_drop P s n i :
  find_last_sat P s = Some i -> n <= i -> find_last_sat P (drop n s) = Some (i - n).
Proof.
  revert s i. induction n as [|n IH]; intros s i H Hi; [by rewrite drop_0, Nat.sub_0_r|].
  destruct s as [|c s]; [done|]. simpl in *.
  destruct (find_last_sat P s) as [j|] eqn:E.
  - injection H as <-. rewrite (IH s j E) by lia. f_equal; lia.
  - destruct (P c); [|done]. injection H as <-. lia.
Qed.

Lemma find_first_last_not_of c s i :
  find_first_not_of c s = Some i -> exists j, find_last_not_of c s = Some j /\ i <= j.
Proof.
  unfold find_last_not_of. revert i. induction s as [|d s IH]; intros i; simpl; [done|].
  destruct (d == c) eqn:E; simpl.
  - destruct (find_first_not_of c s) as [k|]; [|done]. intros [= <-].
    destruct (IH k eq_refl) as (j & -> & Hj). exists (S j). split; [done|lia].
  - intros [= <-]. destruct (find_last_sat _ s) as [j|]; [exists (S j)|exists 0]; (split; [done|lia]).
Qed.

Lemma trim_spaces_strip s : trim_spaces s = strip (fun c => c == SP) s.
Proof.
  unfold trim_spaces, strip. rewrite (find_first_not_of_drop SP s).
  destruct (find_first_not_of SP s) as [i|] eqn:E; [|done].
  destruct (find_first_last_not_of _ _ _ E) as (j & Hj & Hij). rewrite Hj.
  rewrite rev_drop_while_last. unfold find_last_not_of in Hj.
  rewrite (find_last_sat_drop _ _ i j) by done. unfold substr. f_equal. lia.
Qed.

Lemma drop_while_head P c s : P c = false -> drop_while P (c :: s) = c :: s.
Proof. intros H. simpl. by rewrite H. Qed.

Lemma trim_spaces_trimmed s : trimmed s = true -> trim_spaces (SP :: s) = s.
Proof.
  rewrite trim_spaces_strip. destruct s as [|c s]; [done|]. intros [Hc Hl]%andb_true_iff.
  apply negb_true_iff in Hc, Hl. unfold strip.
  change (drop_while (fun d => d == SP) (SP :: c :: s)) with (drop_while (fun d => d == SP) (c :: s)).
  rewrite drop_while_head by done.
  destruct (exists_last (l := c :: s)) as (t & x & Hx); [done|]. rewrite Hx in *.
  rewrite last_last in Hl. rewrite rev_app_distr. cbn [rev app].
  rewrite drop_while_head by done. cbn [rev]. by rewrite rev_involutive.
Qed.

(** ** Rendered requests *)

Lemma method_chars m : forallb isupper m = true -> (SP ∉ m) /\ (CR ∉ m).
Proof.
  intros H. apply forallb_Forall_true in H. rewrite Forall_forall in H.
  split; intros Hin; by specialize (H _ Hin).
Qed.

Lemma render_target_absent c r :
  encoded_char c = false -> c <> "?"%char -> c <> "="%char -> c <> "&"%char -> c ∉ render_target r.
Proof.
  intros Hc H1 H2 H3. unfold render_target. rewrite elem_of_app. intros [Hin|Hin].
  { by eapply percent_encode_absent. }
  assert (Hp : forall kv, c ∉ render_pair kv).
  { intros kv. unfold render_pair. rewrite elem_of_app, elem_of_cons.
    intros [Hk|[Hk|Hk]]; [by eapply percent_encode_absent|done|by eapply percent_encode_absent]. }
  destruct (query r) as [|kv q]; [by apply elem_of_nil in Hin|].
  apply elem_of_cons in Hin as [Hin|Hin]; [done|]. simpl in Hin.
  apply elem_of_app in Hin as [Hin|Hin]; [by eapply Hp|].
  induction q as [|kv' q IH]; simpl in Hin; [by apply elem_of_nil in Hin|].
  apply elem_of_cons in Hin as [Hin|Hin]; [done|].
  apply elem_of_app in Hin as [Hin|Hin]; [by eapply Hp|auto].
Qed.

Lemma substr_app_l s1 s2 : substr (s1 ++ s2) 0 (length s1) = s1.
Proof. apply take_app_length. Qed.

Lemma parse_request_line_render m t :
  m <> [] -> forallb isupper m = true -> SP ∉ t -> char_at t 0 = "/"%char ->
  parse_request_line (m ++ SP :: t ++ SP :: #"HTTP/1.1") = Some (m, t).
Proof.
  intros Hm Hu Ht Hs. destruct (method_chars m Hu) as [Hsp _].
  unfold parse_request_line. rewrite find_char_hit by done.
  unfold find_char_from, substr_from. rewrite <- drop_drop, drop_app_length. cbn [drop].
  rewrite drop_0, find_char_hit by done. cbn [fmap option_fmap option_map].
  replace (length m + 1 + length t - length m - 1) with (length t) by lia.
  rewrite substr_app_l. unfold substr.
  assert (Hd1 : drop (length m + 1) (m ++ SP :: t ++ SP :: #"HTTP/1.1") = t ++ SP :: #"HTTP/1.1").
  { by rewrite <- drop_drop, drop_app_length. }
  assert (Hd2 : drop (length m + 1 + length t + 1) (m ++ SP :: t ++ SP :: #"HTTP/1.1") = #"HTTP/1.1").
  { by rewrite <- drop_drop, <- drop_drop, Hd1, drop_app_length. }
  rewrite Hd1, Hd2, take_app_length, Hs, Hu, !bool_decide_refl.
  rewrite (bool_decide_neq m) by done. rewrite (bool_decide_neq t) by by intros ->. done.
Qed.

Lemma scan_accept_line a :
  trimmed a = true -> scan_header_line (#"Accept: " ++ a) [] = a.
Proof.
  intros Ha. unfold scan_header_line.
  change (#"Accept: " ++ a) with (#"Accept" ++ ":"%char :: SP :: a).
  rewrite find_char_hit by by apply (bool_decide_eq_true_1 (":"%char ∉ #"Accept")); vm_compute.
  rewrite substr_app_l. unfold substr_from. rewrite <- drop_drop, drop_app_length.
  by apply trim_spaces_trimmed.
Qed.

Lemma line_char_absent s : forallb line_char s = true -> CR ∉ s.
Proof.
  intros H Hin. apply forallb_Forall_true in H. rewrite Forall_forall in H. by specialize (H _ Hin).
Qed.

Lemma header_lines_one l rest :
  l <> [] -> CR ∉ l -> header_lines [] (l ++ CRLF ++ CRLF ++ rest) = [l].
Proof.
  intros Hl Hn. rewrite header_lines_find, find_crlf_hit by done. cbn [rev app].
  rewrite take_app_length. destruct l as [|c l]; [done|]. f_equal.
  rewrite <- drop_drop, drop_app_length. by rewrite header_lines_find.
Qed.

Lemma split_on_join c x l :
  c ∉ x -> Forall (fun y => c ∉ y) l -> split_on c (join c (x :: l)) = x :: l.
Proof.
  simpl. intros Hx Hl. revert x Hx. induction Hl as [|y l Hy Hl IH]; intros x Hx; simpl.
  - rewrite app_nil_r. by apply split_on_absent.
  - rewrite split_on_hit by done. f_equal. by apply IH.
Qed.

Lemma render_pair_no_amp kv : "&"%char ∉ render_pair kv.
Proof.
  unfold render_pair. rewrite elem_of_app, elem_of_cons.
  intros [H|[H|H]]; [|done|]; revert H; by apply percent_encode_absent.
Qed.

Lemma no_nul_Forall s : forallb (fun c => negb (c == NUL)) s = true -> Forall (fun c => c <> NUL) s.
Proof.
  intros H. apply forallb_Forall_true in H. apply (Forall_impl _ _ _ H). simpl.
  intros c Hc. by apply negb_true_iff, bool_decide_eq_false in Hc.
Qed.

Lemma percent_decode_encode_all s :
  forallb (fun c => negb (c == NUL)) s = true -> percent_decode (percent_encode s) = Some s.
Proof.
  intros H. rewrite <- (app_nil_r (percent_encode s)), percent_decode_encode by by apply no_nul_Forall.
  simpl. by rewrite app_nil_r.
Qed.

Lemma parse_pair_render kv :
  forallb (fun c => negb (c == NUL)) (kv.1 ++ kv.2) = true -> parse_pair (render_pair kv) = Some kv.
Proof.
  rewrite forallb_app. intros [H1 H2]%andb_true_iff. unfold parse_pair, render_pair.
  rewrite find_char_hit by by apply percent_encode_absent. rewrite substr_app_l. unfold substr_from.
  rewrite <- drop_drop, drop_app_length. cbn [drop]. rewrite drop_0.
  rewrite !percent_decode_encode_all by done. by destruct kv.
Qed.

Lemma query_pairs_render q :
  forallb (fun kv => forallb (fun c => negb (c == NUL)) (kv.1 ++ kv.2)) q = true ->
  q <> [] -> query_pairs (join "&"%char (map render_pair q)) = Some q.
Proof.
  intros H Hq. unfold query_pairs. destruct q as [|kv q]; [done|].
  change (map render_pair (kv :: q)) with (render_pair kv :: map render_pair q).
  rewrite split_on_join; [|apply render_pair_no_amp|].
  2: { apply Forall_forall. intros y Hy. apply list_elem_of_In, in_map_iff in Hy as (kv' & <- & _).
       apply render_pair_no_amp. }
  change (render_pair kv :: map render_pair q) with (map render_pair (kv :: q)).
  clear Hq. induction (kv :: q) as [|x l IH]; [done|]. simpl in H. apply andb_true_iff in H as [Hx Hl].
  cbn [map]. rewrite filter_cons_True by by unfold render_pair; destruct (percent_encode x.1).
  cbn [mapM]. rewrite parse_pair_render by done. simpl. by rewrite IH.
Qed.

Lemma find_question_target r :
  find_char "?"%char (render_target r) =
  match query r with [] => None | _ => Some (length (percent_encode (path r))) end.
Proof.
  assert (Hn : "?"%char ∉ percent_encode (path r)) by by apply percent_encode_absent.
  unfold render_target. destruct (query r) as [|kv q].
  - rewrite app_nil_r. by apply find_char_None.
  - by apply find_char_hit.
Qed.

(** ** Parsing inverts rendering *)

Lemma parse_target_render r :
  wf_request r = true ->
  let t := render_target r in
  let qpos := find_char "?"%char t in
  percent_decode (match qpos with None => t | Some q => substr t 0 q end) = Some (path r) /\
  query_pairs (match qpos with None => [] | Some q => substr_from t (q + 1) end) = Some (query r).
Proof.
  intros Hwf. cbv zeta. unfold wf_request in Hwf. rewrite !andb_true_iff in Hwf.
  destruct Hwf as ((((((_ & _) & _) & Hp) & Hq) & _) & _).
  rewrite find_question_target. unfold render_target.
  destruct (query r) as [|kv q].
  - rewrite app_nil_r. by rewrite percent_decode_encode_all.
  - rewrite substr_app_l, percent_decode_encode_all by done. split; [done|].
    unfold substr_from. rewrite <- drop_drop, drop_app_length. cbn [drop]. rewrite drop_0.
    by apply query_pairs_render.
Qed.

Lemma render_target_slash r : wf_request r = true -> char_at (render_target r) 0 = "/"%char.
Proof.
  unfold wf_request. rewrite !andb_true_iff. intros ((((((_ & _) & H) & _) & _) & _) & _).
  unfold render_target. destruct (path r) as [|c p]; [done|]. by apply bool_decide_eq_true in H as ->.
Qed.

Lemma parse_render_request r : wf_request r = true -> parse_http_request (render_request r) = Some r.
Proof.
  intros Hwf. pose proof (parse_target_render r Hwf) as [Hpath Hquery].
  pose proof (render_target_slash r Hwf) as Hslash.
  unfold wf_request in Hwf. rewrite !andb_true_iff in Hwf.
  destruct Hwf as ((((((Hm & Hu) & _) & _) & _) & Ht) & Hl).
  apply negb_true_iff, bool_decide_eq_false in Hm.
  destruct (method_chars _ Hu) as [_ Hmcr].
  set (line := method r ++ SP :: render_target r ++ SP :: #"HTTP/1.1").
  assert (Hraw : render_request r = line ++ CRLF ++ (#"Accept: " ++ accept r) ++ CRLF ++ CRLF ++ []).
  { unfold render_request, line. rewrite app_nil_r. by repeat (rewrite <- app_assoc; simpl). }
  assert (Hcr : CR ∉ line).
  { unfold line. rewrite elem_of_app, elem_of_cons, elem_of_app, elem_of_cons.
    intros [H|[H|[H|[H|H]]]]; [done|done| |done|].
    - by apply render_target_absent in H.
    - revert H. by apply (bool_decide_eq_true_1 (CR ∉ #"HTTP/1.1")); vm_compute. }
  unfold parse_http_request. rewrite Hraw, find_crlf_hit by done.
  rewrite substr_app_l. unfold line at 1. rewrite parse_request_line_render; [|done|done| |done].
  2: by apply render_target_absent.
  rewrite scan_headers_loop by lia.
  rewrite <- drop_drop, drop_app_length. change (drop 2 (CRLF ++ ?x)) with x. rewrite header_lines_one.
  - cbn [scan_lines fold_left]. rewrite scan_accept_line by done. rewrite Hpath.
    rewrite parse_query_pairs, Hquery. by destruct r.
  - by destruct (accept r).
  - rewrite elem_of_app. intros [H|H]; [|by eapply line_char_absent].
    revert H. by apply (bool_decide_eq_true_1 (CR ∉ #"Accept: ")); vm_compute.
Qed.

(** ** What an accepted request looks like *)

Lemma parse_request_line_inv line m t :
  parse_request_line line = Some (m, t) ->
  m <> [] /\ forallb isupper m = true /\ (SP ∉ t) /\ char_at t 0 = "/"%char /\ t <> [] /\
  exists v, (v = #"HTTP/1.1" \/ v = #"HTTP/1.0") /\ line = m ++ SP :: t ++ SP :: v.
Proof.
  unfold parse_request_line.
  destruct (find_char SP line) as [i|] eqn:E1; [|done].
  destruct (find_char_Some _ _ _ E1) as (H1 & Hn1 & Hl1).
  unfold find_char_from. destruct (find_char SP (drop (i + 1) line)) as [j|] eqn:E2; [|done].
  destruct (find_char_Some _ _ _ E2) as (H2 & Hn2 & Hl2).
  cbn [fmap option_fmap option_map]. unfold substr, substr_from. rewrite drop_0.
  replace (i + 1 + j - i - 1) with j by lia.
  set (m' := take i line). set (t' := take j (drop (i + 1) line)).
  set (v := drop (i + 1 + j + 1) line).
  destruct (negb (v == #"HTTP/1.1") && negb (v == #"HTTP/1.0")) eqn:Ev; [done|].
  destruct ((m' == []) || (t' == []) || negb (char_at t' 0 == "/"%char)) eqn:Eo; [done|].
  destruct (forallb isupper m') eqn:Eu; [|done]. intros [= <- <-].
  rewrite !orb_false_iff, negb_false_iff, !bool_decide_eq_false, bool_decide_eq_true in Eo.
  destruct Eo as ((Hm & Ht) & Hs). repeat split; try done. exists v. split.
  - rewrite andb_false_iff, !negb_false_iff, !bool_decide_eq_true in Ev. done.
  - rewrite H1 at 1. fold m'. f_equal. f_equal. replace (S i) with (i + 1) by lia.
    rewrite H2 at 1. fold t'. f_equal. f_equal. rewrite drop_drop. unfold v. f_equal. lia.
Qed.

Lemma mapM_parse_pair_no_nul l q :
  mapM parse_pair l = Some q -> Forall (fun kv => (NUL ∉ kv.1) /\ (NUL ∉ kv.2)) q.
Proof.
  revert q. induction l as [|p l IH]; intros q; simpl; [intros [= <-]; constructor|].
  destruct (parse_pair p) as [kv|] eqn:Ep; simpl; [|done].
  destruct (mapM parse_pair l) as [q'|]; simpl; [|done]. intros [= <-].
  constructor; [|by apply IH]. unfold parse_pair in Ep.
  destruct (find_char "="%char p) as [e|];
    destruct (percent_decode _) as [k|] eqn:Ek in Ep; try done;
    destruct (percent_decode _) as [v|] eqn:Ev in Ep; try done; injection Ep as <-;
    split; by eapply percent_decode_sound.
Qed.

Lemma percent_decode_slash s p : percent_decode ("/"%char :: s) = Some p -> exists p', p = "/"%char :: p'.
Proof. simpl. destruct (percent_decode s) as [q|]; [|done]. intros [= <-]. eauto. Qed.

Lemma path_enc_slash t :
  t <> [] -> char_at t 0 = "/"%char ->
  exists s, match find_char "?"%char t with None => t | Some q => substr t 0 q end = "/"%char :: s.
Proof.
  intros Ht Hs. destruct t as [|c t]; [done|]. change (char_at (c :: t) 0) with c in Hs. subst c.
  change (find_char "?"%char ("/"%char :: t)) with (S <$> find_char "?"%char t).
  destruct (find_char _ t) as [q|]; simpl; [|eauto]. unfold substr. simpl. eauto.
Qed.

(** A position that was found is the first. *)
Lemma find_str_first pat s i a b : find_str pat s = Some i -> s = a ++ pat ++ b -> i <= length a.
Proof.
  revert i a. induction s as [|c s IH]; intros i a; cbn [find_str].
  - destruct (starts_with pat []); [|done]. intros [= <-] _. lia.
  - destruct (starts_with pat (c :: s)) eqn:E; [intros [= <-] _; lia|].
    destruct (find_str pat s) as [j|]; [|done]. intros [= <-]. destruct a as [|x a]; cbn; intros Hs.
    + rewrite Hs, starts_with_app in E. done.
    + injection Hs as -> Hs. specialize (IH j a eq_refl Hs). lia.
Qed.

(** A request target: the encoded path, and behind a question mark the encoded query. *)
Definition target_of (path_enc query_enc target : bytes) : Prop :=
  ("?"%char ∉ path_enc) /\ ((target = path_enc /\ query_enc = []) \/ target = path_enc ++ "?"%char :: query_enc).

Lemma target_split target :
  target_of (match find_char "?"%char target with None => target | Some q => substr target 0 q end)
    (match find_char "?"%char target with None => [] | Some q => substr_from target (q + 1) end) target.
Proof.
  destruct (find_char "?"%char target) as [q|] eqn:E.
  - destruct (find_char_Some _ _ _ E) as (Ht & Hn & _). unfold substr, substr_from. rewrite drop_0. split; [done|]. right.
    by replace (q + 1) with (S q) by lia.
  - split; [by apply find_char_None|by left].
Qed.

(** What an accepted request is made of. *)
Definition made_of (raw : bytes) (req : HttpRequest) (target version rest path_enc query_enc : bytes) : Prop :=
  let line := method req ++ SP :: target ++ SP :: version in
  raw = line ++ CRLF ++ rest /\ (forall a b, line <> a ++ CRLF ++ b) /\
  (version = #"HTTP/1.1" \/ version = #"HTTP/1.0") /\
  method req <> [] /\ forallb isupper (method req) = true /\
  (SP ∉ target) /\ (exists t, target = "/"%char :: t) /\
  target_of path_enc query_enc target /\
  percent_decode path_enc = Some (path req) /\ query_pairs query_enc = Some (query req) /\
  accept req = scan_lines (header_lines [] rest) [].

Lemma parse_http_request_inv raw req : parse_http_request raw = Some req ->
  exists target version rest path_enc query_enc, made_of raw req target version rest path_enc query_enc.
Proof.
  unfold parse_http_request. destruct (find_str CRLF raw) as [le|] eqn:Ele; [|done].
  destruct (find_str_Some _ _ _ Ele) as (rest & Hraw & Hle).
  unfold substr at 1. rewrite drop_0.
  destruct (parse_request_line (take le raw)) as [[m t]|] eqn:El; [|done].
  destruct (parse_request_line_inv _ _ _ El) as (Hm & Hu & Hsp & Hs & Ht & v & Hv & Hline).
  rewrite scan_headers_loop by lia.
  pose proof (target_split t) as Htarget. set (pe := match find_char _ t with None => t | _ => _ end) in *.
  set (qe := match find_char _ t with None => [] | _ => _ end) in *.
  destruct (percent_decode pe) as [p|] eqn:Ep; [|done].
  rewrite parse_query_pairs. destruct (query_pairs qe) as [q|] eqn:Eq; [|done].
  intros [= <-]. exists t, v, rest, pe, qe. unfold made_of. cbn [method path query accept]. rewrite <- Hline.
  split; [done|]. split; [|split; [done|split; [done|split; [done|split; [done|split; [|split; [done|split; [done|split; [done|]]]]]]]]].
  - intros a b Hab. rewrite Hab, <- !app_assoc in Hraw. pose proof (find_str_first _ _ _ _ _ Ele Hraw) as Hf.
    apply (f_equal length) in Hab. rewrite length_app, length_take in Hab. change (length (CRLF ++ b)) with (S (S (length b))) in Hab. lia.
  - destruct t as [|c t]; [done|]. change (char_at (c :: t) 0) with c in Hs. subst c. by exists t.
  - f_equal. f_equal. rewrite Hraw at 1. rewrite <- drop_drop, drop_app_length'; [done|]. rewrite length_take. lia.
Qed.

(** What follows for the decoded parts. *)
Lemma made_of_decoded raw req target version rest path_enc query_enc : made_of raw req target version rest path_enc query_enc ->
  (exists p, path req = "/"%char :: p) /\ (NUL ∉ path req) /\ Forall (fun kv => (NUL ∉ kv.1) /\ (NUL ∉ kv.2)) (query req).
Proof.
  intros (_ & _ & _ & _ & _ & _ & [t ->] & [Hq Ht] & Hp & Hqs & _). split; [|split].
  - destruct path_enc as [|c pe]; [by destruct Ht as [[? _]|[=]]|].
    destruct Ht as [[[= <- _] _]|[= <- _]]; by eapply percent_decode_slash.
  - by eapply percent_decode_sound.
  - by eapply mapM_parse_pair_no_nul.
Qed.

(** ** The read loop *)

(** [recv] is asked for at most [recv_buffer] bytes and data is never empty. *)
Definition wf_turn (t : read_turn) : bool :=
  match recv t with RecvData d => (1 <=? length d)%nat && (length d <=? recv_buffer)%nat | _ => true end.

(** The bytes a turn adds to the buffer. *)
Definition turn_data (t : read_turn) : bytes :=
  match poll t, recv t with PollReady, RecvData d => d | _, _ => [] end.

Definition delivers (t : read_turn) : bool :=
  match poll t, recv t with PollReady, RecvData _ => true | _, _ => false end.

Definition head_complete (s : bytes) : bool := contains (CRLF ++ CRLF) s.

(** What each result says of the buffer. *)
Definition read_outcome (max_bytes : nat) (r : ReadResult) (out : bytes) : Prop :=
  match r with
  | ReadOk => length out <= max_bytes /\ head_complete out = true
  | ReadTooLarge => max_bytes < length out <= max_bytes + recv_buffer
  | _ => length out <= max_bytes /\ head_complete out = false
  end.

(** One turn of the loop either ends the call or goes on with more data. *)
Inductive turn_effect (max_bytes : nat) (t : read_turn) (out : bytes) : ReadResult * bytes + bytes -> Prop :=
| Turn_stop r :
    r <> ReadOk -> r <> ReadTooLarge -> turn_effect max_bytes t out (inl (r, out))
| Turn_large d :
    turn_data t = d -> delivers t = true -> max_bytes < length (out ++ d) ->
    turn_effect max_bytes t out (inl (ReadTooLarge, out ++ d))
| Turn_ok d :
    turn_data t = d -> length (out ++ d) <= max_bytes -> head_complete (out ++ d) = true ->
    turn_effect max_bytes t out (inl (ReadOk, out ++ d))
| Turn_more d :
    turn_data t = d -> length (out ++ d) <= max_bytes -> head_complete (out ++ d) = false ->
    delivers t = true -> turn_effect max_bytes t out (inr (out ++ d))
| Turn_again :
    turn_data t = [] -> delivers t = false -> turn_effect max_bytes t out (inr out).

Lemma read_loop_turn max_bytes deadline t turns out waits :
  exists e w, turn_effect max_bytes t out e /\
  read_loop max_bytes deadline (t :: turns) out waits =
  match e with
  | inl (r, out') => Some (r, out', w)
  | inr out' => read_loop max_bytes deadline turns out' w
  end /\
  ((deadline <= now t)%Z -> exists re, e = inl re) /\
  (w = waits \/ ((now t < deadline)%Z /\ w = waits ++ [remaining_ms deadline (now t)])).
Proof.
  assert (Htd : turn_data t = match poll t, recv t with PollReady, RecvData d => d | _, _ => [] end) by done.
  assert (Hdl : delivers t = match poll t, recv t with PollReady, RecvData _ => true | _, _ => false end) by done.
  cbn [read_loop]. destruct (deadline <=? now t)%Z eqn:Ed.
  { exists (inl (ReadTimeout, out)), waits. split; [by constructor|]. eauto. }
  set (w := waits ++ [remaining_ms deadline (now t)]).
  assert (Hw : w = waits \/ ((now t < deadline)%Z /\ w = waits ++ [remaining_ms deadline (now t)])) by (right; split; [lia|done]).
  assert (Hd : forall e : ReadResult * bytes + bytes, (deadline <= now t)%Z -> exists re, e = inl re) by (intros; exfalso; lia).
  destruct (poll t).
  - destruct (recv t) as [d| | |].
    + destruct (max_bytes <? length (out ++ d))%nat eqn:El;
        [|destruct (find_str (CRLF ++ CRLF) (out ++ d)) eqn:Ef].
      * exists (inl (ReadTooLarge, out ++ d)), w. split; [apply Turn_large; [done|done|lia]|auto].
      * exists (inl (ReadOk, out ++ d)), w. split; [apply Turn_ok; [done|lia|]|auto].
        unfold head_complete, contains. by rewrite Ef.
      * exists (inr (out ++ d)), w. split; [apply Turn_more; [done|lia| |done]|auto].
        unfold head_complete, contains. by rewrite Ef.
    + exists (inl (ReadConnectionClosed, out)), w. split; [by constructor|auto].
    + exists (inr out), w. split; [by constructor|auto].
    + exists (inl (ReadIoError, out)), w. split; [by constructor|auto].
  - exists (inl (ReadTimeout, out)), w. split; [by constructor|auto].
  - exists (inr out), w. split; [by constructor|auto].
  - exists (inl (ReadIoError, out)), w. split; [by constructor|auto].
Qed.

Lemma wf_turn_data t : wf_turn t = true -> length (turn_data t) <= recv_buffer.
Proof.
  unfold wf_turn, turn_data. destruct (poll t), (recv t); cbn [length]; lia.
Qed.

Lemma delivers_data t : wf_turn t = true -> delivers t = true -> 1 <= length (turn_data t).
Proof. unfold wf_turn, turn_data, delivers. destruct (poll t), (recv t); try done; lia. Qed.

Lemma read_loop_outcome max_bytes deadline turns out waits r out' waits' :
  forallb wf_turn turns = true -> length out <= max_bytes -> head_complete out = false ->
  read_loop max_bytes deadline turns out waits = Some (r, out', waits') ->
  read_outcome max_bytes r out' /\ exists n, out' = out ++ flat_map turn_data (take n turns).
Proof.
  revert out waits. induction turns as [|t turns IH]; intros out waits Hwf Hl Hc; [done|].
  apply andb_true_iff in Hwf as [Ht Hwf].
  destruct (read_loop_turn max_bytes deadline t turns out waits) as (e & w & He & -> & _).
  pose proof (wf_turn_data t Ht) as Hd.
  destruct He as [r' H1 H2|d Ed _ Hd'|d Ed Hd' Hh|d Ed Hd' Hh _|Ed _].
  - intros [= <- <- <-]. split; [by destruct r'|]. exists 0. by rewrite app_nil_r.
  - intros [= <- <- <-]. split; [|exists 1; simpl; by rewrite Ed, app_nil_r].
    subst d. rewrite length_app in *. simpl. rewrite length_app. lia.
  - intros [= <- <- <-]. split; [done|exists 1; simpl; by rewrite Ed, app_nil_r].
  - intros H. destruct (IH _ _ Hwf Hd' Hh H) as [Ho [n Hn]]. split; [done|].
    exists (S n). simpl. by rewrite Ed, app_assoc.
  - intros H. destruct (IH _ _ Hwf Hl Hc H) as [Ho [n Hn]]. split; [done|].
    exists (S n). simpl. by rewrite Ed.
Qed.

(** The call has ended once the deadline has passed at the start of a turn. *)
Lemma read_loop_deadline max_bytes deadline turns out waits :
  Exists (fun t => (deadline <= now t)%Z) turns ->
  is_Some (read_loop max_bytes deadline turns out waits).
Proof.
  revert out waits. induction turns as [|t turns IH]; intros out waits He; [by inversion He|].
  destruct (read_loop_turn max_bytes deadline t turns out waits) as (e & w & _ & -> & Hd & _).
  apply Exists_cons in He as [He|He].
  - destruct (Hd He) as [[r o] ->]. eauto.
  - destruct e as [[r o]|o]; [eauto|by apply IH].
Qed.

(** It has ended once more turns delivered data than the buffer may hold bytes. *)
Lemma read_loop_bounded max_bytes deadline turns out waits :
  forallb wf_turn turns = true -> length out <= max_bytes ->
  max_bytes < length out + length (filter (fun t => delivers t = true) turns) ->
  is_Some (read_loop max_bytes deadline turns out waits).
Proof.
  revert out waits. induction turns as [|t turns IH]; intros out waits Hwf Hl Hn; [simpl in Hn; lia|].
  apply andb_true_iff in Hwf as [Ht Hwf].
  destruct (read_loop_turn max_bytes deadline t turns out waits) as (e & w & He & -> & _).
  destruct He as [| | |d Ed Hd _ Hdel|Ed Hdel]; [eauto|eauto|eauto| |].
  - apply IH; [done|done|]. rewrite filter_cons_True in Hn by done. simpl in Hn.
    pose proof (delivers_data t Ht Hdel). rewrite Ed in *. rewrite length_app. lia.
  - apply IH; [done|done|]. by rewrite filter_cons_False in Hn by congruence.
Qed.

Lemma read_loop_waits max_bytes deadline start turns out waits r out' waits' :
  (start <= deadline)%Z -> Forall (fun t => (start <= now t)%Z) turns ->
  Forall (fun w => 0 <= w <= remaining_ms deadline start)%Z waits ->
  read_loop max_bytes deadline turns out waits = Some (r, out', waits') ->
  Forall (fun w => 0 <= w <= remaining_ms deadline start)%Z waits'.
Proof.
  intros Hs. revert out waits. induction turns as [|t turns IH]; intros out waits Ht Hw; [done|].
  apply Forall_cons in Ht as [Ht Hts].
  destruct (read_loop_turn max_bytes deadline t turns out waits) as (e & w & _ & -> & _ & Hw').
  assert (Hw2 : Forall (fun w => 0 <= w <= remaining_ms deadline start)%Z w).
  { destruct Hw' as [->|[Hlt ->]]; [done|]. apply Forall_app. split; [done|]. constructor; [|done].
    unfold remaining_ms, ns_per_ms. split; [apply Z.quot_pos; lia|]. apply Z.quot_le_mono; lia. }
  destruct e as [[r' o]|o]; [by intros [= <- <- <-]|by apply IH].
Qed.

(** ** The text of a response *)

(** The lines of a response's head. *)
Definition head_lines (resp : HttpResponse) (include_body : bool) : list bytes :=
  (#"HTTP/1.1 " ++ to_string (status resp) ++ #" " ++ reason (status resp)) ::
  (if include_body then [#"Content-Type: " ++ content_type (format resp)] else []) ++
  (#"Content-Length: " ++ dec_of_N (N.of_nat (length (body resp)))) ::
  #"Connection: close" ::
  map (fun h => h.1 ++ #": " ++ h.2) (headers resp).

Definition headers_safe (resp : HttpResponse) : Prop :=
  Forall (fun h => line_safe h.1 /\ line_safe h.2) (headers resp).

Lemma reason_safe z : line_safe (reason z).
Proof. unfold reason. by repeat destruct (_ =? _)%Z; apply line_safe_lit. Qed.

Lemma content_type_safe f : line_safe (content_type f).
Proof. by destruct f; apply line_safe_lit. Qed.

Lemma read_head_line cur l rest :
  CR ∉ l -> rev cur ++ l <> [] ->
  read_head cur (l ++ CRLF ++ rest) =
  match read_head [] rest with Some (ls, r) => Some ((rev cur ++ l) :: ls, r) | None => None end.
Proof.
  revert cur. induction l as [|c l IH]; intros cur Hn Hne.
  - rewrite app_nil_r in *. simpl. by destruct cur.
  - apply not_elem_of_cons in Hn as [Hc Hn].
    assert (Hstep : exists d s, l ++ CRLF ++ rest = d :: s) by (destruct l; simpl; eauto).
    destruct Hstep as (d & s & Hds).
    assert (Hgo : read_head cur ((c :: l) ++ CRLF ++ rest) = read_head (c :: cur) (l ++ CRLF ++ rest)).
    { rewrite <- app_comm_cons, Hds. simpl. by rewrite bool_decide_neq. }
    rewrite Hgo, IH by (try done; simpl; by destruct (rev cur)). simpl. by rewrite <- app_assoc.
Qed.

Lemma read_head_lines ls rest :
  Forall (fun l => line_safe l /\ l <> []) ls ->
  read_head [] (flat_map (fun l => l ++ CRLF) ls ++ CRLF ++ rest) = Some (ls, rest).
Proof.
  induction 1 as [|l ls [Hl Hne] _ IH]; [done|]. simpl flat_map. rewrite <- !app_assoc.
  rewrite read_head_line by (try done; by apply line_safe_CR). by rewrite IH.
Qed.

Lemma build_http_response_lines resp b :
  build_http_response resp b =
  flat_map (fun l => l ++ CRLF) (head_lines resp b) ++ CRLF ++ (if b then body resp else []).
Proof.
  unfold build_http_response, head_lines.
  assert (H : flat_map header_line (headers resp) =
              flat_map (fun l => l ++ CRLF) (map (fun h => h.1 ++ #": " ++ h.2) (headers resp))).
  { induction (headers resp) as [|h hs IH]; [done|]. simpl. rewrite IH. unfold header_line.
    by rewrite <- !app_assoc. }
  rewrite H. destruct b; cbn [flat_map app]; by rewrite <- !app_assoc.
Qed.

Lemma head_lines_safe resp b :
  headers_safe resp -> Forall (fun l => line_safe l /\ l <> []) (head_lines resp b).
Proof.
  intros Hh. unfold head_lines. constructor.
  { split; [|done]. rewrite !line_safe_app. split; [by apply line_safe_lit|].
    split; [apply line_safe_to_string|]. split; [by apply line_safe_lit|apply reason_safe]. }
  apply Forall_app. split.
  { destruct b; constructor; [|constructor]. split; [|done]. rewrite line_safe_app.
    split; [by apply line_safe_lit|apply content_type_safe]. }
  constructor. { split; [|done]. rewrite line_safe_app. split; [by apply line_safe_lit|apply line_safe_dec]. }
  constructor; [split; [by apply line_safe_lit|done]|].
  apply Forall_fmap, (Forall_impl _ _ _ Hh). intros [n v] [Hn Hv]. unfold compose. cbn [fst snd] in *. split.
  - rewrite !line_safe_app. split; [done|]. split; [by apply line_safe_lit|done].
  - by destruct n.
Qed.

Lemma build_http_response_head resp b :
  headers_safe resp ->
  read_head [] (build_http_response resp b) = Some (head_lines resp b, if b then body resp else []).
Proof. intros H. rewrite build_http_response_lines. by apply read_head_lines, head_lines_safe. Qed.

Lemma negotiate_to_lower a : to_lower (to_lower a) = to_lower a.
Proof.
  unfold to_lower. rewrite map_map. apply map_ext. intros c.
  by destruct c as [[] [] [] [] [] [] [] []].
Qed.

(** ** Properties *)

(** Percent decoding inverts percent encoding on every text without NUL,
    and whatever it accepts decodes to a text that holds no NUL and is no
    longer than its encoding, so a decoded value can be handed to C string
    functions whole. *)
Theorem percent_decode_roundtrip (s t : bytes) :
  (Forall (fun c => c <> NUL) s -> percent_decode (percent_encode s) = Some s) /\
  (percent_decode s = Some t -> (NUL ∉ t) /\ length t <= length s).
Proof.
  split; [|by eapply percent_decode_sound].
  intros H. rewrite <- (app_nil_r (percent_encode s)), percent_decode_encode by done.
  simpl. by rewrite app_nil_r.
Qed.

(** C12. Parsing inverts rendering: a well-formed request (upper-case method,
    path from ['/'], any query pairs, any trimmed one-line Accept value,
    nothing holding a NUL) written out as HTTP/1.1 text is parsed to exactly
    that request. *)
Theorem parse_http_request_roundtrip (r : HttpRequest) (H : wf_request r = true) :
  parse_http_request (render_request r) = Some r.
Proof. by apply parse_render_request. Qed.

(** Witness of C12: a lookup with two parameters that need encoding. *)
Example parse_http_request_roundtrip_witness :
  let r := mkHttpRequest #"GET" #"/lookup" [(#"ip", #"2001:db8::1"); (#"a b", #"&=%")] #"text/plain" in
  parse_http_request (render_request r) = Some r.
Proof. apply parse_http_request_roundtrip. by vm_compute. Defined.

(** C11. Every request the parser accepts is well-formed, and what it says is
    what it was parsed to.  The request line, the text before the first line
    break, is a non-empty upper-case method, a target without a space that
    begins with ['/'], and HTTP/1.1 or HTTP/1.0, separated by single spaces.
    The path is the decoded target up to its first ['?'], the query the decoded
    pairs of what follows it, and the Accept value is that of the last Accept
    line before the first empty line.  The decoded path begins with ['/'], and
    neither it nor any query key or value holds a NUL. *)
Theorem parse_http_request_sound (raw : bytes) (req : HttpRequest)
    (H : parse_http_request raw = Some req) :
  exists target version rest path_enc query_enc,
    raw = method req ++ SP :: target ++ SP :: version ++ CRLF ++ rest /\
    (forall a b, method req ++ SP :: target ++ SP :: version <> a ++ CRLF ++ b) /\
    (version = #"HTTP/1.1" \/ version = #"HTTP/1.0") /\
    method req <> [] /\ forallb isupper (method req) = true /\
    (SP ∉ target) /\ (exists t, target = "/"%char :: t) /\
    ("?"%char ∉ path_enc) /\ ((target = path_enc /\ query_enc = []) \/ target = path_enc ++ "?"%char :: query_enc) /\
    percent_decode path_enc = Some (path req) /\ query_pairs query_enc = Some (query req) /\
    accept req = scan_lines (header_lines [] rest) [] /\
    (exists p, path req = "/"%char :: p) /\ (NUL ∉ path req) /\
    Forall (fun kv => (NUL ∉ kv.1) /\ (NUL ∉ kv.2)) (query req).
Proof.
  apply parse_http_request_inv in H as (target & version & rest & pe & qe & Hm). exists target, version, rest, pe, qe.
  destruct (made_of_decoded _ _ _ _ _ _ _ Hm) as (Hslash & Hnul & Hpairs). destruct Hm as (Hraw & Hl & Hv & Hm & Hu & Hsp & Ht & [Hq Hto] & Hpath & Hquery & Hacc).
  split; [|by repeat (split; [done|])]. rewrite Hraw. by repeat (rewrite <- app_assoc; cbn [app]).
Qed.

(** Witness of C11: an accepted request with an encoded path. *)
Example parse_http_request_sound_witness :
  let raw := #"GET /look%75p?ip=1 HTTP/1.0" ++ CRLF ++ CRLF in
  let req := mkHttpRequest #"GET" #"/lookup" [(#"ip", #"1")] [] in
  parse_http_request raw = Some req /\
  exists target version rest path_enc query_enc,
    raw = method req ++ SP :: target ++ SP :: version ++ CRLF ++ rest /\
    (forall a b, method req ++ SP :: target ++ SP :: version <> a ++ CRLF ++ b) /\
    (version = #"HTTP/1.1" \/ version = #"HTTP/1.0") /\
    method req <> [] /\ forallb isupper (method req) = true /\
    (SP ∉ target) /\ (exists t, target = "/"%char :: t) /\
    ("?"%char ∉ path_enc) /\ ((target = path_enc /\ query_enc = []) \/ target = path_enc ++ "?"%char :: query_enc) /\
    percent_decode path_enc = Some (path req) /\ query_pairs query_enc = Some (query req) /\
    accept req = scan_lines (header_lines [] rest) [] /\
    (exists p, path req = "/"%char :: p) /\ (NUL ∉ path req) /\
    Forall (fun kv => (NUL ∉ kv.1) /\ (NUL ∉ kv.2)) (query req).
Proof. split; [by vm_compute|]. apply parse_http_request_sound. by vm_compute. Defined.

(** The two index loops of the parser end within the fuel they are given
    and compute their references: the query loop yields the decoded non-empty
    pieces between ['&']s (or fails when one does not decode), and the header
    loop folds the header lines up to the first empty one. *)
Theorem parser_loops_reference (query_enc raw : bytes) (pos : nat) (acc : bytes) :
  parse_query (S (S (length query_enc))) query_enc 0 [] = Some (query_pairs query_enc) /\
  scan_headers (S (length raw)) raw pos acc =
    Some (scan_lines (header_lines [] (drop pos raw)) acc).
Proof. split; [apply parse_query_pairs|apply scan_headers_loop; lia]. Qed.

(** C33. What a finished read says, for every sequence of clock, [poll] and
    [recv] answers: the buffer is the data received so far in order; on
    success it is within the limit and holds the blank line; "too large" means
    the limit was passed by at most one [recv]; on any other result it is
    within the limit and holds no complete head.  Every wait passed to [poll]
    is non-negative and at most the whole timeout. *)
Theorem read_http_head_outcome (max_bytes : nat) (timeout start : Z) (turns : list read_turn)
    (r : ReadResult) (out : bytes) (waits : list Z)
    (Hturns : forallb wf_turn turns = true)
    (Htimeout : (0 <= timeout)%Z) (Hclock : Forall (fun t => (start <= now t)%Z) turns)
    (H : read_http_head max_bytes timeout start turns = Some (r, out, waits)) :
  read_outcome max_bytes r out /\
  (exists n, out = flat_map turn_data (take n turns)) /\
  Forall (fun w => 0 <= w <= timeout * 1000)%Z waits.
Proof.
  unfold read_http_head in H.
  destruct (read_loop_outcome max_bytes _ turns [] [] r out waits Hturns (Nat.le_0_l _) eq_refl H) as [Ho Hn].
  split; [done|]. split; [done|].
  assert (Hms : remaining_ms (start + timeout * ns_per_s) start = (timeout * 1000)%Z).
  { unfold remaining_ms, ns_per_s, ns_per_ms.
    replace (start + timeout * 1000000000 - start)%Z with (timeout * 1000 * 1000000)%Z by lia.
    by rewrite Z.quot_mul. }
  rewrite <- Hms. eapply (read_loop_waits max_bytes (start + timeout * ns_per_s)); [|done| |done].
  - unfold ns_per_s. lia.
  - constructor.
Qed.

(** Witness of C0: a head that arrives in two pieces around an interrupted wait. *)
Definition two_piece_turns : list read_turn :=
  [ mkTurn 10 PollReady (RecvData #"GET / HTTP/1.1");
    mkTurn 20 PollEintr RecvFailed;
    mkTurn 1000000030 PollReady (RecvData (CRLF ++ CRLF)) ].

Example read_http_head_outcome_witness :
  read_outcome 100 ReadOk (#"GET / HTTP/1.1" ++ CRLF ++ CRLF).
Proof.
  apply (read_http_head_outcome 100 5 5 two_piece_turns ReadOk _ [4999; 4999; 3999]%Z).
  - by vm_compute.
  - lia.
  - repeat constructor; simpl; lia.
  - by vm_compute.
Defined.

(** C34. A read always ends: as soon as one turn starts at or after the
    deadline, and as soon as more turns delivered data than the buffer may
    hold bytes, the call has returned; a slow or endless client cannot keep
    it going. *)
Theorem read_http_head_terminates (max_bytes : nat) (timeout start : Z) (turns : list read_turn)
    (Hturns : forallb wf_turn turns = true)
    (H : Exists (fun t => (start + timeout * ns_per_s <= now t)%Z) turns \/
         max_bytes < length (filter (fun t => delivers t = true) turns)) :
  is_Some (read_http_head max_bytes timeout start turns).
Proof.
  destruct H as [H|H]; [by apply read_loop_deadline|]. apply read_loop_bounded; [done|simpl; lia|simpl; lia].
Qed.

(** Witness of C34: a client that sends one byte per second. *)
Example read_http_head_terminates_witness :
  is_Some (read_http_head 100 5 0
    (map (fun i => mkTurn (Z.of_nat i * ns_per_s) PollReady (RecvData ["x"%char])) (seq 0 6))).
Proof.
  apply read_http_head_terminates; [by vm_compute|].
  left. apply Exists_exists. exists (mkTurn (5 * ns_per_s) PollReady (RecvData ["x"%char])).
  split; [|done]. by repeat (first [apply list_elem_of_here | apply list_elem_of_further]).
Defined.

(** A response cannot be split: when no header name or value holds CR or
    LF, a reader of HTTP heads takes the serialised text apart into exactly
    the status line, Content-Type (if there is a body), the Content-Length of
    the real body, Connection and one line per header, and what follows the
    blank line is exactly the body. *)
Theorem build_http_response_unsplit (resp : HttpResponse) (include_body : bool)
    (H : headers_safe resp) :
  read_head [] (build_http_response resp include_body) =
  Some (head_lines resp include_body, if include_body then body resp else []).
Proof. by apply build_http_response_head. Qed.

(** An instance: a response with one header. *)
Example build_http_response_unsplit_witness :
  read_head [] (build_http_response (mkHttpResponse 405 Text [(#"Allow", #"GET, HEAD")] #"error") true) =
  Some ([#"HTTP/1.1 405 Method Not Allowed"; #"Content-Type: text/plain; charset=utf-8";
         #"Content-Length: 5"; #"Connection: close"; #"Allow: GET, HEAD"], #"error").
Proof.
  apply build_http_response_unsplit. constructor; [|constructor].
  by split; apply line_safe_lit.
Defined.

(** Negotiation: text is chosen exactly when the Accept value mentions
    text/plain and not application/json, in any letter case; Prometheus never
    is; and an Accept value that asks for JSON explicitly gets JSON. *)
Theorem negotiate_format_spec (a : bytes) :
  (negotiate_format a = Text <->
     contains #"application/json" (to_lower a) = false /\ contains #"text/plain" (to_lower a) = true) /\
  negotiate_format a <> Prometheus /\
  negotiate_format (to_lower a) = negotiate_format a /\
  (accept_wants_json a = true -> negotiate_format a = Json).
Proof.
  unfold negotiate_format, accept_wants_json. rewrite negotiate_to_lower.
  destruct (contains #"application/json" (to_lower a)), (contains #"text/plain" (to_lower a)); naive_solver.
Qed.
