(* ===== verification/Config.v ===== *)
(** * Configuration (src/src/config.cpp, src/src/config.h)

    The key=value file, the NSHGEOIP_* environment variables that override
    it, and the search for default databases.  What the operating system
    answers is a parameter: the content of the file, [getenv], whether a path
    is a regular file, and the processor count. *)

From S2P Require Import Prelude CLib.
From Stdlib Require Import Ascii.

(** ** Data *)

Record Config := mkConfig {
  country_db : bytes;
  asn_db : bytes;
  city_db : bytes;
  socket_path : bytes;
  socket_mode : Z;
  threads : Z;
  max_request_bytes : Z;
  debug_log : bool;
  tcp_port : Z;
  tcp_address : bytes;
  metrics_file : bytes;
  metrics_interval_seconds : Z;
}.

(** Assignment to one member. *)
Definition set_country_db v c := mkConfig v (asn_db c) (city_db c) (socket_path c) (socket_mode c) (threads c) (max_request_bytes c) (debug_log c) (tcp_port c) (tcp_address c) (metrics_file c) (metrics_interval_seconds c).
Definition set_asn_db v c := mkConfig (country_db c) v (city_db c) (socket_path c) (socket_mode c) (threads c) (max_request_bytes c) (debug_log c) (tcp_port c) (tcp_address c) (metrics_file c) (metrics_interval_seconds c).
Definition set_city_db v c := mkConfig (country_db c) (asn_db c) v (socket_path c) (socket_mode c) (threads c) (max_request_bytes c) (debug_log c) (tcp_port c) (tcp_address c) (metrics_file c) (metrics_interval_seconds c).
Definition set_socket_path v c := mkConfig (country_db c) (asn_db c) (city_db c) v (socket_mode c) (threads c) (max_request_bytes c) (debug_log c) (tcp_port c) (tcp_address c) (metrics_file c) (metrics_interval_seconds c).
Definition set_socket_mode v c := mkConfig (country_db c) (asn_db c) (city_db c) (socket_path c) v (threads c) (max_request_bytes c) (debug_log c) (tcp_port c) (tcp_address c) (metrics_file c) (metrics_interval_seconds c).
Definition set_threads v c := mkConfig (country_db c) (asn_db c) (city_db c) (socket_path c) (socket_mode c) v (max_request_bytes c) (debug_log c) (tcp_port c) (tcp_address c) (metrics_file c) (metrics_interval_seconds c).
Definition set_max_request_bytes v c := mkConfig (country_db c) (asn_db c) (city_db c) (socket_path c) (socket_mode c) (threads c) v (debug_log c) (tcp_port c) (tcp_address c) (metrics_file c) (metrics_interval_seconds c).
Definition set_debug_log v c := mkConfig (country_db c) (asn_db c) (city_db c) (socket_path c) (socket_mode c) (threads c) (max_request_bytes c) v (tcp_port c) (tcp_address c) (metrics_file c) (metrics_interval_seconds c).
Definition set_tcp_port v c := mkConfig (country_db c) (asn_db c) (city_db c) (socket_path c) (socket_mode c) (threads c) (max_request_bytes c) (debug_log c) v (tcp_address c) (metrics_file c) (metrics_interval_seconds c).
Definition set_tcp_address v c := mkConfig (country_db c) (asn_db c) (city_db c) (socket_path c) (socket_mode c) (threads c) (max_request_bytes c) (debug_log c) (tcp_port c) v (metrics_file c) (metrics_interval_seconds c).
Definition set_metrics_file v c := mkConfig (country_db c) (asn_db c) (city_db c) (socket_path c) (socket_mode c) (threads c) (max_request_bytes c) (debug_log c) (tcp_port c) (tcp_address c) v (metrics_interval_seconds c).
Definition set_metrics_interval_seconds v c := mkConfig (country_db c) (asn_db c) (city_db c) (socket_path c) (socket_mode c) (threads c) (max_request_bytes c) (debug_log c) (tcp_port c) (tcp_address c) (metrics_file c) v.

(** [detected] is [std::thread::hardware_concurrency()], an [unsigned int];
    the cast to [int] wraps. *)
Definition default_thread_count (detected : Z) : Z :=
  let kFloor := 4%Z in
  let kCap := 20%Z in
  let kFallback := 8%Z in
  if (detected =? 0)%Z then kFallback
  else
    let n := ((detected + 2 ^ 31) mod 2 ^ 32 - 2 ^ 31)%Z in
    if (n <? kFloor)%Z then kFloor
    else if (kCap <? n)%Z then kCap
    else n.

(** [Config()]: the member initialisers. *)
Definition Config_default (detected : Z) : Config :=
  mkConfig [] [] [] #"/run/nshgeoip/nshgeoip.sock" 432 (default_thread_count detected) 8192 false 0 [] [] 60.

(** ** Values *)

(** The two loops of [trim], over the [n] positions between [start] and [end]. *)
Fixpoint trim_start (s : bytes) (start n : nat) : nat :=
  match n with
  | O => start
  | S n' => if isspace (char_at s start) then trim_start s (S start) n' else start
  end.
Fixpoint trim_end (s : bytes) (start n : nat) : nat :=
  match n with
  | O => start
  | S n' => if isspace (char_at s (start + n')) then trim_end s start n' else start + n
  end.

Definition trim (s : bytes) : bytes :=
  let start := trim_start s 0 (length s) in
  let end_ := trim_end s start (length s - start) in
  substr s start (end_ - start).

Definition parse_long (value : bytes) (base : N) : option Z :=
  if value == [] then None
  else
    let s := c_str value in
    let r := strtol base s in
    if st_erange r || (st_end r =? 0)%nat || negb (char_at s (st_end r) == NUL) then None
    else Some (st_value r).

Definition parse_bool (value : bytes) : option bool :=
  let v := map tolower value in
  if (v == #"1") || (v == #"true") || (v == #"yes") || (v == #"on") then Some true
  else if (v == #"0") || (v == #"false") || (v == #"no") || (v == #"off") then Some false
  else None.

(** [parse_long] with the range test each caller makes: the value, unless it
    does not parse, is below [lo] or above [hi]. *)
Definition parse_in_range (value : bytes) (base : N) (lo hi : Z) : option Z :=
  match parse_long value base with
  | Some v => if (v <? lo)%Z || (hi <? v)%Z then None else Some v
  | None => None
  end.

Definition parse_port (text : bytes) : option Z := parse_in_range text 10 1 65535.

(** ** The configuration file *)

(** What a recognised or unknown key does. *)
Inductive key_result :=
| KeySet (cfg : Config)
| KeyError (what : bytes)   (* the message after the position *)
| KeyUnknown.

Definition checked {A} (parsed : option A) (set : A -> Config -> Config) (what : bytes) (cfg : Config) : key_result :=
  match parsed with Some v => KeySet (set v cfg) | None => KeyError what end.

Definition apply_key (key value : bytes) (cfg : Config) : key_result :=
  if key == #"country_db" then KeySet (set_country_db value cfg)
  else if key == #"asn_db" then KeySet (set_asn_db value cfg)
  else if key == #"city_db" then KeySet (set_city_db value cfg)
  else if key == #"socket" then KeySet (set_socket_path value cfg)
  else if key == #"socket_mode" then
    checked (parse_in_range value 8 0 4095) set_socket_mode #": invalid socket_mode (expected octal, e.g. 0660)" cfg
  else if key == #"threads" then
    checked (parse_in_range value 10 1 256) set_threads #": invalid threads (expected 1-256)" cfg
  else if key == #"max_request_bytes" then
    checked (parse_in_range value 10 256 (Z.shiftl 1 20)) set_max_request_bytes
      #": invalid max_request_bytes (expected 256-1048576)" cfg
  else if key == #"debug_log" then
    checked (parse_bool value) set_debug_log #": invalid debug_log (expected true/false)" cfg
  else if key == #"tcp_port" then
    checked (parse_port value) set_tcp_port #": invalid tcp_port (expected 1-65535)" cfg
  else if key == #"tcp_address" then KeySet (set_tcp_address value cfg)
  else if key == #"metrics_file" then KeySet (set_metrics_file value cfg)
  else if key == #"metrics_interval_seconds" then
    checked (parse_in_range value 10 1 86400) set_metrics_interval_seconds
      #": invalid metrics_interval_seconds (expected 1-86400)" cfg
  else KeyUnknown.

(** One line of the file: the configuration it leaves, and the text of an
    error or of a warning, both after the position. *)
Inductive line_result :=
| LineOk (cfg : Config)
| LineWarn (what : bytes)
| LineError (what : bytes).

Definition config_line (line : bytes) (cfg : Config) : line_result :=
  let trimmed := trim line in
  if (trimmed == []) || (char_at trimmed 0 == "#"%char) then LineOk cfg
  else
    match find_char "="%char trimmed with
    | None => LineError #": expected key=value"
    | Some eq =>
        let key := trim (substr trimmed 0 eq) in
        let value := trim (substr_from trimmed (eq + 1)) in
        match apply_key key value cfg with
        | KeySet cfg' => LineOk cfg'
        | KeyError what => LineError what
        | KeyUnknown => LineWarn (#": unknown config key '" ++ key ++ #"'")
        end
    end.

(** The position every message starts with. *)
Definition at_line (path : bytes) (line_no : Z) : bytes := path ++ #":" ++ to_string line_no.

(** [warnings] is the optional list the caller passes. *)
Definition push_back (l : option (list bytes)) (x : bytes) : option (list bytes) :=
  match l with Some l => Some (l ++ [x]) | None => None end.

(** The configuration and warnings left behind, and the error if the call
    returns false. *)
Record load_result := mkLoad {
  lr_cfg : Config;
  lr_err : option bytes;
  lr_warnings : option (list bytes);
}.

Fixpoint load_lines (path : bytes) (lines : list bytes) (line_no : Z) (cfg : Config)
    (warnings : option (list bytes)) : load_result :=
  match lines with
  | [] => mkLoad cfg None warnings
  | line :: lines' =>
      let line_no' := (line_no + 1)%Z in
      match config_line line cfg with
      | LineOk cfg' => load_lines path lines' line_no' cfg' warnings
      | LineWarn what => load_lines path lines' line_no' cfg (push_back warnings (at_line path line_no' ++ what))
      | LineError what => mkLoad cfg (Some (at_line path line_no' ++ what)) warnings
      end
  end.

(** [file] is the content [path] opens to, [None] when it does not open. *)
Definition load_config (path : bytes) (file : option bytes) (cfg : Config)
    (warnings : option (list bytes)) : load_result :=
  match file with
  | None => mkLoad cfg (Some (#"cannot open config file: " ++ path)) warnings
  | Some content => load_lines path (getlines content) 0 cfg warnings
  end.

(** ** Environment variables *)

Section Environment.
Context (getenv : bytes -> option bytes).

(** One [if (env_value(...))] block: the configuration it leaves and its error. *)
Definition env_step := Config -> Config * option bytes.

Definition env_string (name : bytes) (set : bytes -> Config -> Config) : env_step := fun cfg =>
  match getenv name with
  | None => (cfg, None)
  | Some value => (set value cfg, None)
  end.

Definition env_checked {A} (name : bytes) (parse : bytes -> option A) (set : A -> Config -> Config)
    (what : bytes) : env_step := fun cfg =>
  match getenv name with
  | None => (cfg, None)
  | Some value =>
      match parse value with
      | Some v => (set v cfg, None)
      | None => (cfg, Some (name ++ what))
      end
  end.

Fixpoint env_steps (steps : list env_step) (cfg : Config) : Config * option bytes :=
  match steps with
  | [] => (cfg, None)
  | s :: steps' =>
      match s cfg with
      | (cfg', None) => env_steps steps' cfg'
      | (cfg', Some err) => (cfg', Some err)
      end
  end.

Definition apply_env_overrides (cfg : Config) : Config * option bytes :=
  env_steps
    [ env_string #"NSHGEOIP_COUNTRY_DB" set_country_db;
      env_string #"NSHGEOIP_ASN_DB" set_asn_db;
      env_string #"NSHGEOIP_CITY_DB" set_city_db;
      env_string #"NSHGEOIP_SOCKET" set_socket_path;
      env_checked #"NSHGEOIP_SOCKET_MODE" (fun v => parse_in_range v 8 0 4095) set_socket_mode
        #": invalid value (expected octal, e.g. 0660)";
      env_checked #"NSHGEOIP_THREADS" (fun v => parse_in_range v 10 1 256) set_threads
        #": invalid value (expected 1-256)";
      env_checked #"NSHGEOIP_MAX_REQUEST_BYTES" (fun v => parse_in_range v 10 256 (Z.shiftl 1 20))
        set_max_request_bytes #": invalid value (expected 256-1048576)";
      env_checked #"NSHGEOIP_DEBUG_LOG" parse_bool set_debug_log
        #": invalid value (expected true/false)";
      env_checked #"NSHGEOIP_TCP_PORT" parse_port set_tcp_port #": invalid value (expected 1-65535)";
      env_string #"NSHGEOIP_TCP_ADDRESS" set_tcp_address;
      env_string #"NSHGEOIP_METRICS_FILE" set_metrics_file;
      env_checked #"NSHGEOIP_METRICS_INTERVAL_SECONDS" (fun v => parse_in_range v 10 1 86400)
        set_metrics_interval_seconds #": invalid value (expected 1-86400)" ] cfg.
End Environment.

(** ** Default databases *)

Section DefaultPaths.
Context (regular_file_exists : bytes -> bool).

Fixpoint resolve_db_slot (field key filename : bytes) (geoip_dirs : list bytes)
    (notes : option (list bytes)) : bytes * option (list bytes) :=
  if negb (field == []) then (field, notes)
  else
    match geoip_dirs with
    | [] => (field, notes)
    | dir :: dirs =>
        let candidate := dir ++ #"/" ++ filename in
        if regular_file_exists candidate then
          (candidate, push_back notes (key ++ #" not set, using " ++ candidate ++ #" (auto-detected)"))
        else resolve_db_slot field key filename dirs notes
    end.

Definition apply_default_db_paths (cfg : Config) (geoip_dirs : list bytes)
    (notes : option (list bytes)) : Config * option (list bytes) :=
  let '(city, notes1) := resolve_db_slot (city_db cfg) #"city_db" #"GeoLite2-City.mmdb" geoip_dirs notes in
  let cfg1 := set_city_db city cfg in
  let '(asn, notes2) := resolve_db_slot (asn_db cfg1) #"asn_db" #"GeoLite2-ASN.mmdb" geoip_dirs notes1 in
  let cfg2 := set_asn_db asn cfg1 in
  if negb (city_db cfg2 == []) then
    (cfg2,
     if country_db cfg2 == [] then
       push_back notes2 #"country_db not set, skipping auto-detect: city_db already supplies country/continent data"
     else notes2)
  else
    let '(country, notes3) :=
      resolve_db_slot (country_db cfg2) #"country_db" #"GeoLite2-Country.mmdb" geoip_dirs notes2 in
    (set_country_db country cfg2, notes3).
End DefaultPaths.
