(* ===== verification/ConfigSpec.v ===== *)
(** * Configuration: reference definitions and correctness of [Config]

    The value parsers are characterised, a configuration is rendered back to a
    file that loads to it, the outcome of a load is described line by line, and
    the ranges every configured number obeys are an invariant of all the ways a
    configuration is changed. *)

From S2P Require Import Prelude CLib Config.
From Stdlib Require Import Ascii.

(** ** [trim] *)

Lemma drop_while_app_all P l1 l2 :
  Forall (fun c => P c = true) l1 -> drop_while P (l1 ++ l2) = drop_while P l2.
Proof. induction 1 as [|c l Hc _ IH]; simpl; [done|]. by rewrite Hc. Qed.

Lemma take_drop_while P l : take_while P l ++ drop_while P l = l.
Proof. induction l as [|c l IH]; simpl; [done|]. destruct (P c); simpl; by rewrite ?IH. Qed.

Lemma take_while_sat P l : Forall (fun c => P c = true) (take_while P l).
Proof.
  induction l as [|c l IH]; simpl; [constructor|]. destruct (P c) eqn:E; by repeat constructor.
Qed.

Lemma drop_while_cons_true P l c m : drop_while P l = c :: m -> P c = false.
Proof.
  induction l as [|d l IH]; simpl; [done|]. destruct (P d) eqn:E; [done|]. by intros [= -> _].
Qed.

Lemma drop_while_drop P l : drop_while P l = drop (length (take_while P l)) l.
Proof. induction l as [|c l IH]; simpl; [done|]. by destruct (P c). Qed.

Lemma take_while_app_stop P l m :
  Forall (fun c => P c = true) l ->
  match m with [] => True | c :: _ => P c = false end -> take_while P (l ++ m) = l.
Proof.
  induction 1 as [|c l Hc _ IH]; intros Hm; simpl; [destruct m as [|c m]; simpl; [done|]; by rewrite Hm|].
  by rewrite Hc, IH.
Qed.

Lemma char_at_drop (s : bytes) start c l : drop start s = c :: l -> char_at s start = c.
Proof.
  intros H. unfold char_at. rewrite <- (take_drop start s), H.
  assert (Hlt : start < length s).
  { apply (f_equal length) in H. rewrite length_drop in H. cbn [length] in H. lia. }
  rewrite app_nth2; rewrite length_take; [|lia].
  by replace (start - start `min` length s) with 0 by lia.
Qed.

Lemma drop_S_tail (s : bytes) start c l : drop start s = c :: l -> drop (S start) s = l.
Proof. intros H. rewrite <- Nat.add_1_r, <- drop_drop, H. done. Qed.

Lemma trim_start_spec s start n :
  n = length (drop start s) ->
  trim_start s start n = start + length (take_while isspace (drop start s)).
Proof.
  revert start. induction n as [|n IH]; intros start Hn; simpl.
  - destruct (drop start s); [simpl; lia|done].
  - destruct (drop start s) as [|c l] eqn:E; [done|].
    rewrite (char_at_drop _ _ _ _ E). cbn [take_while]. destruct (isspace c); [|simpl; lia].
    pose proof (drop_S_tail _ _ _ _ E) as E'. rewrite IH; rewrite E'; cbn [length] in *; lia.
Qed.

Lemma trim_end_spec s start n :
  start + n <= length s ->
  substr s start (trim_end s start n - start) =
  rev (drop_while isspace (rev (take n (drop start s)))).
Proof.
  induction n as [|n IH]; intros Hn; cbn [trim_end].
  - unfold substr. by rewrite Nat.sub_diag, !take_0.
  - destruct (lookup_lt_is_Some_2 (drop start s) n) as [c Hc]; [rewrite length_drop; lia|].
    assert (Hat : char_at s (start + n) = c).
    { rewrite lookup_drop in Hc. by apply nth_lookup_Some. }
    rewrite Hat, (take_S_r _ _ _ Hc), rev_app_distr. cbn [rev app drop_while].
    destruct (isspace c); [apply IH; lia|]. cbn [rev]. rewrite rev_involutive.
    unfold substr. replace (start + S n - start) with (S n) by lia. by apply take_S_r.
Qed.

Lemma trim_strip s : trim s = strip isspace s.
Proof.
  unfold trim, strip. rewrite trim_start_spec by (by rewrite drop_0).
  rewrite drop_0, (drop_while_drop isspace s). cbn [Nat.add]. set (k := length (take_while isspace s)).
  assert (k <= length s).
  { unfold k. pose proof (f_equal length (take_drop_while isspace s)) as E.
    rewrite length_app in E. lia. }
  rewrite trim_end_spec by lia.
  by rewrite (take_ge (drop k s)) by (rewrite length_drop; lia).
Qed.

(** A text without surrounding white space, and what [trim] leaves of it. *)
Definition stripped (s : bytes) : bool :=
  match s with [] => true | c :: _ => negb (isspace c) && negb (isspace (List.last s NUL)) end.

Lemma drop_while_stop P c l : P c = false -> drop_while P (c :: l) = c :: l.
Proof. simpl. by intros ->. Qed.

Lemma strip_stripped s : stripped s = true -> strip isspace s = s.
Proof.
  destruct s as [|c s]; [done|]. intros H. apply andb_true_iff in H as [H1 H2].
  apply negb_true_iff in H1, H2. unfold strip. rewrite drop_while_stop by done.
  destruct (exists_last (l := c :: s)) as (l & d & E); [done|]. rewrite E in H2 |- *.
  rewrite last_last in H2. rewrite rev_app_distr. cbn [rev app].
  rewrite drop_while_stop by done. change (rev (d :: rev l)) with (rev (rev l) ++ [d]).
  by rewrite rev_involutive.
Qed.

Lemma strip_strips s : stripped (strip isspace s) = true.
Proof.
  unfold strip. set (a := drop_while isspace s). destruct (drop_while isspace (rev a)) as [|d l] eqn:E; [done|].
  pose proof (drop_while_cons_true _ _ _ _ E) as Hd. cbn [rev].
  assert (Ha : a = rev l ++ d :: rev (take_while isspace (rev a))).
  { rewrite <- (rev_involutive a) at 1. rewrite <- (take_drop_while isspace (rev a)) at 1.
    rewrite E, rev_app_distr. cbn [rev]. by rewrite <- app_assoc. }
  unfold stripped. destruct (rev l ++ [d]) as [|c m] eqn:Em; [by destruct (rev l)|].
  rewrite <- Em, last_last, Hd. cbn [negb]. rewrite andb_true_r.
  assert (Hc : exists m', a = c :: m').
  { rewrite Ha. destruct (rev l) as [|c' m']; simpl in Em |- *; injection Em as -> _; eauto. }
  destruct Hc as [m' Hc]. by rewrite (drop_while_cons_true _ _ _ _ Hc).
Qed.

(** ** [parse_long] *)

(** The text of an integer: white space, a sign, digits. *)
Definition long_text (base : N) (s : bytes) (v : Z) : Prop :=
  exists ws sg ds, s = ws ++ sg ++ ds /\
    Forall (fun c => isspace c = true) ws /\ (sg = [] \/ sg = #"+" \/ sg = #"-") /\
    ds <> [] /\ Forall (fun c => is_base_digit base c = true) ds /\
    v = (if sg == #"-" then - Z.of_N (digits_value base ds) else Z.of_N (digits_value base ds))%Z.

Lemma base_digit_space base c : is_base_digit base c = true -> isspace c = false.
Proof.
  unfold is_base_digit. intros [H _]%andb_true_iff. revert c H.
  assert (Hi := forall_chars_impl isdigit (fun c => negb (isspace c)) eq_refl).
  intros c H. by apply Hi in H; apply negb_true_iff.
Qed.

Lemma base_digit_sign base c : is_base_digit base c = true -> (c == "-"%char) = false /\ (c == "+"%char) = false.
Proof.
  unfold is_base_digit. intros [H _]%andb_true_iff.
  assert (Hi := forall_chars_impl isdigit (fun c => negb (c == "-"%char) && negb (c == "+"%char)) eq_refl).
  apply Hi in H. by rewrite andb_true_iff, !negb_true_iff in H.
Qed.

(** What [strtol] computes on a number followed by [rest]. *)
Definition strtol_value (base : N) (sg ds : bytes) : Z :=
  if sg == #"-" then (- Z.of_N (digits_value base ds))%Z else Z.of_N (digits_value base ds).

Lemma strtol_app base ws sg ds rest :
  Forall (fun c => isspace c = true) ws -> (sg = [] \/ sg = #"+" \/ sg = #"-") ->
  ds <> [] -> Forall (fun c => is_base_digit base c = true) ds ->
  match rest with [] => True | c :: _ => is_base_digit base c = false end ->
  strtol base (ws ++ sg ++ ds ++ rest) =
    let v := strtol_value base sg ds in
    let e := (length ws + length sg + length ds)%nat in
    if (v <? LONG_MIN)%Z then mkStrtol LONG_MIN e true
    else if (LONG_MAX <? v)%Z then mkStrtol LONG_MAX e true
    else mkStrtol v e false.
Proof.
  intros Hws Hsg Hne Hds Hrest. destruct ds as [|d ds]; [done|].
  pose proof (Forall_inv Hds) as Hd. cbn beta in Hd.
  destruct (base_digit_sign _ _ Hd) as [Hm Hp]. pose proof (base_digit_space _ _ Hd) as Hs.
  unfold strtol.
  assert (Hw : take_while isspace (ws ++ sg ++ (d :: ds) ++ rest) = ws).
  { apply take_while_app_stop; [done|]. by destruct Hsg as [->|[->| ->]]. }
  rewrite Hw, drop_app_length.
  assert (Hsign : strtol_sign (sg ++ (d :: ds) ++ rest) = (sg == #"-", length sg)).
  { destruct Hsg as [->|[->| ->]]; simpl; by rewrite ?Hm, ?Hp. }
  rewrite Hsign, <- drop_drop, drop_app_length, drop_app_length, take_while_app_stop by done. done.
Qed.

Lemma strtol_decompose base s :
  st_end (strtol base s) <> 0 ->
  exists ws sg ds rest, s = ws ++ sg ++ ds ++ rest /\
    Forall (fun c => isspace c = true) ws /\ (sg = [] \/ sg = #"+" \/ sg = #"-") /\
    ds <> [] /\ Forall (fun c => is_base_digit base c = true) ds /\
    match rest with [] => True | c :: _ => is_base_digit base c = false end.
Proof.
  unfold strtol. set (ws := take_while isspace s).
  assert (Hs : s = ws ++ drop (length ws) s).
  { unfold ws. rewrite <- (drop_while_drop isspace s). symmetry. apply take_drop_while. }
  set (t := drop (length ws) s) in *.
  assert (Hsg : exists sg, (sg = [] \/ sg = #"+" \/ sg = #"-") /\
      t = sg ++ drop (length sg) t /\ snd (strtol_sign t) = length sg).
  { destruct t as [|c t']; [by exists []; naive_solver|]. unfold strtol_sign.
    destruct (bool_decide_reflect (c = "-"%char)) as [->|_]; [by exists #"-"; naive_solver|].
    destruct (bool_decide_reflect (c = "+"%char)) as [->|_]; [by exists #"+"; naive_solver|].
    exists []; naive_solver. }
  destruct Hsg as (sg & Hsg & Ht & Hl). destruct (strtol_sign t) as [neg sl]. simpl in Hl. subst sl.
  rewrite <- drop_drop. fold t. set (u := drop (length sg) t) in *.
  destruct (take_while (is_base_digit base) u) as [|d ds] eqn:E; [done|]. intros _.
  exists ws, sg, (d :: ds), (drop_while (is_base_digit base) u). rewrite <- E, take_drop_while, <- Ht.
  repeat split; [done| |done|by rewrite E| |].
  - apply take_while_sat.
  - apply take_while_sat.
  - destruct (drop_while (is_base_digit base) u) eqn:E2; [done|]. by apply drop_while_cons_true in E2.
Qed.

Lemma char_at_end s n : n <= length s -> NUL ∉ s -> (char_at s n == NUL) = bool_decide (n = length s).
Proof.
  intros Hn Hs. apply bool_decide_ext. unfold char_at. split; [|intros ->; by apply nth_overflow].
  intros H. destruct (decide (n = length s)); [done|]. exfalso. apply Hs.
  rewrite <- H. apply list_elem_of_In, nth_In. lia.
Qed.

(** A number's text has one reading. *)
Lemma space_prefix_unique base ws sg ds rest :
  Forall (fun c => isspace c = true) ws -> (sg = [] \/ sg = #"+" \/ sg = #"-") ->
  ds <> [] -> Forall (fun c => is_base_digit base c = true) ds ->
  take_while isspace (ws ++ sg ++ ds ++ rest) = ws.
Proof.
  intros Hws Hsg Hne Hds. apply take_while_app_stop; [done|].
  destruct ds as [|d ds]; [done|]. apply Forall_inv, base_digit_space in Hds.
  by destruct Hsg as [->|[->| ->]].
Qed.

Lemma long_text_value base ws sg ds rest v :
  Forall (fun c => isspace c = true) ws -> (sg = [] \/ sg = #"+" \/ sg = #"-") ->
  ds <> [] -> Forall (fun c => is_base_digit base c = true) ds ->
  match rest with [] => True | c :: _ => is_base_digit base c = false end ->
  long_text base (ws ++ sg ++ ds ++ rest) v <-> rest = [] /\ v = strtol_value base sg ds.
Proof.
  intros Hws Hsg Hne Hds Hrest. split; [|intros [-> ->]; rewrite app_nil_r; by exists ws, sg, ds].
  intros (ws' & sg' & ds' & E & Hws' & Hsg' & Hne' & Hds' & ->).
  fold (strtol_value base sg' ds').
  assert (ws = ws') as <-.
  { rewrite <- (space_prefix_unique base ws sg ds rest) by done. rewrite E.
    rewrite <- (app_nil_r ds'). by apply (space_prefix_unique base). }
  apply app_inv_head in E.
  assert (sg = sg' /\ ds ++ rest = ds') as [<- E'].
  { destruct ds as [|d ds]; [done|]. destruct ds' as [|d' ds']; [done|].
    apply Forall_inv in Hds, Hds'. destruct (base_digit_sign _ _ Hds) as [Hm Hp].
    destruct (base_digit_sign _ _ Hds') as [Hm' Hp'].
    destruct Hsg as [->|[->| ->]], Hsg' as [->|[->| ->]]; cbn in E; injection E; intros; subst;
      congruence || done. }
  destruct rest as [|c rest]; [by rewrite <- E', app_nil_r|]. exfalso.
  rewrite <- E', Forall_app, Forall_cons in Hds'. destruct Hds' as (_ & Hc & _). congruence.
Qed.

Lemma parse_long_iff base value v :
  parse_long value base = Some v <->
  long_text base (c_str value) v /\ (LONG_MIN <= v <= LONG_MAX)%Z.
Proof.
  unfold parse_long. pose proof (c_str_no_nul value) as Hnul.
  assert (Hnil : value = [] -> c_str value = []) by (by intros ->).
  generalize dependent (c_str value). intros s Hnul Hnil.
  destruct (bool_decide_reflect (value = [])) as [Hv|_].
  { rewrite Hnil by done. split; [done|]. intros [(ws & sg & ds & E & _ & _ & Hne & _) _].
    symmetry in E. apply app_eq_nil in E as [_ E]. by apply app_eq_nil in E as [_ E]. }
  destruct (decide (st_end (strtol base s) = 0)) as [H0|H0].
  { rewrite H0. cbn [Nat.eqb]. rewrite orb_true_r. split; [done|].
    intros [(ws & sg & ds & E & Hws & Hsg & Hne & Hds & _) _]. exfalso. revert H0.
    rewrite <- (app_nil_r ds) in E. rewrite E, strtol_app by done.
    cbn zeta. assert (0 < length ds) by (destruct ds; [done|simpl; lia]).
    repeat case_match; simpl; lia. }
  destruct (strtol_decompose _ _ H0) as (ws & sg & ds & rest & E & Hws & Hsg & Hne & Hds & Hrest).
  rewrite E in Hnul, H0 |- *. rewrite long_text_value, strtol_app in * by done. cbn zeta in *.
  set (e := length ws + length sg + length ds) in *. set (x := strtol_value base sg ds) in *.
  assert (Hend : forall y b, st_end (if (y <? LONG_MIN)%Z then mkStrtol LONG_MIN e true
      else if (LONG_MAX <? y)%Z then mkStrtol LONG_MAX e true else mkStrtol y e b) = e)
    by (intros; by repeat case_match).
  rewrite Hend in *. rewrite char_at_end by (done || (rewrite !length_app; unfold e; lia)).
  rewrite (bool_decide_ext _ (rest = [])).
  2: { rewrite !length_app, <- length_zero_iff_nil. unfold e. lia. }
  destruct (Nat.eqb_spec e 0) as [|_]; [congruence|].
  destruct (Z.ltb_spec x LONG_MIN); [cbn; split; [done|intros [[_ ->] ?]; lia]|].
  destruct (Z.ltb_spec LONG_MAX x); [cbn; split; [done|intros [[_ ->] ?]; lia]|].
  cbn [st_erange orb st_value]. destruct (bool_decide_reflect (rest = [])); cbn [negb]; naive_solver.
Qed.

(** A decimal number reads back. *)
Lemma long_text_to_string z v : long_text 10 (to_string z) v <-> v = z.
Proof.
  assert (Hbase : forall n, Forall (fun c => is_base_digit 10 c = true) (dec_of_N n)).
  { intros n. eapply Forall_impl; [apply dec_of_N_digits|].
    apply (forall_chars_impl isdigit (is_base_digit 10)). by vm_compute. }
  unfold to_string. destruct (Z.ltb_spec z 0).
  - change ("-"%char :: ?l) with ([] ++ #"-" ++ l). rewrite <- (app_nil_r (dec_of_N _)).
    rewrite long_text_value; [|constructor|auto|apply dec_of_N_nonempty|done|done].
    unfold strtol_value. rewrite bool_decide_refl, digits_value_dec. naive_solver lia.
  - rewrite <- (app_nil_r (dec_of_N _)). change (dec_of_N (Z.to_N z) ++ []) with ([] ++ [] ++ dec_of_N (Z.to_N z) ++ []).
    rewrite long_text_value; [|constructor|auto|apply dec_of_N_nonempty|done|done].
    unfold strtol_value. rewrite bool_decide_neq, digits_value_dec by done. naive_solver lia.
Qed.

Lemma to_string_no_nul z : NUL ∉ to_string z.
Proof.
  assert (Hd : forall n, NUL ∉ dec_of_N n).
  { intros n H. pose proof (dec_of_N_digits n) as Hn. unfold all_digits in Hn.
    rewrite Forall_forall in Hn. by specialize (Hn _ H). }
  unfold to_string. destruct (z <? 0)%Z; [|done]. rewrite not_elem_of_cons. by split.
Qed.

Lemma parse_long_to_string z :
  parse_long (to_string z) 10 = if ((LONG_MIN <=? z) && (z <=? LONG_MAX))%Z then Some z else None.
Proof.
  destruct (parse_long (to_string z) 10) as [v|] eqn:E.
  - apply parse_long_iff in E as [Ht Hr]. rewrite c_str_id in Ht by apply to_string_no_nul.
    apply long_text_to_string in Ht as ->.
    destruct (Z.leb_spec LONG_MIN z), (Z.leb_spec z LONG_MAX); (done || lia).
  - destruct (Z.leb_spec LONG_MIN z), (Z.leb_spec z LONG_MAX); try done. exfalso.
    assert (H1 : parse_long (to_string z) 10 = Some z); [|congruence].
    rewrite parse_long_iff, c_str_id, long_text_to_string by apply to_string_no_nul. lia.
Qed.

Lemma parse_in_range_to_string z lo hi :
  (LONG_MIN <= lo)%Z -> (hi <= LONG_MAX)%Z -> (lo <= z <= hi)%Z ->
  parse_in_range (to_string z) 10 lo hi = Some z.
Proof.
  intros Hlo Hhi Hz. unfold parse_in_range. rewrite parse_long_to_string.
  destruct (Z.leb_spec LONG_MIN z), (Z.leb_spec z LONG_MAX); try lia. cbn [andb].
  destruct (Z.ltb_spec z lo), (Z.ltb_spec hi z); (done || lia).
Qed.

Lemma parse_in_range_bounds value base lo hi v :
  parse_in_range value base lo hi = Some v -> (lo <= v <= hi)%Z.
Proof.
  unfold parse_in_range. destruct (parse_long value base); [|done].
  destruct (Z.ltb_spec z lo), (Z.ltb_spec hi z); try done. intros [= <-]. lia.
Qed.

(** ** The range invariant *)

(** The ranges the comments of config.h promise; 0 is the port's default. *)
Definition config_ok (c : Config) : Prop :=
  (0 <= socket_mode c <= 4095 /\ 1 <= threads c <= 256 /\ 256 <= max_request_bytes c <= 1048576 /\
   0 <= tcp_port c <= 65535 /\ 1 <= metrics_interval_seconds c <= 86400)%Z.

Lemma default_thread_count_range d : (4 <= default_thread_count d <= 20)%Z.
Proof. unfold default_thread_count. repeat case_match; lia. Qed.

Lemma config_default_ok d : config_ok (Config_default d).
Proof. pose proof (default_thread_count_range d). unfold config_ok. cbn -[default_thread_count Z.pow]. lia. Qed.

(** Each assignment keeps the ranges when the value is in its own. *)
Ltac ok_setter := unfold config_ok in *; intros; cbn in *; change (Z.shiftl 1 20) with 1048576%Z in *; lia.

Lemma checked_ok {A} (parsed : option A) set what cfg cfg' :
  (forall v, parsed = Some v -> config_ok (set v cfg)) ->
  checked parsed set what cfg = KeySet cfg' -> config_ok cfg'.
Proof. unfold checked. destruct parsed; [|done]. intros H [= <-]. by apply H. Qed.

Ltac range_setter :=
  let H := fresh in intros * H; cbn beta in H; try apply parse_in_range_bounds in H; ok_setter.

Lemma apply_key_ok key value cfg cfg' :
  config_ok cfg -> apply_key key value cfg = KeySet cfg' -> config_ok cfg'.
Proof.
  intros Hok. unfold apply_key, parse_port.
  repeat (match goal with |- context [if ?b then _ else _] => destruct b end;
    [try (intros [= <-]; ok_setter); apply checked_ok; range_setter|]).
  done.
Qed.

Lemma config_line_ok line cfg cfg' :
  config_ok cfg -> config_line line cfg = LineOk cfg' -> config_ok cfg'.
Proof.
  intros Hok. unfold config_line. destruct (_ || _); [by intros [= <-]|].
  destruct (find_char _ _); [|done]. destruct (apply_key _ _ _) eqn:E; try done.
  intros [= <-]. by eapply apply_key_ok.
Qed.

Lemma load_lines_ok path lines n cfg w :
  config_ok cfg -> config_ok (lr_cfg (load_lines path lines n cfg w)).
Proof.
  revert n cfg w. induction lines as [|l lines IH]; intros n cfg w Hok; simpl; [done|].
  destruct (config_line l cfg) eqn:E; simpl; [|by apply IH|done].
  apply IH. by eapply config_line_ok.
Qed.

Lemma load_config_ok path file cfg w : config_ok cfg -> config_ok (lr_cfg (load_config path file cfg w)).
Proof. intros H. destruct file; simpl; [by apply load_lines_ok|done]. Qed.

Lemma env_steps_ok steps cfg :
  Forall (fun s : env_step => forall c, config_ok c -> config_ok (s c).1) steps ->
  config_ok cfg -> config_ok (env_steps steps cfg).1.
Proof.
  intros H. revert cfg. induction H as [|s steps Hs _ IH]; intros cfg Hok; simpl; [done|].
  specialize (Hs _ Hok). destruct (s cfg) as [c [e|]]; simpl in *; [done|by apply IH].
Qed.

Lemma env_string_ok getenv name set :
  (forall v c, config_ok c -> config_ok (set v c)) ->
  forall c, config_ok c -> config_ok (env_string getenv name set c).1.
Proof. intros H c Hc. unfold env_string. destruct (getenv name); simpl; auto. Qed.

Lemma env_checked_ok {A} getenv name (parse : bytes -> option A) set what :
  (forall s v c, parse s = Some v -> config_ok c -> config_ok (set v c)) ->
  forall c, config_ok c -> config_ok (env_checked getenv name parse set what c).1.
Proof.
  intros H c Hc. unfold env_checked. destruct (getenv name) as [s|]; simpl; [|done].
  destruct (parse s) eqn:E; simpl; [by eapply H|done].
Qed.

Lemma apply_env_overrides_ok getenv cfg : config_ok cfg -> config_ok (apply_env_overrides getenv cfg).1.
Proof.
  apply env_steps_ok. unfold parse_port.
  repeat (constructor; [first [apply env_string_ok; ok_setter | apply env_checked_ok; range_setter]|]).
  constructor.
Qed.

Lemma apply_default_db_paths_ok exists_ cfg dirs notes :
  config_ok cfg -> config_ok (apply_default_db_paths exists_ cfg dirs notes).1.
Proof.
  intros Hok. unfold apply_default_db_paths. repeat case_match; simplify_eq/=; ok_setter.
Qed.

(** ** The outcome of a load *)

(** A line that does not stop the load, what it leaves, and its warning. *)
Definition line_fine (line : bytes) (cfg : Config) : bool :=
  match config_line line cfg with LineError _ => false | _ => true end.
Definition line_cfg (cfg : Config) (line : bytes) : Config :=
  match config_line line cfg with LineOk cfg' => cfg' | _ => cfg end.
Definition line_warnings (path : bytes) (n : Z) (line : bytes) : list bytes :=
  match config_line line (Config_default 0) with LineWarn what => [at_line path n ++ what] | _ => [] end.

(** The configuration after some lines, and the warnings they raise when they
    start at line [n + 1]. *)
Definition run_lines (lines : list bytes) (cfg : Config) : Config := fold_left line_cfg lines cfg.
Fixpoint run_warnings (path : bytes) (n : Z) (lines : list bytes) : list bytes :=
  match lines with
  | [] => []
  | l :: lines' => line_warnings path (n + 1) l ++ run_warnings path (n + 1) lines'
  end.
Definition append_warnings (w : option (list bytes)) (l : list bytes) : option (list bytes) :=
  option_map (fun ws => ws ++ l) w.

(** Whether and how a line stops or warns does not depend on the
    configuration so far. *)
Definition line_shape (r : line_result) : line_result :=
  match r with LineOk _ => LineOk (Config_default 0) | r => r end.

Lemma apply_key_shape key value c1 c2 :
  match apply_key key value c1, apply_key key value c2 with
  | KeySet _, KeySet _ => True
  | KeyError w1, KeyError w2 => w1 = w2
  | KeyUnknown, KeyUnknown => True
  | _, _ => False
  end.
Proof.
  unfold apply_key, checked.
  repeat (match goal with |- context [if ?b then _ else _] => destruct b end;
    [try done; match goal with |- context [match ?p with Some _ => _ | None => _ end] => by destruct p end|]).
  done.
Qed.

Lemma config_line_shape line c1 c2 : line_shape (config_line line c1) = line_shape (config_line line c2).
Proof.
  unfold config_line. destruct (_ || _); [done|]. destruct (find_char _ _); [|done].
  match goal with |- context [apply_key ?k ?v] => pose proof (apply_key_shape k v c1 c2) end.
  repeat case_match; simpl; try done; congruence.
Qed.

Lemma line_warnings_any path n line cfg :
  line_warnings path n line =
  match config_line line cfg with LineWarn what => [at_line path n ++ what] | _ => [] end.
Proof.
  unfold line_warnings. pose proof (config_line_shape line cfg (Config_default 0)) as H.
  repeat case_match; simpl in H; congruence.
Qed.

(** A load ends after all lines, or at the first bad one. *)
Inductive load_ends (path : bytes) (lines : list bytes) (n : Z) (cfg : Config) (w : option (list bytes)) :
    load_result -> Prop :=
| EndsAll :
    forallb (fun l => line_fine l cfg) lines = true ->
    load_ends path lines n cfg w
      (mkLoad (run_lines lines cfg) None (append_warnings w (run_warnings path n lines)))
| EndsAt pre bad post what :
    lines = pre ++ bad :: post -> forallb (fun l => line_fine l cfg) pre = true ->
    config_line bad cfg = LineError what ->
    load_ends path lines n cfg w
      (mkLoad (run_lines pre cfg) (Some (at_line path (n + Z.of_nat (length pre) + 1) ++ what))
              (append_warnings w (run_warnings path n pre))).

Lemma line_fine_any line c1 c2 : line_fine line c1 = line_fine line c2.
Proof.
  unfold line_fine. pose proof (config_line_shape line c1 c2). repeat case_match; simpl in *; congruence.
Qed.

Lemma config_line_error_any line c1 c2 what :
  config_line line c1 = LineError what -> config_line line c2 = LineError what.
Proof.
  pose proof (config_line_shape line c1 c2) as H. intros E. rewrite E in H. simpl in H.
  by destruct (config_line line c2).
Qed.

Lemma forallb_fine_any lines c1 c2 :
  forallb (fun l => line_fine l c1) lines = forallb (fun l => line_fine l c2) lines.
Proof. induction lines as [|l ls IH]; simpl; [done|]. by rewrite IH, (line_fine_any l c1 c2). Qed.

Lemma append_warnings_app w l1 l2 : append_warnings (append_warnings w l1) l2 = append_warnings w (l1 ++ l2).
Proof. destruct w; simpl; [|done]. by rewrite app_assoc. Qed.

Lemma append_warnings_nil w : append_warnings w [] = w.
Proof. destruct w; simpl; [|done]. by rewrite app_nil_r. Qed.

Lemma load_lines_cons path l lines n cfg w :
  line_fine l cfg = true ->
  load_lines path (l :: lines) n cfg w =
  load_lines path lines (n + 1) (line_cfg cfg l) (append_warnings w (line_warnings path (n + 1) l)).
Proof.
  intros H. rewrite (line_warnings_any _ _ _ cfg). unfold line_fine, line_cfg in *. cbn [load_lines].
  destruct (config_line l cfg); [by rewrite append_warnings_nil|by destruct w|done].
Qed.

Lemma load_lines_ends path lines n cfg w : load_ends path lines n cfg w (load_lines path lines n cfg w).
Proof.
  revert n cfg w. induction lines as [|l lines IH]; intros n cfg w.
  { rewrite <- (append_warnings_nil w) at 2. by apply EndsAll. }
  destruct (line_fine l cfg) eqn:E.
  - rewrite load_lines_cons by done. destruct (IH (n + 1)%Z (line_cfg cfg l)
      (append_warnings w (line_warnings path (n + 1) l))) as [Hall|pre bad post what -> Hpre Hbad];
      rewrite append_warnings_app.
    + apply (EndsAll path (l :: lines)). cbn [forallb]. rewrite E. by rewrite (forallb_fine_any _ cfg (line_cfg cfg l)).
    + replace (n + 1 + Z.of_nat (length pre) + 1)%Z with (n + Z.of_nat (length (l :: pre)) + 1)%Z
        by (cbn [length]; lia).
      apply (EndsAt path _ n cfg w (l :: pre) bad post what); [done| |by eapply config_line_error_any].
      cbn [forallb]. rewrite E. by rewrite (forallb_fine_any _ cfg (line_cfg cfg l)).
  - unfold line_fine in E. cbn [load_lines]. destruct (config_line l cfg) as [| |what] eqn:E2; try done.
    rewrite <- (append_warnings_nil w) at 2. replace (n + 1)%Z with (n + Z.of_nat (@length bytes []) + 1)%Z by (simpl; lia).
    by apply (EndsAt path _ n cfg w [] l lines what).
Qed.

(** ** Rendering a configuration *)

Definition render_line (key value : bytes) : bytes := key ++ "="%char :: value.

(** Four octal digits. *)
Definition render_mode (m : Z) : bytes :=
  map (fun d => digit (Z.to_N d)) [m / 512; m / 64 mod 8; m / 8 mod 8; m mod 8]%Z.

Definition config_lines (c : Config) : list bytes :=
  [ render_line #"country_db" (country_db c);
    render_line #"asn_db" (asn_db c);
    render_line #"city_db" (city_db c);
    render_line #"socket" (socket_path c);
    render_line #"socket_mode" (render_mode (socket_mode c));
    render_line #"threads" (to_string (threads c));
    render_line #"max_request_bytes" (to_string (max_request_bytes c));
    render_line #"debug_log" (if debug_log c then #"true" else #"false");
    render_line #"tcp_port" (to_string (tcp_port c));
    render_line #"tcp_address" (tcp_address c);
    render_line #"metrics_file" (metrics_file c);
    render_line #"metrics_interval_seconds" (to_string (metrics_interval_seconds c)) ].

Definition render_config (c : Config) : bytes := flat_map (fun l => l ++ [LF]) (config_lines c).

(** A configuration a file can hold: its numbers are in range, the port is
    set, and no text holds a newline or outer white space. *)
Definition text_ok (s : bytes) : Prop := stripped s = true /\ LF ∉ s.
Definition config_writable (c : Config) : Prop :=
  config_ok c /\ tcp_port c <> 0%Z /\
  Forall text_ok [country_db c; asn_db c; city_db c; socket_path c; tcp_address c; metrics_file c].

Lemma stripped_last (s : bytes) c : stripped (s ++ [c]) = true -> isspace c = false.
Proof.
  unfold stripped. rewrite last_last. destruct s; cbn [app]; intros H; apply andb_true_iff in H as [_ H];
    by apply negb_true_iff.
Qed.

(** The key the scanner looks for: no ['='], no white space, not a comment. *)
Definition key_ok (key : bytes) : bool :=
  forallb (fun c => negb (isspace c) && negb (c == "="%char)) key &&
  match key with [] => false | c :: _ => negb (c == "#"%char) end.

Lemma key_ok_stripped key : key_ok key = true -> stripped key = true.
Proof.
  unfold key_ok. intros [H _]%andb_true_iff. destruct key as [|c key]; [done|].
  rewrite forallb_forall in H. unfold stripped. apply andb_true_iff. split.
  - pose proof (H c (or_introl eq_refl)). by destruct (isspace c).
  - pose proof (H (List.last (c :: key) NUL)) as Hl.
    destruct (exists_last (l := c :: key)) as (l & d & E); [done|]. rewrite E in Hl |- *.
    rewrite last_last in *. rewrite in_app_iff in Hl. specialize (Hl (or_intror (or_introl eq_refl))).
    by destruct (isspace d).
Qed.

Lemma trim_line key value :
  key_ok key = true -> stripped value = true -> trim (render_line key value) = render_line key value.
Proof.
  intros Hk Hv. rewrite trim_strip. apply strip_stripped. pose proof (key_ok_stripped _ Hk) as Hks.
  unfold render_line. destruct key as [|c key]; [done|]. unfold stripped in Hks |- *. cbn [app].
  apply andb_true_iff in Hks as [-> _]. cbn [andb].
  destruct value as [|v vs]; [by rewrite app_comm_cons, last_last|].
  destruct (exists_last (l := v :: vs)) as (l & d & E); [done|]. rewrite E in Hv |- *.
  rewrite !app_comm_cons, app_assoc, last_last. by rewrite (stripped_last _ _ Hv).
Qed.

Lemma config_line_render key value cfg cfg' :
  key_ok key = true -> stripped value = true ->
  apply_key key value cfg = KeySet cfg' -> config_line (render_line key value) cfg = LineOk cfg'.
Proof.
  intros Hk Hv Ha. unfold config_line. rewrite trim_line by done. unfold render_line.
  pose proof (key_ok_stripped _ Hk) as Hks. unfold key_ok in Hk. destruct key as [|c key]; [done|].
  apply andb_true_iff in Hk as [Hall Hc]. rewrite bool_decide_neq by done.
  unfold char_at. cbn [app nth orb]. destruct (c == "#"%char); [done|].
  rewrite app_comm_cons, find_char_hit.
  2: { rewrite forallb_forall in Hall. intros Hin%list_elem_of_In. specialize (Hall _ Hin).
       rewrite bool_decide_refl, andb_false_r in Hall. done. }
  unfold substr, substr_from. rewrite drop_0, take_app_length, Nat.add_1_r.
  assert (Hdrop : drop (S (length (c :: key))) ((c :: key) ++ "="%char :: value) = value).
  { change ("="%char :: value) with (["="%char] ++ value). rewrite app_assoc. apply drop_length_app.
    rewrite length_app. cbn [length]. lia. }
  rewrite Hdrop, !trim_strip, !strip_stripped, Ha by done. done.
Qed.

Lemma all_digits_stripped s : all_digits s -> stripped s = true.
Proof.
  intros H. destruct s as [|c s]; [done|]. destruct (exists_last (l := c :: s)) as (l & d & E); [done|].
  unfold stripped. rewrite E, last_last. rewrite E in H. apply Forall_app in H as [Hl Hd].
  assert (Hn := forall_chars_impl isdigit (fun c => negb (isspace c)) eq_refl).
  rewrite (Hn d) by (by apply Forall_inv in Hd). rewrite andb_true_r. apply Hn.
  destruct l; injection E; intros; subst; [by apply Forall_inv in Hd|by apply Forall_inv in Hl].
Qed.

Lemma to_string_nonneg_digits z : (0 <= z)%Z -> all_digits (to_string z).
Proof. unfold to_string. destruct (Z.ltb_spec z 0); [lia|]. intros _. apply dec_of_N_digits. Qed.

Lemma all_digits_no_lf s : all_digits s -> LF ∉ s.
Proof. unfold all_digits. rewrite Forall_forall. intros H Hin. by specialize (H _ Hin). Qed.

(** All 4096 modes read back, by computation. *)
Lemma render_mode_parse m : (0 <= m <= 4095)%Z ->
  parse_in_range (render_mode m) 8 0 4095 = Some m /\ text_ok (render_mode m).
Proof.
  intros Hm. assert (Hd : all_digits (render_mode m)).
  { unfold render_mode, all_digits. repeat constructor; apply isdigit_digit;
      Z.to_euclidean_division_equations; lia. }
  split; [|split; [by apply all_digits_stripped|by apply all_digits_no_lf]].
  assert (H : forallb (fun n => bool_decide (parse_in_range (render_mode (Z.of_nat n)) 8 0 4095 = Some (Z.of_nat n)))
                (seq 0 4096) = true) by (by vm_compute).
  rewrite forallb_forall in H. specialize (H (Z.to_nat m)). rewrite Z2Nat.id in H by lia.
  apply (bool_decide_eq_true_1 _). apply H, in_seq. lia.
Qed.

Lemma load_lines_render key value path ls n cfg cfg' w :
  key_ok key = true -> stripped value = true -> apply_key key value cfg = KeySet cfg' ->
  load_lines path (render_line key value :: ls) n cfg w = load_lines path ls (n + 1) cfg' w.
Proof. intros Hk Hv Ha. cbn [load_lines]. by rewrite (config_line_render _ _ _ _ Hk Hv Ha). Qed.

Lemma render_line_no_lf key value : LF ∉ key -> LF ∉ value -> LF ∉ render_line key value.
Proof. intros Hk Hv. unfold render_line. rewrite not_elem_of_app, not_elem_of_cons. by split. Qed.

Lemma parse_number_key (parsed : option Z) v set what cfg :
  parsed = Some v -> checked parsed set what cfg = KeySet (set v cfg).
Proof. by intros ->. Qed.

Lemma to_string_text_ok z : (0 <= z)%Z -> text_ok (to_string z).
Proof.
  intros H. apply to_string_nonneg_digits in H. split; [by apply all_digits_stripped|by apply all_digits_no_lf].
Qed.

(** One line of [config_lines]: its key is one the scanner finds, its value
    has no outer space, and the key's own parser reads it. *)
Ltac load_render :=
  erewrite load_lines_render; [|by vm_compute|eassumption|
    first [reflexivity | apply parse_number_key; eassumption]].

Lemma load_render_config path c c0 w :
  config_writable c -> load_config path (Some (render_config c)) c0 w = mkLoad c None w.
Proof.
  intros [(Hm & Ht & Hb & Hp & Hi) [Hp0 Htexts]].
  rewrite !Forall_cons in Htexts. destruct Htexts as ([? ?] & [? ?] & [? ?] & [? ?] & [? ?] & [? ?] & _).
  destruct (render_mode_parse _ Hm) as [? [? ?]].
  destruct (to_string_text_ok (threads c)) as [? ?]; [lia|].
  destruct (to_string_text_ok (max_request_bytes c)) as [? ?]; [lia|].
  destruct (to_string_text_ok (tcp_port c)) as [? ?]; [lia|].
  destruct (to_string_text_ok (metrics_interval_seconds c)) as [? ?]; [lia|].
  assert (parse_in_range (to_string (threads c)) 10 1 256 = Some (threads c)) by (by apply parse_in_range_to_string).
  assert (parse_in_range (to_string (max_request_bytes c)) 10 256 (Z.shiftl 1 20) = Some (max_request_bytes c))
    by (by apply parse_in_range_to_string).
  assert (parse_port (to_string (tcp_port c)) = Some (tcp_port c)) by (apply parse_in_range_to_string; (done || lia)).
  assert (parse_in_range (to_string (metrics_interval_seconds c)) 10 1 86400 = Some (metrics_interval_seconds c))
    by (by apply parse_in_range_to_string).
  assert (Hbool : stripped (if debug_log c then #"true" else #"false") = true) by (by destruct (debug_log c)).
  unfold load_config, render_config. rewrite getlines_render.
  2: { repeat (constructor; [apply render_line_no_lf; [by apply (bool_decide_eq_true_1 (LF ∉ _)); vm_compute|]|]);
       try done. by destruct (debug_log c); apply (bool_decide_eq_true_1 (LF ∉ _)); vm_compute. }
  unfold config_lines.
  do 7 load_render.
  erewrite load_lines_render; [|by vm_compute|eassumption|
    by (instantiate (1 := set_debug_log (debug_log c) _); destruct (debug_log c))].
  do 4 load_render. cbn [load_lines]. by destruct c.
Qed.

(** ** The environment *)

(** The field a variable leaves: the old value when it is unset. *)
Definition env_field {A} (getenv : bytes -> option bytes) (name : bytes) (parse : bytes -> option A) (old : A) : option A :=
  match getenv name with None => Some old | Some s => parse s end.

Definition env_applied (getenv : bytes -> option bytes) (c c' : Config) : Prop :=
  env_field getenv #"NSHGEOIP_COUNTRY_DB" Some (country_db c) = Some (country_db c') /\
  env_field getenv #"NSHGEOIP_ASN_DB" Some (asn_db c) = Some (asn_db c') /\
  env_field getenv #"NSHGEOIP_CITY_DB" Some (city_db c) = Some (city_db c') /\
  env_field getenv #"NSHGEOIP_SOCKET" Some (socket_path c) = Some (socket_path c') /\
  env_field getenv #"NSHGEOIP_SOCKET_MODE" (fun s => parse_in_range s 8 0 4095) (socket_mode c) = Some (socket_mode c') /\
  env_field getenv #"NSHGEOIP_THREADS" (fun s => parse_in_range s 10 1 256) (threads c) = Some (threads c') /\
  env_field getenv #"NSHGEOIP_MAX_REQUEST_BYTES" (fun s => parse_in_range s 10 256 1048576) (max_request_bytes c) =
    Some (max_request_bytes c') /\
  env_field getenv #"NSHGEOIP_DEBUG_LOG" parse_bool (debug_log c) = Some (debug_log c') /\
  env_field getenv #"NSHGEOIP_TCP_PORT" (fun s => parse_in_range s 10 1 65535) (tcp_port c) = Some (tcp_port c') /\
  env_field getenv #"NSHGEOIP_TCP_ADDRESS" Some (tcp_address c) = Some (tcp_address c') /\
  env_field getenv #"NSHGEOIP_METRICS_FILE" Some (metrics_file c) = Some (metrics_file c') /\
  env_field getenv #"NSHGEOIP_METRICS_INTERVAL_SECONDS" (fun s => parse_in_range s 10 1 86400)
    (metrics_interval_seconds c) = Some (metrics_interval_seconds c').

(** The checked variables in the order they are read, with their parsers'
    verdict and the text of their error. *)
Definition env_checks : list (bytes * (bytes -> bool) * bytes) :=
  [ (#"NSHGEOIP_SOCKET_MODE", fun s => bool_decide (is_Some (parse_in_range s 8 0 4095)),
      #": invalid value (expected octal, e.g. 0660)");
    (#"NSHGEOIP_THREADS", fun s => bool_decide (is_Some (parse_in_range s 10 1 256)), #": invalid value (expected 1-256)");
    (#"NSHGEOIP_MAX_REQUEST_BYTES", fun s => bool_decide (is_Some (parse_in_range s 10 256 1048576)),
      #": invalid value (expected 256-1048576)");
    (#"NSHGEOIP_DEBUG_LOG", fun s => bool_decide (is_Some (parse_bool s)), #": invalid value (expected true/false)");
    (#"NSHGEOIP_TCP_PORT", fun s => bool_decide (is_Some (parse_in_range s 10 1 65535)),
      #": invalid value (expected 1-65535)");
    (#"NSHGEOIP_METRICS_INTERVAL_SECONDS", fun s => bool_decide (is_Some (parse_in_range s 10 1 86400)),
      #": invalid value (expected 1-86400)") ].

Definition env_bad (getenv : bytes -> option bytes) (check : bytes * (bytes -> bool) * bytes) : bool :=
  match getenv check.1.1 with Some s => negb (check.1.2 s) | None => false end.

Lemma env_steps_cons s steps c c' :
  env_steps (s :: steps) c = (c', None) <-> exists c1, s c = (c1, None) /\ env_steps steps c1 = (c', None).
Proof. simpl. destruct (s c) as [c1 [e|]]; naive_solver. Qed.

Lemma env_string_iff getenv name set get c c1 :
  set (get c) c = c ->
  env_string getenv name set c = (c1, None) <-> exists v, env_field getenv name Some (get c) = Some v /\ c1 = set v c.
Proof.
  intros H. unfold env_string, env_field. destruct (getenv name) as [s|].
  - split; [intros [= <-]; by exists s|by intros (v & [= ->] & ->)].
  - split; [intros [= <-]; by exists (get c)|by intros (v & [= <-] & ->); rewrite H].
Qed.

Lemma env_checked_iff {A} getenv name (parse : bytes -> option A) set get what c c1 :
  set (get c) c = c ->
  env_checked getenv name parse set what c = (c1, None) <->
  exists v, env_field getenv name parse (get c) = Some v /\ c1 = set v c.
Proof.
  intros H. unfold env_checked, env_field.
  destruct (getenv name) as [s|]; [destruct (parse s) as [x|]|].
  - split; [intros [= <-]; by exists x|by intros (v & [= ->] & ->)].
  - split; [done|by intros (v & ? & _)].
  - split; [intros [= <-]; by exists (get c)|by intros (v & [= <-] & ->); rewrite H].
Qed.

Lemma eta_config c :
  mkConfig (country_db c) (asn_db c) (city_db c) (socket_path c) (socket_mode c) (threads c)
    (max_request_bytes c) (debug_log c) (tcp_port c) (tcp_address c) (metrics_file c)
    (metrics_interval_seconds c) = c.
Proof. by destruct c. Qed.

(** Takes the first step of [env_steps] apart, in a hypothesis or a goal;
    [get] is the field the step sets. *)
Ltac env_step_in H get :=
  let E := fresh "E" in
  apply env_steps_cons in H as (? & E & H);
  first [apply (env_string_iff _ _ _ get) in E; [|apply eta_config]
        |apply (env_checked_iff _ _ _ _ get) in E; [|apply eta_config]];
  destruct E as (? & E & ->).
Ltac env_step_goal E get :=
  apply env_steps_cons; eexists; split;
  [first [apply (env_string_iff _ _ _ get) | apply (env_checked_iff _ _ _ _ get)];
   [apply eta_config|eexists; split; [exact E|reflexivity]]|].

Lemma apply_env_overrides_iff getenv c c' :
  apply_env_overrides getenv c = (c', None) <-> env_applied getenv c c'.
Proof.
  unfold apply_env_overrides, parse_port. split.
  - intros H. env_step_in H country_db. env_step_in H asn_db. env_step_in H city_db.
    env_step_in H socket_path. env_step_in H socket_mode. env_step_in H threads.
    env_step_in H max_request_bytes. env_step_in H debug_log. env_step_in H tcp_port.
    env_step_in H tcp_address. env_step_in H metrics_file. env_step_in H metrics_interval_seconds.
    cbn [env_steps] in H. injection H as <-. by repeat split.
  - intros (E1 & E2 & E3 & E4 & E5 & E6 & E7 & E8 & E9 & E10 & E11 & E12).
    env_step_goal E1 country_db. env_step_goal E2 asn_db. env_step_goal E3 city_db.
    env_step_goal E4 socket_path. env_step_goal E5 socket_mode. env_step_goal E6 threads.
    env_step_goal E7 max_request_bytes. env_step_goal E8 debug_log. env_step_goal E9 tcp_port.
    env_step_goal E10 tcp_address. env_step_goal E11 metrics_file.
    env_step_goal E12 metrics_interval_seconds.
    cbn [env_steps]. exact (f_equal (fun x => (x, None)) (eta_config c')).
Qed.

(** The error is the first bad variable's, whatever the configuration. *)
Lemma env_string_error getenv name set steps c :
  exists c1, env_steps (env_string getenv name set :: steps) c = env_steps steps c1.
Proof. cbn. unfold env_string. destruct (getenv name); by eexists. Qed.

Lemma env_checked_error {A} getenv name (parse : bytes -> option A) set what steps c :
  (exists c1, env_bad getenv (name, fun s => bool_decide (is_Some (parse s)), what) = false /\
    env_steps (env_checked getenv name parse set what :: steps) c = env_steps steps c1) \/
  (env_bad getenv (name, fun s => bool_decide (is_Some (parse s)), what) = true /\
    env_steps (env_checked getenv name parse set what :: steps) c = (c, Some (name ++ what))).
Proof.
  cbn. unfold env_checked, env_bad. cbn. destruct (getenv name) as [s|]; [|left; by eexists].
  destruct (parse s) eqn:E; [left; by eexists|by right].
Qed.

Ltac env_skip_string :=
  match goal with |- context [env_steps (env_string ?g ?n ?s :: ?l) ?c] =>
    destruct (env_string_error g n s l c) as [? ->] end.
Ltac env_skip_checked :=
  match goal with |- context [env_steps (env_checked ?g ?n ?p ?s ?w :: ?l) ?c] =>
    destruct (env_checked_error g n p s w l c) as [(? & E & ->)|(E & ->)];
    cbn [find]; rewrite E; [clear E|reflexivity] end.

Lemma apply_env_overrides_first_error getenv c :
  (apply_env_overrides getenv c).2 =
  option_map (fun check => check.1.1 ++ check.2) (find (env_bad getenv) env_checks).
Proof.
  unfold apply_env_overrides, parse_port, env_checks.
  change (Z.shiftl 1 20) with 1048576%Z.
  do 4 env_skip_string. do 5 env_skip_checked. do 2 env_skip_string. env_skip_checked. done.
Qed.

(** ** Default databases *)

(** The first candidate that exists, for a field that is empty. *)
Definition default_db (exists_ : bytes -> bool) (dirs : list bytes) (filename field : bytes) : bytes :=
  if field == [] then default [] (find exists_ (map (fun dir => dir ++ #"/" ++ filename) dirs)) else field.

Definition default_note (exists_ : bytes -> bool) (dirs : list bytes) (key filename field : bytes) : list bytes :=
  if (field == []) && existsb exists_ (map (fun dir => dir ++ #"/" ++ filename) dirs)
  then [key ++ #" not set, using " ++ default_db exists_ dirs filename field ++ #" (auto-detected)"]
  else [].

Lemma push_back_append w x : push_back w x = append_warnings w [x].
Proof. by destruct w. Qed.

Lemma resolve_db_slot_spec exists_ field key filename dirs notes :
  resolve_db_slot exists_ field key filename dirs notes =
  (default_db exists_ dirs filename field,
   append_warnings notes (default_note exists_ dirs key filename field)).
Proof.
  unfold default_note, default_db. destruct (bool_decide_reflect (field = [])) as [->|Hne].
  2: { cbn [andb]. rewrite append_warnings_nil. destruct dirs; cbn; by rewrite bool_decide_neq by done. }
  cbn [andb]. induction dirs as [|d dirs IH]; [by rewrite append_warnings_nil|].
  cbn [resolve_db_slot map find existsb]. change ([] == []) with true. cbn [negb].
  destruct (exists_ (d ++ #"/" ++ filename)); [|apply IH]. cbn. by rewrite push_back_append.
Qed.

Lemma apply_default_db_paths_value exists_ cfg dirs notes :
  let city := default_db exists_ dirs #"GeoLite2-City.mmdb" (city_db cfg) in
  (apply_default_db_paths exists_ cfg dirs notes).1 =
  set_country_db
    (if city == [] then default_db exists_ dirs #"GeoLite2-Country.mmdb" (country_db cfg) else country_db cfg)
    (set_asn_db (default_db exists_ dirs #"GeoLite2-ASN.mmdb" (asn_db cfg)) (set_city_db city cfg)).
Proof.
  cbn zeta. unfold apply_default_db_paths. rewrite !resolve_db_slot_spec. cbn [city_db set_city_db set_asn_db].
  destruct (default_db exists_ dirs #"GeoLite2-City.mmdb" (city_db cfg) == []); by cbn [negb].
Qed.

(** ** Properties *)

(** [parse_long] accepts exactly the texts (up to the first NUL) made of
    white space, an optional sign and digits of the base whose value fits in
    a 64-bit [long], and returns that value; so any [long] written in decimal
    reads back as itself, and no larger number is truncated into range. *)
Theorem parse_long_spec (base : N) (value : bytes) (v z : Z) :
  (parse_long value base = Some v <->
   long_text base (c_str value) v /\ (LONG_MIN <= v <= LONG_MAX)%Z) /\
  parse_long (to_string z) 10 = (if ((LONG_MIN <=? z) && (z <=? LONG_MAX))%Z then Some z else None).
Proof. split; [apply parse_long_iff|apply parse_long_to_string]. Qed.

(** C20. A configuration written to a file loads back: for every configuration
    with texts free of newlines and outer white space, numbers in range and a
    port, loading the rendered file over any other configuration gives that
    configuration, with no error and no new warning. *)
Theorem load_config_roundtrip (path : bytes) (c c0 : Config) (w : option (list bytes)) (H : config_writable c) :
  load_config path (Some (render_config c)) c0 w = mkLoad c None w.
Proof. by apply load_render_config. Qed.

(** Witness of C20: a configuration with every member set. *)
Example load_config_roundtrip_witness :
  let c := mkConfig #"/db/c.mmdb" [] #"/db/my city.mmdb" #"/run/s" 432 4 8192 true 8080 #"::1" #"/m=1" 60 in
  load_config #"/etc/c" (Some (render_config c)) (Config_default 0) (Some []) = mkLoad c None (Some []).
Proof.
  apply load_config_roundtrip. split; [unfold config_ok; cbn; lia|]. split; [done|].
  repeat constructor; by apply (bool_decide_eq_true_1 (LF ∉ _)).
Defined.

(** C37. How a load ends: either every line is acceptable, and the
    configuration is all lines applied in order; or there is a first bad
    line, the error names the file and that line's number, and the
    configuration is the lines before it applied in order.  In both cases the
    warnings added are one per unknown key, in order, with line numbers. *)
Theorem load_config_outcome (path content : bytes) (cfg : Config) (w : option (list bytes)) :
  load_ends path (getlines content) 0 cfg w (load_config path (Some content) cfg w) /\
  load_config path None cfg w = mkLoad cfg (Some (#"cannot open config file: " ++ path)) w.
Proof. split; [apply load_lines_ends|done]. Qed.

(** C36. The documented ranges hold of every configuration: of the built-in
    one on any machine, and after a file, the environment and the default
    databases were applied to it, also when one of them failed half-way. *)
Theorem config_ranges (detected : Z) (path : bytes) (file : option bytes) (w : option (list bytes))
    (getenv : bytes -> option bytes) (exists_ : bytes -> bool) (dirs : list bytes) (notes : option (list bytes)) :
  let c0 := Config_default detected in
  let c1 := lr_cfg (load_config path file c0 w) in
  let c2 := (apply_env_overrides getenv c1).1 in
  let c3 := (apply_default_db_paths exists_ c2 dirs notes).1 in
  config_ok c0 /\ config_ok c1 /\ config_ok c2 /\ config_ok c3 /\ (4 <= threads c0 <= 20)%Z.
Proof.
  cbn zeta. assert (H0 := config_default_ok detected). assert (H1 := load_config_ok path file _ w H0).
  assert (H2 := apply_env_overrides_ok getenv _ H1).
  repeat split; try apply H0; try apply H1; try apply H2; try apply (apply_default_db_paths_ok _ _ _ _ H2);
    apply default_thread_count_range.
Qed.

(** C38. The environment overrides: the call succeeds with [c'] exactly when
    every member of [c'] is its own variable's value, if that is set, and the
    old value otherwise; a failed call reports the first checked variable
    whose text its parser rejects, in the order they are read.  A port given as
    0 is left out: the documentation says it means no TCP listener, the parser
    rejects it (the finding at config.cpp:98). *)
Theorem apply_env_overrides_spec (getenv : bytes -> option bytes) (c c' : Config)
    (Hport : forall text, getenv #"NSHGEOIP_TCP_PORT" = Some text -> parse_long text 10 <> Some 0%Z) :
  (apply_env_overrides getenv c = (c', None) <-> env_applied getenv c c') /\
  (apply_env_overrides getenv c).2 =
    option_map (fun check => check.1.1 ++ check.2) (find (env_bad getenv) env_checks).
Proof. split; [apply apply_env_overrides_iff|apply apply_env_overrides_first_error]. Qed.

(** Witness of C38: a number of threads and nothing else. *)
Example apply_env_overrides_spec_witness :
  let getenv := fun n => if n == #"NSHGEOIP_THREADS" then Some #"16" else None in
  (apply_env_overrides getenv (Config_default 8) = (set_threads 16 (Config_default 8), None) <->
     env_applied getenv (Config_default 8) (set_threads 16 (Config_default 8))) /\
  (apply_env_overrides getenv (Config_default 8)).2 =
    option_map (fun check => check.1.1 ++ check.2) (find (env_bad getenv) env_checks).
Proof. intros getenv. apply (apply_env_overrides_spec getenv). by intros text. Defined.

(** The search for default databases replaces only empty paths, each by
    the first existing candidate in the order of the directories, and leaves
    country_db alone as soon as there is a city database. *)
Theorem apply_default_db_paths_spec (exists_ : bytes -> bool) (cfg : Config) (dirs : list bytes)
    (notes : option (list bytes)) :
  let city := default_db exists_ dirs #"GeoLite2-City.mmdb" (city_db cfg) in
  (apply_default_db_paths exists_ cfg dirs notes).1 =
  set_country_db
    (if city == [] then default_db exists_ dirs #"GeoLite2-Country.mmdb" (country_db cfg) else country_db cfg)
    (set_asn_db (default_db exists_ dirs #"GeoLite2-ASN.mmdb" (asn_db cfg)) (set_city_db city cfg)).
Proof. apply apply_default_db_paths_value. Qed.

(** The documented way to write "no TCP port" is an error. *)
Lemma tcp_port_zero_rejected (cfg : Config) :
  load_config #"/etc/nshgeoip.conf" (Some #"tcp_port=0") cfg None =
  mkLoad cfg (Some #"/etc/nshgeoip.conf:1: invalid tcp_port (expected 1-65535)") None.
Proof. by vm_compute. Qed.
