(* ===== verification/GeoIp.v ===== *)
(** * The databases (src/src/geoip.cpp, src/src/geoip.h)

    [GeoIpDatabases]: opening, replacing and closing the three databases,
    lookups against the open ones, and their metadata.  libmaxminddb is not
    part of the repository: the class [MaxMindDB] names what the code calls,
    and every call to [MMDB_open] and [MMDB_close] goes through a heap of live
    handles, so that a closed handle cannot be used or closed again. *)

From S2P Require Import Prelude CLib TextUtil Double Clock IpAddr.
From Stdlib Require Import Ascii.
From stdpp Require Import gmap.

(** ** libmaxminddb *)

(** [MMDB_entry_data_s]: [has_data], and the member of the union that [type]
    selects; the types the code does not ask for are one constructor. *)
Inductive mmdb_data :=
| Utf8String (s : bytes)
| Uint32 (n : Z)
| Uint16 (n : Z)
| DoubleValue (d : double)
| OtherType (type : Z).
Record MMDB_entry_data_s := mkEntryData { has_data : bool; data : mmdb_data }.

(** [MMDB_metadata_s]; a null pointer is [None]. *)
Record MMDB_metadata_s := mkMetadata {
  node_count : Z;
  record_size : Z;
  ip_version : Z;
  database_type_ptr : option bytes;
  languages : list bytes;
  binary_format_major_version : Z;
  binary_format_minor_version : Z;
  build_epoch_field : Z;
  description : list (option bytes * option bytes);   (* language, description *)
}.

(** [MMDB_db] is what an opened file holds, [MMDB_entry_s] a record found in
    it.  A lookup gives the error status and the entry if one is found. *)
Class MaxMindDB := {
  MMDB_db : Type;
  MMDB_entry_s : Type;
  MMDB_metadata : MMDB_db -> MMDB_metadata_s;
  MMDB_lookup_sockaddr : MMDB_db -> sockaddr_storage -> Z * option MMDB_entry_s;
  MMDB_get_value : MMDB_entry_s -> list bytes -> Z * MMDB_entry_data_s;
  MMDB_strerror : Z -> bytes;
  MMDB_lib_version : bytes;
}.

Definition MMDB_SUCCESS : Z := 0.

(** ** Data *)

Record GeoIpDbMetadata := mkDbMetadata {
  database_type : bytes;
  build_epoch : Z;
  build_time : bytes;
  age_days : double;
  age_ms : Z;
  age_ns : Z;
}.

Record GeoIpResult := mkResult {
  found : bool;
  country_code : option bytes;
  country_name : option bytes;
  continent_code : option bytes;
  asn : option Z;
  as_org : option bytes;
  city_name : option bytes;
  postal_code : option bytes;
  latitude : option double;
  longitude : option double;
  accuracy_radius : option Z;
}.

Definition GeoIpResult_default : GeoIpResult :=
  mkResult false None None None None None None None None None None.

Section GeoIp.
Context `{MaxMindDB}.

(** ** Values of an entry *)

Definition get_string (entry : MMDB_entry_s) (keys : list bytes) : option bytes :=
  let '(status, d) := MMDB_get_value entry keys in
  if (status =? MMDB_SUCCESS)%Z && has_data d
  then match data d with Utf8String s => Some s | _ => None end else None.

Definition get_uint32 (entry : MMDB_entry_s) (k1 : bytes) : option Z :=
  let '(status, d) := MMDB_get_value entry [k1] in
  if (status =? MMDB_SUCCESS)%Z && has_data d
  then match data d with Uint32 n => Some n | _ => None end else None.

Definition get_uint16 (entry : MMDB_entry_s) (k1 k2 : bytes) : option Z :=
  let '(status, d) := MMDB_get_value entry [k1; k2] in
  if (status =? MMDB_SUCCESS)%Z && has_data d
  then match data d with Uint16 n => Some n | _ => None end else None.

Definition get_double (entry : MMDB_entry_s) (k1 k2 : bytes) : option double :=
  let '(status, d) := MMDB_get_value entry [k1; k2] in
  if (status =? MMDB_SUCCESS)%Z && has_data d
  then match data d with DoubleValue v => Some v | _ => None end else None.

(** ** Handles *)

(** The live [MMDB_s] handles and the database each has mapped. *)
Record mmdb_heap := mkHeap { next_handle : nat; live : gmap nat MMDB_db }.

Definition heap_empty : mmdb_heap := mkHeap 1 ∅.

(** What [MMDB_open] finds at a path: an error status or a database. *)
Definition file_system := bytes -> Z + MMDB_db.

Definition MMDB_open (fs : file_system) (filename : bytes) (h : mmdb_heap) : (Z + nat) * mmdb_heap :=
  match fs filename with
  | inl status => (inl status, h)
  | inr db => (inr (next_handle h), mkHeap (S (next_handle h)) (<[next_handle h := db]> (live h)))
  end.

(** [None]: the handle is not live, and the call undefined. *)
Definition MMDB_close (mmdb : nat) (h : mmdb_heap) : option mmdb_heap :=
  match live h !! mmdb with
  | None => None
  | Some _ => Some (mkHeap (next_handle h) (delete mmdb (live h)))
  end.

Definition open_mmdb (fs : file_system) (path : bytes) (h : mmdb_heap) : (bytes + nat) * mmdb_heap :=
  match MMDB_open fs (c_str path) h with
  | (inl status, h') => (inl (#"failed to open database '" ++ path ++ #"': " ++ MMDB_strerror status), h')
  | (inr mmdb, h') => (inr mmdb, h')
  end.

(** ** The three slots *)

Record GeoIpDatabases := mkDatabases {
  country_mmdb_ : nat;
  country_open_ : bool;
  asn_mmdb_ : nat;
  asn_open_ : bool;
  city_mmdb_ : nat;
  city_open_ : bool;
}.

Definition GeoIpDatabases_default : GeoIpDatabases := mkDatabases 0 false 0 false 0 false.

(** The object and the heap its handles live in. *)
Record geo_state := mkGeo { dbs : GeoIpDatabases; heap : mmdb_heap }.

Definition geo_init : geo_state := mkGeo GeoIpDatabases_default heap_empty.

Definition close_if (open : bool) (mmdb : nat) (h : mmdb_heap) : option mmdb_heap :=
  if open then MMDB_close mmdb h else Some h.

(** The destructor. *)
Definition GeoIpDatabases_destroy (s : geo_state) : option mmdb_heap :=
  h1 ← close_if (country_open_ (dbs s)) (country_mmdb_ (dbs s)) (heap s);
  h2 ← close_if (asn_open_ (dbs s)) (asn_mmdb_ (dbs s)) h1;
  close_if (city_open_ (dbs s)) (city_mmdb_ (dbs s)) h2.

(** The error of a failed call ([None] when it returns true) and the state it
    leaves; the whole is [None] when a dead handle is closed. *)
Definition open_country (fs : file_system) (path : bytes) (s : geo_state) : option (option bytes * geo_state) :=
  match open_mmdb fs path (heap s) with
  | (inl err, h) => Some (Some err, mkGeo (dbs s) h)
  | (inr tmp, h) =>
      let d := dbs s in
      h' ← close_if (country_open_ d) (country_mmdb_ d) h;
      Some (None, mkGeo (mkDatabases tmp true (asn_mmdb_ d) (asn_open_ d) (city_mmdb_ d) (city_open_ d)) h')
  end.

Definition open_asn (fs : file_system) (path : bytes) (s : geo_state) : option (option bytes * geo_state) :=
  match open_mmdb fs path (heap s) with
  | (inl err, h) => Some (Some err, mkGeo (dbs s) h)
  | (inr tmp, h) =>
      let d := dbs s in
      h' ← close_if (asn_open_ d) (asn_mmdb_ d) h;
      Some (None, mkGeo (mkDatabases (country_mmdb_ d) (country_open_ d) tmp true (city_mmdb_ d) (city_open_ d)) h')
  end.

Definition open_city (fs : file_system) (path : bytes) (s : geo_state) : option (option bytes * geo_state) :=
  match open_mmdb fs path (heap s) with
  | (inl err, h) => Some (Some err, mkGeo (dbs s) h)
  | (inr tmp, h) =>
      let d := dbs s in
      h' ← close_if (city_open_ d) (city_mmdb_ d) h;
      Some (None, mkGeo (mkDatabases (country_mmdb_ d) (country_open_ d) (asn_mmdb_ d) (asn_open_ d) tmp true) h')
  end.

Definition reload_country := open_country.
Definition reload_asn := open_asn.
Definition reload_city := open_city.

(** ** Lookup *)

(** What an open database does to the result and [db_error]: an error sets
    the flag, an entry is handed to [use]. *)
Definition consult (db : MMDB_db) (addr : ParsedAddr) (use : MMDB_entry_s -> GeoIpResult -> GeoIpResult)
    (result : GeoIpResult) (db_error : bool) : GeoIpResult * bool :=
  let '(mmdb_err, entry) := MMDB_lookup_sockaddr db (storage addr) in
  if negb (mmdb_err =? MMDB_SUCCESS)%Z then (result, true)
  else match entry with
       | None => (result, db_error)
       | Some e => (use e result, db_error)
       end.

Definition use_country (e : MMDB_entry_s) (r : GeoIpResult) : GeoIpResult :=
  mkResult true
    (get_string e [ #"country"; #"iso_code"])
    (get_string e [ #"country"; #"names"; #"en"])
    (get_string e [ #"continent"; #"code"])
    (asn r) (as_org r) (city_name r) (postal_code r) (latitude r) (longitude r) (accuracy_radius r).

Definition use_asn (e : MMDB_entry_s) (r : GeoIpResult) : GeoIpResult :=
  mkResult true (country_code r) (country_name r) (continent_code r)
    (get_uint32 e #"autonomous_system_number")
    (get_string e [ #"autonomous_system_organization"])
    (city_name r) (postal_code r) (latitude r) (longitude r) (accuracy_radius r).

Definition use_city (country_open : bool) (e : MMDB_entry_s) (r : GeoIpResult) : GeoIpResult :=
  let r1 := mkResult true (country_code r) (country_name r) (continent_code r) (asn r) (as_org r)
    (get_string e [ #"city"; #"names"; #"en"])
    (get_string e [ #"postal"; #"code"])
    (get_double e #"location" #"latitude")
    (get_double e #"location" #"longitude")
    (get_uint16 e #"location" #"accuracy_radius") in
  if negb country_open then use_country e r1 else r1.

(** The result and [db_error]; [None] when an open flag stands over a dead handle. *)
Definition lookup (s : geo_state) (addr : ParsedAddr) : option (GeoIpResult * bool) :=
  let d := dbs s in
  '(r1, e1) ←
    (if country_open_ d then
       db ← live (heap s) !! country_mmdb_ d; Some (consult db addr use_country GeoIpResult_default false)
     else Some (GeoIpResult_default, false));
  '(r2, e2) ←
    (if asn_open_ d && negb e1 then
       db ← live (heap s) !! asn_mmdb_ d; Some (consult db addr use_asn r1 e1)
     else Some (r1, e1));
  if city_open_ d && negb e2 then
    db ← live (heap s) !! city_mmdb_ d; Some (consult db addr (use_city (country_open_ d)) r2 e2)
  else Some (r2, e2).


(** ** Metadata *)

(** Conversion of a 64-bit unsigned value to [std::time_t]. *)
Definition to_time_t (n : Z) : Z := ((n + 2 ^ 63) mod 2 ^ 64 - 2 ^ 63)%Z.

(** [static_cast<std::uint64_t>(d)]: the value without its fraction; [None]
    where it is not representable and the conversion is undefined. *)
Definition to_uint64 (d : double) : option Z :=
  match d with
  | Dfinite neg m e =>
      let '(n, den) := frac_of m e in
      let t := Z.of_N (n / den) in
      if (if neg then 0 <? t else 2 ^ 64 <=? t)%Z then None else Some t
  | _ => None
  end.

Definition format_build_time (build_epoch : Z) : option bytes :=
  strftime_iso <$> gmtime (to_time_t build_epoch).

(** [now] is [std::time(nullptr)].  [None]: the program's behaviour is not
    defined, because a conversion is not. *)
Definition make_metadata (now : Z) (mmdb : MMDB_db) : option GeoIpDbMetadata :=
  let meta := MMDB_metadata mmdb in
  time ← format_build_time (build_epoch_field meta);
  let build_time := to_time_t (build_epoch_field meta) in
  let age_seconds := double_of_Z (now - build_time) in
  ms ← to_uint64 (dmul_const age_seconds 1000);
  ns ← to_uint64 (dmul_const age_seconds 1000000000);
  Some (mkDbMetadata (default [] (database_type_ptr meta)) (build_epoch_field meta) time
          (ddiv_const age_seconds 86400) ms ns).

(** The accessors: [Some None] when the database is not open. *)
Definition slot_metadata (now : Z) (open : bool) (mmdb : nat) (h : mmdb_heap) : option (option GeoIpDbMetadata) :=
  if negb open then Some None
  else db ← live h !! mmdb; Some <$> make_metadata now db.

Definition country_metadata (now : Z) (s : geo_state) : option (option GeoIpDbMetadata) :=
  slot_metadata now (country_open_ (dbs s)) (country_mmdb_ (dbs s)) (heap s).
Definition asn_metadata (now : Z) (s : geo_state) : option (option GeoIpDbMetadata) :=
  slot_metadata now (asn_open_ (dbs s)) (asn_mmdb_ (dbs s)) (heap s).
Definition city_metadata (now : Z) (s : geo_state) : option (option GeoIpDbMetadata) :=
  slot_metadata now (city_open_ (dbs s)) (city_mmdb_ (dbs s)) (heap s).

End GeoIp.

(** ** A concrete library to evaluate the model with

    A database is its metadata and the entries of a list of addresses; an
    entry is a list of paths with their values. *)

#[export] Instance sockaddr_storage_eq_dec : EqDecision sockaddr_storage.
Proof. solve_decision. Defined.

Definition assoc {K V} `{EqDecision K} (k : K) (l : list (K * V)) : option V :=
  snd <$> List.find (fun kv => bool_decide (kv.1 = k)) l.

Record simple_db := mkSimpleDb {
  simple_metadata : MMDB_metadata_s;
  simple_entries : list (sockaddr_storage * list (list bytes * mmdb_data));
  simple_broken : bool;   (* every lookup fails *)
}.

#[export] Instance simple_maxmind : MaxMindDB := {
  MMDB_db := simple_db;
  MMDB_entry_s := list (list bytes * mmdb_data);
  MMDB_metadata := simple_metadata;
  MMDB_lookup_sockaddr db a := if simple_broken db then (3%Z, None) else (0%Z, assoc a (simple_entries db));
  MMDB_get_value e p :=
    match assoc p e with
    | Some d => (0%Z, mkEntryData true d)
    | None => (9%Z, mkEntryData false (OtherType 0))
    end;
  MMDB_strerror st := #"error " ++ to_string st;
  MMDB_lib_version := #"1.9.1";
}.
