(* ===== verification/GeoIpSpec.v ===== *)
(** * The databases: specification and correctness of [GeoIp]

    The specification of [GeoIpDatabases] is three optional databases: opening
    one replaces its slot, a failed open changes nothing, and a lookup is a
    function of what the slots hold.  The handles of [GeoIp] implement it: no
    dead handle is ever used or closed, and no live one is lost. *)

From stdpp Require Import gmap.
From S2P Require Import Prelude CLib Double Clock IpAddr GeoIp.
From Stdlib Require Import Ascii.

Section Spec.
Context `{MaxMindDB}.

(** ** The abstract object *)

Inductive slot := Country | Asn | City.
#[export] Instance slot_eq_dec : EqDecision slot.
Proof. solve_decision. Defined.

Record geo_view := mkView { vcountry : option MMDB_db; vasn : option MMDB_db; vcity : option MMDB_db }.

Definition view_slot (v : geo_view) (which : slot) : option MMDB_db :=
  match which with Country => vcountry v | Asn => vasn v | City => vcity v end.

Definition set_slot (which : slot) (db : MMDB_db) (v : geo_view) : geo_view :=
  match which with
  | Country => mkView (Some db) (vasn v) (vcity v)
  | Asn => mkView (vcountry v) (Some db) (vcity v)
  | City => mkView (vcountry v) (vasn v) (Some db)
  end.

Definition spec_open (fs : file_system) (which : slot) (path : bytes) (v : geo_view) : option bytes * geo_view :=
  match fs (c_str path) with
  | inl status => (Some (#"failed to open database '" ++ path ++ #"': " ++ MMDB_strerror status), v)
  | inr db => (None, set_slot which db v)
  end.

Definition consult_opt (db : option MMDB_db) (addr : ParsedAddr) (use : MMDB_entry_s -> GeoIpResult -> GeoIpResult)
    (acc : GeoIpResult * bool) : GeoIpResult * bool :=
  match db with
  | Some db => if acc.2 then acc else consult db addr use acc.1 acc.2
  | None => acc
  end.

Definition spec_lookup (v : geo_view) (addr : ParsedAddr) : GeoIpResult * bool :=
  consult_opt (vcity v) addr (use_city (bool_decide (is_Some (vcountry v))))
    (consult_opt (vasn v) addr use_asn
       (consult_opt (vcountry v) addr use_country (GeoIpResult_default, false))).

(** ** The concrete operations as one *)

Definition open_slot (fs : file_system) (which : slot) : bytes -> geo_state -> option (option bytes * geo_state) :=
  match which with Country => open_country fs | Asn => open_asn fs | City => open_city fs end.

(** ** The invariant of the handles *)

Definition slot_open (which : slot) (d : GeoIpDatabases) : bool :=
  match which with Country => country_open_ d | Asn => asn_open_ d | City => city_open_ d end.
Definition slot_handle (which : slot) (d : GeoIpDatabases) : nat :=
  match which with Country => country_mmdb_ d | Asn => asn_mmdb_ d | City => city_mmdb_ d end.
Definition set_handle (which : slot) (h : nat) (d : GeoIpDatabases) : GeoIpDatabases :=
  match which with
  | Country => mkDatabases h true (asn_mmdb_ d) (asn_open_ d) (city_mmdb_ d) (city_open_ d)
  | Asn => mkDatabases (country_mmdb_ d) (country_open_ d) h true (city_mmdb_ d) (city_open_ d)
  | City => mkDatabases (country_mmdb_ d) (country_open_ d) (asn_mmdb_ d) (asn_open_ d) h true
  end.

(** The live handles are those of the open slots, each in one slot, and all
    older than the next one. *)
Record geo_inv (s : geo_state) : Prop := {
  inv_distinct : forall w1 w2, slot_open w1 (dbs s) = true -> slot_open w2 (dbs s) = true ->
    slot_handle w1 (dbs s) = slot_handle w2 (dbs s) -> w1 = w2;
  inv_live : forall h, is_Some (live (heap s) !! h) <->
    exists which, slot_open which (dbs s) = true /\ slot_handle which (dbs s) = h;
  inv_next : forall h, is_Some (live (heap s) !! h) -> h < next_handle (heap s);
}.

(** The database of a slot, and the abstract object a state stands for. *)
Definition slot_db (s : geo_state) (which : slot) : option MMDB_db :=
  if slot_open which (dbs s) then live (heap s) !! slot_handle which (dbs s) else None.

Definition view (s : geo_state) : geo_view :=
  mkView (slot_db s Country) (slot_db s Asn) (slot_db s City).

Lemma geo_inv_init : geo_inv geo_init.
Proof.
  split; [by intros [] []| |]; intros h; cbn; rewrite lookup_empty.
  - split; [by intros []|]. by intros ([] & ? & _).
  - by intros [].
Qed.

Lemma slot_db_open s which : geo_inv s -> is_Some (slot_db s which) <-> slot_open which (dbs s) = true.
Proof.
  intros I. unfold slot_db. destruct (slot_open which (dbs s)) eqn:E; [|split; [by intros []|done]].
  rewrite (inv_live _ I). split; [done|]. intros _. by exists which.
Qed.

Lemma open_slot_unfold fs which path s :
  open_slot fs which path s =
  match open_mmdb fs path (heap s) with
  | (inl err, h) => Some (Some err, mkGeo (dbs s) h)
  | (inr tmp, h) =>
      h' ← close_if (slot_open which (dbs s)) (slot_handle which (dbs s)) h;
      Some (None, mkGeo (set_handle which tmp (dbs s)) h')
  end.
Proof. by destruct which. Qed.

Lemma slot_open_set w1 w2 h d : slot_open w1 (set_handle w2 h d) = bool_decide (w1 = w2) || slot_open w1 d.
Proof. by destruct w1, w2. Qed.
Lemma slot_handle_set w1 w2 h d : slot_handle w1 (set_handle w2 h d) = if bool_decide (w1 = w2) then h else slot_handle w1 d.
Proof. by destruct w1, w2. Qed.

(** The heap a successful open leaves: the new handle, without the one it
    replaces. *)
Definition swapped_heap (which : slot) (db : MMDB_db) (s : geo_state) : mmdb_heap :=
  let h := heap s in
  let added := <[next_handle h := db]> (live h) in
  mkHeap (S (next_handle h))
    (if slot_open which (dbs s) then delete (slot_handle which (dbs s)) added else added).

Lemma open_slot_ok fs which path s db :
  geo_inv s -> fs (c_str path) = inr db ->
  open_slot fs which path s =
  Some (None, mkGeo (set_handle which (next_handle (heap s)) (dbs s)) (swapped_heap which db s)).
Proof.
  intros I Hfs. rewrite open_slot_unfold. unfold open_mmdb, MMDB_open. rewrite Hfs.
  unfold close_if, swapped_heap. destruct (slot_open which (dbs s)) eqn:E; [|done].
  unfold MMDB_close. cbn.
  assert (Hl : is_Some (live (heap s) !! slot_handle which (dbs s))) by (apply (inv_live _ I); eauto).
  pose proof (inv_next _ I _ Hl). rewrite lookup_insert_ne by lia. destruct Hl as [x ->]. done.
Qed.

Lemma open_slot_failed fs which path s status :
  fs (c_str path) = inl status ->
  open_slot fs which path s =
  Some (Some (#"failed to open database '" ++ path ++ #"': " ++ MMDB_strerror status), s).
Proof.
  intros Hfs. rewrite open_slot_unfold. unfold open_mmdb, MMDB_open. rewrite Hfs. by destruct s.
Qed.

Lemma swapped_lookup which db s h :
  geo_inv s ->
  live (swapped_heap which db s) !! h =
  if bool_decide (h = next_handle (heap s)) then Some db
  else if slot_open which (dbs s) && bool_decide (h = slot_handle which (dbs s)) then None
  else live (heap s) !! h.
Proof.
  intros I. unfold swapped_heap. cbn [live].
  assert (Hold : slot_open which (dbs s) = true -> slot_handle which (dbs s) < next_handle (heap s)).
  { intros E. apply (inv_next _ I), (inv_live _ I). eauto. }
  destruct (slot_open which (dbs s)); cbn [andb].
  - specialize (Hold eq_refl). case_bool_decide as Hn; [subst; rewrite lookup_delete_ne by lia; by rewrite lookup_insert_eq|].
    case_bool_decide; [subst; by rewrite lookup_delete_eq|].
    by rewrite lookup_delete_ne, lookup_insert_ne by congruence.
  - case_bool_decide; [subst; by rewrite lookup_insert_eq|]. by rewrite lookup_insert_ne by congruence.
Qed.

Lemma open_slot_inv which db s :
  geo_inv s -> geo_inv (mkGeo (set_handle which (next_handle (heap s)) (dbs s)) (swapped_heap which db s)).
Proof.
  intros I.
  assert (Hlt : forall w, slot_open w (dbs s) = true -> slot_handle w (dbs s) < next_handle (heap s)).
  { intros w E. apply (inv_next _ I), (inv_live _ I). eauto. }
  split; cbn [dbs heap].
  - intros w1 w2. rewrite !slot_open_set, !slot_handle_set. intros H1 H2 He.
    case_bool_decide as E1; case_bool_decide as E2; cbn in *; subst; try done;
      [apply Hlt in H2; lia|apply Hlt in H1; lia|by apply (inv_distinct _ I)].
  - intros h. rewrite swapped_lookup by done. case_bool_decide as Hn.
    { split; [|done]. intros _. exists which. rewrite slot_open_set, slot_handle_set, !bool_decide_eq_true_2 by done. done. }
    split.
    + destruct (_ && _) eqn:E; [by intros []|]. intros Hl. pose proof Hl as Hl'.
      apply (inv_live _ I) in Hl' as (w & Hw & <-). exists w. rewrite slot_open_set, slot_handle_set, Hw, orb_true_r.
      split; [done|]. destruct (bool_decide_reflect (w = which)) as [->|]; [|done].
      by rewrite Hw, bool_decide_eq_true_2 in E.
    + intros (w & Hw & <-). rewrite slot_open_set in Hw. rewrite slot_handle_set in *.
      case_bool_decide as Ew; [done|]. cbn in Hw.
      case_bool_decide as Eh; [|rewrite andb_false_r; apply (inv_live _ I); eauto].
      destruct (slot_open which (dbs s)) eqn:Eo; [|apply (inv_live _ I); eauto].
      exfalso. apply Ew. by apply (inv_distinct _ I).
  - intros h. rewrite swapped_lookup by done. unfold swapped_heap. cbn [next_handle].
    case_bool_decide; [lia|]. destruct (_ && _); [by intros []|]. intros Hl%(inv_next _ I). lia.
Qed.

Lemma open_slot_view which db s :
  geo_inv s ->
  view (mkGeo (set_handle which (next_handle (heap s)) (dbs s)) (swapped_heap which db s)) = set_slot which db (view s).
Proof.
  intros I. assert (Hs : forall w, slot_db (mkGeo (set_handle which (next_handle (heap s)) (dbs s)) (swapped_heap which db s)) w
    = if bool_decide (w = which) then Some db else slot_db s w).
  { intros w. unfold slot_db. cbn [dbs heap]. rewrite slot_open_set, slot_handle_set, swapped_lookup by done.
    case_bool_decide as Ew; cbn; [by rewrite bool_decide_eq_true_2 by done|].
    destruct (slot_open w (dbs s)) eqn:Eo; [|done].
    assert (Hl : is_Some (live (heap s) !! slot_handle w (dbs s))) by (apply (inv_live _ I); eauto).
    pose proof (inv_next _ I _ Hl). rewrite bool_decide_eq_false_2 by lia.
    destruct (slot_open which (dbs s)) eqn:Ew2; [|done]. cbn. rewrite bool_decide_eq_false_2; [done|].
    intros He. apply Ew. by apply (inv_distinct _ I). }
  unfold view. rewrite !Hs. by destruct which.
Qed.

(** ** Sequences of operations *)

Record open_call := mkCall { call_fs : file_system; call_slot : slot; call_path : bytes }.

Fixpoint run_opens (calls : list open_call) (s : geo_state) : option (list (option bytes) * geo_state) :=
  match calls with
  | [] => Some ([], s)
  | c :: calls' =>
      '(err, s1) ← open_slot (call_fs c) (call_slot c) (call_path c) s;
      '(errs, s2) ← run_opens calls' s1;
      Some (err :: errs, s2)
  end.

Fixpoint spec_opens (calls : list open_call) (v : geo_view) : list (option bytes) * geo_view :=
  match calls with
  | [] => ([], v)
  | c :: calls' =>
      let '(err, v1) := spec_open (call_fs c) (call_slot c) (call_path c) v in
      let '(errs, v2) := spec_opens calls' v1 in
      (err :: errs, v2)
  end.

Lemma open_slot_refines fs which path s : geo_inv s ->
  exists err s', open_slot fs which path s = Some (err, s') /\ geo_inv s' /\
    spec_open fs which path (view s) = (err, view s').
Proof.
  intros I. unfold spec_open. destruct (fs (c_str path)) as [status|db] eqn:Hfs.
  - by rewrite (open_slot_failed _ _ _ _ _ Hfs); eauto.
  - rewrite (open_slot_ok _ _ _ _ _ I Hfs). do 2 eexists. split; [done|].
    split; [by apply open_slot_inv|]. by rewrite open_slot_view.
Qed.

Lemma run_opens_refines calls s : geo_inv s ->
  exists errs s', run_opens calls s = Some (errs, s') /\ geo_inv s' /\
    spec_opens calls (view s) = (errs, view s').
Proof.
  revert s. induction calls as [|c calls IH]; intros s I; [by exists [], s|].
  destruct (open_slot_refines (call_fs c) (call_slot c) (call_path c) s I) as (err & s1 & E1 & I1 & S1).
  destruct (IH s1 I1) as (errs & s2 & E2 & I2 & S2).
  exists (err :: errs), s2. cbn. rewrite E1. cbn. rewrite E2. cbn. rewrite S1, S2. done.
Qed.

Lemma slot_db_live s which db : slot_db s which = Some db ->
  slot_open which (dbs s) = true /\ live (heap s) !! slot_handle which (dbs s) = Some db.
Proof. unfold slot_db. by destruct (slot_open which (dbs s)). Qed.

Lemma slot_db_some s which : geo_inv s -> slot_open which (dbs s) = true ->
  exists db, slot_db s which = Some db /\ live (heap s) !! slot_handle which (dbs s) = Some db.
Proof.
  intros I Ho. apply slot_db_open in Ho as [db Hdb]; [|done]. exists db. split; [done|]. by apply slot_db_live in Hdb as [_ ?].
Qed.

Lemma consult_opt_error db addr use r : consult_opt db addr use (r, true) = (r, true).
Proof. by destruct db. Qed.

(** One stage of [lookup]. *)
Lemma lookup_stage s which addr use r e : geo_inv s ->
  (if slot_open which (dbs s) && negb e then
     db ← live (heap s) !! slot_handle which (dbs s); Some (consult db addr use r e)
   else Some (r, e)) = Some (consult_opt (slot_db s which) addr use (r, e)).
Proof.
  intros I. destruct (slot_open which (dbs s)) eqn:Eo; cbn [andb].
  - destruct (slot_db_some s which I Eo) as (db & -> & Hl). rewrite Hl. cbn. by destruct e.
  - unfold slot_db. by rewrite Eo.
Qed.

Lemma lookup_view s addr : geo_inv s -> lookup s addr = Some (spec_lookup (view s) addr).
Proof.
  intros I. unfold lookup.
  pose proof (lookup_stage s Country addr use_country GeoIpResult_default false I) as H1.
  rewrite andb_true_r in H1. cbn [slot_open slot_handle] in H1. rewrite H1. cbn [mbind option_bind].
  destruct (consult_opt (slot_db s Country) addr use_country (GeoIpResult_default, false)) as [r1 e1] eqn:E1.
  pose proof (lookup_stage s Asn addr use_asn r1 e1 I) as H2. cbn [slot_open slot_handle] in H2. rewrite H2.
  cbn [mbind option_bind].
  destruct (consult_opt (slot_db s Asn) addr use_asn (r1, e1)) as [r2 e2] eqn:E2.
  pose proof (lookup_stage s City addr (use_city (country_open_ (dbs s))) r2 e2 I) as H3.
  cbn [slot_open slot_handle] in H3. rewrite H3. f_equal. unfold spec_lookup. cbn [view vcountry vasn vcity].
  rewrite E1, E2. f_equal. f_equal.
  pose proof (slot_db_open s Country I) as Hc. cbn [slot_open] in Hc.
  destruct (country_open_ (dbs s)); symmetry; [rewrite bool_decide_eq_true|rewrite bool_decide_eq_false]; naive_solver.
Qed.

(** ** Closing *)

(** Closing the slots of a list one by one, when they own all live handles. *)
Fixpoint close_slots (ws : list slot) (d : GeoIpDatabases) (h : mmdb_heap) : option mmdb_heap :=
  match ws with
  | [] => Some h
  | w :: ws' => h' ← close_if (slot_open w d) (slot_handle w d) h; close_slots ws' d h'
  end.

Lemma close_slots_empties ws d h :
  NoDup ws ->
  (forall w1 w2, slot_open w1 d = true -> slot_open w2 d = true -> slot_handle w1 d = slot_handle w2 d -> w1 = w2) ->
  (forall x, is_Some (live h !! x) <-> exists w, w ∈ ws /\ slot_open w d = true /\ slot_handle w d = x) ->
  exists h', close_slots ws d h = Some h' /\ live h' = ∅.
Proof.
  intros Hnd Hd. revert h. induction Hnd as [|w ws Hw Hnd IH]; intros h Hl.
  - exists h. split; [done|]. apply map_eq. intros x. rewrite lookup_empty. apply eq_None_not_Some.
    intros (w & Hin & _)%Hl. by apply elem_of_nil in Hin.
  - cbn [close_slots]. unfold close_if, MMDB_close. destruct (slot_open w d) eqn:Eo.
    + assert (Hs : is_Some (live h !! slot_handle w d)) by (apply Hl; exists w; rewrite elem_of_cons; auto).
      destruct Hs as [db Hdb]. rewrite Hdb. cbn. apply IH. intros x. cbn [live].
      rewrite lookup_delete_is_Some, Hl. split.
      * intros [Hx (w' & Hin & Hw' & <-)]. exists w'. apply elem_of_cons in Hin as [->|Hin]; [done|auto].
      * intros (w' & Hin & Hw' & <-). split; [|exists w'; rewrite elem_of_cons; auto].
        intros He. apply Hw. by rewrite (Hd w w' Eo Hw' He).
    + cbn. apply IH. intros x. rewrite Hl. split; intros (w' & Hin & Hw' & <-); exists w'.
      * apply elem_of_cons in Hin as [->|Hin]; [congruence|auto].
      * rewrite elem_of_cons. auto.
Qed.

Lemma destroy_closes s : geo_inv s ->
  exists h, GeoIpDatabases_destroy s = Some h /\ live h = ∅.
Proof.
  intros I. destruct (close_slots_empties [Country; Asn; City] (dbs s) (heap s)) as (h & E & Hh).
  - by repeat (constructor; [by apply (bool_decide_eq_true_1 (_ ∉ _))|]); constructor.
  - apply (inv_distinct _ I).
  - intros x. rewrite (inv_live _ I). split; intros (w & Hw); exists w; [|by apply Hw].
    split; [|done]. rewrite !elem_of_cons. destruct w; auto.
  - exists h. split; [|done]. rewrite <- E. unfold GeoIpDatabases_destroy. cbn [close_slots slot_open slot_handle].
    destruct (close_if (country_open_ _) _ _) as [h1|]; [cbn|done].
    destruct (close_if (asn_open_ _) _ _) as [h2|]; [cbn|done].
    by destruct (close_if (city_open_ _) _ _).
Qed.

(** ** Metadata *)

(** Databases built in the past, no more than 146 years ago. *)
Definition db_fresh (now : Z) (db : option MMDB_db) : Prop :=
  match db with
  | None => True
  | Some db => let b := build_epoch_field (MMDB_metadata db) in
      (0 <= b <= now /\ now - b < 4611686018 /\ now < 2 ^ 50)%Z
  end.
Definition view_fresh (now : Z * Z * Z) (v : geo_view) : Prop :=
  db_fresh now.1.1 (vcountry v) /\ db_fresh now.1.2 (vasn v) /\ db_fresh now.2 (vcity v).

(** Files whose databases are fresh. *)
Definition fs_fresh (now : Z) (fs : file_system) : Prop := forall p db, fs p = inr db -> db_fresh now (Some db).

Lemma to_uint64_integer x neg n : double_is x neg n -> (n < 2 ^ 64)%N ->
  to_uint64 x = if neg && (0 <? n)%N then None else Some (Z.of_N n).
Proof.
  intros (m & e & -> & Hn) Hlt. unfold to_uint64. pose proof (frac_den_pos m e) as Hd.
  destruct (frac_of m e) as [num den]. cbn in Hd. subst num. rewrite N.div_mul by done.
  destruct neg; cbn [andb].
  - destruct (N.ltb_spec 0 n), (Z.ltb_spec 0 (Z.of_N n)); (done || lia).
  - destruct (Z.leb_spec (2 ^ 64) (Z.of_N n)); [lia|done].
Qed.

Lemma to_time_t_small n : (0 <= n < 2 ^ 63)%Z -> to_time_t n = n.
Proof. intros Hn. unfold to_time_t. rewrite Z.mod_small; lia. Qed.

(** The two unit conversions of an age are exact for 146 years. *)
Lemma age_conversions z : (Z.abs z < 4611686018)%Z ->
  to_uint64 (dmul_const (double_of_Z z) 1000) = (if (z <? 0)%Z then None else Some (z * 1000)%Z) /\
  to_uint64 (dmul_const (double_of_Z z) 1000000000) = (if (z <? 0)%Z then None else Some (z * 1000000000)%Z).
Proof.
  intros Hz. assert (Hx := double_of_Z_exact z ltac:(lia)).
  pose proof (dmul_const_exact _ _ _ 125 3 Hx ltac:(lia) ltac:(lia)) as H1.
  pose proof (dmul_const_exact _ _ _ 1953125 9 Hx ltac:(lia) ltac:(lia)) as H2.
  change (125 * 2 ^ 3)%N with 1000%N in H1. change (1953125 * 2 ^ 9)%N with 1000000000%N in H2.
  rewrite (to_uint64_integer _ _ _ H1), (to_uint64_integer _ _ _ H2) by lia.
  destruct (Z.ltb_spec z 0); cbn [andb].
  - by rewrite !(proj2 (N.ltb_lt _ _)) by lia.
  - split; f_equal; lia.
Qed.

Lemma make_metadata_value now db :
  let b := build_epoch_field (MMDB_metadata db) in
  (0 <= b <= now)%Z -> (now - b < 4611686018)%Z -> (now < 2 ^ 50)%Z ->
  exists t, gmtime b = Some t /\
    make_metadata now db =
    Some (mkDbMetadata (default [] (database_type_ptr (MMDB_metadata db))) b (strftime_iso t)
            (ddiv_const (double_of_Z (now - b)) 86400) ((now - b) * 1000) ((now - b) * 1000000000)).
Proof.
  intros b Hb Hage Hnow. destruct (gmtime_defined b ltac:(lia)) as [t Ht]. exists t. split; [done|].
  unfold make_metadata, format_build_time. fold b. rewrite to_time_t_small by lia. rewrite Ht. cbn [fmap option_fmap option_map mbind option_bind].
  destruct (age_conversions (now - b) ltac:(lia)) as [-> ->].
  destruct (Z.ltb_spec (now - b) 0); [lia|done].
Qed.

Lemma age_finite z k : (Z.abs z < 2 ^ 53)%Z -> (k <> 0)%N -> is_finite (ddiv_const (double_of_Z z) k) = true.
Proof. intros Hz Hk. eapply ddiv_const_finite; [by apply double_of_Z_exact|lia|done]. Qed.

Lemma make_metadata_future now db :
  let b := build_epoch_field (MMDB_metadata db) in
  (0 <= now < b)%Z -> (b < now + 4611686018)%Z -> (b < 2 ^ 63)%Z -> make_metadata now db = None.
Proof.
  intros b Hb Hage Hnow. unfold make_metadata. destruct (format_build_time _); [|done]. cbn [mbind option_bind].
  fold b. rewrite to_time_t_small by lia. destruct (age_conversions (now - b) ltac:(lia)) as [-> _].
  destruct (Z.ltb_spec (now - b) 0); [done|lia].
Qed.

(** ** What a lookup answers *)

Definition entry_in (db : option MMDB_db) (addr : ParsedAddr) : option MMDB_entry_s :=
  db ← db; snd (MMDB_lookup_sockaddr db (storage addr)).
Definition fails_in (addr : ParsedAddr) (db : option MMDB_db) : bool :=
  match db with Some db => negb (fst (MMDB_lookup_sockaddr db (storage addr)) =? MMDB_SUCCESS)%Z | None => false end.

(** The database country and continent data come from: the country database
    whenever there is one. *)
Definition country_source (v : geo_view) : option MMDB_db :=
  match vcountry v with Some db => Some db | None => vcity v end.

Definition is_some {A} (o : option A) : bool := match o with Some _ => true | None => false end.

(** The result of a lookup none of the databases fails. *)
Definition result_of (v : geo_view) (addr : ParsedAddr) : GeoIpResult :=
  let co := entry_in (country_source v) addr in
  let a := entry_in (vasn v) addr in
  let ci := entry_in (vcity v) addr in
  mkResult (is_some (entry_in (vcountry v) addr) || is_some a || is_some ci)
    (e ← co; get_string e [ #"country"; #"iso_code"])
    (e ← co; get_string e [ #"country"; #"names"; #"en"])
    (e ← co; get_string e [ #"continent"; #"code"])
    (e ← a; get_uint32 e #"autonomous_system_number")
    (e ← a; get_string e [ #"autonomous_system_organization"])
    (e ← ci; get_string e [ #"city"; #"names"; #"en"])
    (e ← ci; get_string e [ #"postal"; #"code"])
    (e ← ci; get_double e #"location" #"latitude")
    (e ← ci; get_double e #"location" #"longitude")
    (e ← ci; get_uint16 e #"location" #"accuracy_radius").

Definition any_fails (v : geo_view) (addr : ParsedAddr) : bool :=
  existsb (fails_in addr) [vcountry v; vasn v; vcity v].

Lemma spec_lookup_error v addr : (spec_lookup v addr).2 = any_fails v addr.
Proof.
  unfold spec_lookup, any_fails, fails_in, consult_opt, consult. destruct v as [co a ci]. cbn.
  destruct co as [co|]; [destruct (MMDB_lookup_sockaddr co (storage addr)) as [x1 e1]; cbn; destruct (x1 =? MMDB_SUCCESS)%Z, e1; cbn|];
  (destruct a as [a|]; [destruct (MMDB_lookup_sockaddr a (storage addr)) as [x2 e2]; cbn; destruct (x2 =? MMDB_SUCCESS)%Z, e2; cbn|]);
  (destruct ci as [ci|]; [destruct (MMDB_lookup_sockaddr ci (storage addr)) as [x3 e3]; cbn; destruct (x3 =? MMDB_SUCCESS)%Z, e3; cbn|]); done.
Qed.

Lemma consult_opt_fine db addr use r : fails_in addr db = false ->
  consult_opt db addr use (r, false) = (match entry_in db addr with Some e => use e r | None => r end, false).
Proof.
  unfold fails_in, consult_opt, consult, entry_in. destruct db as [db|]; [|done]. cbn.
  destruct (MMDB_lookup_sockaddr db (storage addr)) as [x e]. cbn. intros ->. by destruct e.
Qed.

Lemma spec_lookup_result v addr : any_fails v addr = false -> spec_lookup v addr = (result_of v addr, false).
Proof.
  unfold any_fails, spec_lookup. cbn [existsb]. rewrite !orb_false_iff. intros (H1 & H2 & H3 & _).
  rewrite (consult_opt_fine _ _ _ _ H1), (consult_opt_fine _ _ _ _ H2), (consult_opt_fine _ _ _ _ H3).
  f_equal. unfold result_of, country_source. destruct v as [co a ci]. cbn [vcountry vasn vcity].
  destruct co as [co|].
  - rewrite bool_decide_eq_true_2 by done. unfold use_city. cbn [negb].
    destruct (entry_in (Some co) addr), (entry_in a addr), (entry_in ci addr); done.
  - rewrite bool_decide_eq_false_2 by (by intros []). unfold use_city. cbn [negb].
    change (entry_in None addr) with (@None MMDB_entry_s).
    destruct (entry_in a addr), (entry_in ci addr); done.
Qed.

(** ** Properties *)

(** C7. The object refines its specification: after any sequence of opens and
    reloads, whatever the files turn out to be, no dead handle was closed, the
    errors reported and the databases in use are those of the specification,
    a lookup answers as the specification does, and the destructor closes
    every handle that is left. *)
Theorem geoip_refines_spec (calls : list open_call) (addr : ParsedAddr) :
  exists errs s h,
    run_opens calls geo_init = Some (errs, s) /\
    spec_opens calls (mkView None None None) = (errs, view s) /\
    lookup s addr = Some (spec_lookup (view s) addr) /\
    GeoIpDatabases_destroy s = Some h /\ live h = ∅.
Proof.
  destruct (run_opens_refines calls geo_init geo_inv_init) as (errs & s & E & I & S).
  destruct (destroy_closes s I) as (h & Eh & Hh). exists errs, s, h. by rewrite lookup_view.
Qed.

(** C23. What a lookup answers, after any sequence of opens and reloads:
    [db_error] is set exactly when one of the open databases fails on the
    address; when none does, country and continent come from the country
    database if one is open and from the city database only otherwise, the AS
    fields from the ASN database, the city fields from the city database, and
    [found] says whether any open database has an entry. *)
Theorem lookup_spec (calls : list open_call) (addr : ParsedAddr) :
  exists errs s r e,
    run_opens calls geo_init = Some (errs, s) /\ lookup s addr = Some (r, e) /\
    e = any_fails (view s) addr /\ (e = false -> r = result_of (view s) addr).
Proof.
  destruct (run_opens_refines calls geo_init geo_inv_init) as (errs & s & E & I & _).
  exists errs, s. destruct (spec_lookup (view s) addr) as [r e] eqn:El. exists r, e.
  rewrite lookup_view, El by done. repeat split; [done| |].
  - by rewrite <- spec_lookup_error, El.
  - intros ->. rewrite spec_lookup_result in El; [congruence|]. by rewrite <- spec_lookup_error, El.
Qed.

(** C39. Metadata of a database built in the last 146 years: the type and the
    build time are its own, the printed build time is that of a valid date
    whose seconds since the epoch are [build_epoch], and the age in
    milliseconds and nanoseconds is exactly the age in seconds scaled, and the
    age in days is a finite number. *)
Theorem make_metadata_exact (now : Z) (db : MMDB_db)
    (Hb : (0 <= build_epoch_field (MMDB_metadata db) <= now)%Z)
    (Hage : (now - build_epoch_field (MMDB_metadata db) < 4611686018)%Z) (Hnow : (now < 2 ^ 50)%Z) :
  let b := build_epoch_field (MMDB_metadata db) in
  exists m t, make_metadata now db = Some m /\
    database_type m = default [] (database_type_ptr (MMDB_metadata db)) /\ build_epoch m = b /\
    build_time m = strftime_iso t /\ seconds_of t = b /\
    valid_date (tm_year t + 1900) (tm_mon t + 1) (tm_mday t) /\
    age_ms m = ((now - b) * 1000)%Z /\ age_ns m = ((now - b) * 1000000000)%Z /\ is_finite (age_days m) = true.
Proof.
  intros b. destruct (make_metadata_value now db Hb Hage Hnow) as (t & Ht & E). rewrite E.
  apply gmtime_inverse in Ht as (Hs & Hv & _). do 2 eexists. repeat (split; [done|]). apply age_finite; [lia|done].
Qed.
End Spec.

(** Two small databases for the witnesses. *)
Definition sample_db : simple_db :=
  mkSimpleDb (mkMetadata 10 24 6 (Some #"GeoLite2-City") [] 2 0 1700000000 [])
    [(Sin 0 (repeat "001"%char 4), [([ #"country"; #"iso_code"], Utf8String #"DE")])] false.

Definition sample_fs : bytes -> Z + simple_db := fun p => if p == #"/db" then inr sample_db else inl 1%Z.

(** Witness of C39: a database built a million seconds ago. *)
Example make_metadata_exact_witness :
  exists m t, @make_metadata simple_maxmind 1701000000 sample_db = Some m /\
    database_type m = #"GeoLite2-City" /\ build_epoch m = 1700000000%Z /\
    build_time m = strftime_iso t /\ seconds_of t = 1700000000%Z /\
    valid_date (tm_year t + 1900) (tm_mon t + 1) (tm_mday t) /\
    age_ms m = 1000000000%Z /\ age_ns m = 1000000000000000%Z /\ is_finite (age_days m) = true.
Proof. apply (@make_metadata_exact simple_maxmind 1701000000 sample_db); cbn; lia. Defined.

(** A database built in the future has no defined age: the conversion of a
    negative [double] to [std::uint64_t] is undefined. *)
Lemma future_build_undefined `{MaxMindDB} (now : Z) (db : MMDB_db) :
  (0 <= now < build_epoch_field (MMDB_metadata db))%Z ->
  (build_epoch_field (MMDB_metadata db) < now + 4611686018)%Z ->
  (build_epoch_field (MMDB_metadata db) < 2 ^ 63)%Z ->
  make_metadata now db = None.
Proof. apply make_metadata_future. Qed.
