(* ===== verification/GeoIpConc.v ===== *)
(** * Lookups and reloads on several threads (src/src/geoip.cpp)

    The bodies of [lookup] and of [open_country], [open_asn] and [open_city]
    cut into the steps other threads can interleave with: [MMDB_open] before
    the lock, the shared or unique lock, the three reads of a lookup, closing
    the old handle, storing the new one, unlocking.  The [shared_mutex] lets
    lookups in together and a swap only alone.  The theorem is what justifies
    treating both operations as atomic elsewhere: no interleaving uses a dead
    handle, and every lookup answers from one moment's databases. *)

From stdpp Require Import gmap.
From S2P Require Import Prelude CLib IpAddr GeoIp GeoIpSpec.
From Stdlib Require Import Ascii.

Section Conc.
Context `{MaxMindDB}.

(** ** Threads *)

(** Where a thread stands.  A lookup keeps how many swaps had been made when
    it took the lock (a history variable), the number of slots it has read,
    and its result so far. *)
Inductive thread_state :=
| TIdle
| TLookup (addr : ParsedAddr) (n : nat) (stage : nat) (acc : GeoIpResult * bool)
| TDone (addr : ParsedAddr) (n : nat) (acc : GeoIpResult * bool)
| TOpened (which : slot) (tmp : nat)      (* [MMDB_open] done, no lock *)
| TClosing (which : slot) (tmp : nat)     (* unique lock, old handle still open *)
| TAssigning (which : slot) (tmp : nat)   (* old handle closed *)
| TUnlocking.                             (* new handle stored *)

Definition reading (t : thread_state) : bool := match t with TLookup _ _ _ _ => true | _ => false end.
Definition swapping (t : thread_state) : bool :=
  match t with TClosing _ _ | TAssigning _ _ | TUnlocking => true | _ => false end.

(** The object, the swaps made so far in order, and the threads. *)
Record world := mkWorld { gs : geo_state; swaps : list (slot * MMDB_db); threads : list thread_state }.

Definition world_init (n : nat) : world := mkWorld geo_init [] (repeat TIdle n).

Inductive conc_action :=
| LockShared (addr : ParsedAddr)   (* std::shared_lock lock(mutex_) in lookup *)
| ReadSlot
| UnlockShared
| OpenTmp (fs : file_system) (which : slot) (path : bytes)
| LockUnique                       (* std::unique_lock lock(mutex_) in open_* *)
| CloseOld
| AssignNew
| UnlockUnique.

(** [Blocked]: the thread is not there, or waits for the lock. *)
Inductive outcome := Blocked | Undefined | Next (w : world).

Definition set_state (i : nat) (t : thread_state) (w : world) : world :=
  mkWorld (gs w) (swaps w) (<[i := t]> (threads w)).

(** One slot of a lookup. *)
Definition stage_slot (stage : nat) : option slot :=
  match stage with 0 => Some Country | 1 => Some Asn | 2 => Some City | _ => None end.

Definition stage_use (stage : nat) (d : GeoIpDatabases) : MMDB_entry_s -> GeoIpResult -> GeoIpResult :=
  match stage with 0 => use_country | 1 => use_asn | _ => use_city (country_open_ d) end.

Definition read_slot (i : nat) (addr : ParsedAddr) (n stage : nat) (acc : GeoIpResult * bool) (w : world) : outcome :=
  match stage_slot stage with
  | None => Blocked
  | Some which =>
      let d := dbs (gs w) in
      let next acc' := Next (set_state i (TLookup addr n (S stage) acc') w) in
      if slot_open which d && negb acc.2 then
        match live (heap (gs w)) !! slot_handle which d with
        | None => Undefined
        | Some db => next (consult db addr (stage_use stage d) acc.1 acc.2)
        end
      else next acc
  end.

Definition conc_step (w : world) (i : nat) (a : conc_action) : outcome :=
  match threads w !! i with
  | None => Blocked
  | Some t =>
      match a, t with
      | LockShared addr, TIdle =>
          if existsb swapping (threads w) then Blocked
          else Next (set_state i (TLookup addr (length (swaps w)) 0 (GeoIpResult_default, false)) w)
      | ReadSlot, TLookup addr n stage acc => read_slot i addr n stage acc w
      | UnlockShared, TLookup addr n 3 acc => Next (set_state i (TDone addr n acc) w)
      | OpenTmp fs which path, TIdle =>
          match open_mmdb fs path (heap (gs w)) with
          | (inl _, h) => Next (mkWorld (mkGeo (dbs (gs w)) h) (swaps w) (threads w))
          | (inr tmp, h) => Next (mkWorld (mkGeo (dbs (gs w)) h) (swaps w) (<[i := TOpened which tmp]> (threads w)))
          end
      | LockUnique, TOpened which tmp =>
          if existsb (fun t => reading t || swapping t) (threads w) then Blocked
          else Next (set_state i (TClosing which tmp) w)
      | CloseOld, TClosing which tmp =>
          let d := dbs (gs w) in
          match close_if (slot_open which d) (slot_handle which d) (heap (gs w)) with
          | None => Undefined
          | Some h => Next (mkWorld (mkGeo d h) (swaps w) (<[i := TAssigning which tmp]> (threads w)))
          end
      | AssignNew, TAssigning which tmp =>
          match live (heap (gs w)) !! tmp with
          | None => Undefined
          | Some db => Next (mkWorld (mkGeo (set_handle which tmp (dbs (gs w))) (heap (gs w)))
                               (swaps w ++ [(which, db)]) (<[i := TUnlocking]> (threads w)))
          end
      | UnlockUnique, TUnlocking => Next (set_state i TIdle w)
      | _, _ => Blocked
      end
  end.

(** A run: a step that is blocked changes nothing. *)
Fixpoint conc_run (steps : list (nat * conc_action)) (w : world) : option world :=
  match steps with
  | [] => Some w
  | (i, a) :: steps' =>
      match conc_step w i a with
      | Blocked => conc_run steps' w
      | Undefined => None
      | Next w' => conc_run steps' w'
      end
  end.

(** ** The invariant *)

Definition replay (l : list (slot * MMDB_db)) : geo_view :=
  fold_left (fun v kd => set_slot kd.1 kd.2 v) l (mkView None None None).

(** The slots whose handle is closed and not yet replaced. *)
Definition dangling_of (t : thread_state) : list slot := match t with TAssigning which _ => [which] | _ => [] end.
Definition dangling (ts : list thread_state) : list slot := flat_map dangling_of ts.

Definition tmp_of (t : thread_state) : list nat :=
  match t with TOpened _ tmp | TClosing _ tmp | TAssigning _ tmp => [tmp] | _ => [] end.

(** The handles something still refers to. *)
Definition refers (w : world) (which : slot) : Prop :=
  slot_open which (dbs (gs w)) = true /\ which ∉ dangling (threads w).
Definition tmps (w : world) : list nat := flat_map tmp_of (threads w).

(** The first [k] stages of a lookup on a view. *)
Definition stages (k : nat) (v : geo_view) (addr : ParsedAddr) : GeoIpResult * bool :=
  let r0 := (GeoIpResult_default, false) in
  let r1 := consult_opt (vcountry v) addr use_country r0 in
  let r2 := consult_opt (vasn v) addr use_asn r1 in
  match k with
  | 0 => r0 | 1 => r1 | 2 => r2
  | _ => consult_opt (vcity v) addr (use_city (bool_decide (is_Some (vcountry v)))) r2
  end.

Record conc_inv (w : world) : Prop := {
  ci_slots : forall w1 w2, refers w w1 -> refers w w2 ->
    slot_handle w1 (dbs (gs w)) = slot_handle w2 (dbs (gs w)) -> w1 = w2;
  ci_tmps : NoDup (tmps w);
  ci_apart : forall which, refers w which -> slot_handle which (dbs (gs w)) ∉ tmps w;
  ci_live : forall h, is_Some (live (heap (gs w)) !! h) <->
    (exists which, refers w which /\ slot_handle which (dbs (gs w)) = h) \/ h ∈ tmps w;
  ci_next : forall h, is_Some (live (heap (gs w)) !! h) -> h < next_handle (heap (gs w));
  ci_exclusive : forall i j t u, threads w !! i = Some t -> threads w !! j = Some u -> i <> j ->
    swapping t = true -> reading u = false /\ swapping u = false;
  ci_view : forall which, which ∉ dangling (threads w) -> slot_db (gs w) which = view_slot (replay (swaps w)) which;
  ci_lookup : forall i addr n k acc, threads w !! i = Some (TLookup addr n k acc) ->
    n = length (swaps w) /\ k <= 3 /\ acc = stages k (replay (swaps w)) addr;
  ci_done : forall i addr n acc, threads w !! i = Some (TDone addr n acc) ->
    n <= length (swaps w) /\ acc = spec_lookup (replay (take n (swaps w))) addr;
}.

(** *** Changing one thread *)

Lemma dangling_insert ts i t t' : ts !! i = Some t ->
  exists rest, dangling ts ≡ₚ dangling_of t ++ rest /\ dangling (<[i := t']> ts) ≡ₚ dangling_of t' ++ rest.
Proof. apply (flat_map_insert dangling_of). Qed.

Lemma tmps_insert ts i t t' : ts !! i = Some t ->
  exists rest, flat_map tmp_of ts ≡ₚ tmp_of t ++ rest /\ flat_map tmp_of (<[i := t']> ts) ≡ₚ tmp_of t' ++ rest.
Proof. apply (flat_map_insert tmp_of). Qed.

(** Everything but the threads' own clauses. *)
Definition mem_inv (w : world) : Prop :=
  (forall w1 w2, refers w w1 -> refers w w2 ->
    slot_handle w1 (dbs (gs w)) = slot_handle w2 (dbs (gs w)) -> w1 = w2) /\
  NoDup (tmps w) /\
  (forall which, refers w which -> slot_handle which (dbs (gs w)) ∉ tmps w) /\
  (forall h, is_Some (live (heap (gs w)) !! h) <->
    (exists which, refers w which /\ slot_handle which (dbs (gs w)) = h) \/ h ∈ tmps w) /\
  (forall h, is_Some (live (heap (gs w)) !! h) -> h < next_handle (heap (gs w))) /\
  (forall which, which ∉ dangling (threads w) -> slot_db (gs w) which = view_slot (replay (swaps w)) which).

Lemma conc_mem w : conc_inv w -> mem_inv w.
Proof. intros []. by repeat split; try apply ci_live0. Qed.

(** A thread changes without touching handles: the memory clauses stay. *)
Lemma mem_inv_neutral w i t t' :
  mem_inv w -> threads w !! i = Some t -> tmp_of t = tmp_of t' -> dangling_of t = dangling_of t' ->
  mem_inv (set_state i t' w).
Proof.
  intros M Hi Ht Hd.
  destruct (tmps_insert _ _ _ t' Hi) as (r1 & T1 & T2). rewrite <- Ht, <- T1 in T2.
  destruct (dangling_insert _ _ _ t' Hi) as (r2 & D1 & D2). rewrite <- Hd, <- D1 in D2.
  destruct M as (M1 & M2 & M3 & M4 & M5 & M6).
  unfold mem_inv, refers, tmps in *. cbn [set_state gs swaps threads].
  setoid_rewrite D2. setoid_rewrite T2. done.
Qed.

(** The lock: whom a thread excludes. *)
Lemma exclusive_insert w i t t' :
  conc_inv w -> threads w !! i = Some t ->
  (swapping t' = true -> forall j u, threads w !! j = Some u -> i <> j -> reading u = false /\ swapping u = false) ->
  (reading t' = true -> forall j u, threads w !! j = Some u -> i <> j -> swapping u = false) ->
  forall j k u v, (<[i := t']> (threads w)) !! j = Some u -> (<[i := t']> (threads w)) !! k = Some v -> j <> k ->
    swapping u = true -> reading v = false /\ swapping v = false.
Proof.
  intros I Hi Hs Hr j k u v Hj Hk Hjk Hu. rewrite list_lookup_insert_Some in Hj, Hk.
  destruct Hj as [(<- & <- & _)|[Hij Hj]], Hk as [(<- & <- & _)|[Hik Hk]]; 
    [done|exact (Hs Hu k v Hk Hik)| |exact (ci_exclusive _ I j k u v Hj Hk Hjk Hu)].
  destruct (reading t') eqn:Er; [rewrite (Hr eq_refl j u) in Hu by done; done|].
  split; [done|]. destruct (swapping t') eqn:Es; [|done]. destruct (Hs eq_refl j u Hj Hij) as [_ Hn]. congruence.
Qed.

Lemma not_existsb {A} (P : A -> bool) l i x : existsb P l = false -> l !! i = Some x -> P x = false.
Proof.
  intros He Hx. apply not_true_iff_false. intros Hp. apply not_true_iff_false in He. apply He.
  apply existsb_exists. exists x. split; [|done]. apply list_elem_of_In. by eapply list_elem_of_lookup_2.
Qed.

(** While a thread reads or swaps, no other thread has a slot dangling. *)
Lemma nobody_swapping w i t : conc_inv w -> threads w !! i = Some t -> (reading t || swapping t) = true ->
  forall which, which ∈ dangling (threads w) -> which ∈ dangling_of t.
Proof.
  intros I Hi Ht which Hin. unfold dangling in Hin. apply list_elem_of_In, in_flat_map in Hin as (u & Hu & Hin).
  apply list_elem_of_In, list_elem_of_lookup in Hu as [j Hj].
  destruct (decide (j = i)) as [->|Hne]; [assert (u = t) as <- by congruence; by apply list_elem_of_In|].
  assert (Hsu : swapping u = true) by (by destruct u).
  destruct (ci_exclusive _ I j i u t Hj Hi Hne Hsu) as [H1 H2]. rewrite H1, H2 in Ht. done.
Qed.

(** Puts an invariant together from its memory clauses and the threads'. *)
Lemma conc_inv_intro w : mem_inv w ->
  (forall i j t u, threads w !! i = Some t -> threads w !! j = Some u -> i <> j ->
    swapping t = true -> reading u = false /\ swapping u = false) ->
  (forall i addr n k acc, threads w !! i = Some (TLookup addr n k acc) ->
    n = length (swaps w) /\ k <= 3 /\ acc = stages k (replay (swaps w)) addr) ->
  (forall i addr n acc, threads w !! i = Some (TDone addr n acc) ->
    n <= length (swaps w) /\ acc = spec_lookup (replay (take n (swaps w))) addr) ->
  conc_inv w.
Proof. intros (M1 & M2 & M3 & M4 & M5 & M6) He Hl Hd. by split. Qed.

(** The steps that only move a thread. *)
Lemma set_state_inv w i t t' :
  conc_inv w -> threads w !! i = Some t -> tmp_of t = tmp_of t' -> dangling_of t = dangling_of t' ->
  (swapping t' = true -> forall j u, threads w !! j = Some u -> i <> j -> reading u = false /\ swapping u = false) ->
  (reading t' = true -> forall j u, threads w !! j = Some u -> i <> j -> swapping u = false) ->
  (forall addr n k acc, t' = TLookup addr n k acc ->
    n = length (swaps w) /\ k <= 3 /\ acc = stages k (replay (swaps w)) addr) ->
  (forall addr n acc, t' = TDone addr n acc ->
    n <= length (swaps w) /\ acc = spec_lookup (replay (take n (swaps w))) addr) ->
  conc_inv (set_state i t' w).
Proof.
  intros I Hi Ht Hd Hs Hr Hl Hdn. apply conc_inv_intro.
  - by eapply mem_inv_neutral; [apply conc_mem| | |].
  - by apply (exclusive_insert _ _ t).
  - intros j addr n k acc Hj. cbn [set_state threads swaps] in *.
    apply list_lookup_insert_Some in Hj as [(_ & E & _)|[_ Hj]]; [exact (Hl _ _ _ _ E)|exact (ci_lookup _ I _ _ _ _ _ Hj)].
  - intros j addr n acc Hj. cbn [set_state threads swaps] in *.
    apply list_lookup_insert_Some in Hj as [(_ & E & _)|[_ Hj]]; [exact (Hdn _ _ _ E)|exact (ci_done _ I _ _ _ _ Hj)].
Qed.

(** *** The steps of a lookup *)

Lemma init_inv n : conc_inv (world_init n).
Proof.
  assert (Hd : dangling (repeat TIdle n) = []) by (induction n; done).
  assert (Ht : flat_map tmp_of (repeat TIdle n) = []) by (clear Hd; induction n; done).
  assert (Hall : forall i t, repeat TIdle n !! i = Some t -> t = TIdle).
  { intros i t Hi. apply list_elem_of_lookup_2, list_elem_of_In, repeat_spec in Hi. done. }
  apply conc_inv_intro; cbn.
  - unfold mem_inv, refers, tmps. cbn. rewrite Ht.
    split; [by intros [] [] [? _]|]. split; [constructor|]. split; [by intros [] [? _]|].
    split; [|split; [|by intros []]]; intros h; rewrite lookup_empty; [|by intros []].
    split; [by intros []|]. intros [([] & [Ho _] & _)|Hin]; try done. by apply elem_of_nil in Hin.
  - intros i j t u Hi _ _ Hs. by rewrite (Hall _ _ Hi) in Hs.
  - intros i addr m k acc Hi. by apply Hall in Hi.
  - intros i addr m acc Hi. by apply Hall in Hi.
Qed.

Lemma lock_shared_inv w i addr : conc_inv w -> threads w !! i = Some TIdle -> existsb swapping (threads w) = false ->
  conc_inv (set_state i (TLookup addr (length (swaps w)) 0 (GeoIpResult_default, false)) w).
Proof.
  intros I Hi He. apply (set_state_inv _ _ TIdle); try done.
  - intros _ j u Hj _. by apply (not_existsb _ _ _ _ He Hj).
  - intros addr' n k acc [= <- <- <- <-]. split; [done|]. split; [lia|done].
Qed.

(** A thread that reads sees every open slot's database. *)
Lemma reader_slot w i addr n k acc which : conc_inv w -> threads w !! i = Some (TLookup addr n k acc) ->
  slot_db (gs w) which = view_slot (replay (swaps w)) which /\
  (slot_open which (dbs (gs w)) = true -> is_Some (live (heap (gs w)) !! slot_handle which (dbs (gs w)))).
Proof.
  intros I Hi. assert (Hd : which ∉ dangling (threads w)).
  { intros Hin. by apply (nobody_swapping _ _ _ I Hi eq_refl), elem_of_nil in Hin. }
  split; [by apply (ci_view _ I)|]. intros Ho. apply (ci_live _ I). left. exists which. by split.
Qed.

Lemma stages_step k v addr which : stage_slot k = Some which ->
  stages (S k) v addr =
  consult_opt (view_slot v which) addr
    (match k with 0 => use_country | 1 => use_asn | _ => use_city (bool_decide (is_Some (vcountry v))) end) (stages k v addr).
Proof. destruct k as [|[|[|k]]]; intros [= <-]; done. Qed.

Lemma read_slot_inv w i addr n k acc : conc_inv w -> threads w !! i = Some (TLookup addr n k acc) ->
  match read_slot i addr n k acc w with Undefined => False | Blocked => True | Next w' => conc_inv w' end.
Proof.
  intros I Hi. destruct (ci_lookup _ I _ _ _ _ _ Hi) as (Hn & Hk & Hacc).
  assert (Hnext : forall which acc', stage_slot k = Some which -> acc' = stages (S k) (replay (swaps w)) addr ->
    conc_inv (set_state i (TLookup addr n (S k) acc') w)).
  { intros which acc' Hw Hacc'. apply (set_state_inv _ _ _ _ I Hi); try done.
    - intros _ j u Hj Hij. apply not_true_iff_false. intros Hs.
      by destruct (ci_exclusive _ I j i u _ Hj Hi (not_eq_sym Hij) Hs) as [? _].
    - intros addr' n' k' acc0 [= <- <- <- <-]. split; [done|]. split; [|done].
      destruct k as [|[|[|k]]]; (lia || done). }
  unfold read_slot. destruct (stage_slot k) as [which|] eqn:Ew; [|done].
  destruct (reader_slot w i addr n k acc which I Hi) as [Hv Hl].
  destruct (reader_slot w i addr n k acc Country I Hi) as [Hvc Hlc].
  assert (Hc : bool_decide (is_Some (vcountry (replay (swaps w)))) = country_open_ (dbs (gs w))).
  { change (vcountry (replay (swaps w))) with (view_slot (replay (swaps w)) Country). rewrite <- Hvc. unfold slot_db.
    cbn [slot_open slot_handle] in *. destruct (country_open_ (dbs (gs w))); [|done].
    apply bool_decide_eq_true_2. by apply Hlc. }
  pose proof (stages_step k (replay (swaps w)) addr which Ew) as Hstep. rewrite Hc, <- Hacc, <- Hv in Hstep.
  unfold slot_db in Hstep. destruct acc as [r e]. cbn [fst snd].
  destruct (slot_open which (dbs (gs w))); cbn [andb].
  - destruct (Hl eq_refl) as [db Hdb]. rewrite Hdb in Hstep |- *. destruct e; cbn [negb].
    + apply (Hnext _ _ eq_refl). by rewrite Hstep.
    + apply (Hnext _ _ eq_refl). rewrite Hstep. cbn. unfold stage_use. by destruct k as [|[|k]].
  - apply (Hnext _ _ eq_refl). by rewrite Hstep.
Qed.

Lemma unlock_shared_inv w i addr n acc : conc_inv w -> threads w !! i = Some (TLookup addr n 3 acc) ->
  conc_inv (set_state i (TDone addr n acc) w).
Proof.
  intros I Hi. destruct (ci_lookup _ I _ _ _ _ _ Hi) as (Hn & _ & Hacc).
  apply (set_state_inv _ _ _ _ I Hi); try done.
  intros addr' n' acc' [= <- <- <-]. split; [lia|]. rewrite Hn, firstn_all. exact Hacc.
Qed.

(** *** The steps of an open *)

Lemma open_tmp_inv w i fs which path : conc_inv w -> threads w !! i = Some TIdle ->
  match conc_step w i (OpenTmp fs which path) with Undefined => False | Blocked => True | Next w' => conc_inv w' end.
Proof.
  intros I Hi. unfold conc_step. rewrite Hi. unfold open_mmdb, MMDB_open.
  destruct (fs (c_str path)) as [st|db]; [by destruct w as [[] ? ?]|].
  set (h := next_handle (heap (gs w))).
  destruct (tmps_insert _ _ _ (TOpened which h) Hi) as (r1 & T1 & T2). cbn [tmp_of app] in T1, T2. rewrite <- T1 in T2.
  destruct (dangling_insert _ _ _ (TOpened which h) Hi) as (r2 & D1 & D2). cbn [dangling_of app] in D1, D2. rewrite <- D1 in D2.
  assert (Hh : live (heap (gs w)) !! h = None).
  { apply eq_None_not_Some. intros Hl%(ci_next _ I). unfold h in Hl. lia. }
  assert (Hfresh : forall x, (exists which, refers w which /\ slot_handle which (dbs (gs w)) = x) \/ x ∈ tmps w -> x <> h).
  { intros x Hx ->. apply (ci_live _ I) in Hx. rewrite Hh in Hx. by destruct Hx. }
  apply conc_inv_intro; cbn [threads swaps].
  - unfold mem_inv, refers, tmps. cbn [gs swaps threads dbs heap live next_handle]. setoid_rewrite D2. setoid_rewrite T2.
    split; [exact (ci_slots _ I)|]. split.
    { constructor; [|exact (ci_tmps _ I)]. intros Hin. by apply (Hfresh h); [right|]. }
    split. { intros w1 Hw1. rewrite not_elem_of_cons. split; [|by apply (ci_apart _ I)]. apply Hfresh. left. by exists w1. }
    split.
    { intros x. rewrite elem_of_cons. destruct (decide (x = h)) as [->|Hne].
      - rewrite lookup_insert_eq. split; [by right; left|by eexists].
      - rewrite lookup_insert_ne by done. rewrite (ci_live _ I x). fold (tmps w). change (gs w) with (gs w). unfold refers.
        split; [intros [?|?]; [by left|by right; right]|intros [?|[?|?]]; [by left|done|by right]]. }
    split.
    { intros x. destruct (decide (x = h)) as [->|Hne]; [unfold h; lia|]. rewrite lookup_insert_ne by done.
      intros Hx%(ci_next _ I). lia. }
    intros w1 Hw1. rewrite <- (ci_view _ I w1 Hw1). unfold slot_db. cbn [dbs heap live].
    destruct (slot_open w1 (dbs (gs w))) eqn:Eo; [|done]. rewrite lookup_insert_ne; [done|].
    apply not_eq_sym, Hfresh. left. exists w1. by repeat split.
  - apply (exclusive_insert _ _ _ _ I Hi); done.
  - intros j addr n k acc Hj. apply list_lookup_insert_Some in Hj as [(_ & E & _)|[_ Hj]]; [done|exact (ci_lookup _ I _ _ _ _ _ Hj)].
  - intros j addr n acc Hj. apply list_lookup_insert_Some in Hj as [(_ & E & _)|[_ Hj]]; [done|exact (ci_done _ I _ _ _ _ Hj)].
Qed.

(** A swap is alone: nobody reads, and no slot dangles but its own. *)
Lemma swapper_alone w i t : conc_inv w -> threads w !! i = Some t -> swapping t = true ->
  (forall j u, threads w !! j = Some u -> i <> j -> reading u = false /\ swapping u = false) /\
  (forall which, which ∈ dangling (threads w) <-> which ∈ dangling_of t).
Proof.
  intros I Hi Hs. split; [intros j u Hj Hij; exact (ci_exclusive _ I i j t u Hi Hj Hij Hs)|].
  intros which. split; [apply (nobody_swapping _ _ _ I Hi); by rewrite Hs, orb_true_r|].
  intros Hin. unfold dangling. apply list_elem_of_In, in_flat_map. exists t.
  split; [by eapply list_elem_of_In, list_elem_of_lookup_2|by apply list_elem_of_In].
Qed.

(** The threads' clauses when a swapping thread moves on, the swaps growing. *)
Lemma swapper_threads w i t t' extra : conc_inv w -> threads w !! i = Some t -> swapping t = true ->
  reading t' = false -> (forall addr n acc, t' <> TDone addr n acc) ->
  (forall j addr n k acc, (<[i := t']> (threads w)) !! j = Some (TLookup addr n k acc) -> False) /\
  (forall j addr n acc, (<[i := t']> (threads w)) !! j = Some (TDone addr n acc) ->
     n <= length (swaps w ++ extra) /\ acc = spec_lookup (replay (take n (swaps w ++ extra))) addr).
Proof.
  intros I Hi Hs Hr Hd. destruct (swapper_alone _ _ _ I Hi Hs) as [Ha _]. split.
  - intros j addr n k acc Hj. apply list_lookup_insert_Some in Hj as [(_ & E & _)|[Hij Hj]]; [by subst t'|].
    by destruct (Ha _ _ Hj Hij) as [? _].
  - intros j addr n acc Hj. apply list_lookup_insert_Some in Hj as [(_ & E & _)|[_ Hj]]; [by apply Hd in E|].
    destruct (ci_done _ I _ _ _ _ Hj) as [Hn ->]. rewrite length_app, take_app_le by done. split; [lia|done].
Qed.

Lemma close_old_inv w i which tmp : conc_inv w -> threads w !! i = Some (TClosing which tmp) ->
  match conc_step w i CloseOld with Undefined => False | Blocked => True | Next w' => conc_inv w' end.
Proof.
  intros I Hi. unfold conc_step. rewrite Hi.
  destruct (swapper_alone _ _ _ I Hi eq_refl) as [Halone Hdang]. cbn [dangling_of] in Hdang.
  assert (Hnone : forall w1, w1 ∉ dangling (threads w)) by (intros w1; rewrite Hdang; apply not_elem_of_nil).
  assert (Href : forall w1, refers w w1 <-> slot_open w1 (dbs (gs w)) = true) by (intros w1; unfold refers; specialize (Hnone w1); tauto).
  destruct (tmps_insert _ _ _ (TAssigning which tmp) Hi) as (r1 & T1 & T2). cbn [tmp_of] in T1, T2. rewrite <- T1 in T2.
  assert (D2 : forall w1, w1 ∈ dangling (<[i := TAssigning which tmp]> (threads w)) <-> w1 = which).
  { destruct (dangling_insert _ _ _ (TAssigning which tmp) Hi) as (r2 & D1 & D2). intros w1. rewrite D2.
    cbn [dangling_of] in *. rewrite elem_of_app, list_elem_of_singleton. split; [|by left].
    intros [?|Hin]; [done|]. exfalso. apply (Hnone w1). by rewrite D1. }
  (* the heap without the old handle, if there was one *)
  assert (Hclose : exists h', close_if (slot_open which (dbs (gs w))) (slot_handle which (dbs (gs w))) (heap (gs w)) = Some h' /\
    next_handle h' = next_handle (heap (gs w)) /\
    forall x, live h' !! x = if slot_open which (dbs (gs w)) && bool_decide (x = slot_handle which (dbs (gs w))) then None
                             else live (heap (gs w)) !! x).
  { unfold close_if, MMDB_close. destruct (slot_open which (dbs (gs w))) eqn:Eo; [|by eexists].
    assert (Hl : is_Some (live (heap (gs w)) !! slot_handle which (dbs (gs w)))).
    { apply (ci_live _ I). left. exists which. by rewrite Href. }
    destruct Hl as [db ->]. eexists. split; [done|]. split; [done|]. intros x. cbn.
    case_bool_decide; [subst; apply lookup_delete_eq|by rewrite lookup_delete_ne]. }
  destruct Hclose as (h' & -> & Hnext & Hlive).
  destruct (swapper_threads w i _ (TAssigning which tmp) [] I Hi eq_refl eq_refl ltac:(done)) as [Hl Hd].
  rewrite app_nil_r in Hd. apply conc_inv_intro; cbn [threads swaps]; [|by apply (exclusive_insert _ _ _ _ I Hi)| |exact Hd].
  2: { intros j addr n k acc Hj. by apply Hl in Hj. }
  unfold mem_inv, refers, tmps. cbn [gs swaps threads dbs heap]. setoid_rewrite D2. setoid_rewrite T2.
  assert (Hsub : forall w1, slot_open w1 (dbs (gs w)) = true /\ w1 <> which -> refers w w1) by (intros w1; rewrite Href; tauto).
  split; [intros w1 w2 H1 H2; apply (ci_slots _ I); auto|]. split; [exact (ci_tmps _ I)|].
  split; [intros w1 H1; apply (ci_apart _ I); auto|]. split; [|split].
  - intros x. rewrite Hlive. destruct (slot_open which (dbs (gs w))) eqn:Eo; cbn [andb].
    + case_bool_decide as Ex.
      * split; [by intros []|]. intros [(w1 & [Ho Hne] & He)|Hin].
        -- exfalso. apply Hne, (ci_slots _ I); [by rewrite Href..|congruence].
        -- exfalso. apply (ci_apart _ I which); [by rewrite Href|]. by rewrite <- Ex.
      * rewrite (ci_live _ I x). split; [|intros [(w1 & Hw1 & He)|Hin]; [left; exists w1; auto|by right]].
        intros [(w1 & Hw1 & He)|Hin]; [left|by right]. exists w1. split; [|done]. rewrite Href in Hw1.
        split; [done|]. intros ->. by apply Ex.
    + rewrite (ci_live _ I x). split; [|intros [(w1 & Hw1 & He)|Hin]; [left; exists w1; auto|by right]].
      intros [(w1 & Hw1 & He)|Hin]; [left|by right]. exists w1. split; [|done]. rewrite Href in Hw1.
      split; [done|]. intros ->. congruence.
  - intros x. rewrite Hlive, Hnext. destruct (_ && _); [by intros []|apply (ci_next _ I)].
  - intros w1 Hw1. rewrite <- (ci_view _ I w1) by done. unfold slot_db. cbn [dbs heap].
    destruct (slot_open w1 (dbs (gs w))) eqn:Eo1; [|done]. rewrite Hlive.
    destruct (slot_open which (dbs (gs w))) eqn:Eo; [|done]. rewrite bool_decide_eq_false_2; [done|].
    intros He. apply Hw1. apply (ci_slots _ I); [by rewrite Href..|done].
Qed.

Lemma replay_snoc l which db : replay (l ++ [(which, db)]) = set_slot which db (replay l).
Proof. unfold replay. by rewrite fold_left_app. Qed.

Lemma view_set_slot w1 which db v :
  view_slot (set_slot which db v) w1 = if bool_decide (w1 = which) then Some db else view_slot v w1.
Proof. by destruct w1, which. Qed.

Lemma assign_new_inv w i which tmp : conc_inv w -> threads w !! i = Some (TAssigning which tmp) ->
  match conc_step w i AssignNew with Undefined => False | Blocked => True | Next w' => conc_inv w' end.
Proof.
  intros I Hi. unfold conc_step. rewrite Hi.
  destruct (swapper_alone _ _ _ I Hi eq_refl) as [Halone Hdang]. cbn [dangling_of] in Hdang. setoid_rewrite list_elem_of_singleton in Hdang.
  destruct (tmps_insert _ _ _ TUnlocking Hi) as (r & T1 & T2). cbn [tmp_of app] in T1, T2. fold (tmps w) in T1.
  assert (Hnd : tmp ∉ r /\ NoDup r) by (rewrite <- NoDup_cons, <- T1; apply (ci_tmps _ I)). destruct Hnd as [Htr Hnr].
  assert (Hin : forall x, x ∈ tmps w <-> x = tmp \/ x ∈ r) by (intros x; by rewrite T1, elem_of_cons).
  assert (D2 : forall w1, w1 ∉ dangling (<[i := TUnlocking]> (threads w))).
  { intros w1 Hin1. unfold dangling in Hin1. apply list_elem_of_In, in_flat_map in Hin1 as (u & Hu & Hin1).
    apply list_elem_of_In, list_elem_of_lookup in Hu as [j Hj].
    apply list_lookup_insert_Some in Hj as [(_ & E & _)|[Hij Hj]]; [by subst u|].
    destruct (Halone _ _ Hj Hij) as [_ Hsu]. by destruct u. }
  assert (Hl : is_Some (live (heap (gs w)) !! tmp)) by (apply (ci_live _ I); right; apply Hin; by left).
  destruct Hl as [db Hdb]. rewrite Hdb.
  destruct (swapper_threads w i _ TUnlocking [(which, db)] I Hi eq_refl eq_refl ltac:(done)) as [Hlk Hd].
  apply conc_inv_intro; cbn [threads swaps]; [|by apply (exclusive_insert _ _ _ _ I Hi)| |exact Hd].
  2: { intros j addr n k acc Hj. by apply Hlk in Hj. }
  assert (Href : forall w1, slot_open w1 (dbs (gs w)) = true -> w1 <> which -> refers w w1).
  { intros w1 Ho Hne. split; [done|]. by rewrite Hdang. }
  assert (Hapart : forall w1, refers w w1 -> slot_handle w1 (dbs (gs w)) <> tmp /\ slot_handle w1 (dbs (gs w)) ∉ r).
  { intros w1 Hw1%(ci_apart _ I). rewrite Hin in Hw1. tauto. }
  unfold mem_inv, refers, tmps. cbn [gs swaps threads dbs heap]. setoid_rewrite T2.
  split; [|split; [done|split; [|split; [|split]]]].
  - intros w1 w2 [H1 _] [H2 _]. rewrite slot_open_set in H1, H2. rewrite !slot_handle_set.
    case_bool_decide as E1; case_bool_decide as E2; cbn [orb] in *; intros He.
    + congruence.
    + by destruct (Hapart w1 (Href w1 H1 E2)) as [[] _].
    + by destruct (Hapart w2 (Href w2 H2 E1)) as [[] _].
    + by apply (ci_slots _ I); [apply Href..|].
  - intros w1 [H1 _]. rewrite slot_open_set in H1. rewrite slot_handle_set.
    case_bool_decide as E1; [done|]. cbn [orb] in H1. by apply Hapart, Href.
  - intros x. rewrite (ci_live _ I x), Hin. split.
    + intros [(w1 & Hw1 & <-)|[->|Hx]]; [left; exists w1| left; exists which|by right].
      * destruct Hw1 as [Ho Hnd]. rewrite Hdang in Hnd. rewrite slot_open_set, slot_handle_set, Ho, orb_true_r.
        rewrite bool_decide_eq_false_2 by done. done.
      * rewrite slot_open_set, slot_handle_set, !bool_decide_eq_true_2 by done. done.
    + intros [(w1 & [Ho _] & <-)|Hx]; [|by right; right]. rewrite slot_open_set in Ho. rewrite slot_handle_set.
      case_bool_decide as E1; [by right; left|]. left. exists w1. split; [by apply Href|done].
  - exact (ci_next _ I).
  - intros w1 _. rewrite replay_snoc, view_set_slot. unfold slot_db. cbn [dbs heap].
    rewrite slot_open_set, slot_handle_set. case_bool_decide as E1; cbn [orb]; [done|].
    rewrite <- (ci_view _ I w1); [done|]. by rewrite Hdang.
Qed.

Lemma lock_unique_inv w i which tmp : conc_inv w -> threads w !! i = Some (TOpened which tmp) ->
  existsb (fun t => reading t || swapping t) (threads w) = false ->
  conc_inv (set_state i (TClosing which tmp) w).
Proof.
  intros I Hi He. apply (set_state_inv _ _ _ _ I Hi); try done.
  intros _ j u Hj _. by apply orb_false_iff, (not_existsb _ _ _ _ He Hj).
Qed.

Lemma unlock_unique_inv w i : conc_inv w -> threads w !! i = Some TUnlocking -> conc_inv (set_state i TIdle w).
Proof. intros I Hi. by apply (set_state_inv _ _ _ _ I Hi). Qed.

(** Every step keeps the invariant, and none is undefined. *)
Lemma conc_step_inv w i a : conc_inv w ->
  match conc_step w i a with Undefined => False | Blocked => True | Next w' => conc_inv w' end.
Proof.
  intros I. destruct (threads w !! i) as [t|] eqn:Hi; [|by unfold conc_step; rewrite Hi].
  destruct a as [addr| | |fs which path| | | |], t; try (by unfold conc_step; rewrite Hi);
    try first [by apply open_tmp_inv|by eapply close_old_inv|by eapply assign_new_inv].
  - unfold conc_step. rewrite Hi. destruct (existsb _ _) eqn:He; [done|]. by apply lock_shared_inv.
  - unfold conc_step. rewrite Hi. by apply read_slot_inv.
  - unfold conc_step. rewrite Hi. destruct stage as [|[|[|[|stage]]]]; try done. by apply unlock_shared_inv.
  - unfold conc_step. rewrite Hi. destruct (existsb _ _) eqn:He; [done|]. by apply lock_unique_inv.
  - unfold conc_step. rewrite Hi. by apply unlock_unique_inv.
Qed.

Lemma conc_run_inv steps w : conc_inv w -> exists w', conc_run steps w = Some w' /\ conc_inv w'.
Proof.
  revert w. induction steps as [|[i a] steps IH]; intros w I; [by exists w|]. cbn.
  pose proof (conc_step_inv w i a I) as Hs. destruct (conc_step w i a) as [| |w']; [by apply IH|done|by apply IH].
Qed.

(** ** Progress *)

Definition busy (t : thread_state) : bool := match t with TIdle | TDone _ _ _ => false | _ => true end.

(** The action a busy thread is at. *)
Definition next_action (t : thread_state) : conc_action :=
  match t with
  | TLookup _ _ 3 _ => UnlockShared
  | TLookup _ _ _ _ => ReadSlot
  | TOpened _ _ => LockUnique
  | TClosing _ _ => CloseOld
  | TAssigning _ _ => AssignNew
  | _ => UnlockUnique
  end.

(** A thread that holds the lock can always take its step. *)
Lemma holder_steps w i t : conc_inv w -> threads w !! i = Some t -> (reading t || swapping t) = true ->
  exists w', conc_step w i (next_action t) = Next w'.
Proof.
  intros I Hi Ht. pose proof (conc_step_inv w i (next_action t) I) as Hs.
  destruct (conc_step w i (next_action t)) as [| |w'] eqn:E; [|done|by exists w'].
  exfalso. unfold conc_step in E. rewrite Hi in E. destruct t as [|addr n k acc| | |which tmp|which tmp|]; try done; cbn in E.
  - destruct (ci_lookup _ I _ _ _ _ _ Hi) as (_ & Hk & _).
    assert (Hrun : forall which, stage_slot k = Some which -> read_slot i addr n k acc w <> Blocked).
    { unfold read_slot. intros which ->. destruct (_ && _); [|done].
      by destruct (live (heap (gs w)) !! slot_handle which (dbs (gs w))). }
    destruct k as [|[|[|[|k]]]]; [by eapply Hrun..|done|lia].
  - by destruct (close_if _ _ _).
  - by destruct (live (heap (gs w)) !! tmp).
Qed.

Lemma existsb_lookup {A} (P : A -> bool) l : existsb P l = true -> exists i x, l !! i = Some x /\ P x = true.
Proof.
  intros (x & Hx & Hp)%existsb_exists. apply list_elem_of_In, list_elem_of_lookup in Hx as [i Hi]. by exists i, x.
Qed.

Lemma busy_steps w : conc_inv w -> existsb busy (threads w) = true ->
  exists i t w', threads w !! i = Some t /\ busy t = true /\ conc_step w i (next_action t) = Next w'.
Proof.
  intros I (i & t & Hi & Hb)%existsb_lookup.
  destruct (existsb (fun t => reading t || swapping t) (threads w)) eqn:He.
  - apply existsb_lookup in He as (j & u & Hj & Hu). destruct (holder_steps _ _ _ I Hj Hu) as [w' Hw'].
    exists j, u, w'. split; [done|]. split; [by destruct u|done].
  - pose proof (not_existsb _ _ _ _ He Hi) as Hn.
    assert (Ht : exists which tmp, t = TOpened which tmp).
    { destruct t as [| | |which tmp| | |]; try (by cbn in Hn, Hb). by exists which, tmp. }
    destruct Ht as (which & tmp & ->). eexists i, _, _. split; [done|]. split; [done|].
    unfold conc_step. rewrite Hi. cbn [next_action]. by rewrite He.
Qed.

(** What is left of a thread's call. *)
Definition steps_left (t : thread_state) : nat :=
  match t with
  | TLookup _ _ k _ => 4 - k | TOpened _ _ => 4 | TClosing _ _ => 3 | TAssigning _ _ => 2 | TUnlocking => 1 | _ => 0
  end.

(** It holds the lock, shared or unique. *)
Definition holding (t : thread_state) : bool := reading t || swapping t.

(** A step leaves the other threads where they are. *)
Lemma step_frame w w' j i a : j <> i -> conc_step w j a = Next w' -> threads w' !! i = threads w !! i.
Proof.
  intros Hj E. unfold conc_step in E. destruct (threads w !! j) as [t|]; [|done].
  assert (Hins : forall t', (<[j := t']> (threads w)) !! i = threads w !! i) by (intros t'; by rewrite list_lookup_insert_ne).
  destruct a, t; try done; unfold read_slot in E; repeat case_match; try done; injection E as <-; first [apply Hins|done].
Qed.

(** The step of a thread that holds the lock. *)
Lemma holder_progress w i t : conc_inv w -> threads w !! i = Some t -> holding t = true ->
  exists w' t', conc_step w i (next_action t) = Next w' /\ threads w' !! i = Some t' /\ steps_left t = S (steps_left t') /\
    (steps_left t' = 0 -> holding t' = false).
Proof.
  intros I Hi Ht. destruct (holder_steps w i t I Hi Ht) as [w' Hs].
  pose proof (lookup_lt_Some _ _ _ Hi) as Hlt. exists w'. pose proof Hs as E. unfold conc_step in E. rewrite Hi in E.
  assert (Hins : forall t', (<[i := t']> (threads w)) !! i = Some t') by (intros t'; by rewrite list_lookup_insert_eq).
  destruct t as [|addr m k acc| |which tmp|which tmp|which tmp|]; try done; cbn [next_action] in E.
  - destruct (ci_lookup _ I _ _ _ _ _ Hi) as (_ & Hk & _).
    destruct k as [|[|[|[|k]]]]; [..|lia]; cbn in E; unfold read_slot in E; cbn [stage_slot] in E;
      [destruct (_ && _); [destruct (live (heap (gs w)) !! _); [|done]|]..|]; injection E as <-; eexists;
      (split; [exact Hs|]; split; [apply Hins|]; split; [done|]; try done; cbn; lia).
  - destruct (close_if _ _ _); [|done]. injection E as <-. eexists. split; [exact Hs|]. split; [apply Hins|by split].
  - destruct (live (heap (gs w)) !! tmp); [|done]. injection E as <-. eexists. split; [exact Hs|]. split; [apply Hins|by split].
  - injection E as <-. eexists. split; [exact Hs|]. split; [apply Hins|by split].
Qed.

(** Nothing is left open by a thread that is not in a call. *)
Lemma quiet w : existsb busy (threads w) = false -> dangling (threads w) = [] /\ tmps w = [].
Proof.
  unfold tmps, dangling. induction (threads w) as [|t ts IH]; [done|]. cbn. intros [Ht Hts]%orb_false_iff.
  destruct (IH Hts) as [-> ->]. by destruct t.
Qed.

Lemma quiet_geo_inv w : conc_inv w -> existsb busy (threads w) = false ->
  geo_inv (gs w) /\ view (gs w) = replay (swaps w).
Proof.
  intros I Hq. destruct (quiet w Hq) as [Hd Ht].
  assert (Href : forall which, refers w which <-> slot_open which (dbs (gs w)) = true).
  { intros which. unfold refers. rewrite Hd. split; [by intros []|]. intros Ho. split; [done|apply not_elem_of_nil]. }
  split; [split|].
  - intros w1 w2 H1 H2. apply (ci_slots _ I); by apply Href.
  - intros h. rewrite (ci_live _ I h), Ht. setoid_rewrite Href. split; [intros [?|Hin]; [done|by apply elem_of_nil in Hin]|by left].
  - exact (ci_next _ I).
  - unfold view. rewrite !(ci_view _ I) by (rewrite Hd; apply not_elem_of_nil). by destruct (replay (swaps w)).
Qed.

(** ** Properties *)

(** C5. Lookups are atomic.  Take any number of threads and any sequence of
    their steps: loading files, swapping them in, looking addresses up,
    interleaved at will.  No step uses a closed handle or closes one twice.
    Every lookup that has finished answers exactly what the specification
    answers on the databases after the first [m] swaps, for one [m]: it never
    mixes the databases before a swap with those after.  And once no thread is
    in a call, the object holds the databases of all the swaps made, with no
    handle lost or left open. *)
Theorem lookups_atomic (steps : list (nat * conc_action)) (n : nat) :
  exists w, conc_run steps (world_init n) = Some w /\
    (forall i addr m acc, threads w !! i = Some (TDone addr m acc) ->
       m <= length (swaps w) /\ acc = spec_lookup (replay (take m (swaps w))) addr) /\
    (existsb busy (threads w) = false -> geo_inv (gs w) /\ view (gs w) = replay (swaps w)).
Proof.
  destruct (conc_run_inv steps (world_init n) (init_inv n)) as (w & Hw & I).
  exists w. split; [done|]. split; [exact (ci_done _ I)|by apply quiet_geo_inv].
Qed.

(** C31. No deadlock, and the lock is always given back.  However the threads
    got there: while some thread is inside a call, one of them can take its
    next step.  A thread that holds the lock, shared or unique, can take its
    next step whatever the others do; that step leaves one less of the at most
    four it has left before the lock is released, and no step of another thread
    changes where it stands.  A lookup gets the lock when no swap has it, and a
    waiting swap when nobody has.  (A swap may wait as long as lookups keep
    coming: which of them goes first is the scheduler's choice.) *)
Theorem lock_progress (steps : list (nat * conc_action)) (n : nat) (w : world) (Hrun : conc_run steps (world_init n) = Some w) :
  (existsb busy (threads w) = true -> exists i t w', threads w !! i = Some t /\ busy t = true /\ conc_step w i (next_action t) = Next w') /\
  (forall i t, threads w !! i = Some t -> holding t = true ->
     steps_left t <= 4 /\
     (exists w' t', conc_step w i (next_action t) = Next w' /\ threads w' !! i = Some t' /\ steps_left t = S (steps_left t') /\
        (steps_left t' = 0 -> holding t' = false)) /\
     (forall j a w', j <> i -> conc_step w j a = Next w' -> threads w' !! i = Some t)) /\
  (forall i addr, threads w !! i = Some TIdle -> existsb swapping (threads w) = false ->
     exists w', conc_step w i (LockShared addr) = Next w') /\
  (forall i which tmp, threads w !! i = Some (TOpened which tmp) -> existsb holding (threads w) = false ->
     exists w', conc_step w i LockUnique = Next w').
Proof.
  destruct (conc_run_inv steps (world_init n) (init_inv n)) as (w0 & Hw & I). assert (w0 = w) as -> by congruence.
  split; [by apply busy_steps|]. split; [|split].
  - intros i t Hi Ht. split; [by destruct t; cbn; try lia|]. split; [by apply holder_progress|].
    intros j a w' Hj E. by rewrite (step_frame w w' j i a).
  - intros i addr Hi Hs. unfold conc_step. rewrite Hi, Hs. by eexists.
  - intros i which tmp Hi Hs. unfold conc_step, holding in *. rewrite Hi, Hs. by eexists.
Qed.
End Conc.

(** ** Witnesses *)

(** One thread looks an address up while a second swaps a database in: the
    lookup starts before the swap and answers without it, the swap waits. *)
Definition sample_addr : ParsedAddr :=
  mkParsedAddr (Sin 0 (repeat "001"%char 4)) sizeof_sockaddr_in AF_INET.

Definition sample_steps : list (nat * conc_action) :=
  [(0, LockShared sample_addr); (0, ReadSlot);
   (1, OpenTmp sample_fs City #"/db"); (1, LockUnique); (1, CloseOld);
   (0, ReadSlot); (0, ReadSlot); (0, UnlockShared);
   (1, LockUnique); (2, LockShared sample_addr); (1, CloseOld); (1, AssignNew); (2, ReadSlot); (1, UnlockUnique);
   (2, LockShared sample_addr); (2, ReadSlot); (2, ReadSlot); (2, ReadSlot); (2, UnlockShared)].


(** The first lookup and the second differ, and both are finished. *)
Example lookups_atomic_sample :
  (fun w => (length (swaps w), existsb busy (threads w),
    (fun t => match t with TDone _ m acc => Some (m, country_code acc.1) | _ => None end) <$> threads w))
    <$> @conc_run simple_maxmind sample_steps (world_init 3)
  = Some (1, false, [Some (0, None); None; Some (1, Some #"DE")]).
Proof. vm_compute. reflexivity. Qed.

(** Witness of C31: after ten of these steps thread 1 holds the lock. *)
Example lock_progress_witness :
  exists w t, @conc_run simple_maxmind (take 10 sample_steps) (world_init 3) = Some w /\ threads w !! 1 = Some t /\ holding t = true /\
    exists w' t', conc_step w 1 (next_action t) = Next w' /\ threads w' !! 1 = Some t' /\ steps_left t = S (steps_left t') /\
        (steps_left t' = 0 -> holding t' = false).
Proof.
  destruct (@conc_run simple_maxmind (take 10 sample_steps) (world_init 3)) as [w|] eqn:E.
  2: { apply (f_equal is_some) in E. by vm_compute in E. }
  assert (Ht : threads w !! 1 = Some (TClosing City 1)).
  { apply (f_equal (fmap (fun w => threads w !! 1))) in E. vm_compute in E. injection E as E. symmetry. exact E. }
  exists w, (TClosing City 1). split; [done|]. split; [exact Ht|]. split; [done|].
  apply (proj1 (proj2 (lock_progress (take 10 sample_steps) 3 w E)) 1 (TClosing City 1) Ht eq_refl).
Defined.
