(* ===== verification/Metrics.v ===== *)
(** * Metrics (src/src/metrics.cpp, src/src/metrics.h)

    The request and response counters, 64-bit and wrapping, the Prometheus
    text exposition and the JSON body of /health. *)

From S2P Require Import Prelude CLib TextUtil Double GeoIp.
From Stdlib Require Import Ascii.

(** ** Data *)

(** The [std::atomic_uint64_t] members, all starting at 0. *)
Record Metrics := mkMetrics {
  lookup_requests_total : Z;
  health_requests_total : Z;
  metrics_requests_total : Z;
  other_requests_total : Z;
  responses_200 : Z;
  responses_400 : Z;
  responses_404 : Z;
  responses_405 : Z;
  responses_500 : Z;
  lookup_found_total : Z;
  lookup_not_found_total : Z;
}.

Definition Metrics_zero : Metrics := mkMetrics 0 0 0 0 0 0 0 0 0 0 0.

Record MetricsDbInfo := mkDbInfo {
  name : bytes;
  open : bool;
  metadata : option GeoIpDbMetadata;
}.

(** ** Counting *)

(** [fetch_add(1)] on a 64-bit counter. *)
Definition fetch_add1 (n : Z) : Z := ((n + 1) mod 2 ^ 64)%Z.

(** One counter of a [Metrics], and adding one to it. *)
Inductive counter := LookupRequests | HealthRequests | MetricsRequests | OtherRequests
  | Responses200 | Responses400 | Responses404 | Responses405 | Responses500
  | LookupFound | LookupNotFound.

Definition get_counter (k : counter) (m : Metrics) : Z :=
  match k with
  | LookupRequests => lookup_requests_total m
  | HealthRequests => health_requests_total m
  | MetricsRequests => metrics_requests_total m
  | OtherRequests => other_requests_total m
  | Responses200 => responses_200 m
  | Responses400 => responses_400 m
  | Responses404 => responses_404 m
  | Responses405 => responses_405 m
  | Responses500 => responses_500 m
  | LookupFound => lookup_found_total m
  | LookupNotFound => lookup_not_found_total m
  end.

Definition increment (k : counter) (m : Metrics) : Metrics :=
  let on (k' : counter) (n : Z) :=
    match k, k' with
    | LookupRequests, LookupRequests | HealthRequests, HealthRequests | MetricsRequests, MetricsRequests
    | OtherRequests, OtherRequests | Responses200, Responses200 | Responses400, Responses400
    | Responses404, Responses404 | Responses405, Responses405 | Responses500, Responses500
    | LookupFound, LookupFound | LookupNotFound, LookupNotFound => fetch_add1 n
    | _, _ => n
    end in
  mkMetrics (on LookupRequests (lookup_requests_total m)) (on HealthRequests (health_requests_total m))
    (on MetricsRequests (metrics_requests_total m)) (on OtherRequests (other_requests_total m))
    (on Responses200 (responses_200 m)) (on Responses400 (responses_400 m)) (on Responses404 (responses_404 m))
    (on Responses405 (responses_405 m)) (on Responses500 (responses_500 m))
    (on LookupFound (lookup_found_total m)) (on LookupNotFound (lookup_not_found_total m)).

Definition record_request (path : bytes) (m : Metrics) : Metrics :=
  if path == #"/lookup" then increment LookupRequests m
  else if path == #"/health" then increment HealthRequests m
  else if path == #"/metrics" then increment MetricsRequests m
  else increment OtherRequests m.

Definition record_response (status : Z) (m : Metrics) : Metrics :=
  if (status =? 200)%Z then increment Responses200 m
  else if (status =? 400)%Z then increment Responses400 m
  else if (status =? 404)%Z then increment Responses404 m
  else if (status =? 405)%Z then increment Responses405 m
  else if (status =? 500)%Z then increment Responses500 m
  else m.

(** ** Prometheus text *)

Definition escape_label_char (c : ascii) : bytes :=
  if c == BSL then [BSL; BSL]
  else if c == DQ then [BSL; DQ]
  else if c == LF then [BSL; "n"%char]
  else [c].

Fixpoint escape_label_value (s : bytes) : bytes :=
  match s with
  | [] => []
  | c :: s' => escape_label_char c ++ escape_label_value s'
  end.

Definition load (counter : Z) : bytes := to_string counter.

Definition render_prometheus_metrics (metrics : Metrics) (dbs : list MetricsDbInfo)
    (version mmdb_lib_version : bytes) (uptime_seconds : double) : bytes :=
  #"# HELP nshgeoip_build_info nshgeoip build information." ++ [LF] ++
  #"# TYPE nshgeoip_build_info gauge" ++ [LF] ++
  #j"nshgeoip_build_info{version='" ++ escape_label_value version ++ #j"',libmaxminddb_version='" ++
    escape_label_value mmdb_lib_version ++ #j"'} 1" ++ [LF] ++
  #"# HELP nshgeoip_uptime_seconds Seconds since the daemon started." ++ [LF] ++
  #"# TYPE nshgeoip_uptime_seconds gauge" ++ [LF] ++
  #"nshgeoip_uptime_seconds " ++ format_fixed 0 uptime_seconds ++ [LF] ++
  #"# HELP nshgeoip_db_open Whether a database is currently open (1) or not (0)." ++ [LF] ++
  #"# TYPE nshgeoip_db_open gauge" ++ [LF] ++
  flat_map (fun db => #j"nshgeoip_db_open{db='" ++ escape_label_value (name db) ++ #j"'} " ++
              (if open db then #"1" else #"0") ++ [LF]) dbs ++
  #"# HELP nshgeoip_db_build_epoch_seconds Database build time as a Unix timestamp." ++ [LF] ++
  #"# TYPE nshgeoip_db_build_epoch_seconds gauge" ++ [LF] ++
  flat_map (fun db => match metadata db with
            | None => []
            | Some m => #j"nshgeoip_db_build_epoch_seconds{db='" ++ escape_label_value (name db) ++ #j"'} " ++
                          to_string (build_epoch m) ++ [LF]
            end) dbs ++
  #"# HELP nshgeoip_db_age_seconds Seconds since the database was built." ++ [LF] ++
  #"# TYPE nshgeoip_db_age_seconds gauge" ++ [LF] ++
  flat_map (fun db => match metadata db with
            | None => []
            | Some m => #j"nshgeoip_db_age_seconds{db='" ++ escape_label_value (name db) ++ #j"'} " ++
                          format_fixed 0 (dmul_const (age_days m) 86400) ++ [LF]
            end) dbs ++
  #"# HELP nshgeoip_requests_total Total HTTP requests received, by path." ++ [LF] ++
  #"# TYPE nshgeoip_requests_total counter" ++ [LF] ++
  #j"nshgeoip_requests_total{path='lookup'} " ++ load (lookup_requests_total metrics) ++ [LF] ++
  #j"nshgeoip_requests_total{path='health'} " ++ load (health_requests_total metrics) ++ [LF] ++
  #j"nshgeoip_requests_total{path='metrics'} " ++ load (metrics_requests_total metrics) ++ [LF] ++
  #j"nshgeoip_requests_total{path='other'} " ++ load (other_requests_total metrics) ++ [LF] ++
  #"# HELP nshgeoip_http_responses_total HTTP responses sent, by status code." ++ [LF] ++
  #"# TYPE nshgeoip_http_responses_total counter" ++ [LF] ++
  #j"nshgeoip_http_responses_total{code='200'} " ++ load (responses_200 metrics) ++ [LF] ++
  #j"nshgeoip_http_responses_total{code='400'} " ++ load (responses_400 metrics) ++ [LF] ++
  #j"nshgeoip_http_responses_total{code='404'} " ++ load (responses_404 metrics) ++ [LF] ++
  #j"nshgeoip_http_responses_total{code='405'} " ++ load (responses_405 metrics) ++ [LF] ++
  #j"nshgeoip_http_responses_total{code='500'} " ++ load (responses_500 metrics) ++ [LF] ++
  #"# HELP nshgeoip_lookup_results_total /lookup outcomes, by result." ++ [LF] ++
  #"# TYPE nshgeoip_lookup_results_total counter" ++ [LF] ++
  #j"nshgeoip_lookup_results_total{result='found'} " ++ load (lookup_found_total metrics) ++ [LF] ++
  #j"nshgeoip_lookup_results_total{result='not_found'} " ++ load (lookup_not_found_total metrics) ++ [LF].

(** ** The JSON body of /health *)

Definition health_db (db : MetricsDbInfo) : bytes :=
  #j"'" ++ json_escape (name db) ++ #j"':{'open':" ++ (if open db then #"true" else #"false") ++
  match metadata db with
  | None => []
  | Some m =>
      #j",'database_type':'" ++ json_escape (database_type m) ++ #j"'" ++
      #j",'build_epoch':" ++ to_string (build_epoch m) ++
      #j",'build_date':'" ++ json_escape (build_time m) ++ #j"'" ++
      #j",'age_days':" ++ format_fixed 1 (age_days m) ++
      #j",'age_ms':" ++ to_string (age_ms m) ++
      #j",'age_ns':" ++ to_string (age_ns m)
  end ++ #"}".

(** The loop with its [if (i > 0)] comma. *)
Fixpoint health_dbs (i : nat) (dbs : list MetricsDbInfo) : bytes :=
  match dbs with
  | [] => []
  | db :: dbs' => (if (0 <? i)%nat then #"," else []) ++ health_db db ++ health_dbs (S i) dbs'
  end.

Definition render_health_json (dbs : list MetricsDbInfo) (version mmdb_lib_version : bytes)
    (uptime_seconds : double) : bytes :=
  #"{" ++
  #j"'status':'ok'" ++
  #j",'version':'" ++ json_escape version ++ #j"'" ++
  #j",'libmaxminddb_version':'" ++ json_escape mmdb_lib_version ++ #j"'" ++
  #j",'uptime_seconds':" ++ format_fixed 0 uptime_seconds ++
  #j",'databases':{" ++ health_dbs 0 dbs ++ #"}" ++
  #"}".
