(* ===== verification/MetricsSpec.v ===== *)
(** * Metrics: references and correctness of [Metrics]

    The counters are compared with the number of events recorded, in any
    order of the worker threads.  The Prometheus text is read back by a parser
    of the exposition format into exactly the expected samples, and the
    /health body by the JSON reader. *)

From S2P Require Import Prelude CLib TextUtil Double Json GeoIp Metrics.
From Stdlib Require Import Ascii.
From stdpp Require Import sorting.

(** ** Counting events *)

Inductive metric_event := EvRequest (path : bytes) | EvResponse (status : Z) | EvFound | EvNotFound.

Definition apply_event (m : Metrics) (e : metric_event) : Metrics :=
  match e with
  | EvRequest p => record_request p m
  | EvResponse st => record_response st m
  | EvFound => increment LookupFound m
  | EvNotFound => increment LookupNotFound m
  end.

(** The counter an event belongs to, as the comments of metrics.h say it. *)
Definition event_counter (e : metric_event) : option counter :=
  match e with
  | EvRequest p =>
      Some (if p == #"/lookup" then LookupRequests else if p == #"/health" then HealthRequests
            else if p == #"/metrics" then MetricsRequests else OtherRequests)
  | EvResponse st =>
      if (st =? 200)%Z then Some Responses200 else if (st =? 400)%Z then Some Responses400
      else if (st =? 404)%Z then Some Responses404 else if (st =? 405)%Z then Some Responses405
      else if (st =? 500)%Z then Some Responses500 else None
  | EvFound => Some LookupFound
  | EvNotFound => Some LookupNotFound
  end.

#[export] Instance counter_eq_dec : EqDecision counter.
Proof. solve_decision. Defined.

Lemma get_increment k k' m :
  get_counter k (increment k' m) = if bool_decide (k = k') then fetch_add1 (get_counter k m) else get_counter k m.
Proof. by destruct k, k'. Qed.

Lemma apply_event_counter e m :
  apply_event m e = match event_counter e with Some k => increment k m | None => m end.
Proof.
  destruct e as [p|st| |]; cbn; [unfold record_request|unfold record_response| |]; try done;
    by repeat match goal with |- context [if ?b then _ else _] => destruct b end.
Qed.

Definition counted (k : counter) (e : metric_event) : bool := bool_decide (event_counter e = Some k).

Definition count_events (k : counter) (es : list metric_event) : Z :=
  Z.of_nat (length (filter (fun e => counted k e = true) es)).


Lemma counter_after es k m : (0 <= get_counter k m < 2 ^ 64)%Z ->
  get_counter k (fold_left apply_event es m) = ((get_counter k m + count_events k es) mod 2 ^ 64)%Z.
Proof.
  revert m. induction es as [|e es IH]; intros m Hm.
  { cbn. rewrite Z.add_0_r, Z.mod_small; lia. }
  cbn [fold_left]. unfold count_events. rewrite filter_cons. rewrite apply_event_counter.
  assert (Hstep : get_counter k (match event_counter e with Some k' => increment k' m | None => m end) =
    if counted k e then fetch_add1 (get_counter k m) else get_counter k m).
  { unfold counted. destruct (event_counter e) as [k'|]; [|by rewrite bool_decide_eq_false_2].
    rewrite get_increment. apply (f_equal (fun b : bool => if b then _ else _)).
    apply bool_decide_ext. split; congruence. }
  destruct (decide (counted k e = true)) as [Hc|Hc].
  - rewrite Hc in Hstep. rewrite IH, Hstep.
    + unfold fetch_add1, count_events. rewrite Zplus_mod_idemp_l. f_equal. cbn [length]. lia.
    + rewrite Hstep. unfold fetch_add1. apply Z.mod_pos_bound. lia.
  - apply not_true_iff_false in Hc. rewrite Hc in Hstep. rewrite IH, Hstep; [done|]. by rewrite Hstep.
Qed.

Lemma count_events_perm k es es' : es ≡ₚ es' -> count_events k es = count_events k es'.
Proof. intros H. unfold count_events. by rewrite H. Qed.

Lemma metrics_ext m m' : (forall k, get_counter k m = get_counter k m') -> m = m'.
Proof.
  intros H. destruct m, m'.
  pose proof (H LookupRequests). pose proof (H HealthRequests). pose proof (H MetricsRequests).
  pose proof (H OtherRequests). pose proof (H Responses200). pose proof (H Responses400).
  pose proof (H Responses404). pose proof (H Responses405). pose proof (H Responses500).
  pose proof (H LookupFound). pose proof (H LookupNotFound). cbn in *. congruence.
Qed.

(** ** Reading the exposition format *)

Record sample := mkSample { s_name : bytes; s_labels : list (bytes * bytes); s_value : bytes }.

(** A quoted label value after its opening quote, and what follows it. *)
Fixpoint prom_label (s : bytes) : option (bytes * bytes) :=
  match s with
  | [] => None
  | c :: r =>
      if c == DQ then Some ([], r)
      else if c == LF then None
      else if c == BSL then
        match r with
        | e :: r' =>
            v ← (if e == BSL then Some BSL else if e == DQ then Some DQ else if e == "n"%char then Some LF else None);
            '(t, rest) ← prom_label r'; Some (v :: t, rest)
        | [] => None
        end
      else '(t, rest) ← prom_label r; Some (c :: t, rest)
  end.

(** The labels after the opening brace, up to the closing one. *)
Fixpoint prom_labels (fuel : nat) (s : bytes) : option (list (bytes * bytes) * bytes) :=
  match fuel with
  | O => None
  | S f =>
      eq ← find_char "="%char s;
      match drop (eq + 1) s with
      | q :: r =>
          if q == DQ then
            '(v, r') ← prom_label r;
            match r' with
            | c :: r'' =>
                if c == "}"%char then Some ([(take eq s, v)], r'')
                else if c == ","%char then
                  '(ls, rest) ← prom_labels f r''; Some ((take eq s, v) :: ls, rest)
                else None
            | [] => None
            end
          else None
      | [] => None
      end
  end.

Definition name_char (c : ascii) : bool := negb (c == "{"%char) && negb (c == SP).

Definition prom_line (l : bytes) : option sample :=
  let n := take_while name_char l in
  match drop_while name_char l with
  | c :: r =>
      if c == SP then Some (mkSample n [] r)
      else
        '(ls, rest) ← prom_labels (length r) r;
        match rest with d :: v => if d == SP then Some (mkSample n ls v) else None | [] => None end
  | [] => None
  end.

Definition is_comment (l : bytes) : bool := match l with c :: _ => c == "#"%char | [] => false end.

Definition prom_read (text : bytes) : option (list sample) :=
  mapM prom_line (filter (fun l => is_comment l = false) (getlines text)).

(** ** The samples *)

Inductive prom_item := Comment (text : bytes) | Value (s : sample).

Definition label_text (kv : bytes * bytes) : bytes := kv.1 ++ #j"='" ++ escape_label_value kv.2 ++ #j"'".

Definition item_line (i : prom_item) : bytes :=
  match i with
  | Comment t => #"# " ++ t
  | Value (mkSample n [] v) => n ++ #" " ++ v
  | Value (mkSample n ls v) => n ++ #"{" ++ commas (map label_text ls) ++ #"} " ++ v
  end.

Definition unlines (ls : list bytes) : bytes := flat_map (fun l => l ++ [LF]) ls.

Definition metric (n kind help : bytes) (samples : list (list (bytes * bytes) * bytes)) : list prom_item :=
  Comment (#"HELP " ++ n ++ #" " ++ help) :: Comment (#"TYPE " ++ n ++ #" " ++ kind) ::
  map (fun s => Value (mkSample n s.1 s.2)) samples.

Definition with_metadata (dbs : list MetricsDbInfo) (f : GeoIpDbMetadata -> bytes) : list (list (bytes * bytes) * bytes) :=
  flat_map (fun db => match metadata db with Some m => [([(#"db", name db)], f m)] | None => [] end) dbs.

(** What the exposition says: every metric with its samples. *)
Definition exposition (m : Metrics) (dbs : list MetricsDbInfo) (version lib : bytes) (uptime : double) : list prom_item :=
  metric #"nshgeoip_build_info" #"gauge" #"nshgeoip build information."
    [([(#"version", version); (#"libmaxminddb_version", lib)], #"1")] ++
  metric #"nshgeoip_uptime_seconds" #"gauge" #"Seconds since the daemon started."
    [([], format_fixed 0 uptime)] ++
  metric #"nshgeoip_db_open" #"gauge" #"Whether a database is currently open (1) or not (0)."
    (map (fun db => ([(#"db", name db)], if open db then #"1" else #"0")) dbs) ++
  metric #"nshgeoip_db_build_epoch_seconds" #"gauge" #"Database build time as a Unix timestamp."
    (with_metadata dbs (fun md => to_string (build_epoch md))) ++
  metric #"nshgeoip_db_age_seconds" #"gauge" #"Seconds since the database was built."
    (with_metadata dbs (fun md => format_fixed 0 (dmul_const (age_days md) 86400))) ++
  metric #"nshgeoip_requests_total" #"counter" #"Total HTTP requests received, by path."
    [([(#"path", #"lookup")], to_string (lookup_requests_total m));
     ([(#"path", #"health")], to_string (health_requests_total m));
     ([(#"path", #"metrics")], to_string (metrics_requests_total m));
     ([(#"path", #"other")], to_string (other_requests_total m))] ++
  metric #"nshgeoip_http_responses_total" #"counter" #"HTTP responses sent, by status code."
    [([(#"code", #"200")], to_string (responses_200 m));
     ([(#"code", #"400")], to_string (responses_400 m));
     ([(#"code", #"404")], to_string (responses_404 m));
     ([(#"code", #"405")], to_string (responses_405 m));
     ([(#"code", #"500")], to_string (responses_500 m))] ++
  metric #"nshgeoip_lookup_results_total" #"counter" #"/lookup outcomes, by result."
    [([(#"result", #"found")], to_string (lookup_found_total m));
     ([(#"result", #"not_found")], to_string (lookup_not_found_total m))].

Definition samples_of (items : list prom_item) : list sample :=
  flat_map (fun i => match i with Value s => [s] | Comment _ => [] end) items.

(** *** The code's text is the lines of [exposition] *)

Lemma unlines_app l1 l2 : unlines (l1 ++ l2) = unlines l1 ++ unlines l2.
Proof. apply flat_map_app. Qed.

Lemma unlines_values {A} n (f : A -> list (bytes * bytes) * bytes) (g : A -> bytes) (l : list A) :
  (forall x, item_line (Value (mkSample n (f x).1 (f x).2)) ++ [LF] = g x) ->
  unlines (map item_line (map (fun s => Value (mkSample n s.1 s.2)) (map f l))) = flat_map g l.
Proof.
  intros H. induction l as [|x l IH]; [done|]. cbn [map unlines flat_map]. rewrite <- H. by rewrite <- IH.
Qed.

Lemma unlines_with_metadata n (f : GeoIpDbMetadata -> bytes) (g : MetricsDbInfo -> bytes) dbs :
  (forall db m, metadata db = Some m -> item_line (Value (mkSample n [(#"db", name db)] (f m))) ++ [LF] = g db) ->
  (forall db, metadata db = None -> g db = []) ->
  unlines (map item_line (map (fun s => Value (mkSample n s.1 s.2)) (with_metadata dbs f))) = flat_map g dbs.
Proof.
  intros H1 H2. induction dbs as [|db dbs IH]; [done|]. cbn [with_metadata flat_map].
  destruct (metadata db) eqn:E.
  - cbn [app map unlines flat_map fst snd]. rewrite <- (H1 _ _ E). by rewrite <- IH.
  - rewrite (H2 _ E). apply IH.
Qed.

Lemma metric_lines n kind help samples rest :
  unlines (map item_line (metric n kind help samples ++ rest)) =
  #"# HELP " ++ n ++ #" " ++ help ++ [LF] ++ #"# TYPE " ++ n ++ #" " ++ kind ++ [LF] ++
  unlines (map item_line (map (fun s => Value (mkSample n s.1 s.2)) samples)) ++ unlines (map item_line rest).
Proof.
  unfold metric. rewrite map_app, unlines_app. cbn [map unlines flat_map item_line].
  rewrite <- !app_assoc. done.
Qed.

Lemma render_exposition m dbs version lib uptime :
  render_prometheus_metrics m dbs version lib uptime = unlines (map item_line (exposition m dbs version lib uptime)).
Proof.
  unfold exposition. rewrite <- (app_nil_r (metric #"nshgeoip_lookup_results_total" _ _ _)).
  rewrite !metric_lines.
  rewrite (unlines_values _ _ (fun db => #j"nshgeoip_db_open{db='" ++ escape_label_value (name db) ++ #j"'} " ++
              (if open db then #"1" else #"0") ++ [LF])).
  2: { intros db. cbn [item_line map commas label_text fst snd]. unfold label_text. rewrite <- !app_assoc. done. }
  rewrite (unlines_with_metadata _ _ (fun db => match metadata db with
            | None => []
            | Some m => #j"nshgeoip_db_build_epoch_seconds{db='" ++ escape_label_value (name db) ++ #j"'} " ++
                          to_string (build_epoch m) ++ [LF]
            end)).
  2: { intros db md ->. cbn [item_line map commas]. unfold label_text. cbn [fst snd]. rewrite <- !app_assoc. done. }
  2: { by intros db ->. }
  rewrite (unlines_with_metadata _ _ (fun db => match metadata db with
            | None => []
            | Some m => #j"nshgeoip_db_age_seconds{db='" ++ escape_label_value (name db) ++ #j"'} " ++
                          format_fixed 0 (dmul_const (age_days m) 86400) ++ [LF]
            end)).
  2: { intros db md ->. cbn [item_line map commas]. unfold label_text. cbn [fst snd]. rewrite <- !app_assoc. done. }
  2: { by intros db ->. }
  cbn [map unlines flat_map item_line commas fst snd]. unfold label_text. cbn [fst snd].
  unfold render_prometheus_metrics, load. rewrite <- !app_assoc. cbn [app]. reflexivity.
Qed.

(** *** Lines read back *)

Lemma prom_label_escaped s rest : prom_label (escape_label_value s ++ DQ :: rest) = Some (s, rest).
Proof.
  induction s as [|c s IH]; [done|]. cbn [escape_label_value]. rewrite <- app_assoc.
  unfold escape_label_char.
  destruct (bool_decide_reflect (c = BSL)) as [->|Hb]; [cbn; by rewrite IH|].
  destruct (bool_decide_reflect (c = DQ)) as [->|Hq]; [cbn; by rewrite IH|].
  destruct (bool_decide_reflect (c = LF)) as [->|Hl]; [cbn; by rewrite IH|].
  cbn [app prom_label]. rewrite !bool_decide_neq by done. by rewrite IH.
Qed.

Lemma drop_after_char (k : bytes) c x : drop (length k + 1) (k ++ c :: x) = x.
Proof. by rewrite <- drop_drop, drop_app_length. Qed.

Lemma prom_labels_read fuel k v ls rest :
  Forall (fun kv => "="%char ∉ kv.1) ((k, v) :: ls) -> length ls < fuel ->
  prom_labels fuel (commas (map label_text ((k, v) :: ls)) ++ #"}" ++ rest) = Some ((k, v) :: ls, rest).
Proof.
  revert fuel k v. induction ls as [|[k2 v2] ls IH]; intros fuel k v Hk Hf;
    (destruct fuel as [|fuel]; [cbn in Hf; lia|]); apply Forall_cons in Hk as [Hk Hls]; cbn [fst] in Hk.
  - cbn [map commas]. unfold label_text. cbn [fst snd]. rewrite <- !app_assoc.
    change (#j"='" ++ ?x) with ("="%char :: DQ :: x). cbn [prom_labels].
    rewrite find_char_hit by done. cbn [mbind option_bind]. rewrite take_app_length, drop_after_char.
    rewrite bool_decide_refl. change (#j"'" ++ ?x) with (DQ :: x). by rewrite prom_label_escaped.
  - cbn [map]. rewrite commas_cons. unfold label_text at 1. cbn [fst snd]. rewrite <- !app_assoc.
    change (#j"='" ++ ?x) with ("="%char :: DQ :: x). cbn [prom_labels].
    rewrite find_char_hit by done. cbn [mbind option_bind]. rewrite take_app_length, drop_after_char.
    rewrite bool_decide_refl. change (#j"'" ++ ?x) with (DQ :: x). rewrite prom_label_escaped. cbn [mbind option_bind].
    change (#"," ++ ?x) with (","%char :: x). cbn iota. 
    rewrite bool_decide_neq, bool_decide_refl by done.
    change (label_text (k2, v2) :: map label_text ls) with (map label_text ((k2, v2) :: ls)).
    rewrite IH; [done|done|]. cbn [length] in Hf. lia.
Qed.

Definition sample_ok (s : sample) : Prop :=
  forallb name_char (s_name s) = true /\ Forall (fun kv => "="%char ∉ kv.1) (s_labels s).

Lemma commas_length_bound (ls : list bytes) : length ls <= S (length (commas ls)).
Proof.
  induction ls as [|x [|y ls] IH]; [cbn; lia|cbn; lia|]. rewrite commas_cons, !length_app.
  change (length #",") with 1. cbn [length] in *. lia.
Qed.

Lemma prom_line_read s : sample_ok s -> prom_line (item_line (Value s)) = Some s.
Proof.
  destruct s as [n ls v]. intros [Hn Hl]. cbn [s_name s_labels] in *. apply forallb_Forall_true in Hn.
  unfold prom_line, item_line. destruct ls as [|[k lv] ls].
  - rewrite take_while_all, drop_while_all by done. cbn. done.
  - change (#"{" ++ ?x) with ("{"%char :: x). rewrite take_while_all, drop_while_all by done.
    rewrite bool_decide_neq by done. change (#"} " ++ v) with (#"}" ++ SP :: v).
    rewrite prom_labels_read; [done|done|].
    pose proof (commas_length_bound (map label_text ((k, lv) :: ls))) as Hc. rewrite length_map in Hc.
    rewrite length_app. cbn [length] in *. rewrite length_app. cbn [length]. change (length #"}") with 1. lia.
Qed.

Lemma escape_label_no_lf s : LF ∉ escape_label_value s.
Proof.
  induction s as [|c s IH]; [apply not_elem_of_nil|]. cbn. rewrite not_elem_of_app. split; [|done].
  unfold escape_label_char. repeat case_bool_decide; rewrite ?not_elem_of_cons; repeat split; try done;
    try apply not_elem_of_nil; congruence.
Qed.

Lemma line_safe_no_lf s : line_safe s -> LF ∉ s.
Proof. unfold line_safe. rewrite Forall_forall. intros H Hin. by specialize (H _ Hin). Qed.

Definition item_ok (i : prom_item) : Prop :=
  match i with
  | Comment t => LF ∉ t
  | Value s => sample_ok s /\ (LF ∉ s_name s) /\ (LF ∉ s_value s) /\ Forall (fun kv => LF ∉ kv.1) (s_labels s) /\
      match s_name s with [] => False | c :: _ => c <> "#"%char end
  end.

Lemma not_in_commas x (ls : list bytes) : x <> ","%char -> Forall (fun l => x ∉ l) ls -> x ∉ commas ls.
Proof.
  intros Hx. induction 1 as [|l [|l2 ls] Hl Hls IH]; [apply not_elem_of_nil|done|].
  rewrite commas_cons, !not_elem_of_app. split; [done|]. split; [|done].
  change #"," with [","%char]. by rewrite list_elem_of_singleton.
Qed.

Lemma lit_not_in x (s : bytes) : bool_decide (x ∉ s) = true -> x ∉ s.
Proof. apply bool_decide_eq_true_1. Qed.

Lemma item_line_no_lf i : item_ok i -> LF ∉ item_line i.
Proof.
  destruct i as [t|[n ls v]]; cbn [item_ok item_line].
  - intros Ht. rewrite not_elem_of_app. split; [by apply lit_not_in|done].
  - cbn [s_name s_labels s_value]. intros (_ & Hn & Hv & Hk & _). destruct ls as [|kv ls].
    + rewrite !not_elem_of_app. repeat split; [done|by apply lit_not_in|done].
    + rewrite !not_elem_of_app. split; [done|]. split; [by apply lit_not_in|].
      split; [|split; [by apply lit_not_in|done]]. apply not_in_commas; [done|].
      apply Forall_map. apply (Forall_impl _ _ _ Hk). intros [k lv] Hkv. unfold label_text. cbn [compose fst snd] in *.
      rewrite !not_elem_of_app. split; [done|]. split; [by apply lit_not_in|]. split; [apply escape_label_no_lf|by apply lit_not_in].
Qed.

Lemma prom_read_items items : Forall item_ok items -> prom_read (unlines (map item_line items)) = Some (samples_of items).
Proof.
  intros H. unfold prom_read, unlines. rewrite getlines_render.
  2: { apply Forall_map. apply (Forall_impl _ _ _ H). apply item_line_no_lf. }
  induction H as [|i items Hi _ IH]; [done|]. cbn [map samples_of flat_map]. rewrite filter_cons.
  destruct i as [t|s]; cbn [item_ok] in Hi.
  - rewrite decide_False by done. apply IH.
  - destruct Hi as (Hs & _ & _ & _ & Hh). rewrite decide_True.
    2: { destruct s as [[|c n] ls v]; [done|]. cbn in Hh. destruct ls; cbn; by rewrite bool_decide_neq. }
    cbn [mapM]. rewrite prom_line_read by done. cbn [mbind option_bind]. by rewrite IH.
Qed.

(** The labels and values the program writes. *)
Definition row_ok (s : list (bytes * bytes) * bytes) : Prop :=
  Forall (fun kv => ("="%char ∉ kv.1) /\ (LF ∉ kv.1)) s.1 /\ LF ∉ s.2.

Lemma metric_ok n kind help samples :
  forallb (fun c => name_char c && negb (c == LF)) n = true ->
  match n with [] => False | c :: _ => c <> "#"%char end ->
  LF ∉ kind -> LF ∉ help -> Forall row_ok samples -> Forall item_ok (metric n kind help samples).
Proof.
  intros Hn Hne Hk Hh Hs. apply forallb_Forall_true in Hn.
  assert (Hname : forallb name_char n = true).
  { apply forallb_Forall_true. apply (Forall_impl _ _ _ Hn). by intros c [? _]%andb_true_iff. }
  assert (Hlf : LF ∉ n). { rewrite Forall_forall in Hn. intros Hin. by specialize (Hn _ Hin). }
  constructor; [|constructor].
  - cbn. rewrite !not_elem_of_app. repeat split; try done; by apply lit_not_in.
  - cbn. rewrite !not_elem_of_app. repeat split; try done; by apply lit_not_in.
  - apply Forall_map. apply (Forall_impl _ _ _ Hs). intros [ls v] [Hl Hv]. cbn in *.
    repeat split; try done; cbn; apply (Forall_impl _ _ _ Hl); naive_solver.
Qed.

Lemma to_string_no_lf z : LF ∉ to_string z.
Proof. apply line_safe_no_lf, line_safe_to_string. Qed.

Lemma format_fixed_no_lf p v : LF ∉ format_fixed p v.
Proof. apply line_safe_no_lf, format_fixed_safe. Qed.

Lemma row_db_ok nm v : LF ∉ v -> row_ok ([(#"db", nm)], v).
Proof. split; [|done]. by repeat constructor; apply lit_not_in. Qed.

Lemma with_metadata_ok dbs f : (forall m, LF ∉ f m) -> Forall row_ok (with_metadata dbs f).
Proof.
  intros Hf. apply Forall_flat_map. apply Forall_true. intros db. destruct (metadata db); [|constructor].
  constructor; [by apply row_db_ok|constructor].
Qed.

Lemma exposition_ok m dbs version lib uptime : Forall item_ok (exposition m dbs version lib uptime).
Proof.
  assert (Hrow : forall k v x, bool_decide (("="%char ∉ k) /\ (LF ∉ k)) = true -> LF ∉ x -> row_ok ([(k, v)], x)).
  { intros k v x Hk Hx. split; [|done]. repeat constructor; by apply bool_decide_eq_true_1 in Hk as []. }
  unfold exposition. rewrite !Forall_app.
  repeat (split; [|]); apply metric_ok; try done; try (by apply lit_not_in).
  - repeat constructor; by apply lit_not_in.
  - repeat constructor. apply format_fixed_no_lf.
  - apply Forall_map, Forall_true. intros db. apply row_db_ok. destruct (open db); by apply lit_not_in.
  - apply with_metadata_ok. intros md. apply to_string_no_lf.
  - apply with_metadata_ok. intros md. apply format_fixed_no_lf.
  - by repeat constructor; try apply to_string_no_lf; apply lit_not_in.
  - by repeat constructor; try apply to_string_no_lf; apply lit_not_in.
  - by repeat constructor; try apply to_string_no_lf; apply lit_not_in.
Qed.

(** ** The JSON body of /health *)

Definition db_value (db : MetricsDbInfo) : jval :=
  JObj ((#"open", JBool (open db)) ::
    match metadata db with
    | None => []
    | Some m =>
        [(#"database_type", JStr (database_type m)); (#"build_epoch", JNum (to_string (build_epoch m)));
         (#"build_date", JStr (build_time m)); (#"age_days", JNum (format_fixed 1 (age_days m)));
         (#"age_ms", JNum (to_string (age_ms m))); (#"age_ns", JNum (to_string (age_ns m)))]
    end).

Definition health_value (dbs : list MetricsDbInfo) (version lib : bytes) (uptime : double) : jval :=
  JObj [(#"status", JStr #"ok"); (#"version", JStr version); (#"libmaxminddb_version", JStr lib);
        (#"uptime_seconds", JNum (format_fixed 0 uptime));
        (#"databases", JObj (map (fun db => (name db, db_value db)) dbs))].

Lemma jstring_lit s : jstring s = #j"'" ++ json_escape s ++ #j"'".
Proof. done. Qed.

Lemma health_db_print db : health_db db = jstring (name db) ++ #":" ++ json_print (db_value db).
Proof.
  unfold health_db, db_value. rewrite jstring_lit, <- !app_assoc.
  destruct (metadata db) as [m|]; cbn [map commas json_print fst snd]; unfold jstring;
    destruct (open db); flatten_app; reflexivity.
Qed.

Lemma health_dbs_commas dbs :
  health_dbs 0 dbs = commas (map (fun db => jstring (name db) ++ #":" ++ json_print (db_value db)) dbs).
Proof. apply (commas_loop health_dbs); [done|]. intros i db l. cbn [health_dbs]. by rewrite health_db_print, <- !app_assoc. Qed.

Lemma render_health_print dbs version lib uptime :
  render_health_json dbs version lib uptime = json_print (health_value dbs version lib uptime).
Proof.
  unfold render_health_json, health_value. rewrite health_dbs_commas.
  cbn [map json_print commas fst snd]. rewrite map_map. cbn [fst snd]. 
  rewrite !jstring_lit. flatten_app. reflexivity.
Qed.

Definition db_info_finite (db : MetricsDbInfo) : bool :=
  match metadata db with Some m => is_finite (age_days m) | None => true end.

Lemma health_value_wf dbs version lib uptime :
  is_finite uptime = true -> forallb db_info_finite dbs = true -> jwf (health_value dbs version lib uptime) = true.
Proof.
  intros Hu Hd. unfold health_value. cbn [jwf forallb snd]. 
  assert (Hn := jwf_number _ (json_number_fixed 0 uptime Hu)). cbn [jwf] in Hn. rewrite Hn. cbn [andb].
  rewrite andb_true_r. apply forallb_forall. intros kv. rewrite in_map_iff. intros (db & <- & Hin). cbn [snd].
  rewrite forallb_forall in Hd. specialize (Hd _ Hin). unfold db_info_finite in Hd. unfold db_value.
  cbn [jwf forallb snd andb]. destruct (metadata db) as [m|]; [|done].
  assert (H1 := jwf_number _ (json_number_fixed 1 _ Hd)).
  assert (Hz := fun z => jwf_number _ (json_number_to_string z)). cbn [jwf] in H1, Hz.
  cbn [forallb snd jwf]. by rewrite !Hz, H1.
Qed.

(** ** Properties *)

(** C32. The counters count: after any events, recorded by any threads in any
    order, every counter is the number of its own events modulo 2^64, so each
    request and each response is counted in exactly one place; two
    interleavings of the same events leave the same metrics. *)
Theorem counters_count (es es' : list metric_event) (k : counter) :
  get_counter k (fold_left apply_event es Metrics_zero) = (count_events k es mod 2 ^ 64)%Z /\
  (es ≡ₚ es' -> fold_left apply_event es Metrics_zero = fold_left apply_event es' Metrics_zero).
Proof.
  assert (Hz : forall k es, get_counter k (fold_left apply_event es Metrics_zero) = (count_events k es mod 2 ^ 64)%Z).
  { intros k' es0. rewrite counter_after; destruct k'; cbn; (done || lia). }
  split; [apply Hz|]. intros Hp. apply metrics_ext. intros k'. by rewrite !Hz, (count_events_perm _ _ _ Hp).
Qed.

(** C21. The /metrics text is well-formed and says what it should: a parser of
    the Prometheus exposition format reads exactly the expected samples out
    of it, whatever the version strings, database names, counters and ages
    are; no label value can forge or break a line. *)
Theorem render_prometheus_reads_back (m : Metrics) (dbs : list MetricsDbInfo) (version lib : bytes) (uptime : double) :
  prom_read (render_prometheus_metrics m dbs version lib uptime) = Some (samples_of (exposition m dbs version lib uptime)).
Proof. rewrite render_exposition. apply prom_read_items, exposition_ok. Qed.

(** C35. The /health body is a JSON document whose value is the status of
    every database: the JSON reader gives back exactly that value, when the
    uptime and the database ages are finite numbers. *)
Theorem render_health_json_reads_back (dbs : list MetricsDbInfo) (version lib : bytes) (uptime : double)
    (Hu : is_finite uptime = true) (Hd : forallb db_info_finite dbs = true) :
  json_read (render_health_json dbs version lib uptime) = Some (health_value dbs version lib uptime).
Proof. rewrite render_health_print. by apply json_read_print, health_value_wf. Qed.

(** Witness of C35: one open database with metadata, one that is not open. *)
Example render_health_json_reads_back_witness :
  let dbs := [mkDbInfo #"country" true
                (Some (mkDbMetadata #"GeoLite2-Country" 1700000000 #"2023-11-14T22:13:20Z" (double_of_Z 3) 259200000 259200000000000));
              mkDbInfo #"asn" false None] in
  json_read (render_health_json dbs #"1.0" #"1.9.1" (double_of_Z 42)) =
  Some (health_value dbs #"1.0" #"1.9.1" (double_of_Z 42)).
Proof. apply render_health_json_reads_back; by vm_compute. Defined.
