(* ===== verification/ThreadPool.v ===== *)
(** * The worker pool (src/src/thread_pool.cpp, src/src/thread_pool.h)

    One thread, the accept loop's, submits connections and shuts the pool
    down; the workers wait on the condition variable, take a connection and
    run the handler.  A state is what the mutex protects, where each thread
    stands, and the history of the connections; a step is one critical section
    of the mutex, one notification, one join, or the end of one handler. *)

From S2P Require Import Prelude.

(** ** State *)

(** Where a worker stands: about to lock and test the predicate of the wait,
    asleep in [cv_.wait], in [handler_(fd)], or returned. *)
Inductive worker := Checking | Waiting | Handling (fd : Z) | Exited.

(** Where the submitting thread stands: between calls, in [submit] before its
    [notify_one], in [shutdown] before its [notify_all] or joining from worker
    [i] on, or with all workers joined and cleared. *)
Inductive caller := Idle | MustNotifyOne | MustNotifyAll | Joining (i : nat) | Joined.

#[export] Instance worker_eq_dec : EqDecision worker.
Proof. solve_decision. Defined.
#[export] Instance caller_eq_dec : EqDecision caller.
Proof. solve_decision. Defined.

Record pool := mkPool {
  queue_ : list Z;
  stop_ : bool;
  workers_ : list worker;
  thread : caller;
  (* history *)
  given : list Z;      (* passed to submit *)
  accepted : list Z;   (* pushed *)
  taken : list Z;      (* popped *)
  finished : list Z;   (* handled to the end *)
  closed : list Z;     (* closed by submit *)
}.

(** [ThreadPool(num_threads, handler)]. *)
Definition pool_init (num_threads : nat) : pool :=
  mkPool [] false (repeat Checking num_threads) Idle [] [] [] [] [].

Definition set_worker (i : nat) (w : worker) (p : pool) : pool :=
  mkPool (queue_ p) (stop_ p) (<[i := w]> (workers_ p)) (thread p)
    (given p) (accepted p) (taken p) (finished p) (closed p).
Definition set_thread (t : caller) (p : pool) : pool :=
  mkPool (queue_ p) (stop_ p) (workers_ p) t (given p) (accepted p) (taken p) (finished p) (closed p).

(** ** Operations *)

(** The critical section of [submit]. *)
Definition submit (fd : Z) (p : pool) : pool :=
  if stop_ p then
    mkPool (queue_ p) (stop_ p) (workers_ p) (thread p)
      (given p ++ [fd]) (accepted p) (taken p) (finished p) (closed p ++ [fd])
  else
    mkPool (queue_ p ++ [fd]) (stop_ p) (workers_ p) MustNotifyOne
      (given p ++ [fd]) (accepted p ++ [fd]) (taken p) (finished p) (closed p).

(** The critical section of [shutdown]. *)
Definition shutdown (p : pool) : pool :=
  if stop_ p then p
  else mkPool (queue_ p) true (workers_ p) MustNotifyAll
         (given p) (accepted p) (taken p) (finished p) (closed p).

(** What the critical section of [worker_loop] comes to, once the worker has
    the lock: the test of the wait, then the two tests after it. *)
Inductive section := SleepMore | Return | Continue | Take (fd : Z) (rest : list Z).

Definition worker_section (stop : bool) (queue : list Z) : section :=
  let empty := match queue with [] => true | _ => false end in
  if negb (stop || negb empty) then SleepMore
  else if stop && empty then Return
  else match queue with
       | [] => Continue
       | fd :: rest => Take fd rest
       end.

Definition worker_loop (i : nat) (p : pool) : pool :=
  match worker_section (stop_ p) (queue_ p) with
  | SleepMore => set_worker i Waiting p
  | Return => set_worker i Exited p
  | Continue => p
  | Take fd rest =>
      mkPool rest (stop_ p) (<[i := Handling fd]> (workers_ p)) (thread p)
        (given p) (accepted p) (taken p ++ [fd]) (finished p) (closed p)
  end.

Definition wake (w : worker) : worker := match w with Waiting => Checking | _ => w end.

(** ** Steps *)

Inductive action :=
| Submit (fd : Z)
| NotifyOne (i : option nat)   (* the worker woken, if any sleeps *)
| Shutdown
| NotifyAll
| Join
| Work (i : nat)
| Finish (i : nat)
| Spurious (i : nat).          (* a wake-up without a notification *)

Definition pool_step (p : pool) (a : action) : option pool :=
  match a with
  | Submit fd =>
      match thread p with Idle | Joined => Some (submit fd p) | _ => None end
  | NotifyOne i =>
      match thread p, i with
      | MustNotifyOne, Some i =>
          if bool_decide (workers_ p !! i = Some Waiting) then Some (set_thread Idle (set_worker i Checking p)) else None
      | MustNotifyOne, None =>
          if bool_decide (Waiting ∈ workers_ p) then None else Some (set_thread Idle p)
      | _, _ => None
      end
  | Shutdown =>
      match thread p with Idle | Joined => Some (shutdown p) | _ => None end
  | NotifyAll =>
      match thread p with
      | MustNotifyAll =>
          Some (mkPool (queue_ p) (stop_ p) (map wake (workers_ p)) (Joining 0)
                  (given p) (accepted p) (taken p) (finished p) (closed p))
      | _ => None
      end
  | Join =>
      match thread p with
      | Joining i =>
          match workers_ p !! i with
          | Some Exited => Some (set_thread (Joining (S i)) p)
          | Some _ => None
          | None => Some (set_thread Joined p)
          end
      | _ => None
      end
  | Work i => if bool_decide (workers_ p !! i = Some Checking) then Some (worker_loop i p) else None
  | Finish i =>
      match workers_ p !! i with
      | Some (Handling fd) =>
          Some (mkPool (queue_ p) (stop_ p) (<[i := Checking]> (workers_ p)) (thread p)
                  (given p) (accepted p) (taken p) (finished p ++ [fd]) (closed p))
      | _ => None
      end
  | Spurious i => if bool_decide (workers_ p !! i = Some Waiting) then Some (set_worker i Checking p) else None
  end.

Fixpoint pool_run (acts : list action) (p : pool) : option pool :=
  match acts with
  | [] => Some p
  | a :: acts' => p' ← pool_step p a; pool_run acts' p'
  end.

(** ** The invariant *)

(** The connections being handled. *)
Definition in_flight (ws : list worker) : list Z :=
  flat_map (fun w => match w with Handling fd => [fd] | _ => [] end) ws.

Record pool_inv (n : nat) (p : pool) : Prop := {
  inv_workers : length (workers_ p) = n;
  inv_given : given p ≡ₚ accepted p ++ closed p;
  inv_fifo : accepted p = taken p ++ queue_ p;
  inv_taken : taken p ≡ₚ finished p ++ in_flight (workers_ p);
  inv_exited : Exited ∈ workers_ p -> stop_ p = true /\ queue_ p = [];
  inv_awake : queue_ p <> [] -> stop_ p = false -> thread p <> MustNotifyOne ->
    Exists (fun w => w <> Waiting) (workers_ p);
  inv_stopping : stop_ p = true -> thread p <> MustNotifyAll -> Waiting ∉ workers_ p;
  inv_thread : match thread p with
    | Idle | MustNotifyOne => stop_ p = false
    | MustNotifyAll => stop_ p = true
    | Joining i => stop_ p = true /\ Forall (fun w => w = Exited) (take i (workers_ p)) /\ i <= n
    | Joined => stop_ p = true /\ Forall (fun w => w = Exited) (workers_ p)
    end;
}.

(** *** Replacing one worker *)

Definition flight (w : worker) : list Z := match w with Handling fd => [fd] | _ => [] end.

Lemma in_flight_insert (ws : list worker) (i : nat) w w' : ws !! i = Some w ->
  exists rest, in_flight ws ≡ₚ flight w ++ rest /\ in_flight (<[i := w']> ws) ≡ₚ flight w' ++ rest.
Proof. apply (flat_map_insert flight). Qed.

Lemma elem_of_insert_worker (x w : worker) (i : nat) (ws : list worker) : x ∈ <[i := w]> ws -> x = w \/ x ∈ ws.
Proof.
  intros (j & Hj)%list_elem_of_lookup. apply list_lookup_insert_Some in Hj as [(-> & -> & _)|[_ Hj]]; [by left|].
  right. by apply list_elem_of_lookup_2 in Hj.
Qed.

Lemma Exists_insert_worker (P : worker -> Prop) (i : nat) w (ws : list worker) : i < length ws -> P w -> Exists P (<[i := w]> ws).
Proof.
  intros Hi Hw. rewrite insert_take_drop by done. apply Exists_app. right. by apply Exists_cons_hd.
Qed.

Lemma Forall_exited_insert (k i : nat) (w : worker) (ws : list worker) :
  Forall (fun w => w = Exited) (take k ws) -> ws !! i <> Some Exited -> i < length ws ->
  Forall (fun w => w = Exited) (take k (<[i := w]> ws)).
Proof.
  intros Hf Hi Hlt. destruct (decide (k <= i)); [by rewrite take_insert_ge|].
  destruct (lookup_lt_is_Some_2 ws i Hlt) as [x Hx].
  exfalso. apply Hi. rewrite Hx. f_equal. rewrite Forall_lookup in Hf. apply (Hf i). rewrite lookup_take_lt by lia. done.
Qed.

(** *** Every step preserves it *)

Lemma pool_init_inv n : 0 < n -> pool_inv n (pool_init n).
Proof.
  intros Hn. assert (Hall : forall w, w ∈ repeat Checking n -> w = Checking).
  { intros w Hw. apply list_elem_of_In, repeat_spec in Hw. done. }
  split; cbn; try done.
  - apply repeat_length.
  - induction n as [|[|n] IH]; [lia|done|]. cbn in *. apply IH; [lia|]. intros w Hw. apply Hall. by constructor.
  - intros H%Hall. done.
Qed.

Lemma submit_inv n fd p : pool_inv n p -> thread p = Idle \/ thread p = Joined -> pool_inv n (submit fd p).
Proof.
  intros [Hw Hg Hf Ht He Ha Hs Hth] Hidle. unfold submit. destruct (stop_ p) eqn:Est; split; cbn; auto.
  - rewrite Hg, <- app_assoc. done.
  - rewrite Hg, <- !app_assoc. f_equiv. apply Permutation_app_comm.
  - by rewrite Hf, <- app_assoc.
  - intros Hx. apply He in Hx as [? _]. done.
Qed.

Lemma shutdown_inv n p : pool_inv n p -> thread p = Idle \/ thread p = Joined -> pool_inv n (shutdown p).
Proof.
  intros I Hidle. unfold shutdown. destruct (stop_ p) eqn:Est; [done|].
  destruct I as [Hw Hg Hf Ht He Ha Hs Hth]. split; cbn; try done.
  intros Hx. apply He in Hx as [? _]. congruence.
Qed.

Lemma notify_all_inv n p : pool_inv n p -> thread p = MustNotifyAll ->
  pool_inv n (mkPool (queue_ p) (stop_ p) (map wake (workers_ p)) (Joining 0)
    (given p) (accepted p) (taken p) (finished p) (closed p)).
Proof.
  intros [Hw Hg Hf Ht He Ha Hs Hth] Hn. rewrite Hn in Hth. split; cbn; try done.
  - by rewrite length_map.
  - rewrite Ht. f_equiv. clear. induction (workers_ p) as [|w ws IH]; [done|]. cbn. rewrite <- IH. by destruct w.
  - intros (w & Hx & Hin)%list_elem_of_fmap. apply He. by destruct w.
  - congruence.
  - intros _ _ (w & Hx & Hin)%list_elem_of_fmap. by destruct w.
  - split; [done|]. split; [constructor|lia].
Qed.

Lemma join_inv n p p' : pool_inv n p -> pool_step p Join = Some p' -> pool_inv n p'.
Proof.
  intros I. cbn. destruct (thread p) as [| | |i|] eqn:Eth; try done.
  destruct I as [Hw Hg Hf Ht He Ha Hs Hth]. rewrite Eth in *. destruct Hth as (Hst & Hall & Hi).
  assert (Hnw : Waiting ∉ workers_ p) by (by apply Hs).
  destruct (workers_ p !! i) as [[]|] eqn:E; try done; intros [= <-]; split; cbn; try done; try congruence.
  - split; [done|]. split; [|apply lookup_lt_Some in E; lia].
    rewrite (take_S_r _ _ _ E). apply Forall_app. split; [done|]. by repeat constructor.
  - split; [done|]. apply lookup_ge_None in E. by rewrite take_ge in Hall.
Qed.

Lemma notify_one_inv n i p p' : pool_inv n p -> 0 < n -> pool_step p (NotifyOne i) = Some p' -> pool_inv n p'.
Proof.
  intros [Hw Hg Hf Ht He Ha Hs Hth] Hn. cbn. destruct (thread p) eqn:Eth; try done.
  destruct i as [i|].
  - case_bool_decide as Ei; [|done]. intros [= <-]. pose proof (lookup_lt_Some _ _ _ Ei).
    split; cbn; try done.
    + by rewrite length_insert.
    + destruct (in_flight_insert _ _ _ Checking Ei) as (rest & H1 & H2). by rewrite Ht, H1, H2.
    + intros [?|?]%elem_of_insert_worker; [done|auto].
    + intros _ _ _. by apply Exists_insert_worker.
    + congruence.
  - case_bool_decide as Ei; [done|]. intros [= <-]. split; cbn; try done; try congruence.
    intros _ _ _. destruct (workers_ p) as [|w ws] eqn:E; [cbn in Hw; lia|].
    apply Exists_cons_hd. intros ->. apply Ei. by constructor.
Qed.

Lemma worker_section_spec stop queue :
  worker_section stop queue =
  match queue with
  | fd :: rest => Take fd rest
  | [] => if stop then Return else SleepMore
  end.
Proof. by destruct stop, queue. Qed.

(** The thread clause and the exit clause survive a change of one live worker. *)
Lemma inv_thread_insert n p i w q' tk fin :
  pool_inv n p -> workers_ p !! i <> Some Exited -> i < length (workers_ p) ->
  let p' := mkPool q' (stop_ p) (<[i := w]> (workers_ p)) (thread p) (given p) (accepted p) tk fin (closed p) in
  match thread p' with
  | Idle | MustNotifyOne => stop_ p' = false
  | MustNotifyAll => stop_ p' = true
  | Joining j => stop_ p' = true /\ Forall (fun w => w = Exited) (take j (workers_ p')) /\ j <= n
  | Joined => stop_ p' = true /\ Forall (fun w => w = Exited) (workers_ p')
  end.
Proof.
  intros I Hi Hlt. pose proof (inv_thread _ _ I) as Hth. cbn. destruct (thread p) as [| | |j|]; try done.
  - destruct Hth as (? & Hall & ?). split; [done|]. split; [|done]. by apply Forall_exited_insert.
  - destruct Hth as (? & Hall). split; [done|].
    exfalso. apply Hi. destruct (lookup_lt_is_Some_2 _ _ Hlt) as [x Hx]. rewrite Hx. f_equal.
    rewrite Forall_lookup in Hall. by apply (Hall i).
Qed.

Lemma work_inv n i p : pool_inv n p -> workers_ p !! i = Some Checking -> pool_inv n (worker_loop i p).
Proof.
  intros I Hi. pose proof (lookup_lt_Some _ _ _ Hi) as Hlt.
  pose proof (fun w q tk fin => inv_thread_insert n p i w q tk fin I ltac:(congruence) Hlt) as Hth.
  destruct I as [Hw Hg Hf Ht He Ha Hs _]. unfold worker_loop. rewrite worker_section_spec.
  destruct (queue_ p) as [|fd rest] eqn:Eq; [destruct (stop_ p) eqn:Est|].
  - destruct (in_flight_insert _ _ _ Exited Hi) as (r & H1 & H2).
    split; cbn; rewrite ?length_insert, ?Eq, ?Est; try done;
      [by rewrite Ht, H1, H2| |apply (Hth Exited [] (taken p) (finished p))].
    intros _ Hn. intros [?|?]%elem_of_insert_worker; [done|]. by apply Hs.
  - destruct (in_flight_insert _ _ _ Waiting Hi) as (r & H1 & H2).
    split; cbn; rewrite ?length_insert, ?Eq, ?Est; try done;
      [by rewrite Ht, H1, H2| |apply (Hth Waiting [] (taken p) (finished p))].
    intros [?|Hx]%elem_of_insert_worker; [done|]. apply He in Hx as [? _]. congruence.
  - destruct (in_flight_insert _ _ _ (Handling fd) Hi) as (r & H1 & H2).
    split; cbn; rewrite ?length_insert; try done.
    + by rewrite Hf, <- app_assoc.
    + rewrite Ht, H1, H2, <- app_assoc. f_equiv. apply Permutation_app_comm.
    + intros [?|Hx]%elem_of_insert_worker; [done|]. by apply He in Hx as [_ ?].
    + intros _ _ _. by apply Exists_insert_worker.
    + intros ? ?. intros [?|?]%elem_of_insert_worker; [done|]. by apply Hs.
    + apply (Hth (Handling fd) rest (taken p ++ [fd]) (finished p)).
Qed.

Lemma finish_inv n i p p' : pool_inv n p -> pool_step p (Finish i) = Some p' -> pool_inv n p'.
Proof.
  intros I. cbn. destruct (workers_ p !! i) as [[| |fd|]|] eqn:Hi; try done. intros [= <-].
  pose proof (lookup_lt_Some _ _ _ Hi) as Hlt.
  pose proof (fun w q tk fin => inv_thread_insert n p i w q tk fin I ltac:(congruence) Hlt) as Hth.
  destruct I as [Hw Hg Hf Ht He Ha Hs _].
  destruct (in_flight_insert _ _ _ Checking Hi) as (r & H1 & H2).
  split; cbn; rewrite ?length_insert; try done.
  - rewrite Ht, H1, H2, <- app_assoc. done.
  - intros [?|Hx]%elem_of_insert_worker; [done|]. by apply He.
  - intros _ _ _. by apply Exists_insert_worker.
  - intros ? ?. intros [?|?]%elem_of_insert_worker; [done|]. by apply Hs.
  - apply (Hth Checking (queue_ p) (taken p) (finished p ++ [fd])).
Qed.

Lemma spurious_inv n i p : pool_inv n p -> workers_ p !! i = Some Waiting -> pool_inv n (set_worker i Checking p).
Proof.
  intros I Hi. pose proof (lookup_lt_Some _ _ _ Hi) as Hlt.
  pose proof (fun w q tk fin => inv_thread_insert n p i w q tk fin I ltac:(congruence) Hlt) as Hth.
  destruct I as [Hw Hg Hf Ht He Ha Hs _].
  destruct (in_flight_insert _ _ _ Checking Hi) as (r & H1 & H2).
  split; cbn; rewrite ?length_insert; try done.
  - by rewrite Ht, H1, H2.
  - intros [?|Hx]%elem_of_insert_worker; [done|]. by apply He.
  - intros _ _ _. by apply Exists_insert_worker.
  - intros ? ?. intros [?|?]%elem_of_insert_worker; [done|]. by apply Hs.
  - apply (Hth Checking (queue_ p) (taken p) (finished p)).
Qed.

Lemma pool_step_inv n a p p' : 0 < n -> pool_inv n p -> pool_step p a = Some p' -> pool_inv n p'.
Proof.
  intros Hn I Hs. destruct a as [fd|i| | | |i|i|i].
  - cbn in Hs. destruct (thread p) eqn:E; try done; injection Hs as <-; apply submit_inv; auto.
  - by eapply notify_one_inv.
  - cbn in Hs. destruct (thread p) eqn:E; try done; injection Hs as <-; apply shutdown_inv; auto.
  - cbn in Hs. destruct (thread p) eqn:E; try done. injection Hs as <-. by apply notify_all_inv.
  - by eapply join_inv.
  - cbn in Hs. case_bool_decide; [|done]. injection Hs as <-. by apply work_inv.
  - by eapply finish_inv.
  - cbn in Hs. case_bool_decide; [|done]. injection Hs as <-. by apply spurious_inv.
Qed.

Lemma pool_run_inv n acts p p' : 0 < n -> pool_inv n p -> pool_run acts p = Some p' -> pool_inv n p'.
Proof.
  intros Hn. revert p. induction acts as [|a acts IH]; intros p I; cbn; [by intros [= <-]|].
  destruct (pool_step p a) as [p1|] eqn:E; [|done]. cbn. intros Hr. eapply IH; [|done]. by eapply pool_step_inv.
Qed.

(** ** Progress *)

(** The steps the pool takes by itself, the handlers returning. *)
Definition internal (a : action) : bool :=
  match a with NotifyOne _ | NotifyAll | Join | Work _ | Finish _ => true | _ => false end.

(** Nothing left to do: all workers asleep on an empty queue, or all joined. *)
Definition quiescent (p : pool) : Prop :=
  queue_ p = [] /\ in_flight (workers_ p) = [] /\
  ((thread p = Idle /\ stop_ p = false /\ Forall (fun w => w = Waiting) (workers_ p)) \/
   (thread p = Joined /\ stop_ p = true /\ Forall (fun w => w = Exited) (workers_ p))).

Lemma in_flight_nil ws : Forall (fun w => match w with Handling _ => False | _ => True end) ws -> in_flight ws = [].
Proof. induction 1 as [|w ws Hw _ IH]; [done|].
  change (in_flight (w :: ws)) with (flight w ++ in_flight ws). rewrite IH. by destruct w.
Qed.

Lemma busy_worker_steps p : Exists (fun w => w <> Waiting /\ w <> Exited) (workers_ p) ->
  exists a p', internal a = true /\ pool_step p a = Some p'.
Proof.
  intros (w & (i & Hi)%list_elem_of_lookup & Hw1 & Hw2)%Exists_exists. destruct w as [| |fd|]; try done.
  - exists (Work i), (worker_loop i p). split; [done|]. cbn. by rewrite bool_decide_eq_true_2.
  - exists (Finish i). eexists. split; [done|]. cbn. by rewrite Hi.
Qed.

Lemma exited_quiescent n p : 0 < n -> pool_inv n p -> Forall (fun w => w = Exited) (workers_ p) -> queue_ p = [].
Proof.
  intros Hn I Hall. apply (inv_exited _ _ I). pose proof (inv_workers _ _ I) as Hw.
  destruct (workers_ p) as [|w ws]; [cbn in Hw; lia|]. apply Forall_inv in Hall as ->. by constructor.
Qed.

Lemma progress n p : 0 < n -> pool_inv n p ->
  quiescent p \/ exists a p', internal a = true /\ pool_step p a = Some p'.
Proof.
  intros Hn I. destruct (decide (Exists (fun w => w <> Waiting /\ w <> Exited) (workers_ p))) as [Hb|Hb].
  { right. by apply busy_worker_steps. }
  assert (Hcalm : Forall (fun w => w = Waiting \/ w = Exited) (workers_ p)).
  { apply not_Exists_Forall in Hb; [|solve_decision]. apply (Forall_impl _ _ _ Hb).
    intros w Hw. cbn in Hw. destruct (decide (w = Waiting)), (decide (w = Exited)); naive_solver. }
  assert (Hflight : in_flight (workers_ p) = []).
  { apply in_flight_nil. apply (Forall_impl _ _ _ Hcalm). by intros w [ ->| ->]. }
  pose proof (inv_thread _ _ I) as Hth. destruct (thread p) as [| | |i|] eqn:Et.
  - left. assert (Hwait : Forall (fun w => w = Waiting) (workers_ p)).
    { apply Forall_forall. intros w Hin. rewrite Forall_forall in Hcalm. destruct (Hcalm _ Hin) as [| ->]; [done|].
      apply (inv_exited _ _ I) in Hin as [? _]. congruence. }
    split; [|split; [done|auto]].
    destruct (queue_ p) as [|fd q] eqn:Eq; [done|]. exfalso.
    pose proof (inv_awake _ _ I) as Ha. rewrite Eq, Et in Ha. specialize (Ha ltac:(done) Hth ltac:(done)).
    apply Exists_exists in Ha as (w & Hin & Hw). rewrite Forall_forall in Hwait. by apply Hw, Hwait.
  - right. destruct (decide (Waiting ∈ workers_ p)) as [Hin|Hin].
    + apply list_elem_of_lookup in Hin as [i Hi]. exists (NotifyOne (Some i)). eexists. split; [done|].
      cbn. rewrite Et, bool_decide_eq_true_2 by done. done.
    + exists (NotifyOne None). eexists. split; [done|]. cbn. rewrite Et, bool_decide_eq_false_2 by done. done.
  - right. exists NotifyAll. eexists. split; [done|]. cbn. by rewrite Et.
  - right. exists Join. destruct Hth as (Hst & _ & _). cbn. rewrite Et.
    destruct (workers_ p !! i) as [w|] eqn:Ei; [|by eexists].
    rewrite Forall_lookup in Hcalm. destruct (Hcalm _ _ Ei) as [ ->| ->]; [|by eexists].
    exfalso. apply (inv_stopping _ _ I); [done|by rewrite Et|by apply list_elem_of_lookup_2 in Ei].
  - left. destruct Hth as (Hst & Hall). split; [by eapply exited_quiescent|]. split; [done|auto].
Qed.

(** ** Termination *)

Definition worker_weight (w : worker) : nat := match w with Checking => 1 | Handling _ => 2 | _ => 0 end.
Definition caller_weight (n : nat) (t : caller) : nat :=
  match t with
  | Idle | Joined => 0
  | MustNotifyOne => 2
  | MustNotifyAll => n + n + 2
  | Joining i => S n - i
  end.
Definition weights (ws : list worker) : nat := list_sum (map worker_weight ws).
Definition measure (n : nat) (p : pool) : nat :=
  2 * length (queue_ p) + weights (workers_ p) + caller_weight n (thread p).

Lemma weights_insert (ws : list worker) (i : nat) w w' : ws !! i = Some w ->
  weights (<[i := w']> ws) + worker_weight w = weights ws + worker_weight w'.
Proof.
  intros Hi. rewrite <- (take_drop_middle _ _ _ Hi) at 2.
  rewrite insert_take_drop by (by apply lookup_lt_Some in Hi).
  unfold weights. rewrite !map_app, !list_sum_app. cbn. lia.
Qed.

Lemma weights_wake ws : weights (map wake ws) <= weights ws + length ws.
Proof.
  induction ws as [|w ws IH]; [done|]. cbn [map length].
  change (weights (?x :: ?l)) with (worker_weight x + weights l). destruct w; cbn [wake worker_weight]; lia.
Qed.

Lemma internal_step_decreases n a p p' :
  pool_inv n p -> internal a = true -> pool_step p a = Some p' -> measure n p' < measure n p.
Proof.
  intros I Ha. unfold measure. destruct a as [|i| | | |i|i|]; try done; clear Ha; cbn [pool_step].
  - destruct (thread p); try done. destruct i as [i|]; case_bool_decide as Hi; try done; intros [= <-];
      cbn [set_thread set_worker queue_ workers_ thread caller_weight].
    + pose proof (weights_insert _ _ _ Checking Hi) as Hw. cbn [worker_weight] in Hw. lia.
    + lia.
  - destruct (thread p); try done. intros [= <-]. cbn [queue_ workers_ thread caller_weight].
    pose proof (weights_wake (workers_ p)). pose proof (inv_workers _ _ I). lia.
  - pose proof (inv_thread _ _ I) as Hth. destruct (thread p) as [| | |i|]; try done.
    destruct Hth as (_ & _ & Hi). pose proof (inv_workers _ _ I) as Hl.
    destruct (workers_ p !! i) as [[]|] eqn:E; try done; intros [= <-]; cbn [set_thread queue_ workers_ thread caller_weight].
    + apply lookup_lt_Some in E. lia.
    + apply lookup_ge_None in E. lia.
  - case_bool_decide as Hi; [|done]. intros [= <-]. unfold worker_loop. rewrite worker_section_spec.
    pose proof (fun w => weights_insert _ _ _ w Hi) as Hw. destruct (queue_ p) as [|fd rest] eqn:Eq.
    + pose proof (Hw Exited). pose proof (Hw Waiting). cbn [worker_weight] in *.
      destruct (stop_ p); cbn [set_worker queue_ workers_ thread]; rewrite ?Eq; cbn [length]; lia.
    + pose proof (Hw (Handling fd)). cbn [queue_ workers_ thread length worker_weight] in *. lia.
  - destruct (workers_ p !! i) as [[| |fd|]|] eqn:Hi; try done. intros [= <-].
    pose proof (weights_insert _ _ _ Checking Hi) as Hw. cbn [queue_ workers_ thread worker_weight] in *. lia.
Qed.

Lemma internal_run_bounded n acts p p' : 0 < n ->
  pool_inv n p -> forallb internal acts = true -> pool_run acts p = Some p' ->
  length acts + measure n p' <= measure n p.
Proof.
  intros Hn. revert p. induction acts as [|a acts IH]; intros p I Hacts; cbn [pool_run]; [by intros [= <-]|].
  cbn in Hacts. apply andb_true_iff in Hacts as [Ha Hacts].
  destruct (pool_step p a) as [p1|] eqn:E; [|done]. cbn [mbind option_bind]. intros Hr.
  assert (I1 : pool_inv n p1) by (by eapply pool_step_inv).
  pose proof (IH p1 I1 Hacts Hr). pose proof (internal_step_decreases _ _ _ _ I Ha E). cbn [length]. lia.
Qed.

Lemma reaches_quiescence n p : 0 < n -> pool_inv n p ->
  exists acts p', forallb internal acts = true /\ pool_run acts p = Some p' /\ quiescent p'.
Proof.
  intros Hn. remember (measure n p) as m eqn:Hm. revert p Hm. induction m as [m IH] using lt_wf_ind. intros p Hm I.
  destruct (progress n p Hn I) as [Hq|(a & p1 & Ha & E)]; [by exists [], p|].
  destruct (IH (measure n p1)) with (p := p1) as (acts & p2 & Hacts & Hr & Hq); [|done|by eapply pool_step_inv|].
  { rewrite Hm. by eapply internal_step_decreases. }
  exists (a :: acts), p2. cbn. rewrite Ha, E. done.
Qed.

Lemma all_handled n p : pool_inv n p -> queue_ p = [] -> in_flight (workers_ p) = [] -> finished p ≡ₚ accepted p.
Proof.
  intros I Hq Hf. rewrite (inv_fifo _ _ I), Hq, app_nil_r, (inv_taken _ _ I), Hf, app_nil_r. done.
Qed.

(** Once all workers are joined, what was accepted is handled. *)
Lemma joined_drained n acts p : 0 < n -> pool_run acts (pool_init n) = Some p -> thread p = Joined ->
  queue_ p = [] /\ Forall (fun w => w = Exited) (workers_ p) /\ finished p ≡ₚ accepted p.
Proof.
  intros Hn H Hj. assert (I := pool_run_inv _ _ _ _ Hn (pool_init_inv _ Hn) H).
  pose proof (inv_thread _ _ I) as Hth. rewrite Hj in Hth. destruct Hth as [_ Hall].
  assert (Hq := exited_quiescent _ _ Hn I Hall). split; [done|]. split; [done|].
  apply (all_handled _ _ I Hq), in_flight_nil. apply (Forall_impl _ _ _ Hall). by intros w ->.
Qed.

(** What the owner of the pool calls. *)
Definition client (a : action) : bool := match a with Submit _ | Shutdown => true | _ => false end.

Lemma other_steps_history a p p' : client a = false -> pool_step p a = Some p' ->
  accepted p' = accepted p /\ closed p' = closed p /\ stop_ p' = stop_ p.
Proof.
  destruct a as [fd|i| | | |i|i|i]; cbn; intros Hc; try done.
  - destruct (thread p); try done. destruct i as [i|]; case_match; try done; by intros [= <-].
  - destruct (thread p); try done. by intros [= <-].
  - destruct (thread p); try done. destruct (workers_ p !! i) as [[]|]; try done; by intros [= <-].
  - case_bool_decide; [|done]. intros [= <-]. unfold worker_loop. by destruct (worker_section _ _).
  - destruct (workers_ p !! i) as [[]|]; try done. by intros [= <-].
  - case_bool_decide; [|done]. by intros [= <-].
Qed.

Lemma no_client_history acts p p' : List.filter client acts = [] -> pool_run acts p = Some p' ->
  accepted p' = accepted p /\ closed p' = closed p.
Proof.
  revert p. induction acts as [|a acts IH]; intros p; cbn; [by intros _ [= <-]|].
  destruct (client a) eqn:Ec; [done|]. destruct (pool_step p a) as [p1|] eqn:E; [|done]. cbn. intros Hc Hr.
  destruct (other_steps_history _ _ _ Ec E) as (<- & <- & _). by apply IH.
Qed.

(** Submitting first and shutting down after turns nothing away. *)
Lemma submitted_accepted acts fds p p' :
  stop_ p = false -> List.filter client acts = map Submit fds ++ [Shutdown] -> pool_run acts p = Some p' ->
  accepted p' = accepted p ++ fds /\ closed p' = closed p.
Proof.
  revert fds p. induction acts as [|a acts IH]; intros fds p Hs; cbn; [by destruct fds|].
  destruct (pool_step p a) as [p1|] eqn:E; cbn; [|done]. destruct (client a) eqn:Ec.
  - destruct fds as [|fd fds]; cbn; intros [= -> Hc] Hr; cbn in E; destruct (thread p); try done; injection E as <-.
    1,2: destruct (no_client_history _ _ _ Hc Hr) as [-> ->]; unfold shutdown; rewrite Hs; by rewrite app_nil_r.
    all: unfold submit in Hr; rewrite Hs in Hr; apply (IH fds) in Hr as [-> ->]; [|done..]; cbn; by rewrite <- app_assoc.
  - intros Hc Hr. destruct (other_steps_history _ _ _ Ec E) as (<- & <- & Hs'). apply IH; [by rewrite Hs'|done..].
Qed.

(** ** Properties *)

(** C6. Every connection handed to the pool is accounted for exactly once at
    every moment: it is handled to the end, being handled, queued, or was
    closed because the pool is stopped; and the queue is first-in first-out:
    what workers took is a prefix of what was accepted, in order. *)
Theorem connections_conserved (num_threads : nat) (acts : list action) (p : pool)
    (Hn : 0 < num_threads) (H : pool_run acts (pool_init num_threads) = Some p) :
  given p ≡ₚ finished p ++ in_flight (workers_ p) ++ queue_ p ++ closed p /\
  accepted p = taken p ++ queue_ p.
Proof.
  assert (I := pool_run_inv _ _ _ _ Hn (pool_init_inv _ Hn) H). split; [|apply (inv_fifo _ _ I)].
  rewrite (inv_given _ _ I), (inv_fifo _ _ I), (inv_taken _ _ I). by rewrite <- !app_assoc.
Qed.

(** Witness of C6: one worker, one connection handled, one queued. *)
Example connections_conserved_witness :
  match pool_run [Submit 7; NotifyOne None; Work 0; Submit 8; NotifyOne None; Finish 0] (pool_init 1) with
  | Some p => given p ≡ₚ finished p ++ in_flight (workers_ p) ++ queue_ p ++ closed p /\ accepted p = taken p ++ queue_ p
  | None => False
  end.
Proof.
  destruct (pool_run _ _) as [p|] eqn:E; [|by vm_compute in E].
  by apply (connections_conserved 1 _ p (le_n 1) E).
Defined.

(** [shutdown] returns only when the work is done: once all workers are
    joined, the queue is empty, no handler runs, and every connection that was
    accepted was handled to the end. *)
Theorem join_only_when_drained (num_threads : nat) (acts : list action) (p : pool)
    (Hn : 0 < num_threads) (H : pool_run acts (pool_init num_threads) = Some p) (Hj : thread p = Joined) :
  queue_ p = [] /\ Forall (fun w => w = Exited) (workers_ p) /\ finished p ≡ₚ accepted p.
Proof. by apply (joined_drained num_threads acts). Qed.

(** An instance: a pool of two workers stopped with one connection queued. *)
Example join_only_when_drained_witness :
  match pool_run [Submit 7; NotifyOne None; Shutdown; NotifyAll; Work 1; Finish 1; Work 0; Work 1; Join; Join; Join]
          (pool_init 2) with
  | Some p => queue_ p = [] /\ Forall (fun w => w = Exited) (workers_ p) /\ finished p ≡ₚ accepted p
  | None => False
  end.
Proof.
  destruct (pool_run _ _) as [p|] eqn:E; [|by vm_compute in E].
  apply (join_only_when_drained 2 _ p (le_S _ _ (le_n 1)) E).
  vm_compute in E. by injection E as <-.
Defined.

(** No deadlock and no lost wake-up: in every reachable state either the
    pool is quiescent (all workers asleep on an empty queue with nothing in
    flight, or all joined), or some notification, join or worker can step;
    in particular all workers are never asleep while a connection is queued
    and its notification was given. *)
Theorem pool_progress (num_threads : nat) (acts : list action) (p : pool)
    (Hn : 0 < num_threads) (H : pool_run acts (pool_init num_threads) = Some p) :
  quiescent p \/ exists a p', internal a = true /\ pool_step p a = Some p'.
Proof. apply (progress num_threads); [done|]. by eapply pool_run_inv, H; [|apply pool_init_inv]. Qed.

(** An instance: a submitted connection whose notification is outstanding. *)
Example pool_progress_witness :
  match pool_run [Work 0; Submit 7] (pool_init 1) with
  | Some p => quiescent p \/ exists a p', internal a = true /\ pool_step p a = Some p'
  | None => False
  end.
Proof.
  destruct (pool_run _ _) as [p|] eqn:E; [|by vm_compute in E].
  exact (pool_progress 1 _ p (le_n 1) E).
Defined.

(** C14. The pool drains: from every reachable state the pool's own steps end,
    within a number of steps the queue and the threads bound, and they can
    only end quiescent; so after [shutdown] began, all workers are joined,
    and all that was accepted is handled, after finitely many steps. *)
Theorem pool_drains (num_threads : nat) (acts : list action) (p : pool)
    (Hn : 0 < num_threads) (H : pool_run acts (pool_init num_threads) = Some p) :
  (forall more p', forallb internal more = true -> pool_run more p = Some p' ->
     length more + measure num_threads p' <= measure num_threads p) /\
  (exists more p', forallb internal more = true /\ pool_run more p = Some p' /\ quiescent p' /\
     finished p' ≡ₚ accepted p').
Proof.
  assert (I := pool_run_inv _ _ _ _ Hn (pool_init_inv _ Hn) H). split.
  - intros more p' Hm Hr. by eapply internal_run_bounded.
  - destruct (reaches_quiescence _ _ Hn I) as (more & p' & Hm & Hr & Hq). exists more, p'.
    split; [done|]. split; [done|]. split; [done|]. destruct Hq as (Hq & Hf & _).
    by apply (all_handled num_threads); [eapply pool_run_inv|..].
Qed.

(** Witness of C14: three connections queued on two workers. *)
Example pool_drains_witness :
  match pool_run [Submit 1; NotifyOne None; Submit 2; NotifyOne None; Submit 3; NotifyOne None; Shutdown] (pool_init 2) with
  | Some p =>
      (forall more p', forallb internal more = true -> pool_run more p = Some p' ->
         length more + measure 2 p' <= measure 2 p) /\
      (exists more p', forallb internal more = true /\ pool_run more p = Some p' /\ quiescent p' /\
         finished p' ≡ₚ accepted p')
  | None => False
  end.
Proof.
  destruct (pool_run _ _) as [p|] eqn:E; [|by vm_compute in E].
  exact (pool_drains 2 _ p (le_S _ _ (le_n 1)) E).
Defined.
