(* ===== verification/Response.v ===== *)
(** * The bodies and headers of a lookup response (src/src/server.cpp)

    [mode_octal], [describe_db], [format_double], [build_json_body],
    [build_ini_body] and [build_success_response]. *)

From S2P Require Import Prelude CLib TextUtil Double Http GeoIp.
From Stdlib Require Import Ascii.

(** [snprintf("%04o", mode & 07777)]: four octal digits. *)
Definition mode_octal (mode : Z) : bytes :=
  let m := Z.land mode 4095 in
  map (fun d => digit (Z.to_N d)) [m / 512; m / 64 mod 8; m / 8 mod 8; m mod 8]%Z.

Definition describe_db (path : bytes) (meta : option GeoIpDbMetadata) : bytes :=
  match meta with
  | None => path
  | Some m =>
      path ++ #" (" ++ database_type m ++ #", built " ++ build_time m ++ #", " ++
      format_fixed 1 (age_days m) ++ #" days old)"
  end.

Definition format_double (v : double) : bytes := format_general 9 v.

(** A text member: the escaped text in quotes, or null. *)
Definition json_opt (x : option bytes) : bytes :=
  match x with Some s => #j"'" ++ json_escape s ++ #j"'" | None => #"null" end.
Definition num_opt (x : option bytes) : bytes := match x with Some s => s | None => #"null" end.

Definition build_json_body (ip_text : bytes) (result : GeoIpResult) : bytes :=
  #"{" ++
  #j"'ip':'" ++ json_escape ip_text ++ #j"'" ++
  #j",'country_code':" ++ json_opt (country_code result) ++
  #j",'country_name':" ++ json_opt (country_name result) ++
  #j",'continent_code':" ++ json_opt (continent_code result) ++
  #j",'asn':" ++ num_opt (to_string <$> asn result) ++
  #j",'as_org':" ++ json_opt (as_org result) ++
  #j",'city_name':" ++ json_opt (city_name result) ++
  #j",'postal_code':" ++ json_opt (postal_code result) ++
  #j",'latitude':" ++ num_opt (format_double <$> latitude result) ++
  #j",'longitude':" ++ num_opt (format_double <$> longitude result) ++
  #j",'accuracy_radius':" ++ num_opt (to_string <$> accuracy_radius result) ++
  #"}".

(** A line of the body for a field that has a value. *)
Definition ini_line (key : bytes) (value : option bytes) : bytes :=
  match value with Some v => key ++ #"=" ++ v ++ [LF] | None => [] end.

Definition build_ini_body (ip_text : bytes) (result : GeoIpResult) : bytes :=
  #"ip=" ++ sanitize_header_value ip_text ++ [LF] ++
  ini_line #"country_code" (sanitize_header_value <$> country_code result) ++
  ini_line #"country_name" (sanitize_header_value <$> country_name result) ++
  ini_line #"continent_code" (sanitize_header_value <$> continent_code result) ++
  ini_line #"asn" (to_string <$> asn result) ++
  ini_line #"as_org" (sanitize_header_value <$> as_org result) ++
  ini_line #"city_name" (sanitize_header_value <$> city_name result) ++
  ini_line #"postal_code" (sanitize_header_value <$> postal_code result) ++
  ini_line #"latitude" (format_double <$> latitude result) ++
  ini_line #"longitude" (format_double <$> longitude result) ++
  ini_line #"accuracy_radius" (to_string <$> accuracy_radius result).

(** [if (x) resp.headers.push_back({key, value})]. *)
Definition header_opt (key : bytes) (value : option bytes) : list (bytes * bytes) :=
  match value with Some v => [(key, v)] | None => [] end.

Definition build_success_response (ip_text : bytes) (result : GeoIpResult) (f : ResponseFormat) : HttpResponse :=
  mkHttpResponse 200 f
    (header_opt #"X-GeoIP-Country" (sanitize_header_value <$> country_code result) ++
     header_opt #"X-GeoIP-Continent" (sanitize_header_value <$> continent_code result) ++
     header_opt #"X-GeoIP-ASN" (to_string <$> asn result) ++
     header_opt #"X-GeoIP-AS-Org" (sanitize_header_value <$> as_org result) ++
     header_opt #"X-GeoIP-City" (sanitize_header_value <$> city_name result) ++
     header_opt #"X-GeoIP-Postal-Code" (sanitize_header_value <$> postal_code result) ++
     header_opt #"X-GeoIP-Latitude" (format_double <$> latitude result) ++
     header_opt #"X-GeoIP-Longitude" (format_double <$> longitude result) ++
     header_opt #"X-GeoIP-Accuracy-Radius" (to_string <$> accuracy_radius result))
    (if f == Json then build_json_body ip_text result else build_ini_body ip_text result).
