(* ===== verification/ResponseSpec.v ===== *)
(** * Lookup responses: correctness of [Response]

    The JSON body is the text of the expected JSON value, the text body is
    one line per known field whatever the databases contain, and the headers
    can be serialised without splitting the response. *)

From S2P Require Import Prelude CLib TextUtil Double Json Http HttpSpec GeoIp Response.
From Stdlib Require Import Ascii.

(** ** The JSON body *)

Definition str_value (x : option bytes) : jval := match x with Some s => JStr s | None => JNull end.
Definition num_value (x : option bytes) : jval := match x with Some s => JNum s | None => JNull end.

Definition result_value (ip_text : bytes) (r : GeoIpResult) : jval :=
  JObj [(#"ip", JStr ip_text);
        (#"country_code", str_value (country_code r)); (#"country_name", str_value (country_name r));
        (#"continent_code", str_value (continent_code r));
        (#"asn", num_value (to_string <$> asn r)); (#"as_org", str_value (as_org r));
        (#"city_name", str_value (city_name r)); (#"postal_code", str_value (postal_code r));
        (#"latitude", num_value (format_double <$> latitude r));
        (#"longitude", num_value (format_double <$> longitude r));
        (#"accuracy_radius", num_value (to_string <$> accuracy_radius r))].

(** The coordinates are numbers. *)
Definition coordinates_finite (r : GeoIpResult) : bool :=
  match latitude r with Some v => is_finite v | None => true end &&
  match longitude r with Some v => is_finite v | None => true end.

Lemma str_value_print x : json_print (str_value x) = json_opt x.
Proof. by destruct x. Qed.
Lemma num_value_print x : json_print (num_value x) = num_opt x.
Proof. by destruct x. Qed.

Lemma json_body_print ip r : build_json_body ip r = json_print (result_value ip r).
Proof.
  unfold build_json_body, result_value. cbn [json_print map commas fst snd].
  rewrite !str_value_print, !num_value_print. unfold jstring. flatten_app. reflexivity.
Qed.

Lemma str_value_wf x : jwf (str_value x) = true.
Proof. by destruct x. Qed.
Lemma num_to_string_wf (x : option Z) : jwf (num_value (to_string <$> x)) = true.
Proof. destruct x; [|done]. apply jwf_number, json_number_to_string. Qed.
Lemma num_double_wf (x : option double) :
  match x with Some v => is_finite v | None => true end = true -> jwf (num_value (format_double <$> x)) = true.
Proof. destruct x; [|done]. intros H. by apply jwf_number, json_number_general. Qed.

Lemma result_value_wf ip r : coordinates_finite r = true -> jwf (result_value ip r) = true.
Proof.
  unfold coordinates_finite. rewrite andb_true_iff. intros [H1 H2]. unfold result_value.
  cbn [jwf forallb fst snd]. rewrite !str_value_wf, !num_to_string_wf, !num_double_wf by done. done.
Qed.

(** ** The text body *)

(** The lines of the body: one per field that has a value. *)
Definition ini_fields (ip_text : bytes) (r : GeoIpResult) : list (bytes * bytes) :=
  (#"ip", sanitize_header_value ip_text) ::
  header_opt #"country_code" (sanitize_header_value <$> country_code r) ++
  header_opt #"country_name" (sanitize_header_value <$> country_name r) ++
  header_opt #"continent_code" (sanitize_header_value <$> continent_code r) ++
  header_opt #"asn" (to_string <$> asn r) ++
  header_opt #"as_org" (sanitize_header_value <$> as_org r) ++
  header_opt #"city_name" (sanitize_header_value <$> city_name r) ++
  header_opt #"postal_code" (sanitize_header_value <$> postal_code r) ++
  header_opt #"latitude" (format_double <$> latitude r) ++
  header_opt #"longitude" (format_double <$> longitude r) ++
  header_opt #"accuracy_radius" (to_string <$> accuracy_radius r).

(** A line-based reader: each line is split at its first ['=']. *)
Definition read_ini_line (l : bytes) : option (bytes * bytes) :=
  i ← find_char "="%char l; Some (take i l, drop (S i) l).
Definition read_ini (text : bytes) : option (list (bytes * bytes)) := mapM read_ini_line (getlines text).

Definition field_text (kv : bytes * bytes) : bytes := kv.1 ++ #"=" ++ kv.2 ++ [LF].

Lemma ini_line_fields key v : ini_line key v = flat_map field_text (header_opt key v).
Proof. destruct v; [|done]. cbn. by rewrite app_nil_r. Qed.

Lemma ini_body_fields ip r : build_ini_body ip r = flat_map field_text (ini_fields ip r).
Proof.
  unfold build_ini_body, ini_fields. rewrite !ini_line_fields. cbn [flat_map]. rewrite !flat_map_app.
  change (field_text (#"ip", ?x)) with (#"ip" ++ #"=" ++ x ++ [LF]). flatten_app. done.
Qed.

(** A field the reader gets back: its key holds no ['='], nothing breaks the line. *)
Definition field_ok (kv : bytes * bytes) : Prop := ("="%char ∉ kv.1) /\ line_safe kv.1 /\ line_safe kv.2.

Lemma read_field kv : field_ok kv -> read_ini_line (kv.1 ++ #"=" ++ kv.2) = Some kv.
Proof.
  destruct kv as [k v]. intros [Hk _]. unfold read_ini_line. cbn [fst snd] in *.
  change (#"=" ++ v) with ("="%char :: v). rewrite find_char_hit by done. cbn [mbind option_bind].
  rewrite take_app_length. f_equal. f_equal. change ("="%char :: v) with (["="%char] ++ v).
  rewrite app_assoc. apply drop_length_app. rewrite length_app. cbn. lia.
Qed.

Lemma read_ini_fields fs : Forall field_ok fs -> read_ini (flat_map field_text fs) = Some fs.
Proof.
  intros H. unfold read_ini.
  assert (E : flat_map field_text fs = flat_map (fun l => l ++ [LF]) (map (fun kv => kv.1 ++ #"=" ++ kv.2) fs)).
  { clear. induction fs as [|kv fs IH]; [done|]. cbn [flat_map map]. rewrite IH. unfold field_text. by rewrite <- !app_assoc. }
  rewrite E, getlines_render.
  2: { apply Forall_map. apply (Forall_impl _ _ _ H). intros [k v] (_ & Hk & Hv). cbn in *.
       assert (Hno : forall s, line_safe s -> LF ∉ s).
       { intros s Hs Hin. unfold line_safe in Hs. rewrite Forall_forall in Hs. by specialize (Hs _ Hin). }
       rewrite !not_elem_of_app. repeat split; auto. by apply (bool_decide_eq_true_1 (LF ∉ _)). }
  clear E. induction H as [|kv fs Hkv _ IH]; [done|]. cbn [map mapM]. rewrite read_field by done. cbn [mbind option_bind].
  by rewrite IH.
Qed.

Lemma header_opt_ok (P : bytes * bytes -> Prop) key v : (forall x, v = Some x -> P (key, x)) -> Forall P (header_opt key v).
Proof. intros H. destruct v; [|constructor]. constructor; [by apply H|constructor]. Qed.

Lemma header_opt_sanitized (P : bytes * bytes -> Prop) key (v : option bytes) :
  (forall x, line_safe x -> P (key, x)) -> Forall P (header_opt key (sanitize_header_value <$> v)).
Proof. intros H. apply header_opt_ok. intros x. destruct v; [|done]. intros [= <-]. apply H, sanitize_line_safe. Qed.

Lemma header_opt_number (P : bytes * bytes -> Prop) key (v : option Z) :
  (forall x, line_safe x -> P (key, x)) -> Forall P (header_opt key (to_string <$> v)).
Proof. intros H. apply header_opt_ok. intros x. destruct v; [|done]. intros [= <-]. apply H, line_safe_to_string. Qed.

Lemma header_opt_double (P : bytes * bytes -> Prop) key (v : option double) :
  (forall x, line_safe x -> P (key, x)) -> Forall P (header_opt key (format_double <$> v)).
Proof. intros H. apply header_opt_ok. intros x. destruct v; [|done]. intros [= <-]. apply H, format_general_safe. Qed.

Ltac each_header tac :=
  rewrite !Forall_app; repeat (split; [|]);
  first [apply header_opt_sanitized | apply header_opt_number | apply header_opt_double]; intros x Hx; tac.

Lemma ini_fields_ok ip r : Forall field_ok (ini_fields ip r).
Proof.
  unfold ini_fields. constructor.
  - split; [by apply (bool_decide_eq_true_1 (_ ∉ _))|]. split; [by apply line_safe_lit|apply sanitize_line_safe].
  - each_header ltac:(split; [by apply (bool_decide_eq_true_1 (_ ∉ _))|]; split; [by apply line_safe_lit|done]).
Qed.

(** ** The headers *)

Lemma success_headers_safe ip r f : headers_safe (build_success_response ip r f).
Proof.
  unfold headers_safe, build_success_response. cbn [headers].
  each_header ltac:(split; [by apply line_safe_lit|done]).
Qed.

(** ** Properties *)

(** C18. The JSON body of a lookup is a JSON document: for any address text
    and any strings in the databases, reading it gives back exactly the
    object with the address and the fields of the result (null where there is
    none), provided the coordinates are finite numbers. *)
Theorem build_json_body_reads_back (ip_text : bytes) (r : GeoIpResult) (H : coordinates_finite r = true) :
  json_read (build_json_body ip_text r) = Some (result_value ip_text r).
Proof. rewrite json_body_print. by apply json_read_print, result_value_wf. Qed.

(** Witness of C18: a result with a quoted name and a coordinate. *)
Example build_json_body_reads_back_witness :
  let r := mkResult true (Some #"DE") (Some #j"a'b") None (Some 3320%Z) None None None
             (Some (double_of_bits 4632376503719395328)) None None in
  json_read (build_json_body #"1.1.1.1" r) = Some (result_value #"1.1.1.1" r).
Proof. apply build_json_body_reads_back. by vm_compute. Defined.

(** The text body cannot be forged: whatever the request and the
    databases hold, a line-based reader finds exactly one line per field that
    has a value, in the order of the fields, with the sanitised value. *)
Theorem build_ini_body_reads_back (ip_text : bytes) (r : GeoIpResult) :
  read_ini (build_ini_body ip_text r) = Some (ini_fields ip_text r).
Proof. rewrite ini_body_fields. apply read_ini_fields, ini_fields_ok. Qed.

(** C17. A lookup response cannot be split by what the databases hold: read
    back, the serialised response has exactly its own header lines, one per
    available field, and exactly its body. *)
Theorem success_response_unsplit (ip_text : bytes) (r : GeoIpResult) (f : ResponseFormat) (include_body : bool) :
  let resp := build_success_response ip_text r f in
  read_head [] (build_http_response resp include_body) =
  Some (head_lines resp include_body, if include_body then body resp else []).
Proof. apply build_http_response_head, success_headers_safe. Qed.

(** A coordinate that is not a number makes the body invalid JSON. *)
Lemma nan_latitude_invalid_json :
  json_read (build_json_body #"1.1.1.1"
    (mkResult true None None None None None None None (Some (Dnan false)) None None)) = None.
Proof. by vm_compute. Qed.
