(* ===== verification/Report.v ===== *)
(** * Database reports (src/src/geoip.cpp, print_db_metadata)

    What --db-info prints about a database file: a table, a JSON object or
    key=value lines.  Standard output is the text printed.  A null pointer in
    the metadata is [None]; where the code would dereference it, so is the
    result. *)

From S2P Require Import Prelude CLib TextUtil Double Clock IpAddr GeoIp.
From Stdlib Require Import Ascii.
From stdpp Require Import gmap.

Inductive DbMetadataFormat := Table | Json | Ini.

(** ** Parts *)

(** The loop with its [if (i > 0)] separator. *)
Fixpoint join_from (i : nat) (sep : bytes) (names : list bytes) : bytes :=
  match names with
  | [] => []
  | n :: names' => (if (0 <? i)%nat then sep else []) ++ n ++ join_from (S i) sep names'
  end.

Definition join_languages (meta : MMDB_metadata_s) (sep : bytes) : bytes := join_from 0 sep (languages meta).

Fixpoint find_english (descriptions : list (option bytes * option bytes)) : bytes :=
  match descriptions with
  | [] => []
  | (language, text) :: rest =>
      match language with
      | Some l => if l == #"en" then default [] text else find_english rest
      | None => find_english rest
      end
  end.

Definition english_description (meta : MMDB_metadata_s) : bytes := find_english (description meta).

(** [language] and [description] where both are taken for strings. *)
Definition described (d : option bytes * option bytes) : option (bytes * bytes) :=
  language ← d.1; text ← d.2; Some (language, text).

Section Report.
Context `{MaxMindDB}.

(** ** The table *)

(** [printf("%-16s: %s\n", label, value)]. *)
Definition row (label value : bytes) : bytes :=
  let l := c_str label in l ++ repeat SP (16 - length l) ++ #": " ++ c_str value ++ [LF].

Definition print_metadata_table (path : bytes) (mmdb : MMDB_db) (info : GeoIpDbMetadata) : option bytes :=
  let meta := MMDB_metadata mmdb in
  descriptions ← mapM described (description meta);
  Some (
    row #"Path" path ++
    row #"libmaxminddb" MMDB_lib_version ++
    row #"Database type" (database_type info) ++
    row #"IP version" (to_string (ip_version meta)) ++
    row #"Binary format" (to_string (binary_format_major_version meta) ++ #"." ++
                          to_string (binary_format_minor_version meta)) ++
    row #"Node count" (to_string (node_count meta)) ++
    row #"Record size" (to_string (record_size meta) ++ #" bits") ++
    row #"Build epoch" (to_string (build_epoch_field meta)) ++
    row #"Build date" (build_time info) ++
    row #"Age" (format_fixed 1 (age_days info) ++ #" days") ++
    row #"Age (ms)" (to_string (age_ms info)) ++
    row #"Age (ns)" (to_string (age_ns info)) ++
    (if (0 <? length (languages meta))%nat then row #"Languages" (join_languages meta #", ") else []) ++
    flat_map (fun d => row (#"Description [" ++ d.1 ++ #"]") d.2) descriptions).

(** ** JSON *)

Fixpoint json_languages (i : nat) (names : list bytes) : bytes :=
  match names with
  | [] => []
  | n :: names' => (if (0 <? i)%nat then #"," else []) ++ #j"'" ++ json_escape n ++ #j"'" ++ json_languages (S i) names'
  end.

Fixpoint json_descriptions (i : nat) (descriptions : list (bytes * bytes)) : bytes :=
  match descriptions with
  | [] => []
  | d :: rest =>
      (if (0 <? i)%nat then #"," else []) ++
      #j"{'language':'" ++ json_escape d.1 ++ #j"','description':'" ++ json_escape d.2 ++ #j"'}" ++
      json_descriptions (S i) rest
  end.

Definition print_metadata_json (path : bytes) (mmdb : MMDB_db) (info : GeoIpDbMetadata) : option bytes :=
  let meta := MMDB_metadata mmdb in
  descriptions ← mapM described (description meta);
  let out :=
    #"{" ++
    #j"'path':'" ++ json_escape path ++ #j"'" ++
    #j",'libmaxminddb_version':'" ++ json_escape MMDB_lib_version ++ #j"'" ++
    #j",'database_type':'" ++ json_escape (database_type info) ++ #j"'" ++
    #j",'ip_version':" ++ to_string (ip_version meta) ++
    #j",'binary_format_major_version':" ++ to_string (binary_format_major_version meta) ++
    #j",'binary_format_minor_version':" ++ to_string (binary_format_minor_version meta) ++
    #j",'node_count':" ++ to_string (node_count meta) ++
    #j",'record_size':" ++ to_string (record_size meta) ++
    #j",'build_epoch':" ++ to_string (build_epoch_field meta) ++
    #j",'build_date':'" ++ json_escape (build_time info) ++ #j"'" ++
    #j",'age_days':" ++ format_fixed 1 (age_days info) ++
    #j",'age_ms':" ++ to_string (age_ms info) ++
    #j",'age_ns':" ++ to_string (age_ns info) ++
    #j",'languages':[" ++ json_languages 0 (languages meta) ++ #"]" ++
    #j",'description':'" ++ json_escape (english_description meta) ++ #j"'" ++
    #j",'description_list':[" ++ json_descriptions 0 descriptions ++ #"]" ++
    #"}" in
  Some (c_str out ++ [LF]).

(** ** key=value lines *)

(** [printf("key=%s\n", value)]. *)
Definition printf_line (key value : bytes) : bytes := c_str key ++ #"=" ++ c_str value ++ [LF].

Definition print_metadata_ini (path : bytes) (mmdb : MMDB_db) (info : GeoIpDbMetadata) : option bytes :=
  let meta := MMDB_metadata mmdb in
  descriptions ← mapM described (description meta);
  Some (
    printf_line #"path" (sanitize_header_value path) ++
    printf_line #"libmaxminddb_version" MMDB_lib_version ++
    printf_line #"database_type" (sanitize_header_value (database_type info)) ++
    printf_line #"ip_version" (to_string (ip_version meta)) ++
    printf_line #"binary_format_major_version" (to_string (binary_format_major_version meta)) ++
    printf_line #"binary_format_minor_version" (to_string (binary_format_minor_version meta)) ++
    printf_line #"node_count" (to_string (node_count meta)) ++
    printf_line #"record_size" (to_string (record_size meta)) ++
    printf_line #"build_epoch" (to_string (build_epoch_field meta)) ++
    printf_line #"build_date" (build_time info) ++
    printf_line #"age_days" (format_fixed 1 (age_days info)) ++
    printf_line #"age_ms" (to_string (age_ms info)) ++
    printf_line #"age_ns" (to_string (age_ns info)) ++
    (if (0 <? length (languages meta))%nat
     then printf_line #"languages" (sanitize_header_value (join_languages meta #",")) else []) ++
    printf_line #"description" (sanitize_header_value (english_description meta)) ++
    flat_map (fun d => printf_line (#"description_" ++ d.1) (sanitize_header_value d.2)) descriptions).

(** ** The call *)

(** The text printed, or the error; [now] is the clock of [make_metadata].
    [None] where a null string or an undefined conversion is used. *)
Definition print_db_metadata (fs : file_system) (now : Z) (path : bytes) (format : DbMetadataFormat) (h : mmdb_heap)
    : option ((bytes + bytes) * mmdb_heap) :=
  match open_mmdb fs path h with
  | (inl err, h') => Some (inl err, h')
  | (inr mmdb, h') =>
      db ← live h' !! mmdb;
      info ← make_metadata now db;
      out ← match format with
            | Table => print_metadata_table path db info
            | Json => print_metadata_json path db info
            | Ini => print_metadata_ini path db info
            end;
      h'' ← MMDB_close mmdb h';
      Some (inr out, h'')
  end.

End Report.
