(* ===== verification/ReportSpec.v ===== *)
(** * Database reports: correctness of [Report]

    The JSON report is read back by the JSON reader into the value it should
    carry, the key=value report by the line reader into its fields, and the
    call leaves no handle open. *)

From stdpp Require Import gmap.
From S2P Require Import Prelude CLib TextUtil Double Clock Json IpAddr Http HttpSpec GeoIp GeoIpSpec Response ResponseSpec Report.
From Stdlib Require Import Ascii.

Section ReportSpec.
Context `{MaxMindDB}.

(** ** What the reports say *)

Definition report_value (path : bytes) (db : MMDB_db) (info : GeoIpDbMetadata) (descriptions : list (bytes * bytes)) : jval :=
  let meta := MMDB_metadata db in
  JObj [(#"path", JStr path); (#"libmaxminddb_version", JStr MMDB_lib_version);
        (#"database_type", JStr (database_type info)); (#"ip_version", JNum (to_string (ip_version meta)));
        (#"binary_format_major_version", JNum (to_string (binary_format_major_version meta)));
        (#"binary_format_minor_version", JNum (to_string (binary_format_minor_version meta)));
        (#"node_count", JNum (to_string (node_count meta))); (#"record_size", JNum (to_string (record_size meta)));
        (#"build_epoch", JNum (to_string (build_epoch_field meta))); (#"build_date", JStr (build_time info));
        (#"age_days", JNum (format_fixed 1 (age_days info))); (#"age_ms", JNum (to_string (age_ms info)));
        (#"age_ns", JNum (to_string (age_ns info)));
        (#"languages", JArr (map JStr (languages meta)));
        (#"description", JStr (english_description meta));
        (#"description_list",
          JArr (map (fun d => JObj [(#"language", JStr d.1); (#"description", JStr d.2)]) descriptions))].

Definition report_fields (path : bytes) (db : MMDB_db) (info : GeoIpDbMetadata) (descriptions : list (bytes * bytes))
    : list (bytes * bytes) :=
  let meta := MMDB_metadata db in
  [(#"path", sanitize_header_value path); (#"libmaxminddb_version", MMDB_lib_version);
   (#"database_type", sanitize_header_value (database_type info)); (#"ip_version", to_string (ip_version meta));
   (#"binary_format_major_version", to_string (binary_format_major_version meta));
   (#"binary_format_minor_version", to_string (binary_format_minor_version meta));
   (#"node_count", to_string (node_count meta)); (#"record_size", to_string (record_size meta));
   (#"build_epoch", to_string (build_epoch_field meta)); (#"build_date", build_time info);
   (#"age_days", format_fixed 1 (age_days info)); (#"age_ms", to_string (age_ms info)); (#"age_ns", to_string (age_ns info))] ++
  (if (0 <? length (languages meta))%nat
   then [(#"languages", sanitize_header_value (join_languages meta #","))] else []) ++
  [(#"description", sanitize_header_value (english_description meta))] ++
  map (fun d => (#"description_" ++ d.1, sanitize_header_value d.2)) descriptions.

(** ** JSON *)

Lemma json_languages_print names : json_languages 0 names = commas (map json_print (map JStr names)).
Proof. rewrite map_map. apply (commas_loop json_languages); [done|]. intros i n l. cbn [json_languages json_print]. unfold jstring. flatten_app. reflexivity. Qed.

Lemma json_descriptions_print ds :
  json_descriptions 0 ds =
  commas (map json_print (map (fun d => JObj [(#"language", JStr d.1); (#"description", JStr d.2)]) ds)).
Proof.
  rewrite map_map. apply (commas_loop json_descriptions); [done|]. intros i d l. cbn [json_descriptions json_print map commas fst snd].
  f_equal. unfold jstring. flatten_app. reflexivity.
Qed.

Lemma report_json_text path db info ds : mapM described (description (MMDB_metadata db)) = Some ds ->
  print_metadata_json path db info = Some (c_str (json_print (report_value path db info ds)) ++ [LF]).
Proof.
  intros Hd. unfold print_metadata_json. rewrite Hd. cbn [mbind option_bind]. do 3 f_equal.
  unfold report_value. rewrite json_languages_print, json_descriptions_print. cbn [json_print].
  cbn [map commas fst snd json_print]. unfold jstring. flatten_app. reflexivity.
Qed.

Lemma report_value_wf path db info ds : is_finite (age_days info) = true -> jwf (report_value path db info ds) = true.
Proof.
  intros Hf. assert (H1 := jwf_number _ (json_number_fixed 1 _ Hf)).
  assert (Hz := fun z => jwf_number _ (json_number_to_string z)). cbn [jwf] in H1, Hz.
  unfold report_value. cbn [jwf forallb snd]. rewrite !Hz, H1. cbn [andb].
  assert (Hall : forall {A} (f : A -> jval) l, (forall x, jwf (f x) = true) -> forallb jwf (map f l) = true).
  { intros A f l Hjf. induction l; cbn; [done|]. by rewrite Hjf. }
  rewrite !Hall; done.
Qed.

(** ** key=value lines *)

Lemma strftime_no_control t : Forall no_control (strftime_iso t).
Proof.
  assert (H2 : forall n, Forall no_control (two_digits n)).
  { intros n. unfold two_digits. destruct (n <? 10)%Z; [|apply to_string_no_control].
    constructor; [by unfold no_control; vm_compute|apply to_string_no_control]. }
  unfold strftime_iso. rewrite !Forall_app.
  repeat (split; [first [apply to_string_no_control|apply H2|by apply no_control_lit]|]).
  by apply no_control_lit.
Qed.

(** A field that prints as one line. *)
Definition plain_field (kv : bytes * bytes) : Prop :=
  ("="%char ∉ kv.1) /\ Forall no_control kv.1 /\ Forall no_control kv.2.

Lemma plain_field_ok kv : plain_field kv -> field_ok kv.
Proof. intros (Heq & Hk & Hv). split; [done|]. split; by apply no_control_line_safe. Qed.

Lemma printf_line_field kv : plain_field kv -> printf_line kv.1 kv.2 = field_text kv.
Proof.
  intros (_ & Hk & Hv). unfold printf_line, field_text. rewrite !c_str_id; [done|by apply no_control_absent..].
Qed.

Lemma printf_fields fs : Forall plain_field fs -> flat_map (fun kv => printf_line kv.1 kv.2) fs = flat_map field_text fs.
Proof. induction 1 as [|kv fs Hkv _ IH]; [done|]. cbn [flat_map]. by rewrite printf_line_field, IH. Qed.

(** The texts that are printed as they are. *)
Definition plain_language (d : bytes * bytes) : Prop := ("="%char ∉ d.1) /\ Forall no_control d.1.

Lemma report_ini_text path db info ds : mapM described (description (MMDB_metadata db)) = Some ds ->
  print_metadata_ini path db info = Some (flat_map (fun kv => printf_line kv.1 kv.2) (report_fields path db info ds)).
Proof.
  intros Hd. unfold print_metadata_ini. rewrite Hd. cbn [mbind option_bind]. f_equal.
  unfold report_fields. rewrite !flat_map_app, !flat_map_concat_map, map_map, <- !flat_map_concat_map.
  cbn [flat_map fst snd]. destruct (0 <? _)%nat; cbn [flat_map fst snd]; flatten_app; reflexivity.
Qed.

Lemma report_fields_plain path db now info ds :
  make_metadata now db = Some info -> Forall no_control MMDB_lib_version -> Forall plain_language ds ->
  Forall plain_field (report_fields path db info ds).
Proof.
  intros Hm Hlib Hds.
  assert (Hbuild : Forall no_control (build_time info)).
  { unfold make_metadata in Hm. apply bind_Some in Hm as (bt & Hbt & Hm).
    apply bind_Some in Hm as (ms & _ & Hm). apply bind_Some in Hm as (ns & _ & Hm).
    unfold format_build_time in Hbt. apply fmap_Some in Hbt as (t & _ & ->).
    injection Hm as <-. apply strftime_no_control. }
  assert (Hlit : forall k v, bool_decide ("="%char ∉ k) && forallb (fun c => (32 <=? code c)%N) k = true ->
    Forall no_control v -> plain_field (k, v)).
  { intros k v [Hk1%bool_decide_eq_true_1 Hk2]%andb_true_iff Hv. split; [done|]. split; [by apply no_control_lit|done]. }
  unfold report_fields. rewrite !Forall_app. split; [|split; [|split]].
  - repeat (constructor; [apply Hlit; [by vm_compute|];
      first [apply sanitize_no_control|apply to_string_no_control|apply format_fixed_no_control|done]|]). constructor.
  - destruct (0 <? _)%nat; constructor; [apply Hlit; [by vm_compute|apply sanitize_no_control]|constructor].
  - constructor; [apply Hlit; [by vm_compute|apply sanitize_no_control]|constructor].
  - apply Forall_map, (Forall_impl _ _ _ Hds). intros [l t] [Heq Hl]. cbn in *. split; [|split].
    + cbn. rewrite not_elem_of_app. split; [by apply (bool_decide_eq_true_1 ("="%char ∉ _))|done].
    + cbn. apply Forall_app. split; [by apply no_control_lit|done].
    + apply sanitize_no_control.
Qed.

(** ** Properties *)

(** The report is undefined only for a database whose metadata is, or that
    describes itself without a language or without a text. *)
Lemma report_undefined fs now path format h : live h !! next_handle h = None -> print_db_metadata fs now path format h = None ->
  exists db, fs (c_str path) = inr db /\
    (make_metadata now db = None \/ mapM described (description (MMDB_metadata db)) = None).
Proof.
  intros Hh. unfold print_db_metadata, open_mmdb, MMDB_open. destruct (fs (c_str path)) as [st|db]; [done|].
  cbn [live next_handle]. rewrite lookup_insert_eq. cbn [mbind option_bind]. intros E. exists db. split; [done|].
  destruct (make_metadata now db) as [info|]; [right|by left]. cbn [mbind option_bind] in E.
  destruct (mapM described (description (MMDB_metadata db))) as [ds|] eqn:Ed; [|done]. exfalso.
  unfold print_metadata_table, print_metadata_json, print_metadata_ini, MMDB_close in E. rewrite Ed in E.
  cbn [mbind option_bind live next_handle] in E. rewrite lookup_insert_eq in E. by destruct format.
Qed.

Lemma past_metadata now db : db_fresh now (Some db) -> exists info, make_metadata now db = Some info /\ is_finite (age_days info) = true.
Proof.
  intros (Hb & Hage & Hnow). destruct (make_metadata_value now db Hb Hage Hnow) as (t & _ & E). rewrite E.
  eexists. split; [done|]. apply age_finite; [lia|done].
Qed.

(** The call around the printing of a database that opens. *)
Lemma print_db_opened fs now path format h db info out :
  fs (c_str path) = inr db -> live h !! next_handle h = None -> make_metadata now db = Some info ->
  match format with
  | Table => print_metadata_table path db info
  | Json => print_metadata_json path db info
  | Ini => print_metadata_ini path db info
  end = Some out ->
  print_db_metadata fs now path format h = Some (inr out, mkHeap (S (next_handle h)) (live h)).
Proof.
  intros Hfs Hh Hm Hout. unfold print_db_metadata, open_mmdb, MMDB_open. rewrite Hfs. cbn [live next_handle].
  rewrite lookup_insert_eq. cbn [mbind option_bind]. rewrite Hm. cbn [mbind option_bind]. rewrite Hout. cbn [mbind option_bind].
  unfold MMDB_close. cbn [live next_handle]. rewrite lookup_insert_eq. cbn [mbind option_bind]. by rewrite delete_insert_id.
Qed.

(** C29. The JSON report of a database is one line holding a JSON document,
    whatever bytes the path, the names and the descriptions hold: the JSON
    reader gives back exactly the metadata; and the database is closed again.
    A file that does not open gives the error and changes nothing. *)
Theorem json_report_reads_back (fs : file_system) (now : Z) (path : bytes) (h : mmdb_heap)
    (Hh : live h !! next_handle h = None) :
  match fs (c_str path) with
  | inl status =>
      print_db_metadata fs now path Json h =
      Some (inl (#"failed to open database '" ++ path ++ #"': " ++ MMDB_strerror status), h)
  | inr db =>
      forall ds, mapM described (description (MMDB_metadata db)) = Some ds -> db_fresh now (Some db) ->
      exists info line h', make_metadata now db = Some info /\
        print_db_metadata fs now path Json h = Some (inr (line ++ [LF]), h') /\ live h' = live h /\
        (LF ∉ line) /\ json_read line = Some (report_value path db info ds)
  end.
Proof.
  destruct (fs (c_str path)) as [status|db] eqn:Hfs.
  { unfold print_db_metadata, open_mmdb, MMDB_open. by rewrite Hfs. }
  intros ds Hds Hpast. destruct (past_metadata now db Hpast) as (info & Hm & Hfin).
  pose proof (report_value_wf path db info ds Hfin) as Hwf. pose proof (json_print_no_control _ Hwf) as Hc.
  pose proof (report_json_text path db info ds Hds) as Ht. rewrite c_str_id in Ht by (by apply no_control_absent).
  eexists info, _, _. split; [done|]. split; [by eapply print_db_opened|]. split; [done|].
  split; [by apply no_control_absent|by apply json_read_print].
Qed.

(** C30. The key=value report has one line per field, whatever the path, the
    database type, the languages and the descriptions hold: the line reader
    finds exactly the fields, provided the language codes of the descriptions
    hold no control character and no equals sign (they are printed as they
    are, as is the version of the library); and the database is closed
    again. *)
Theorem ini_report_reads_back (fs : file_system) (now : Z) (path : bytes) (h : mmdb_heap) (db : MMDB_db)
    (ds : list (bytes * bytes))
    (Hh : live h !! next_handle h = None) (Hfs : fs (c_str path) = inr db) (Hpast : db_fresh now (Some db))
    (Hds : mapM described (description (MMDB_metadata db)) = Some ds)
    (Hlib : Forall no_control MMDB_lib_version) (Hlang : Forall plain_language ds) :
  exists info out h', make_metadata now db = Some info /\
    print_db_metadata fs now path Ini h = Some (inr out, h') /\ live h' = live h /\
    read_ini out = Some (report_fields path db info ds).
Proof.
  destruct (past_metadata now db Hpast) as (info & Hm & _).
  pose proof (report_fields_plain path db now info ds Hm Hlib Hlang) as Hp.
  pose proof (report_ini_text path db info ds Hds) as Ht. rewrite printf_fields in Ht by done.
  eexists info, _, _. split; [done|]. split; [by eapply print_db_opened|]. split; [done|].
  apply read_ini_fields, (Forall_impl _ _ _ Hp), plain_field_ok.
Qed.
End ReportSpec.

(** ** Witnesses *)

Definition report_db (language : bytes) : simple_db :=
  mkSimpleDb (mkMetadata 10 24 6 (Some #"GeoLite2-City") [ #"de"; #"en"] 2 0 1700000000
    [(Some #"en", Some #"a city 'database'"); (Some language, Some #"x")]) [] false.
Definition report_fs (language : bytes) : bytes -> Z + simple_db :=
  fun p => if p == #"/db" then inr (report_db language) else inl 2%Z.

(** Witness of C29: a database with two descriptions. *)
Example json_report_reads_back_witness :
  exists info line h', @make_metadata simple_maxmind 1701000000 (report_db #"de") = Some info /\
    print_db_metadata (report_fs #"de" : file_system) 1701000000 #"/db" Json heap_empty = Some (inr (line ++ [LF]), h') /\
    live h' = live heap_empty /\ (LF ∉ line) /\
    json_read line = Some (report_value #"/db" (report_db #"de") info [(#"en", #"a city 'database'"); (#"de", #"x")]).
Proof.
  apply (@json_report_reads_back simple_maxmind (report_fs #"de") 1701000000 #"/db" heap_empty eq_refl
           [(#"en", #"a city 'database'"); (#"de", #"x")] eq_refl).
  cbn. lia.
Defined.

(** Witness of C30: the same database. *)
Example ini_report_reads_back_witness :
  exists info out h', @make_metadata simple_maxmind 1701000000 (report_db #"de") = Some info /\
    print_db_metadata (report_fs #"de" : file_system) 1701000000 #"/db" Ini heap_empty = Some (inr out, h') /\
    live h' = live heap_empty /\
    read_ini out = Some (report_fields #"/db" (report_db #"de") info [(#"en", #"a city 'database'"); (#"de", #"x")]).
Proof.
  apply (@ini_report_reads_back simple_maxmind (report_fs #"de") 1701000000 #"/db" heap_empty (report_db #"de")
           [(#"en", #"a city 'database'"); (#"de", #"x")] eq_refl eq_refl).
  - cbn. lia.
  - reflexivity.
  - by apply no_control_lit.
  - constructor; [|constructor; [|constructor]]; (split; [by apply (bool_decide_eq_true_1 ("="%char ∉ _))|by apply no_control_lit]).
Defined.

(** A language code with a line break forges a line of the report. *)
Lemma forged_language_line :
  exists out h', print_db_metadata (report_fs (#"de=x" ++ [LF] ++ #"path") : file_system) 1701000000 #"/db" Ini heap_empty =
      Some (inr out, h') /\
    (list_find (fun kv => kv.1 = #"path" /\ kv.2 <> #"/db") <$> read_ini out) = Some (Some (17, (#"path", #"x"))).
Proof. eexists _, _. split; vm_compute; reflexivity. Qed.
