(* ===== verification/Server.v ===== *)
(** * The server's request and reload logic (src/src/server.cpp)

    [write_all], [handle_connection], [reload_databases], [collect_db_infos]
    and [write_metrics_file].  What the operating system answers to [send],
    to the clock and to the file operations is an argument; log lines and
    writes are the effects a call returns. *)

From stdpp Require Import gmap.
From S2P Require Import Prelude CLib Log IpAddr Http Config Double GeoIp Metrics Response.
From Stdlib Require Import Ascii.

Definition NSHGEOIP_VERSION : bytes := #"0.9.2".

Inductive effect :=
| Log (level : LogLevel) (msg : bytes)
| WriteAll (data : bytes)     (* write_all(fd, data) *)
| Close.                      (* close(fd) *)

(** ** [write_all] *)

Inductive send_result := Sent (n : nat) | SendEintr | SendFailed.

(** What reached the socket and the result; [None] while the answers of
    [send] have run out and the loop has not ended. *)
Fixpoint write_all (data : bytes) (sent : nat) (answers : list send_result) : option (bytes * bool) :=
  if (sent <? length data)%nat then
    match answers with
    | [] => None
    | Sent n :: answers' => write_all data (sent + n) answers'
    | SendEintr :: answers' => write_all data sent answers'
    | SendFailed :: _ => Some (take sent data, false)
    end
  else Some (take sent data, true).

(** Regular files by path, as [open], [write] and [rename] see them. *)
Abbreviation disk := (gmap bytes bytes).

Section Server.
Context `{MaxMindDB} `{InetPton}.

(** ** Status of the databases *)

(** [now] is the clock at each of the three calls. *)
Definition collect_db_infos (now : Z * Z * Z) (s : geo_state) : option (list MetricsDbInfo) :=
  country ← country_metadata now.1.1 s;
  asn ← asn_metadata now.1.2 s;
  city ← city_metadata now.2 s;
  Some [mkDbInfo #"country" (country_open_ (dbs s)) country;
        mkDbInfo #"asn" (asn_open_ (dbs s)) asn;
        mkDbInfo #"city" (city_open_ (dbs s)) city].

(** ** One connection *)

(** What a request can read of the server besides the counters. *)
Record server_view := mkServer {
  db_ : geo_state;
  now_ : Z * Z * Z;
  uptime_seconds : double;
}.

Definition error_response (status : Z) (message : bytes) (fmt : ResponseFormat) (m : Metrics) (log : list effect) :=
  (make_error_response status message fmt, m, log).

(** The /lookup branch: the response, the counters and the log lines; [None]
    where the behaviour of the code is undefined. *)
Definition handle_lookup (sv : server_view) (req : HttpRequest) (fmt : ResponseFormat) (m : Metrics)
    : option (HttpResponse * Metrics * list effect) :=
  match find_query_param (query req) #"ip" with
  | None => Some (error_response 400 #"missing ip parameter" fmt m [])
  | Some ip_text =>
      if ip_text == [] then Some (error_response 400 #"missing ip parameter" fmt m [])
      else
        match parse_ip_address ip_text with
        | None => Some (error_response 400 #"invalid ip address" fmt m [])
        | Some addr =>
            '(result, db_error) ← lookup (db_ sv) addr;
            if (db_error : bool) then
              Some (error_response 500 #"internal database error" fmt m
                      [Log Error #"database error while looking up an address"])
            else if negb (found result) then
              Some (error_response 404 #"no geoip information found" fmt (increment LookupNotFound m) [])
            else Some (build_success_response ip_text result fmt, increment LookupFound m, [])
        end
  end.

Definition handle_health (sv : server_view) (req : HttpRequest) (m : Metrics)
    : option (HttpResponse * Metrics * list effect) :=
  if accept_wants_json (accept req) then
    infos ← collect_db_infos (now_ sv) (db_ sv);
    Some (mkHttpResponse 200 Json []
            (render_health_json infos NSHGEOIP_VERSION MMDB_lib_version (uptime_seconds sv)), m, [])
  else Some (mkHttpResponse 200 Text [] (#"status=ok" ++ [LF]), m, []).

Definition handle_metrics (sv : server_view) (m : Metrics) : option (HttpResponse * Metrics * list effect) :=
  infos ← collect_db_infos (now_ sv) (db_ sv);
  Some (mkHttpResponse 200 Prometheus []
          (render_prometheus_metrics m infos NSHGEOIP_VERSION MMDB_lib_version (uptime_seconds sv)), m, []).

(** A parsed request with a known method. *)
Definition route (sv : server_view) (req : HttpRequest) (fmt : ResponseFormat) (m : Metrics)
    : option (HttpResponse * Metrics * list effect) :=
  if path req == #"/lookup" then handle_lookup sv req fmt m
  else if path req == #"/health" then handle_health sv req m
  else if path req == #"/metrics" then handle_metrics sv m
  else Some (error_response 404 #"not found" fmt m []).

(** From the raw request to the response, [is_head], the counters and the log. *)
Definition respond (sv : server_view) (raw : bytes) (m : Metrics)
    : option (HttpResponse * bool * Metrics * list effect) :=
  match parse_http_request raw with
  | None =>
      Some (make_error_response 400 #"malformed HTTP request" Json, false, record_request [] m,
            [Log Warn #"rejected malformed HTTP request"])
  | Some req =>
      let m1 := record_request (path req) m in
      let fmt := negotiate_format (accept req) in
      if negb (method req == #"GET") && negb (method req == #"HEAD") then
        let resp := make_error_response 405 #"method not allowed" fmt in
        Some (mkHttpResponse (status resp) (format resp) (headers resp ++ [(#"Allow", #"GET, HEAD")]) (body resp),
              false, m1, [])
      else
        '(resp, m2, log) ← route sv req fmt m1;
        Some (resp, method req == #"HEAD", m2, log)
  end.

(** [None] while the read is in progress, or where the behaviour is undefined. *)
Definition handle_connection (cfg : Config) (start : Z) (turns : list read_turn) (sv : server_view) (m : Metrics)
    : option (Metrics * list effect) :=
  '(rr, raw, _) ← read_http_head (Z.to_nat (max_request_bytes cfg)) 5 start turns;
  match (rr : ReadResult) with
  | ReadTooLarge =>
      let m1 := record_request [] m in
      let resp := make_error_response 400 #"request too large" Json in
      Some (record_response (status resp) m1, [WriteAll (build_http_response resp true); Close])
  | ReadConnectionClosed | ReadTimeout | ReadIoError => Some (m, [Close])
  | ReadOk =>
      '(resp, is_head, m1, log) ← respond sv raw m;
      Some (record_response (status resp) m1,
            log ++ [WriteAll (build_http_response resp (negb is_head)); Close])
  end.

(** ** Reloading on SIGHUP *)

(** One [if (!path.empty())] block: the object, the log line, and whether the
    reload failed.  [reload], [meta] and [what] are those of the slot. *)
Definition reload_block (db_path : bytes)
    (reload : bytes -> geo_state -> option (option bytes * geo_state))
    (meta : geo_state -> option (option GeoIpDbMetadata)) (what : bytes) (s : geo_state)
    : option (geo_state * list effect * bool) :=
  if negb (db_path == []) then
    '(err, s') ← reload db_path s;
    match err with
    | None =>
        md ← meta s';
        Some (s', [Log Info (#"reloaded " ++ what ++ #" database: " ++ describe_db db_path md)], true)
    | Some e =>
        Some (s', [Log Error (#"failed to reload " ++ what ++ #" database, keeping previous handle open: " ++ e)], false)
    end
  else Some (s, [], true).

Definition reload_databases (cfg : Config) (fs : file_system) (now : Z * Z * Z) (s : geo_state)
    : option (geo_state * list effect) :=
  '(s1, l1, ok1) ← reload_block (country_db cfg) (reload_country fs) (country_metadata now.1.1) #"country" s;
  '(s2, l2, ok2) ← reload_block (asn_db cfg) (reload_asn fs) (asn_metadata now.1.2) #"ASN" s1;
  '(s3, l3, ok3) ← reload_block (city_db cfg) (reload_city fs) (city_metadata now.2) #"city" s2;
  Some (s3, l1 ++ l2 ++ l3 ++
        [Log Info (if ok1 && ok2 && ok3 then #"database reload complete" else #"database reload finished with errors")]).

(** ** The metrics file *)

(** What the operating system does with one run of [write_metrics_file]: the
    open succeeds or not; [operator<<] makes [put] bytes reach the file and
    leaves the stream good or not; closing the stream makes up to [flush] more
    bytes reach it; the rename succeeds or not. *)
Record file_answers := mkAnswers { open_ok : bool; put : nat; good : bool; flush : nat; rename_ok : bool }.

Definition rename (from to : bytes) (d : disk) : disk :=
  match d !! from with Some c => <[to := c]> (delete from d) | None => d end.

(** The disk after each operation of the call, and the log. *)
Definition write_metrics_file (metrics_file text errno : bytes) (a : file_answers) (d : disk) : list disk * list effect :=
  let tmp_path := metrics_file ++ #".tmp" in
  if negb (open_ok a) then ([d], [Log Warn (#"failed to open metrics file for writing: " ++ tmp_path)])
  else
    let d1 := <[c_str tmp_path := []]> d in
    let d2 := <[c_str tmp_path := take (put a) text]> d in
    let d3 := <[c_str tmp_path := take (put a + flush a) text]> d in
    if negb (good a) then ([d; d1; d2; d3], [Log Warn (#"failed to write metrics file: " ++ tmp_path)])
    else if rename_ok a then ([d; d1; d2; d3; rename (c_str tmp_path) (c_str metrics_file) d3], [])
    else ([d; d1; d2; d3],
          [Log Warn (#"failed to rename metrics file into place (" ++ tmp_path ++ #" -> " ++ metrics_file ++ #"): " ++ errno)]).

End Server.
