(* ===== verification/ServerSpec.v ===== *)
(** * The server: correctness of [Server]

    What one connection does whatever bytes arrive and whatever the databases
    hold, the answer to a lookup end to end, HEAD against GET, what a reload
    leaves, and the replacement of the metrics file. *)

From stdpp Require Import gmap.
From S2P Require Import Prelude CLib Log TextUtil Double Json IpAddr Http HttpSpec Config GeoIp GeoIpSpec.
From S2P Require Import Metrics MetricsSpec Response ResponseSpec Server.
From Stdlib Require Import Ascii.

(** ** [write_all] *)

Definition progress_count (answers : list send_result) : nat :=
  length (filter (fun a => match a with Sent (S _) => true | _ => false end = true) answers).

Lemma write_all_result data sent answers out ok :
  write_all data sent answers = Some (out, ok) ->
  (exists k, out = take k data) /\ (ok = true -> out = data).
Proof.
  revert sent. induction answers as [|a answers IH]; intros sent; cbn [write_all];
    (destruct (Nat.ltb_spec sent (length data)); [|intros [= <- <-]; split; [eauto|by rewrite take_ge]]); [done|].
  destruct a; [apply IH|apply IH|]. intros [= <- <-]. split; [eauto|done].
Qed.

Lemma write_all_ends data sent answers :
  length data <= sent + progress_count answers -> is_Some (write_all data sent answers).
Proof.
  revert sent. induction answers as [|a answers IH]; intros sent Hn; cbn [write_all];
    (destruct (Nat.ltb_spec sent (length data)); [|by eexists]).
  - unfold progress_count in Hn. cbn in Hn. lia.
  - unfold progress_count in Hn, IH. rewrite filter_cons in Hn. destruct a as [[|n]| |]; try (by eexists); apply IH;
      revert Hn; [rewrite decide_False by done|rewrite decide_True by done; cbn [length]|rewrite decide_False by done]; lia.
Qed.

Section ServerSpec.
Context `{MaxMindDB} `{InetPton}.

(** ** Every response *)

Definition known_status (st : Z) : Prop := st = 200%Z \/ st = 400%Z \/ st = 404%Z \/ st = 405%Z \/ st = 500%Z.

Definition response_ok (resp : HttpResponse) : Prop := headers_safe resp /\ known_status (status resp).

Definition is_log (e : effect) : Prop := match e with Log _ _ => True | _ => False end.

(** The two lines a connection may log, with nothing of the request in them. *)
Definition is_request_log (e : effect) : Prop :=
  match e with
  | Log Warn msg => msg = #"rejected malformed HTTP request"
  | Log Error msg => msg = #"database error while looking up an address"
  | _ => False
  end.

(** The counters between a request and its response. *)
Definition lookup_events (es : list metric_event) : Prop := es = [] \/ es = [EvFound] \/ es = [EvNotFound].

Lemma error_response_ok st msg f : known_status st -> response_ok (make_error_response st msg f).
Proof. intros Hs. split; [constructor|done]. Qed.

Lemma success_response_ok ip r f : response_ok (build_success_response ip r f).
Proof. split; [apply success_headers_safe|by left]. Qed.

(** What [route] and its branches leave. *)
Definition routed (m : Metrics) (out : HttpResponse * Metrics * list effect) : Prop :=
  let '(resp, m', log) := out in
  response_ok resp /\ Forall is_request_log log /\ exists es, lookup_events es /\ m' = fold_left apply_event es m.

Lemma routed_error st msg f m log : known_status st -> Forall is_request_log log -> routed m (error_response st msg f m log).
Proof. intros Hs Hl. split; [by apply error_response_ok|]. split; [done|]. exists []. split; [by left|done]. Qed.

Lemma handle_lookup_routed sv req f m out : handle_lookup sv req f m = Some out -> routed m out.
Proof.
  unfold handle_lookup. destruct (find_query_param (query req) #"ip") as [ip|].
  2: { intros [= <-]. apply routed_error; [right; by left|done]. }
  destruct (ip == []); [intros [= <-]; apply routed_error; [right; by left|done]|].
  destruct (parse_ip_address ip) as [addr|]; [|intros [= <-]; apply routed_error; [right; by left|done]].
  destruct (lookup (db_ sv) addr) as [[r [|]]|]; [| |done]; cbn [mbind option_bind].
  - intros [= <-]. apply routed_error; [by do 4 right|by repeat constructor].
  - destruct (found r); cbn [negb]; intros [= <-].
    + split; [apply success_response_ok|]. split; [constructor|]. exists [EvFound]. split; [right; by left|done].
    + split; [apply error_response_ok; by do 2 right; left|]. split; [constructor|].
      exists [EvNotFound]. split; [by do 2 right|done].
Qed.

Lemma route_routed sv req f m out : route sv req f m = Some out -> routed m out.
Proof.
  assert (Hplain : forall fm b, routed m (mkHttpResponse 200 fm [] b, m, [])).
  { intros fm b. split; [split; [constructor|by left]|]. split; [constructor|]. exists []. split; [by left|done]. }
  unfold route. destruct (path req == #"/lookup"); [apply handle_lookup_routed|].
  destruct (path req == #"/health").
  { unfold handle_health. destruct (accept_wants_json (accept req)); [|by intros [= <-]].
    destruct (collect_db_infos _ _); [|done]. cbn [mbind option_bind]. by intros [= <-]. }
  destruct (path req == #"/metrics").
  { unfold handle_metrics. destruct (collect_db_infos _ _); [|done]. cbn [mbind option_bind]. by intros [= <-]. }
  intros [= <-]. apply routed_error; [by do 2 right; left|done].
Qed.

Lemma respond_routed sv raw m resp h m' log :
  respond sv raw m = Some (resp, h, m', log) ->
  response_ok resp /\ Forall is_request_log log /\
  exists p es, lookup_events es /\ m' = fold_left apply_event (EvRequest p :: es) m.
Proof.
  unfold respond. destruct (parse_http_request raw) as [req|].
  2: { intros [= <- <- <- <-]. split; [apply error_response_ok; right; by left|].
       split; [by repeat constructor|]. exists [], []. split; [by left|done]. }
  destruct (negb (method req == #"GET") && negb (method req == #"HEAD")).
  { intros [= <- <- <- <-]. split; [split; [|do 3 right; by left]|].
    - unfold headers_safe. cbn. repeat constructor; by apply line_safe_lit.
    - split; [constructor|]. exists (path req), []. split; [by left|done]. }
  destruct (route sv req (negotiate_format (accept req)) (record_request (path req) m)) as [[[resp0 m2] log0]|] eqn:E; [|done].
  cbn [mbind option_bind]. intros [= <- <- <- <-]. apply route_routed in E as (Hr & Hl & es & He & ->).
  split; [done|]. split; [done|]. by exists (path req), es.
Qed.

(** ** When the behaviour is defined *)

Definition pick {A} (which : slot) (now : A * A * A) : A :=
  match which with Country => now.1.1 | Asn => now.1.2 | City => now.2 end.

(** Nothing but a database without metadata makes the accessors undefined. *)
Lemma slot_metadata_undefined now s which :
  geo_inv s -> slot_metadata now (slot_open which (dbs s)) (slot_handle which (dbs s)) (heap s) = None ->
  exists db, slot_db s which = Some db /\ make_metadata now db = None.
Proof.
  intros I. unfold slot_metadata. destruct (slot_open which (dbs s)) eqn:Eo; [cbn [negb]|done].
  destruct (slot_db_some s which I Eo) as (db & E & Hl). rewrite Hl. cbn [mbind option_bind].
  destruct (make_metadata now db) eqn:Em; [done|]. by exists db.
Qed.

Lemma fresh_metadata now db : db_fresh now (Some db) -> make_metadata now db <> None.
Proof. intros (Hb & Ha & Hn). by destruct (make_metadata_value now db Hb Ha Hn) as (t & _ & ->). Qed.

Lemma collect_undefined now s : geo_inv s -> collect_db_infos now s = None ->
  exists which db, slot_db s which = Some db /\ make_metadata (pick which now) db = None.
Proof.
  intros I. unfold collect_db_infos, country_metadata, asn_metadata, city_metadata.
  destruct (slot_metadata _ _ (country_mmdb_ _) _) eqn:E1; [|intros _; exists Country; by apply slot_metadata_undefined].
  destruct (slot_metadata _ _ (asn_mmdb_ _) _) eqn:E2; [|intros _; exists Asn; by apply slot_metadata_undefined].
  destruct (slot_metadata _ _ (city_mmdb_ _) _) eqn:E3; [done|intros _; exists City; by apply slot_metadata_undefined].
Qed.

Lemma collect_defined now s : geo_inv s -> view_fresh now (view s) -> is_Some (collect_db_infos now s).
Proof.
  intros I (H1 & H2 & H3). destruct (collect_db_infos now s) eqn:E; [by eexists|].
  destruct (collect_undefined now s I E) as (which & db & Hdb & Hm). exfalso.
  apply (fresh_metadata (pick which now) db); [|done]. destruct which; cbn in *; by rewrite Hdb in *.
Qed.

Lemma route_defined sv req f m : geo_inv (db_ sv) -> view_fresh (now_ sv) (view (db_ sv)) -> is_Some (route sv req f m).
Proof.
  intros I Hf. destruct (collect_defined _ _ I Hf) as [infos Hi]. unfold route.
  destruct (path req == #"/lookup").
  { unfold handle_lookup. destruct (find_query_param (query req) #"ip") as [ip|]; [|by eexists].
    destruct (ip == []); [by eexists|]. destruct (parse_ip_address ip) as [addr|]; [|by eexists].
    rewrite lookup_view by done. destruct (spec_lookup (view (db_ sv)) addr) as [r [|]]; cbn [mbind option_bind]; [by eexists|].
    destruct (found r); by eexists. }
  destruct (path req == #"/health").
  { unfold handle_health. destruct (accept_wants_json (accept req)); [|by eexists]. rewrite Hi. by eexists. }
  destruct (path req == #"/metrics"); [|by eexists]. unfold handle_metrics. rewrite Hi. by eexists.
Qed.

Lemma respond_defined sv raw m : geo_inv (db_ sv) -> view_fresh (now_ sv) (view (db_ sv)) -> is_Some (respond sv raw m).
Proof.
  intros I Hf. unfold respond. destruct (parse_http_request raw) as [req|]; [|by eexists].
  destruct (_ && _); [by eexists|].
  destruct (route_defined sv req (negotiate_format (accept req)) (record_request (path req) m) I Hf) as [[[resp m2] log] ->].
  by eexists.
Qed.

(** ** Bodies and their formats *)

(** The body is a text of the format: a JSON document, samples of the
    Prometheus exposition format, or key=value lines. *)
Definition readable (f : ResponseFormat) (body : bytes) : Prop :=
  match f with
  | Http.Json => exists v, json_read body = Some v
  | Prometheus => exists samples, prom_read body = Some samples /\ samples <> []
  | Text => exists fields, read_ini body = Some fields /\ fields <> []
  end.

(** The body is a text of the named media type. *)
Definition is_of_type (type body : bytes) : Prop :=
  (type = #"application/json" /\ exists v, json_read body = Some v) \/
  (type = #"text/plain; version=0.0.4; charset=utf-8" /\ exists samples, prom_read body = Some samples /\ samples <> []) \/
  (type = #"text/plain; charset=utf-8" /\ exists fields, read_ini body = Some fields /\ fields <> []).

Lemma readable_type f body : readable f body -> is_of_type (content_type f) body.
Proof. unfold is_of_type. destruct f; cbn [readable content_type]; tauto. Qed.

Lemma error_body_readable st msg f : line_safe msg -> f <> Prometheus -> readable f (body (make_error_response st msg f)).
Proof.
  intros Hmsg Hf. destruct f; [|clear Hf|done].
  - exists (JObj [(#"error", JStr msg)]). rewrite <- (json_read_print (JObj [(#"error", JStr msg)])) by done. f_equal.
    cbn [make_error_response body json_print map commas fst snd]. unfold jstring. flatten_app. reflexivity.
  - exists [(#"error", msg)]. split; [|done]. change (body _) with (field_text (#"error", msg)).
    rewrite <- (app_nil_r (field_text _)). apply (read_ini_fields [(#"error", msg)]). constructor; [|constructor].
    split; [by apply (bool_decide_eq_true_1 (_ ∉ _))|]. split; [by apply line_safe_lit|done].
Qed.

Lemma negotiated_format acc : negotiate_format acc <> Prometheus.
Proof. unfold negotiate_format. by repeat case_match. Qed.

Lemma success_body_readable ip r f : coordinates_finite r = true -> f <> Prometheus -> readable f (body (build_success_response ip r f)).
Proof.
  intros Hr Hf. destruct f; [|clear Hf|done].
  - change (body _) with (build_json_body ip r). exists (result_value ip r). rewrite json_body_print. by apply json_read_print, result_value_wf.
  - change (body _) with (build_ini_body ip r). exists (ini_fields ip r). rewrite ini_body_fields. split; [|done]. apply read_ini_fields, ini_fields_ok.
Qed.

Lemma metrics_body_readable m dbs version lib uptime : readable Prometheus (render_prometheus_metrics m dbs version lib uptime).
Proof.
  exists (samples_of (exposition m dbs version lib uptime)). rewrite render_exposition. split; [|done]. apply prom_read_items, exposition_ok.
Qed.

Lemma health_body_readable dbs version lib uptime : is_finite uptime = true -> forallb db_info_finite dbs = true ->
  readable Http.Json (render_health_json dbs version lib uptime).
Proof. intros Hu Hd. eexists. rewrite render_health_print. by apply json_read_print, health_value_wf. Qed.

(** Ages of databases built in the past are numbers. *)
Lemma slot_metadata_finite now s which md : geo_inv s -> db_fresh now (slot_db s which) ->
  slot_metadata now (slot_open which (dbs s)) (slot_handle which (dbs s)) (heap s) = Some (Some md) -> is_finite (age_days md) = true.
Proof.
  intros I Hf. unfold slot_metadata. destruct (slot_open which (dbs s)) eqn:Eo; [cbn [negb]|done].
  destruct (slot_db_some s which I Eo) as (db & E & Hl). rewrite E in Hf. rewrite Hl. cbn [mbind option_bind]. destruct Hf as (Hb & Ha & Hn).
  destruct (make_metadata_value now db Hb Ha Hn) as (t & _ & ->). intros [= <-]. apply age_finite; [lia|done].
Qed.

Lemma collect_finite now s infos : geo_inv s -> view_fresh now (view s) -> collect_db_infos now s = Some infos ->
  forallb db_info_finite infos = true.
Proof.
  intros I (H1 & H2 & H3). unfold collect_db_infos, country_metadata, asn_metadata, city_metadata.
  destruct (slot_metadata _ _ (country_mmdb_ _) _) as [m1|] eqn:E1; [|done]. destruct (slot_metadata _ _ (asn_mmdb_ _) _) as [m2|] eqn:E2; [|done].
  destruct (slot_metadata _ _ (city_mmdb_ _) _) as [m3|] eqn:E3; [|done]. cbn [mbind option_bind]. intros [= <-].
  cbn [forallb]. unfold db_info_finite. cbn [metadata].
  destruct m1 as [m1|]; [rewrite (slot_metadata_finite _ s Country _ I H1 E1)|]; (destruct m2 as [m2|]; [rewrite (slot_metadata_finite _ s Asn _ I H2 E2)|]);
    (destruct m3 as [m3|]; [rewrite (slot_metadata_finite _ s City _ I H3 E3)|]); done.
Qed.

(** The databases and the clock keep every number finite. *)
Definition finite_numbers (sv : server_view) : Prop :=
  is_finite (uptime_seconds sv) = true /\ view_fresh (now_ sv) (view (db_ sv)) /\
  forall addr r e, lookup (db_ sv) addr = Some (r, e) -> coordinates_finite r = true.

Lemma route_readable sv req f m resp m' log : geo_inv (db_ sv) -> finite_numbers sv -> f <> Prometheus ->
  route sv req f m = Some (resp, m', log) -> readable (format resp) (body resp).
Proof.
  intros I (Hu & Hf & Hc) Hfmt. unfold route.
  destruct (path req == #"/lookup").
  { unfold handle_lookup. destruct (find_query_param (query req) #"ip") as [ip|].
    2: { intros [= <- _ _]. apply error_body_readable; [by apply line_safe_lit|done]. }
    destruct (ip == []); [intros [= <- _ _]; apply error_body_readable; [by apply line_safe_lit|done]|].
    destruct (parse_ip_address ip) as [addr|]; [|intros [= <- _ _]; apply error_body_readable; [by apply line_safe_lit|done]].
    destruct (lookup (db_ sv) addr) as [[r [|]]|] eqn:El; [| |done]; cbn [mbind option_bind].
    - intros [= <- _ _]. apply error_body_readable; [by apply line_safe_lit|done].
    - destruct (found r); cbn [negb]; intros [= <- _ _]; [|apply error_body_readable; [by apply line_safe_lit|done]].
      change (format (build_success_response ip r f)) with f. apply success_body_readable; [by eapply Hc|done]. }
  destruct (path req == #"/health").
  { unfold handle_health. destruct (accept_wants_json (accept req)).
    - destruct (collect_db_infos _ _) as [infos|] eqn:E; [|done]. cbn [mbind option_bind]. intros [= <- _ _].
      apply health_body_readable; [done|by eapply collect_finite].
    - intros [= <- _ _]. exists [(#"status", #"ok")]. by vm_compute. }
  destruct (path req == #"/metrics").
  { unfold handle_metrics. destruct (collect_db_infos _ _) as [infos|]; [|done]. cbn [mbind option_bind]. intros [= <- _ _].
    apply metrics_body_readable. }
  intros [= <- _ _]. apply error_body_readable; [by apply line_safe_lit|done].
Qed.

Lemma respond_readable sv raw m resp h m' log : geo_inv (db_ sv) -> finite_numbers sv ->
  respond sv raw m = Some (resp, h, m', log) -> readable (format resp) (body resp).
Proof.
  intros I Hfin. unfold respond. destruct (parse_http_request raw) as [req|].
  2: { intros [= <- _ _ _]. by apply error_body_readable; [apply line_safe_lit|]. }
  destruct (_ && _).
  { intros [= <- _ _ _]. apply (error_body_readable 405 #"method not allowed"); [by apply line_safe_lit|apply negotiated_format]. }
  destruct (route _ _ _ _) as [[[resp0 m2] log0]|] eqn:E; [|done]. cbn [mbind option_bind]. intros [= <- _ _ _].
  eapply route_readable; [exact I|exact Hfin|apply negotiated_format|exact E].
Qed.

(** Only the parsed method makes an answer one to a HEAD. *)
Lemma respond_is_head sv raw m resp m' log : respond sv raw m = Some (resp, true, m', log) ->
  exists req, parse_http_request raw = Some req /\ method req = #"HEAD".
Proof.
  unfold respond. destruct (parse_http_request raw) as [req|]; [|done]. destruct (_ && _); [done|].
  destruct (route _ _ _ _) as [[[resp0 m2] log0]|]; [|done]. cbn [mbind option_bind]. intros [= _ Hh _ _].
  exists req. split; [done|]. by apply bool_decide_eq_true in Hh.
Qed.

Lemma write_in_effects log out data : Forall is_request_log log -> WriteAll data ∈ log ++ [WriteAll out; Close] -> data = out.
Proof.
  intros Hl [Hin|Hin]%elem_of_app; [rewrite Forall_forall in Hl; by specialize (Hl _ Hin)|]. apply elem_of_cons in Hin as [[= ->]|Hin]; [done|].
  by apply list_elem_of_singleton in Hin.
Qed.

(** ** A lookup, end to end *)

Definition lookup_request (meth ip acc : bytes) : HttpRequest :=
  mkHttpRequest meth #"/lookup" [(#"ip", ip)] acc.

Lemma respond_rendered sv r m : wf_request r = true -> method r = #"GET" \/ method r = #"HEAD" ->
  respond sv (render_request r) m =
  ('(resp, m2, log) ← route sv r (negotiate_format (accept r)) (record_request (path r) m);
   Some (resp, method r == #"HEAD", m2, log)).
Proof. intros Hw Hm. unfold respond. rewrite parse_render_request by done. by destruct Hm as [ ->| ->]. Qed.

(** The status line, headers and body the specification of the databases
    calls for. *)
Definition lookup_answer (v : geo_view) (ip : bytes) (f : ResponseFormat) : HttpResponse :=
  match parse_ip_address ip with
  | None => make_error_response 400 #"invalid ip address" f
  | Some addr =>
      if any_fails v addr then make_error_response 500 #"internal database error" f
      else if found (result_of v addr) then build_success_response ip (result_of v addr) f
      else make_error_response 404 #"no geoip information found" f
  end.

Lemma handle_lookup_answer sv meth ip acc f m : geo_inv (db_ sv) -> ip <> [] ->
  exists m' log, handle_lookup sv (lookup_request meth ip acc) f m = Some (lookup_answer (view (db_ sv)) ip f, m', log) /\
    Forall is_log log.
Proof.
  intros I Hip. unfold handle_lookup, lookup_answer. cbn [lookup_request query find_query_param fst snd].
  rewrite bool_decide_refl. rewrite bool_decide_neq by done.
  destruct (parse_ip_address ip) as [addr|]; [|do 2 eexists; split; [done|constructor]].
  rewrite lookup_view by done. destruct (spec_lookup (view (db_ sv)) addr) as [r e] eqn:E.
  assert (He : e = any_fails (view (db_ sv)) addr) by (by rewrite <- spec_lookup_error, E).
  cbn [mbind option_bind]. rewrite <- He. destruct e; [do 2 eexists; split; [done|by repeat constructor]|].
  rewrite spec_lookup_result in E by done. injection E as <-.
  destruct (found (result_of (view (db_ sv)) addr)); cbn [negb]; do 2 eexists; (split; [done|constructor]).
Qed.

(** ** HEAD *)

Definition with_method (meth : bytes) (r : HttpRequest) : HttpRequest := mkHttpRequest meth (path r) (query r) (accept r).

Lemma route_method sv meth r f m : route sv (with_method meth r) f m = route sv r f m.
Proof. done. Qed.

Lemma wf_request_method meth r : wf_request r = true -> meth = #"GET" \/ meth = #"HEAD" -> wf_request (with_method meth r) = true.
Proof.
  unfold wf_request. cbn [with_method method path query accept]. rewrite !andb_true_iff.
  intros ((((((_ & _) & ?) & ?) & ?) & ?) & ?) Hm. repeat split; try done; by destruct Hm as [ ->| ->].
Qed.

(** ** Reloading *)

Definition spec_reload (fs : file_system) (which : slot) (db_path : bytes) (v : geo_view) : geo_view * bool :=
  if db_path == [] then (v, true)
  else match fs (c_str db_path) with
       | inl _ => (v, false)
       | inr db => (set_slot which db v, true)
       end.

(** All three slots, and whether every reload succeeded. *)
Definition spec_reload_all (fs : file_system) (cfg : Config) (v : geo_view) : geo_view * bool :=
  let '(v1, ok1) := spec_reload fs Country (country_db cfg) v in
  let '(v2, ok2) := spec_reload fs Asn (asn_db cfg) v1 in
  let '(v3, ok3) := spec_reload fs City (city_db cfg) v2 in
  (v3, ok1 && ok2 && ok3).

Lemma slot_db_set which db s : geo_inv s ->
  slot_db (mkGeo (set_handle which (next_handle (heap s)) (dbs s)) (swapped_heap which db s)) which = Some db.
Proof.
  intros I. pose proof (open_slot_view which db s I) as Hv. unfold view in Hv.
  destruct which; cbn in Hv; by injection Hv.
Qed.

(** A reload does what [spec_reload] says, or has opened a database that has
    no metadata and describes it. *)
Lemma reload_block_refines fs which db_path now what s : geo_inv s ->
  let run := reload_block db_path (open_slot fs which)
      (fun s => slot_metadata now (slot_open which (dbs s)) (slot_handle which (dbs s)) (heap s)) what s in
  (exists s' log ok, run = Some (s', log, ok) /\
    geo_inv s' /\ spec_reload fs which db_path (view s) = (view s', ok) /\ Forall is_log log) \/
  (run = None /\ db_path <> [] /\ exists db, fs (c_str db_path) = inr db /\ make_metadata now db = None).
Proof.
  intros I. unfold reload_block, spec_reload.
  case_bool_decide as Hpath; cbn [negb]; [left; exists s, [], true; do 3 (split; [done|]); constructor|].
  destruct (fs (c_str db_path)) as [st|db] eqn:E.
  - rewrite (open_slot_failed _ _ _ _ _ E). left. do 3 eexists. split; [done|]. do 2 (split; [done|]). by repeat constructor.
  - rewrite (open_slot_ok _ _ _ _ _ I E). cbn [mbind option_bind].
    assert (I' := open_slot_inv which db s I). destruct (slot_metadata _ _ _ _) as [md|] eqn:Em; cbn [mbind option_bind].
    + left. do 3 eexists. split; [done|]. split; [done|]. rewrite open_slot_view by done. split; [done|]. by repeat constructor.
    + right. split; [done|]. split; [done|]. destruct (slot_metadata_undefined now _ which I' Em) as (db' & Hdb & Hm).
      rewrite slot_db_set in Hdb by done. injection Hdb as <-. by exists db.
Qed.

Definition db_path_of (cfg : Config) (which : slot) : bytes :=
  match which with Country => country_db cfg | Asn => asn_db cfg | City => city_db cfg end.

Lemma reload_databases_total cfg fs now s : geo_inv s ->
  (exists s' log ok, reload_databases cfg fs now s = Some (s', log ++
      [Log Info (if (ok : bool) then #"database reload complete" else #"database reload finished with errors")]) /\
    geo_inv s' /\ spec_reload_all fs cfg (view s) = (view s', ok) /\ Forall is_log log) \/
  (reload_databases cfg fs now s = None /\
   exists which db, db_path_of cfg which <> [] /\ fs (c_str (db_path_of cfg which)) = inr db /\ make_metadata (pick which now) db = None).
Proof.
  intros I. unfold reload_databases, spec_reload_all, reload_country, reload_asn, reload_city, country_metadata, asn_metadata, city_metadata.
  destruct (reload_block_refines fs Country (country_db cfg) now.1.1 #"country" s I) as [(s1 & l1 & ok1 & E1 & I1 & V1 & L1)|[E1 (Hp & db & Hn)]];
    cbn [open_slot slot_open slot_handle] in E1; rewrite E1; cbn [mbind option_bind]; [|right; split; [done|by exists Country, db]].
  destruct (reload_block_refines fs Asn (asn_db cfg) now.1.2 #"ASN" s1 I1) as [(s2 & l2 & ok2 & E2 & I2 & V2 & L2)|[E2 (Hp & db & Hn)]];
    cbn [open_slot slot_open slot_handle] in E2; rewrite E2; cbn [mbind option_bind]; [|right; split; [done|by exists Asn, db]].
  destruct (reload_block_refines fs City (city_db cfg) now.2 #"city" s2 I2) as [(s3 & l3 & ok3 & E3 & I3 & V3 & L3)|[E3 (Hp & db & Hn)]];
    cbn [open_slot slot_open slot_handle] in E3; rewrite E3; cbn [mbind option_bind]; [|right; split; [done|by exists City, db]].
  left. rewrite V1, V2, V3. exists s3, (l1 ++ l2 ++ l3), (ok1 && ok2 && ok3). rewrite <- !app_assoc.
  split; [done|]. split; [done|]. split; [done|]. by rewrite !Forall_app.
Qed.

Lemma reload_databases_refines cfg fs now s :
  geo_inv s -> fs_fresh now.1.1 fs -> fs_fresh now.1.2 fs -> fs_fresh now.2 fs ->
  exists s' log ok, reload_databases cfg fs now s = Some (s', log ++
      [Log Info (if (ok : bool) then #"database reload complete" else #"database reload finished with errors")]) /\
    geo_inv s' /\ spec_reload_all fs cfg (view s) = (view s', ok) /\ Forall is_log log.
Proof.
  intros I F1 F2 F3. destruct (reload_databases_total cfg fs now s I) as [?|[_ (which & db & _ & Hdb & Hm)]]; [done|].
  exfalso. apply (fresh_metadata (pick which now) db); [|done]. destruct which; [by apply (F1 _ _ Hdb)|by apply (F2 _ _ Hdb)|by apply (F3 _ _ Hdb)].
Qed.

Lemma run_opens_inv calls errs s : run_opens calls geo_init = Some (errs, s) -> geo_inv s.
Proof.
  destruct (run_opens_refines calls geo_init geo_inv_init) as (errs' & s' & E & I & _).
  rewrite E. by intros [= _ <-].
Qed.

(** ** Properties *)

(** C2. What one connection does, whatever arrives and whatever the databases
    hold: if the read fails or times out, the socket is only closed and
    nothing is counted; otherwise exactly one response is written and then
    the socket is closed, exactly one request and the status of that response
    are counted, the status is one that has a counter, and the response reads
    back as exactly its own header lines and body.  Nothing of the request
    reaches the log: what is logged is one of two fixed lines. *)
Theorem one_response_per_connection (cfg : Config) (start : Z) (turns : list read_turn) (sv : server_view)
    (m m' : Metrics) (effects : list effect)
    (Hrun : handle_connection cfg start turns sv m = Some (m', effects)) :
  (effects = [Close] /\ m' = m) \/
  (exists log resp b p es,
     effects = log ++ [WriteAll (build_http_response resp b); Close] /\ Forall is_request_log log /\
     known_status (status resp) /\ lookup_events es /\
     m' = fold_left apply_event (EvRequest p :: es ++ [EvResponse (status resp)]) m /\
     read_head [] (build_http_response resp b) = Some (head_lines resp b, if b then body resp else [])).
Proof.
  unfold handle_connection in Hrun. destruct (read_http_head _ _ _ _) as [[[rr raw] w]|]; [|done]. cbn [mbind option_bind] in Hrun.
  destruct rr; try (injection Hrun as <- <-; by left).
  - destruct (respond sv raw m) as [[[[resp h] m1] log]|] eqn:E; [|done]. cbn [mbind option_bind] in Hrun.
    injection Hrun as <- <-. right. apply respond_routed in E as ((Hh & Hs) & Hl & p & es & He & ->).
    exists log, resp, (negb h), p, es. repeat (split; [done|]). split; [by rewrite app_comm_cons, fold_left_app|].
    by apply build_http_response_head.
  - injection Hrun as <- <-. right. exists [], (make_error_response 400 #"request too large" Http.Json), true, [], [].
    split; [done|]. split; [constructor|]. split; [right; by left|]. split; [by left|]. split; [done|].
    apply build_http_response_head. constructor.
Qed.

(** C22. A connection always ends with a close: when its read ends and the
    databases were built in the past, [handle_connection] is defined and its
    last effect closes the socket, for every request. *)
Theorem connection_always_closed (cfg : Config) (start : Z) (turns : list read_turn) (sv : server_view) (m : Metrics)
    (calls : list open_call) (errs : list (option bytes))
    (Hdb : run_opens calls geo_init = Some (errs, db_ sv))
    (Hfresh : view_fresh (now_ sv) (view (db_ sv)))
    (Hread : Exists (fun t => (start + 5 * ns_per_s <= now t)%Z) turns) :
  exists m' effects, handle_connection cfg start turns sv m = Some (m', effects ++ [Close]).
Proof.
  assert (I : geo_inv (db_ sv)) by (by eapply run_opens_inv).
  unfold handle_connection. destruct (read_loop_deadline (Z.to_nat (max_request_bytes cfg)) (start + 5 * ns_per_s) turns [] [] Hread)
    as [[[rr raw] w] Hr]. unfold read_http_head. rewrite Hr. cbn [mbind option_bind].
  destruct rr; try (by exists m, []).
  - destruct (respond_defined sv raw m I Hfresh) as [[[[resp h] m1] log] ->]. cbn [mbind option_bind].
    eexists _, (log ++ [WriteAll _]). by rewrite <- app_assoc.
  - by eexists _, [WriteAll _].
Qed.

(** C24. The Content-Type is true.  Whatever a connection sends, what the
    server writes to it is a head and a body that an HTTP reader takes apart;
    a body comes with the Content-Type line of its format, and is a text of
    that format: a JSON document for application/json, samples for the
    Prometheus type, key=value lines for text/plain; only the answer to a HEAD
    has no body.  The uptime and the coordinates in the databases must be finite
    numbers (the finding at server.cpp:109 is the other case). *)
Theorem content_type_true (cfg : Config) (start : Z) (turns : list read_turn) (sv : server_view) (m m' : Metrics)
    (effects : list effect) (data : bytes) (calls : list open_call) (errs : list (option bytes))
    (Hdb : run_opens calls geo_init = Some (errs, db_ sv)) (Hfin : finite_numbers sv)
    (Hrun : handle_connection cfg start turns sv m = Some (m', effects)) (Hdata : WriteAll data ∈ effects) :
  exists lines body, read_head [] data = Some (lines, body) /\
    ((exists type, (#"Content-Type: " ++ type) ∈ lines /\ is_of_type type body) \/
     (body = [] /\ exists raw req w, read_http_head (Z.to_nat (max_request_bytes cfg)) 5 start turns = Some (ReadOk, raw, w) /\
          parse_http_request raw = Some req /\ method req = #"HEAD")).
Proof.
  assert (I : geo_inv (db_ sv)) by (by eapply run_opens_inv).
  assert (Hhead : forall resp b, response_ok resp -> read_head [] (build_http_response resp b) = Some (head_lines resp b, if b then body resp else [])).
  { intros resp b [Hs _]. by apply build_http_response_head. }
  unfold handle_connection in Hrun. destruct (read_http_head _ _ _ _) as [[[rr raw] w]|] eqn:Er; [|done]. cbn [mbind option_bind] in Hrun.
  destruct rr; try (injection Hrun as <- <-; by apply list_elem_of_singleton in Hdata).
  - destruct (respond sv raw m) as [[[[resp h] m1] log]|] eqn:E; [|done]. cbn [mbind option_bind] in Hrun. injection Hrun as <- <-.
    destruct (respond_routed _ _ _ _ _ _ _ E) as (Hok & Hl & _). apply (write_in_effects _ _ _ Hl) in Hdata as ->.
    do 2 eexists. split; [by apply Hhead|]. destruct h; cbn [negb].
    + right. split; [done|]. destruct (respond_is_head _ _ _ _ _ _ E) as (req & Hp & Hm). by exists raw, req, w.
    + left. exists (content_type (format resp)). split; [right; by left|]. by eapply readable_type, respond_readable.
  - injection Hrun as <- <-. apply (write_in_effects [] _ _ ltac:(constructor)) in Hdata as ->.
    do 2 eexists. split; [apply Hhead, error_response_ok; right; by left|]. left. exists (content_type Http.Json). split; [right; by left|].
    by apply readable_type, (error_body_readable 400 #"request too large"); [apply line_safe_lit|].
Qed.

(** C1. A lookup, end to end: for every address text and Accept value and
    every history of opens and reloads, a request for /lookup with one ip
    parameter and one Accept line, rendered canonically, that was read
    completely is answered with exactly the response the databases call for:
    400 for a text that is no address, 500 when a database fails, 404 when
    none has an entry, and otherwise the result taken from the databases in
    use.  HEAD gets the same response without its body. *)
Theorem lookup_end_to_end (cfg : Config) (start : Z) (turns : list read_turn) (sv : server_view) (m : Metrics)
    (calls : list open_call) (errs : list (option bytes)) (ip acc meth : bytes) (w : list Z)
    (Hdb : run_opens calls geo_init = Some (errs, db_ sv))
    (Hmeth : meth = #"GET" \/ meth = #"HEAD")
    (Hwf : wf_request (lookup_request meth ip acc) = true) (Hip : ip <> [])
    (Hread : read_http_head (Z.to_nat (max_request_bytes cfg)) 5 start turns =
             Some (ReadOk, render_request (lookup_request meth ip acc), w)) :
  exists m' log,
    handle_connection cfg start turns sv m =
    Some (m', log ++ [WriteAll (build_http_response (lookup_answer (view (db_ sv)) ip (negotiate_format acc))
                                  (meth == #"GET")); Close]).
Proof.
  assert (I : geo_inv (db_ sv)) by (by eapply run_opens_inv).
  unfold handle_connection. rewrite Hread. cbn [mbind option_bind].
  rewrite respond_rendered by done. unfold route. cbn [lookup_request path accept method]. rewrite bool_decide_refl.
  destruct (handle_lookup_answer sv meth ip acc (negotiate_format acc) (record_request #"/lookup" m) I Hip)
    as (m' & log & E & _). rewrite E. cbn [mbind option_bind].
  do 2 eexists. do 4 f_equal. by destruct Hmeth as [ ->| ->].
Qed.

(** C27. HEAD mirrors GET: for every request and every state of the server,
    the two methods get the same response object, counters and log; on the
    wire the HEAD response is the GET response without its body and without
    the Content-Type line, with the same Content-Length. *)
Theorem head_mirrors_get (sv : server_view) (r : HttpRequest) (m : Metrics)
    (Hwf : wf_request r = true) :
  let get := respond sv (render_request (with_method #"GET" r)) m in
  let head := respond sv (render_request (with_method #"HEAD" r)) m in
  match get with
  | Some (resp, h, m', log) =>
      h = false /\ head = Some (resp, true, m', log) /\
      read_head [] (build_http_response resp true) = Some (head_lines resp true, body resp) /\
      read_head [] (build_http_response resp false) = Some (delete 1 (head_lines resp true), [])
  | None => head = None
  end.
Proof.
  cbn zeta. rewrite !respond_rendered; [|by apply wf_request_method; auto|by right|by apply wf_request_method; auto|by left].
  rewrite !route_method. cbn [with_method accept path method].
  destruct (route sv r _ _) as [[[resp m2] log]|] eqn:E; cbn [mbind option_bind]; [|done].
  apply route_routed in E as ((Hh & _) & _). split; [done|]. split; [done|].
  split; [by apply build_http_response_head|]. rewrite build_http_response_head by done. done.
Qed.

(** C13. A SIGHUP reload is all-or-nothing per database: whatever the files
    are by then, if they were built in the past, the databases in use
    afterwards are the new file's for every configured path that opens and the
    previous ones for every path that does not; no handle is lost or used dead; and the last log line says whether
    every reload succeeded. *)
Theorem reload_keeps_or_replaces (cfg : Config) (fs : file_system) (now : Z * Z * Z) (s : geo_state)
    (calls : list open_call) (errs : list (option bytes))
    (Hdb : run_opens calls geo_init = Some (errs, s))
    (F1 : fs_fresh now.1.1 fs) (F2 : fs_fresh now.1.2 fs) (F3 : fs_fresh now.2 fs) :
  exists s' log ok h, reload_databases cfg fs now s = Some (s', log ++
      [Log Info (if (ok : bool) then #"database reload complete" else #"database reload finished with errors")]) /\
    spec_reload_all fs cfg (view s) = (view s', ok) /\
    GeoIpDatabases_destroy s' = Some h /\ live h = ∅.
Proof.
  assert (I : geo_inv s) by (by eapply run_opens_inv).
  destruct (reload_databases_refines cfg fs now s I F1 F2 F3) as (s' & log & ok & E & I' & V & _).
  destruct (destroy_closes s' I') as (h & Eh & Hh). by exists s', log, ok, h.
Qed.
End ServerSpec.

(** [write_all] never writes anything but the response: what reached the
    socket is a prefix of it, all of it when the call succeeds; and the call
    ends once as many [send] calls made progress as there are bytes. *)
Theorem write_all_prefix (data : bytes) (answers : list send_result) :
  (forall out ok, write_all data 0 answers = Some (out, ok) ->
     (exists k, out = take k data) /\ (ok = true -> out = data)) /\
  (length data <= progress_count answers -> is_Some (write_all data 0 answers)).
Proof. split; [intros out ok; apply write_all_result|intros Hn; by apply write_all_ends]. Qed.

(** ** The metrics file *)

(** What a reader finds in a file of the disk. *)
Lemma tmp_path_whole (f : bytes) : NUL ∉ f -> c_str (f ++ #".tmp") = f ++ #".tmp".
Proof. intros Hf. apply c_str_id. rewrite not_elem_of_app. split; [done|]. by apply (bool_decide_eq_true_1 (NUL ∉ _)). Qed.
Lemma tmp_path_differs (f : bytes) : f ++ #".tmp" <> f.
Proof. intros E. apply (f_equal length) in E. rewrite length_app in E. change (length #".tmp") with 4 in E. lia. Qed.

(** Writing the temporary file changes nothing else. *)
Lemma writes_elsewhere (d : disk) tmp p (ts : list bytes) : p <> tmp ->
  Forall (fun d' : disk => d' !! p = d !! p) (d :: map (fun t => <[tmp := t]> d) ts).
Proof. intros Hp. constructor; [done|]. apply Forall_map, Forall_true. intros t. by rewrite lookup_insert_ne. Qed.

(** C28. The metrics file is replaced by a rename.  Up to the rename, the file
    has its old content at every moment, and it keeps it for good when opening
    or writing the temporary file or the rename fails, which is logged once;
    when all succeed, nothing is logged, the temporary file is gone and the
    file has the bytes that reached the disk: the complete new text when all of
    them did (an error at the close of the stream is not noticed, the finding
    at server.cpp:863).  No other file is touched. *)
Theorem metrics_file_atomic (metrics_file text errno : bytes) (a : file_answers) (d : disk) (Hnul : NUL ∉ metrics_file) :
  let '(states, log) := write_metrics_file metrics_file text errno a d in
  let replaced := open_ok a && good a && rename_ok a in
  let tmp := metrics_file ++ #".tmp" in
  Forall (fun d' : disk => d' !! metrics_file = d !! metrics_file) (if replaced then removelast states else states) /\
  (replaced = true -> log = [] /\
     exists d', last states = Some d' /\ d' !! tmp = None /\ d' !! metrics_file = Some (take (put a + flush a) text) /\
       (length text <= put a + flush a -> d' !! metrics_file = Some text)) /\
  (replaced = false -> exists msg, log = [Log Warn msg]) /\
  (forall p, p <> metrics_file -> p <> tmp -> Forall (fun d' : disk => d' !! p = d !! p) states).
Proof.
  pose proof (tmp_path_differs metrics_file) as Hne. unfold write_metrics_file. rewrite tmp_path_whole, (c_str_id metrics_file) by done.
  set (tmp := metrics_file ++ #".tmp") in *. pose proof (fun p (Hp : p <> tmp) ts => writes_elsewhere d tmp p ts Hp) as Hw.
  destruct (open_ok a); cbn [negb andb]; [destruct (good a); cbn [negb andb]; [destruct (rename_ok a)|]|].
  2: split; [exact (Hw metrics_file ltac:(done) [_; _; _])|]; split; [done|]; split; [by eexists|]; intros p _ Hp; exact (Hw p Hp [_; _; _]).
  2: split; [exact (Hw metrics_file ltac:(done) [_; _; _])|]; split; [done|]; split; [by eexists|]; intros p _ Hp; exact (Hw p Hp [_; _; _]).
  2: split; [exact (Hw metrics_file ltac:(done) [])|]; split; [done|]; split; [by eexists|]; intros p _ Hp; exact (Hw p Hp []).
  split; [exact (Hw metrics_file ltac:(done) [_; _; _])|]. split; [|split; [done|]].
  - intros _. split; [done|]. eexists. split; [done|]. unfold rename. rewrite lookup_insert_eq.
    rewrite lookup_insert_ne, lookup_delete_eq, lookup_insert_eq by done. split; [done|]. split; [done|].
    intros Hl. by rewrite take_ge.
  - intros p Hm Hp. pose proof (Hw p Hp [[]; take (put a) text; take (put a + flush a) text]) as H.
    apply (Forall_app_2 _ _ [_] H). constructor; [|constructor]. unfold rename. rewrite lookup_insert_eq, lookup_insert_ne, lookup_delete_ne, lookup_insert_ne by done. done.
Qed.

(** Witness of C28: a write whose text stays in the buffer until the close. *)
Example metrics_file_atomic_witness :
  let d : disk := {[ #"/m" := #"old" ]} in
  let '(states, log) := write_metrics_file #"/m" #"new!" [] (mkAnswers true 0 true 4 true) d in
  let replaced := true in
  let tmp := #"/m" ++ #".tmp" in
  Forall (fun d' : disk => d' !! #"/m" = d !! #"/m") (if replaced then removelast states else states) /\
  (replaced = true -> log = [] /\
     exists d', last states = Some d' /\ d' !! tmp = None /\ d' !! #"/m" = Some (take 4 #"new!") /\
       (4 <= 4 -> d' !! #"/m" = Some #"new!")) /\
  (replaced = false -> exists msg, log = [Log Warn msg]) /\
  (forall p, p <> #"/m" -> p <> tmp -> Forall (fun d' : disk => d' !! p = d !! p) states).
Proof.
  apply (metrics_file_atomic #"/m" #"new!" [] (mkAnswers true 0 true 4 true)). by apply (bool_decide_eq_true_1 (NUL ∉ _)).
Defined.

(** When the disk is full at the close, the truncated text replaces the file. *)
Lemma metrics_file_full_disk :
  List.last (map (fun d' : disk => d' !! #"/m")
    (write_metrics_file #"/m" #"new!" [] (mkAnswers true 0 true 0 true) {[ #"/m" := #"old" ]}).1) None = Some [].
Proof. by vm_compute. Qed.

(** ** A small server for the witnesses *)

Definition sample_calls : list (@open_call simple_maxmind) := [mkCall (sample_fs : @file_system simple_maxmind) City #"/db"].

Definition sample_state : @geo_state simple_maxmind :=
  match run_opens sample_calls geo_init with Some (_, s) => s | None => geo_init end.

Definition sample_server : @server_view simple_maxmind :=
  mkServer sample_state (1701000000, 1701000000, 1701000000)%Z (double_of_Z 1).

Definition sample_turn (meth : bytes) : read_turn :=
  mkTurn 0 PollReady (RecvData (render_request (lookup_request meth #"1.1.1.1" []))).

(** Witness of C2: a HEAD request. *)
Example one_response_per_connection_witness :
  match handle_connection (Config_default 8) 0 [sample_turn #"HEAD"] sample_server Metrics_zero with
  | Some (m', effects) =>
      (effects = [Close] /\ m' = Metrics_zero) \/
      (exists log resp b p es,
         effects = log ++ [WriteAll (build_http_response resp b); Close] /\ Forall is_request_log log /\
         known_status (status resp) /\ lookup_events es /\
         m' = fold_left apply_event (EvRequest p :: es ++ [EvResponse (status resp)]) Metrics_zero /\
         read_head [] (build_http_response resp b) = Some (head_lines resp b, if b then body resp else []))
  | None => False
  end.
Proof.
  destruct (handle_connection _ _ _ _ _) as [[m' effects]|] eqn:E; [|by vm_compute in E].
  exact (one_response_per_connection (Config_default 8) 0 [sample_turn #"HEAD"] sample_server Metrics_zero m' effects E).
Defined.

Lemma sample_finite : finite_numbers sample_server.
Proof.
  split; [done|]. split; [split; [|split]; [done|done|]; vm_compute; by repeat split|].
  intros addr r e. change (db_ sample_server) with sample_state.
  assert (E : sample_state = mkGeo (mkDatabases 0 false 0 false 1 true) (mkHeap 2 {[1 := sample_db]})) by (vm_compute; reflexivity).
  rewrite E. unfold lookup. cbn [dbs heap live country_open_ asn_open_ city_open_ city_mmdb_ mbind option_bind andb negb].
  rewrite lookup_singleton_eq. cbn [mbind option_bind]. unfold consult. cbn [MMDB_lookup_sockaddr simple_maxmind simple_broken sample_db].
  change (negb (0 =? MMDB_SUCCESS)%Z) with false. cbv iota. unfold assoc, sample_db. cbn [simple_entries List.find].
  destruct (bool_decide _); intros [= <- <-]; by vm_compute.
Qed.

Lemma sample_answer : exists m' data,
  handle_connection (Config_default 8) 0 [sample_turn #"GET"] sample_server Metrics_zero = Some (m', [WriteAll data; Close]).
Proof.
  destruct (handle_connection _ _ _ _ _) as [[m' effects]|] eqn:E; [|by vm_compute in E].
  destruct effects as [|[| |] [|[| |] [|]]]; try (by vm_compute in E). by exists m', data.
Qed.

(** Witness of C24: the answer to a lookup. *)
Example content_type_true_witness :
  exists m' data lines body,
    handle_connection (Config_default 8) 0 [sample_turn #"GET"] sample_server Metrics_zero = Some (m', [WriteAll data; Close]) /\
    read_head [] data = Some (lines, body) /\
    ((exists type, (#"Content-Type: " ++ type) ∈ lines /\ is_of_type type body) \/
     (body = [] /\ exists raw req w, read_http_head (Z.to_nat (max_request_bytes (Config_default 8))) 5 0 [sample_turn #"GET"] = Some (ReadOk, raw, w) /\
          parse_http_request raw = Some req /\ method req = #"HEAD")).
Proof.
  destruct sample_answer as (m' & data & E).
  destruct (content_type_true (Config_default 8) 0 [sample_turn #"GET"] sample_server Metrics_zero m' [WriteAll data; Close] data sample_calls [None])
    as (lines & body & H); [by vm_compute|exact sample_finite|exact E|by left|].
  exists m', data, lines, body. split; [exact E|exact H].
Defined.

(** Witness of C22: a client that sends nothing until the deadline. *)
Example connection_always_closed_witness :
  exists m' effects,
    handle_connection (Config_default 8) 0 [mkTurn 0 PollEintr RecvEintr; mkTurn 5000000000 PollTimedOut RecvClosed]
      sample_server Metrics_zero = Some (m', effects ++ [Close]).
Proof.
  apply (connection_always_closed _ _ _ sample_server _ sample_calls [None]).
  - by vm_compute.
  - split; [|split]; [done|done|]. vm_compute. by repeat split.
  - apply Exists_cons_tl, Exists_cons_hd. by vm_compute.
Defined.

(** Witness of C1: a GET for an address the database knows. *)
Example lookup_end_to_end_witness :
  exists m' log,
    handle_connection (Config_default 8) 0 [sample_turn #"GET"] sample_server Metrics_zero =
    Some (m', log ++ [WriteAll (build_http_response (lookup_answer (view sample_state) #"1.1.1.1" Http.Json) true); Close]).
Proof.
  apply (lookup_end_to_end (Config_default 8) 0 [sample_turn #"GET"] sample_server Metrics_zero sample_calls [None]
           #"1.1.1.1" [] #"GET" [5000%Z]); by (left || vm_compute).
Defined.

(** Witness of C27: a lookup with a text body. *)
Example head_mirrors_get_witness :
  let r := lookup_request #"GET" #"1.1.1.1" #"text/plain" in
  match respond sample_server (render_request (with_method #"GET" r)) Metrics_zero with
  | Some (resp, h, m', log) =>
      h = false /\ respond sample_server (render_request (with_method #"HEAD" r)) Metrics_zero = Some (resp, true, m', log) /\
      read_head [] (build_http_response resp true) = Some (head_lines resp true, body resp) /\
      read_head [] (build_http_response resp false) = Some (delete 1 (head_lines resp true), [])
  | None => respond sample_server (render_request (with_method #"HEAD" r)) Metrics_zero = None
  end.
Proof.
  apply (head_mirrors_get sample_server (lookup_request #"GET" #"1.1.1.1" #"text/plain") Metrics_zero). by vm_compute.
Defined.

(** Witness of C13: the file of the city database is gone. *)
Example reload_keeps_or_replaces_witness :
  let cfg := set_city_db #"/missing" (Config_default 8) in
  exists s' log ok h, reload_databases cfg sample_fs (1701000000, 1701000000, 1701000000)%Z sample_state = Some (s', log ++
      [Log Info (if (ok : bool) then #"database reload complete" else #"database reload finished with errors")]) /\
    spec_reload_all sample_fs cfg (view sample_state) = (view s', ok) /\
    GeoIpDatabases_destroy s' = Some h /\ live h = ∅.
Proof.
  assert (F : @fs_fresh simple_maxmind 1701000000 sample_fs).
  { intros p db. unfold sample_fs. case_bool_decide; [|done]. intros [= <-]. cbn. lia. }
  apply (@reload_keeps_or_replaces simple_maxmind (set_city_db #"/missing" (Config_default 8)) sample_fs
           (1701000000, 1701000000, 1701000000)%Z sample_state sample_calls [None]); [by vm_compute|exact F|exact F|exact F].
Defined.
