(* ===== verification/System.v ===== *)
(** * Programs over the operating system

    The parts of the program that are sequences of system calls are written
    as trees of calls: a call, and for each answer the rest.  [exec] runs such
    a program against an oracle that gives the answers; a state keeps what the
    process owns (descriptors, socket files), the last time read and the trace
    of calls.  What the kernel guarantees of its answers is [lawful]; anything
    else is up to the oracle, the time of day and the contents of the database
    files included.  A program whose behaviour becomes undefined has no result,
    and [stop] is the state it was in then.  [triple] is the Hoare triple the
    proofs use, with a second postcondition for that state. *)

From stdpp Require Import gmap.
From S2P Require Import Prelude CLib Log Double IpAddr GeoIp GeoIpSpec Metrics Server.
From Stdlib Require Import Ascii.

(** The C library's texts for an [errno] and for an address. *)
Class Libc := { strerror : Z -> bytes; inet_ntop : sockaddr_storage -> bytes }.

Definition ENOENT : Z := 2.
Definition EINTR : Z := 4.
Definition EAGAIN : Z := 11.
Definition EEXIST : Z := 17.

(** ** Calls *)

Inductive domain := AfUnix | AfInet | AfInet6.
Inductive sock_addr := UnixAddr (sun_path : bytes) | InetAddr (a : sockaddr_storage).
Inductive sock_opt := ReuseAddr | V6Only | RecvTimeout (seconds : Z) | SendTimeout (seconds : Z).
Inductive node := NodeSocket | NodeDir | NodeOther.
Inductive access_mode := F_OK | W_OK.
Inductive signal := SIGHUP | SIGINT | SIGTERM.

Section System.
Context `{MaxMindDB}.

Inductive call :=
| Sigprocmask
| Signalfd
| Socket (d : domain) (nonblock : bool)
| Connect (fd : Z) (addr : sock_addr)
| Bind (fd : Z) (addr : sock_addr)
| Listen (fd : Z)
| Setsockopt (fd : Z) (opt : sock_opt)
| CloseFd (fd : Z)
| Send (fd : Z) (data : bytes)
| Receive (fd : Z) (size : nat)
| Mkdir (path : bytes) (mode : Z)
| Lstat (path : bytes)
| Access (path : bytes) (mode : access_mode)
| Unlink (path : bytes)
| Chmod (path : bytes) (mode : Z)
| ReadFile (path : bytes)
| Getenv
| IsRegular
| Concurrency
| Databases               (* the database files as they are, and the time *)
| LogLine (level : LogLevel) (msg : bytes)
| SetDebugEnabled (enabled : bool)
| Print (to : stream) (text : bytes)
| IgnoreSigpipe
| PoolStart (num_threads : Z)
| PoolSubmit (fd : Z)
| PoolShutdown            (* returns when the workers are joined *)
| Poll (fds : list Z) (timeout : Z)
| Accept4 (fd : Z)
| ReadSignal (fd : Z)
| SteadyNow               (* nanoseconds *)
| Snapshot                (* the counters, the time at three calls, the uptime *)
| WriteMetrics (path text : bytes).

(** Success or an [errno]. *)
Definition res (A : Type) : Type := Z + A.

Definition answer (c : call) : Type :=
  match c with
  | Sigprocmask | Connect _ _ | Bind _ _ | Listen _ | Setsockopt _ _ | Mkdir _ _ | Access _ _
  | Unlink _ | Chmod _ _ => res unit
  | Signalfd | Socket _ _ | Accept4 _ => res Z
  | Send _ _ => res nat
  | Receive _ _ => res bytes
  | Lstat _ => res node
  | ReadFile _ => option bytes
  | Getenv => bytes -> option bytes
  | IsRegular => bytes -> bool
  | Concurrency => Z
  | Databases => file_system * (Z * Z * Z)
  | Poll _ _ => res (list bool)
  | ReadSignal _ => option signal
  | SteadyNow => Z
  | Snapshot => Metrics * (Z * Z * Z) * double
  | WriteMetrics _ _ => file_answers * Z
  | CloseFd _ | LogLine _ _ | SetDebugEnabled _ | Print _ _ | IgnoreSigpipe | PoolStart _ | PoolSubmit _ | PoolShutdown => unit
  end.

(** A call and its answer. *)
Record event := Event { ev_call : call; ev_answer : answer ev_call }.

(** ** Programs *)

(** [Undefined]: the C++ behaviour is undefined. *)
Inductive prog (A : Type) :=
| Ret (a : A)
| Sys (c : call) (k : answer c -> prog A)
| Undefined.

#[global] Arguments Ret {A} a.
#[global] Arguments Sys {A} c k.
#[global] Arguments Undefined {A}.

Fixpoint bind {A B} (m : prog A) (f : A -> prog B) : prog B :=
  match m with
  | Ret a => f a
  | Sys c k => Sys c (fun x => bind (k x) f)
  | Undefined => Undefined
  end.

Definition sys (c : call) : prog (answer c) := Sys c Ret.

Definition of_option {A} (x : option A) : prog A := match x with Some a => Ret a | None => Undefined end.

(** ** The process as the system sees it *)

Record os := mkOs {
  fds : gset Z;           (* open descriptors the main thread is responsible for *)
  bound : list bytes;     (* socket files it has created and not removed *)
  clock : Z;              (* the last steady time read *)
  wall : Z;               (* the last time of day read, in seconds *)
  misused : bool;         (* a descriptor was used that it does not own *)
  trace : list event;
}.

Definition os_init : os := mkOs ∅ [] 0 0 false [].

(** The descriptor a call works on, and the one its answer makes. *)
Definition uses (c : call) : list Z :=
  match c with
  | Connect fd _ | Bind fd _ | Listen fd | Setsockopt fd _ | CloseFd fd | Send fd _ | Receive fd _
  | PoolSubmit fd | Accept4 fd | ReadSignal fd => [fd]
  | Poll l _ => l
  | _ => []
  end.
Definition makes (c : call) : answer c -> option Z :=
  match c with
  | Signalfd | Socket _ _ | Accept4 _ => fun r => match r with inl _ => None | inr fd => Some fd end
  | _ => fun _ => None
  end.
(** The descriptor a call closes or hands to the pool. *)
Definition gives_up (c : call) : option Z :=
  match c with CloseFd fd | PoolSubmit fd => Some fd | _ => None end.

Definition fds_after (c : call) (a : answer c) (l : gset Z) : gset Z :=
  let l := match gives_up c with Some fd => l ∖ {[fd]} | None => l end in
  match makes c a with Some fd => {[fd]} ∪ l | None => l end.

(** An unlink leaves no file when it succeeds or finds none. *)
Definition gone (r : res unit) : bool := match r with inl e => (e =? ENOENT)%Z | inr _ => true end.

Definition bound_after (c : call) : answer c -> list bytes -> list bytes :=
  match c with
  | Bind _ (UnixAddr p) => fun r l => match r with inl _ => l | inr _ => p :: l end
  | Unlink p => fun r l => if gone r then List.filter (fun q => negb (q == p)) l else l
  | _ => fun _ l => l
  end.

Definition clock_after (c : call) : answer c -> Z -> Z :=
  match c with SteadyNow => fun t _ => t | _ => fun _ t => t end.

Definition latest (now : Z * Z * Z) : Z := (now.1.1 `max` now.1.2 `max` now.2)%Z.
Definition wall_after (c : call) : answer c -> Z -> Z :=
  match c with
  | Databases => fun r _ => latest r.2
  | Snapshot => fun r _ => latest r.1.2
  | _ => fun _ t => t
  end.

Definition after (c : call) (a : answer c) (s : os) : os :=
  mkOs (fds_after c a (fds s)) (bound_after c a (bound s)) (clock_after c a (clock s)) (wall_after c a (wall s))
    (misused s || negb (forallb (fun fd => bool_decide (fd ∈ fds s)) (uses c)))
    (trace s ++ [Event c a]).

(** ** Running *)

Definition oracle := forall c : call, os -> answer c.

Fixpoint exec {A} (m : prog A) (o : oracle) (s : os) : option (A * os) :=
  match m with
  | Ret a => Some (a, s)
  | Sys c k => exec (k (o c s)) o (after c (o c s) s)
  | Undefined => None
  end.

Lemma exec_bind {A B} (m : prog A) (f : A -> prog B) o s :
  exec (bind m f) o s = ('(a, s') ← exec m o s; exec (f a) o s').
Proof. revert s. induction m as [a|c k IH|]; intros s; cbn; [done| |done]. apply IH. Qed.

Lemma bind_assoc_exec {A B C} (m : prog A) (f : A -> prog B) (g : B -> prog C) o s :
  exec (bind (bind m f) g) o s = exec (bind m (fun a => bind (f a) g)) o s.
Proof.
  rewrite !exec_bind. destruct (exec m o s) as [[a s1]|]; [|done]. cbn. by rewrite exec_bind.
Qed.

(** Where a run ends: with the result, or where the behaviour becomes undefined. *)
Fixpoint stop {A} (m : prog A) (o : oracle) (s : os) : os :=
  match m with
  | Ret _ | Undefined => s
  | Sys c k => stop (k (o c s)) o (after c (o c s) s)
  end.

Lemma stop_bind {A B} (m : prog A) (f : A -> prog B) o s :
  stop (bind m f) o s = match exec m o s with Some (a, s') => stop (f a) o s' | None => stop m o s end.
Proof. revert s. induction m as [a|c k IH|]; intros s; cbn; [done| |done]. apply IH. Qed.

(** What is guaranteed of the answers: a new descriptor is not negative and
    not one that is open, [poll] answers for every descriptor, and the steady
    clock does not run backwards. *)
Definition allowed (c : call) : answer c -> os -> Prop :=
  match c with
  | Signalfd | Socket _ _ | Accept4 _ => fun r s => forall fd, r = inr fd -> (0 <= fd)%Z /\ (fd ∉ fds s)
  | Poll l _ => fun r _ => forall revents, r = inr revents -> length revents = length l
  | SteadyNow => fun t s => (clock s <= t)%Z
  | _ => fun _ _ => True
  end.

Definition lawful (o : oracle) : Prop := forall c s, allowed c (o c s) s.

(** [m] run from [s] ends with a result and state that satisfy [Q], or becomes
    undefined in a state that satisfies [U]. *)
Definition triple (U : os -> Prop) {A} (o : oracle) (s : os) (m : prog A) (Q : A -> os -> Prop) : Prop :=
  match exec m o s with Some (a, s') => Q a s' | None => U (stop m o s) end.

Lemma triple_ret U {A} o s (a : A) (Q : A -> os -> Prop) : Q a s -> triple U o s (Ret a) Q.
Proof. done. Qed.

Lemma triple_undefined (U : os -> Prop) {A} o s (Q : A -> os -> Prop) : U s -> triple U o s Undefined Q.
Proof. done. Qed.

Lemma triple_bind U {A B} o s (m : prog A) (f : A -> prog B) (R : A -> os -> Prop) (Q : B -> os -> Prop) :
  triple U o s m R -> (forall a s', R a s' -> triple U o s' (f a) Q) -> triple U o s (bind m f) Q.
Proof.
  unfold triple. rewrite exec_bind, stop_bind. destruct (exec m o s) as [[a s1]|]; [|done]. cbn. intros Hr Hf. exact (Hf a s1 Hr).
Qed.

Lemma triple_sys U {A} o s (c : call) (k : answer c -> prog A) (Q : A -> os -> Prop) :
  triple U o (after c (o c s) s) (k (o c s)) Q -> triple U o s (Sys c k) Q.
Proof. done. Qed.

Lemma triple_mono U {A} o s (m : prog A) (R Q : A -> os -> Prop) :
  triple U o s m R -> (forall a s', R a s' -> Q a s') -> triple U o s m Q.
Proof. unfold triple. intros Hm HQ. destruct (exec m o s) as [[a s']|]; [by apply HQ|done]. Qed.

Lemma triple_weaken (U V : os -> Prop) {A} o s (m : prog A) (Q : A -> os -> Prop) :
  triple U o s m Q -> (forall s, U s -> V s) -> triple V o s m Q.
Proof. unfold triple. intros Hm HV. destruct (exec m o s) as [[a s']|]; [done|by apply HV]. Qed.

Lemma triple_some U {A} o s (m : prog A) (Q : A -> os -> Prop) a s' : triple U o s m Q -> exec m o s = Some (a, s') -> Q a s'.
Proof. unfold triple. intros Hm E. by rewrite E in Hm. Qed.

(** Never undefined. *)
Lemma triple_defined {A} o s (m : prog A) (Q : A -> os -> Prop) : triple (fun _ => False) o s m Q ->
  exists a s', exec m o s = Some (a, s') /\ Q a s'.
Proof. unfold triple. destruct (exec m o s) as [[a s']|]; [|done]. intros HQ. by exists a, s'. Qed.

Lemma defined_triple U {A} o s (m : prog A) (Q : A -> os -> Prop) : (exists a s', exec m o s = Some (a, s') /\ Q a s') -> triple U o s m Q.
Proof. unfold triple. by intros (a & s' & -> & HQ). Qed.

(** ** Databases and the time of day *)

(** The database was found at one of [paths]. *)
Definition seen (paths : list bytes) (evs : list event) (db : MMDB_db) : Prop :=
  exists fs now path, Event Databases (fs, now) ∈ evs /\ path ∈ paths /\ fs (c_str path) = inr db.

Lemma seen_app paths e1 e2 db : seen paths e1 db -> seen paths (e1 ++ e2) db.
Proof. intros (fs & now & path & Hin & Hp). exists fs, now, path. split; [apply elem_of_app; by left|done]. Qed.

(** The times of day an event reads. *)
Definition read_times (e : event) : list Z :=
  match ev_call e as c return answer c -> list Z with
  | Databases => fun r => [r.2.1.1; r.2.1.2; r.2.2]
  | Snapshot => fun r => [r.1.2.1.1; r.1.2.1.2; r.1.2.2]
  | _ => fun _ => []
  end (ev_answer e).

(** The files it finds. *)
Definition files_of (e : event) : option file_system :=
  match ev_call e as c return answer c -> option file_system with Databases => fun r => Some r.1 | _ => fun _ => None end (ev_answer e).

(** A database found at one of [paths] has no defined metadata at a time of
    day that was read last: its age does not fit the integers the code
    converts it to, or its build date has no calendar date. *)
Definition undatable (paths : list bytes) (s : os) : Prop :=
  exists e t db, last (trace s) = Some e /\ t ∈ read_times e /\ seen paths (trace s) db /\ make_metadata t db = None.

(** The time of day is not set back, and is before the year 2116. *)
Definition year_2116 : Z := 4611686018.
Definition now_ok (now : Z * Z * Z) (s : os) : Prop :=
  Forall (fun t => (wall s <= t < year_2116)%Z) [now.1.1; now.1.2; now.2].

(** Not guaranteed, and assumed only where a theorem says so: the time of day
    is not set back, and a database file was built before it is opened. *)
Definition timely (o : oracle) : Prop := forall (c : call) s,
  match c as c return answer c -> Prop with
  | Databases => fun r => ((wall s < year_2116)%Z -> now_ok r.2 s) /\
      fs_fresh r.2.1.1 r.1 /\ fs_fresh r.2.1.2 r.1 /\ fs_fresh r.2.2 r.1
  | Snapshot => fun r => (wall s < year_2116)%Z -> now_ok r.1.2 s
  | _ => fun _ => True
  end (o c s).

(** Then every database found so far was built before the last time read. *)
Definition built_by (t : Z) (db : MMDB_db) : Prop :=
  (0 <= build_epoch_field (MMDB_metadata db) <= t /\ t < year_2116)%Z.
Definition dated (s : os) : Prop :=
  (wall s < year_2116)%Z /\
  (forall fs now path db, Event Databases (fs, now) ∈ trace s -> fs path = inr db -> built_by (wall s) db) /\
  (forall e t fs now path db, last (trace s) = Some e -> t ∈ read_times e ->
     Event Databases (fs, now) ∈ trace s -> fs path = inr db -> built_by t db).

Lemma built_later t t' db : built_by t db -> (t <= t' < year_2116)%Z -> built_by t' db.
Proof. unfold built_by. lia. Qed.

Lemma now_ok_times now s t : now_ok now s -> t ∈ [now.1.1; now.1.2; now.2] -> (wall s <= t < year_2116)%Z.
Proof. unfold now_ok. rewrite Forall_forall. auto. Qed.

Lemma now_ok_latest now s : now_ok now s -> (wall s <= latest now < year_2116)%Z.
Proof. unfold now_ok, latest. rewrite !Forall_cons. lia. Qed.

(** A call that reads no times. *)
Lemma dated_quiet c a s : dated s -> read_times (Event c a) = [] -> wall_after c a (wall s) = wall s -> c <> Databases ->
  dated (after c a s).
Proof.
  intros (Hw & Hdb & _) Ht Hwa Hc.
  assert (Hin : forall fs now, Event Databases (fs, now) ∈ trace (after c a s) -> Event Databases (fs, now) ∈ trace s).
  { intros fs now [Hi|Hi%list_elem_of_singleton]%elem_of_app; [done|]. by apply (f_equal ev_call) in Hi. }
  split; [cbn; by rewrite Hwa|]. split.
  - intros fs now path db Hi%Hin. cbn [after wall]. rewrite Hwa. by apply Hdb with now.
  - intros e t fs now path db He Hte. cbn in He. rewrite last_snoc in He. injection He as <-. rewrite Ht in Hte. by apply elem_of_nil in Hte.
Qed.

(** A call that reads the times [now], and maybe databases built before each. *)
Lemma dated_read c a s now : dated s -> now_ok now s -> read_times (Event c a) = [now.1.1; now.1.2; now.2] ->
  wall_after c a (wall s) = latest now ->
  (forall fs path db, files_of (Event c a) = Some fs -> fs path = inr db ->
     forall t, t ∈ [now.1.1; now.1.2; now.2] -> built_by t db) -> dated (after c a s).
Proof.
  intros (Hw & Hdb & _) Hn Ht Hwa Hnew. pose proof (now_ok_latest _ _ Hn) as Hl.
  assert (Hall : forall t fs now' path db, t ∈ [now.1.1; now.1.2; now.2] ->
    Event Databases (fs, now') ∈ trace (after c a s) -> fs path = inr db -> built_by t db).
  { intros t fs now' path db Hin [Hi|Hi%list_elem_of_singleton]%elem_of_app Hp.
    - eapply built_later; [by eapply Hdb|by eapply now_ok_times].
    - apply (f_equal files_of), eq_sym in Hi. exact (Hnew _ _ _ Hi Hp t Hin). }
  split; [cbn; rewrite Hwa; lia|]. split.
  - intros fs now' path db Hi Hp. cbn [after wall]. rewrite Hwa. eapply built_later; [eapply (Hall now.1.1); [by left|done..]|].
    unfold latest in *. lia.
  - intros e t fs now' path db He Hte Hi Hp. cbn in He. rewrite last_snoc in He. injection He as <-. rewrite Ht in Hte. by eapply Hall.
Qed.

Lemma dated_after o c s : timely o -> dated s -> dated (after c (o c s) s).
Proof.
  intros Ho Hs. pose proof (Ho c s) as Hc. pose proof (proj1 Hs) as Hw.
  destruct c; try (by apply dated_quiet).
  - destruct Hc as (Hn & F1 & F2 & F3). eapply dated_read; [done|by apply Hn|done..|].
    intros fs path db [= <-] Hp t Ht. pose proof (now_ok_times _ _ _ (Hn Hw) Ht).
    assert (Hf : fs_fresh t (o Databases s).1).
    { rewrite !elem_of_cons, elem_of_nil in Ht. by destruct Ht as [->|[->|[->|[]]]]. }
    specialize (Hf _ _ Hp). cbn in Hf. unfold built_by. lia.
  - by eapply dated_read; [|apply Hc|..].
Qed.

Lemma stop_dated {A} (m : prog A) o s : timely o -> dated s -> dated (stop m o s).
Proof. intros Ho. revert s. induction m as [a|c k IH|]; intros s Hs; cbn; [done| |done]. by apply IH, dated_after. Qed.

Lemma dated_init : dated os_init.
Proof. split; [done|]. split; [intros ? ? ? ? Hi%elem_of_nil|intros ? ? ? ? ? ? ?]; done. Qed.

Lemma dated_datable paths s : dated s -> ~ undatable paths s.
Proof.
  intros (_ & _ & Hd) (e & t & db & He & Ht & (fs & now & path & Hin & _ & Hp) & Hm).
  destruct (Hd e t fs now _ db He Ht Hin Hp) as [Hb Hy]. unfold year_2116 in Hy.
  destruct (make_metadata_value t db ltac:(lia) ltac:(lia) ltac:(lia)) as (tm & _ & E). congruence.
Qed.

(** A timely system makes no database undatable. *)
Lemma timely_datable {A} (m : prog A) o paths : timely o -> ~ undatable paths (stop m o os_init).
Proof. intros Ho. apply dated_datable, stop_dated; [done|apply dated_init]. Qed.

(** ** Traces *)

(** What a program adds to the trace, whatever the answers, with its result. *)
Definition emits {A} (m : prog A) (R : A -> list event -> Prop) : Prop :=
  forall o s a s', exec m o s = Some (a, s') -> exists evs, trace s' = trace s ++ evs /\ R a evs.

Lemma emits_ret {A} (a : A) (R : A -> list event -> Prop) : R a [] -> emits (Ret a) R.
Proof. intros HR o s a' s' [= <- <-]. exists []. by rewrite app_nil_r. Qed.

Lemma emits_undefined {A} (R : A -> list event -> Prop) : emits Undefined R.
Proof. by intros o s a s'. Qed.

Lemma emits_sys {A} c (k : answer c -> prog A) (R : A -> list event -> Prop) :
  (forall x, emits (k x) (fun a evs => R a (Event c x :: evs))) -> emits (Sys c k) R.
Proof.
  intros Hk o s a s' E. apply Hk in E as (evs & Ht & HR). exists (Event c (o c s) :: evs). split; [|done].
  rewrite Ht. cbn. by rewrite <- app_assoc.
Qed.

Lemma emits_bind {A B} (m : prog A) (f : A -> prog B) R (Q : B -> list event -> Prop) :
  emits m R -> (forall a evs, R a evs -> emits (f a) (fun b evs' => Q b (evs ++ evs'))) -> emits (bind m f) Q.
Proof.
  intros Hm Hf o s b s' E. rewrite exec_bind in E. destruct (exec m o s) as [[a s1]|] eqn:E1; [|done]. cbn in E.
  apply Hm in E1 as (evs1 & H1 & HR). apply (Hf a evs1 HR) in E as (evs2 & H2 & HQ).
  exists (evs1 ++ evs2). split; [|done]. by rewrite H2, H1, <- app_assoc.
Qed.

Lemma emits_mono {A} (m : prog A) (R Q : A -> list event -> Prop) :
  emits m R -> (forall a evs, R a evs -> Q a evs) -> emits m Q.
Proof. intros Hm HQ o s a s' (evs & Ht & HR)%Hm. exists evs. split; [done|by apply HQ]. Qed.

(** Every call a program can make satisfies [P]. *)
Fixpoint every (P : call -> Prop) {A} (m : prog A) : Prop :=
  match m with
  | Sys c k => P c /\ forall x, every P (k x)
  | _ => True
  end.

Lemma every_emits P {A} (m : prog A) : every P m -> emits m (fun _ evs => Forall (fun e => P (ev_call e)) evs).
Proof.
  induction m as [a|c k IH|]; intros Hm; [by apply emits_ret| |apply emits_undefined].
  destruct Hm as [Hc Hk]. apply emits_sys. intros x. eapply emits_mono; [by apply IH|]. intros ? evs He. by constructor.
Qed.

Lemma every_bind P {A B} (m : prog A) (f : A -> prog B) : every P m -> (forall a, every P (f a)) -> every P (bind m f).
Proof. intros Hm Hf. induction m as [a|c k IH|]; [apply Hf| |done]. destruct Hm as [Hc Hk]. split; [done|]. intros x. by apply IH. Qed.

Lemma every_of_option P {A} (x : option A) : every P (of_option x).
Proof. by destruct x. Qed.

(** Every result a program can give satisfies [Q]. *)
Fixpoint yields {A} (Q : A -> Prop) (m : prog A) : Prop :=
  match m with
  | Ret a => Q a
  | Sys c k => forall x, yields Q (k x)
  | Undefined => True
  end.

Lemma yields_exec {A} (Q : A -> Prop) (m : prog A) o s a s' : yields Q m -> exec m o s = Some (a, s') -> Q a.
Proof.
  intros Hy. revert s. induction m as [b|c k IH|]; intros s E; [by injection E as <- <-| |done].
  eapply IH; [apply Hy|exact E].
Qed.

Lemma yields_emits {A} (Q : A -> Prop) (m : prog A) R : yields Q m -> emits m R -> emits m (fun a evs => Q a /\ R a evs).
Proof.
  intros Hy Hm o s a s' E. destruct (Hm _ _ _ _ E) as (evs & Ht & HR). exists evs. split; [done|]. split; [|done].
  by eapply yields_exec.
Qed.

Lemma yields_bind {A B} (Q : B -> Prop) (R : A -> Prop) (m : prog A) (f : A -> prog B) :
  yields R m -> (forall a, R a -> yields Q (f a)) -> yields Q (bind m f).
Proof. intros Hm Hf. induction m as [a|c k IH|]; [by apply Hf| |done]. intros x. apply IH, Hm. Qed.

Lemma yields_any {A} (m : prog A) : yields (fun _ => True) m.
Proof. by induction m. Qed.

Lemma yields_of_option {A} (Q : A -> Prop) (x : option A) : (forall a, x = Some a -> Q a) -> yields Q (of_option x).
Proof. destruct x; [|done]. intros HQ. by apply HQ. Qed.

End System.

Notation "x <~ m ;; k" := (bind m (fun x => k)) (at level 100, m at next level, right associativity) : nsh_scope.
Notation "m ;;; k" := (bind m (fun _ => k)) (at level 100, k at level 200, right associativity) : nsh_scope.
