(* ===== verification/Lifecycle.v ===== *)
(** * The server's life: start-up, accept loop, shut-down (src/src/server.cpp, src/src/server.h)

    [init] with its signals, listeners and worker pool, [run], [cleanup] and
    the destructor, as programs over the system calls of [System].  A method
    passes the object along, also when it fails: what a failed [init] leaves
    behind is what the destructor gets. *)

From stdpp Require Import gmap.
From S2P Require Import Prelude CLib Log Double IpAddr Config GeoIp Metrics Response Server System.
From Stdlib Require Import Ascii.

Section Lifecycle.
Context `{MaxMindDB} `{InetPton} `{Libc}.

(** ** The object *)

Record Server := mkServerObj {
  cfg_ : Config;
  geo_ : geo_state;                 (* db_ *)
  pool_ : bool;                     (* pool_ != nullptr *)
  listen_fd_ : Z;
  tcp_listen_fds_ : list Z;
  signal_fd_ : Z;
  socket_created_ : bool;
}.

Definition Server_new (cfg : Config) : Server := mkServerObj cfg geo_init false (-1) [] (-1) false.

Definition set_geo v s := mkServerObj (cfg_ s) v (pool_ s) (listen_fd_ s) (tcp_listen_fds_ s) (signal_fd_ s) (socket_created_ s).
Definition set_pool v s := mkServerObj (cfg_ s) (geo_ s) v (listen_fd_ s) (tcp_listen_fds_ s) (signal_fd_ s) (socket_created_ s).
Definition set_listen_fd v s := mkServerObj (cfg_ s) (geo_ s) (pool_ s) v (tcp_listen_fds_ s) (signal_fd_ s) (socket_created_ s).
Definition set_tcp_listen_fds v s := mkServerObj (cfg_ s) (geo_ s) (pool_ s) (listen_fd_ s) v (signal_fd_ s) (socket_created_ s).
Definition set_signal_fd v s := mkServerObj (cfg_ s) (geo_ s) (pool_ s) (listen_fd_ s) (tcp_listen_fds_ s) v (socket_created_ s).
Definition set_socket_created v s := mkServerObj (cfg_ s) (geo_ s) (pool_ s) (listen_fd_ s) (tcp_listen_fds_ s) (signal_fd_ s) v.

(** ** Methods *)

(** A method that may fail with [err]; the object survives the failure. *)
Definition M (A : Type) := Server -> prog (Server * (bytes + A)).

Definition ret {A} (a : A) : M A := fun sv => Ret (sv, inr a).
Definition fail {A} (err : bytes) : M A := fun sv => Ret (sv, inl err).
Definition mbind_ {A B} (m : M A) (f : A -> M B) : M B := fun sv =>
  bind (m sv) (fun r => match r with
    | (sv', inl err) => Ret (sv', inl err)
    | (sv', inr a) => f a sv'
    end).
Definition lift {A} (m : prog A) : M A := fun sv => bind m (fun a => Ret (sv, inr a)).
Definition call_ (c : call) : M (answer c) := lift (sys c).
Definition modify (f : Server -> Server) : M unit := fun sv => Ret (f sv, inr tt).
Definition get : M Server := fun sv => Ret (sv, inr sv).

Notation "x <- m ; k" := (mbind_ m (fun x => k)) (at level 100, m at next level, right associativity).
Notation "m ;; k" := (mbind_ m (fun _ => k)) (at level 100, k at level 200, right associativity).

Definition log_info (msg : bytes) : M unit := call_ (LogLine Info msg).
Definition log_warn (msg : bytes) : M unit := call_ (LogLine Warn msg).
Definition log_error (msg : bytes) : M unit := call_ (LogLine Error msg).

(** [if (rc != 0) { err = ...; return false; }]. *)
Definition ok_or {A} (r : res A) (err : bytes -> bytes) : M A :=
  match r with inl e => fail (err (strerror e)) | inr a => ret a end.

(** ** Signals *)

Definition setup_signals : M unit :=
  r <- call_ Sigprocmask;
  ok_or r (fun e => #"sigprocmask() failed: " ++ e) ;;
  fd <- call_ Signalfd;
  modify (set_signal_fd (match fd with inl _ => -1 | inr fd => fd end)%Z) ;;
  ok_or fd (fun e => #"signalfd() failed: " ++ e) ;;
  ret tt.

(** ** The UNIX socket *)

(** [sizeof(addr.sun_path)]; [strncpy] copies the C string into all but the
    last byte. *)
Definition sun_path_size : nat := 108.
Definition sun_path (path : bytes) : bytes := take (sun_path_size - 1) (c_str path).

Definition path_has_live_listener (path : bytes) : M bool :=
  fd <- call_ (Socket AfUnix false);
  match fd with
  | inl _ => ret false
  | inr probe_fd =>
      rc <- call_ (Connect probe_fd (UnixAddr (sun_path path)));
      call_ (CloseFd probe_fd) ;;
      ret (match rc with inr _ => true | inl _ => false end)
  end.

Definition mkdir_hint (dir : bytes) : bytes :=
  #" (if running under systemd, set RuntimeDirectory=nshgeoip; " ++
  #"otherwise create it manually, e.g. 'mkdir -p " ++ dir ++ #"')".

Definition ensure_socket_directory (socket_path : bytes) : M unit :=
  match find_last_of "/"%char socket_path with
  | None | Some O => ret tt
  | Some slash =>
      let dir := substr socket_path 0 slash in
      r <- call_ (Mkdir (c_str dir) 493);
      match r with
      | inr _ => log_info (#"created socket directory: " ++ dir)
      | inl e =>
          if negb (e =? EEXIST)%Z then
            fail (#"failed to create socket directory '" ++ dir ++ #"': " ++ strerror e ++ mkdir_hint dir)
          else
            st <- call_ (Lstat (c_str dir));
            st <- ok_or st (fun e => #"failed to stat socket directory '" ++ dir ++ #"': " ++ e);
            match st with
            | NodeDir =>
                w <- call_ (Access (c_str dir) W_OK);
                ok_or w (fun e => #"socket directory '" ++ dir ++ #"' exists but is not writable: " ++ e)
            | _ => fail (#"socket directory path '" ++ dir ++ #"' exists but is not a directory")
            end
      end
  end.

(** The tests on what is at the path already. *)
Definition clear_stale_socket (path : bytes) : M unit :=
  st <- call_ (Lstat (c_str path));
  match st with
  | inr NodeSocket =>
      live <- path_has_live_listener path;
      if (live : bool) then
        fail (#"another process is already listening on " ++ path ++
              #" -- refusing to remove its socket. Stop that instance " ++
              #"first, or configure a different socket= path.")
      else
        r <- call_ (Unlink (c_str path));
        ok_or r (fun e => #"failed to remove stale socket " ++ path ++ #": " ++ e) ;;
        log_warn (#"removed stale socket: " ++ path)
  | inr _ => fail (#"refusing to remove non-socket file at " ++ path)
  | inl e =>
      if negb (e =? ENOENT)%Z then fail (#"failed to stat socket path " ++ path ++ #": " ++ strerror e) else ret tt
  end.

Definition setup_socket : M unit :=
  sv <- get;
  let path := socket_path (cfg_ sv) in
  ensure_socket_directory path ;;
  clear_stale_socket path ;;
  fd <- call_ (Socket AfUnix true);
  modify (set_listen_fd (match fd with inl _ => -1 | inr fd => fd end)%Z) ;;
  fd <- ok_or fd (fun e => #"socket() failed: " ++ e);
  (if (sun_path_size <=? length path)%nat then fail (#"socket path too long: " ++ path) else ret tt) ;;
  r <- call_ (Bind fd (UnixAddr (sun_path path)));
  ok_or r (fun e => #"bind(" ++ path ++ #") failed: " ++ e) ;;
  modify (set_socket_created true) ;;
  r <- call_ (Chmod (c_str path) (socket_mode (cfg_ sv)));
  ok_or r (fun e => #"chmod(" ++ path ++ #") failed: " ++ e) ;;
  r <- call_ (Listen fd);
  ok_or r (fun e => #"listen() failed: " ++ e) ;;
  log_info (#"listening on unix socket " ++ path ++ #" (mode " ++ mode_octal (socket_mode (cfg_ sv)) ++ #")").

(** ** TCP listeners *)

(** A step on a new descriptor, closed when the step fails. *)
Definition or_close (fd : Z) (c : call) (failed : answer c -> option Z) (what : bytes) : M unit :=
  r <- call_ c;
  match failed r with
  | Some e => call_ (CloseFd fd) ;; fail (what ++ strerror e)
  | None => ret tt
  end.
Definition failed_res {A} (r : res A) : option Z := match r with inl e => Some e | inr _ => None end.

Definition port_of (addr : sockaddr_storage) : Z :=
  match addr with Sin p _ | Sin6 p _ => p | Szero => 0%Z end.

Definition bind_one_tcp (family : domain) (addr : sockaddr_storage) : M unit :=
  fd <- call_ (Socket family true);
  fd <- ok_or fd (fun e => #"socket() failed for TCP listener: " ++ e);
  or_close fd (Setsockopt fd ReuseAddr) failed_res #"setsockopt(SO_REUSEADDR) failed: " ;;
  match family with
  | AfInet6 => or_close fd (Setsockopt fd V6Only) failed_res #"setsockopt(IPV6_V6ONLY) failed: "
  | _ => ret tt
  end ;;
  or_close fd (Bind fd (InetAddr addr)) failed_res #"bind() failed for TCP listener: " ;;
  or_close fd (Listen fd) failed_res #"listen() failed for TCP listener: " ;;
  modify (fun sv => set_tcp_listen_fds (tcp_listen_fds_ sv ++ [fd]) sv) ;;
  log_info (#"listening on tcp " ++ inet_ntop addr ++ #":" ++ to_string (port_of addr)).

(** [127.0.0.1] and [::1] in network order. *)
Definition loopback4 : bytes := map ascii_of_nat [127; 0; 0; 1].
Definition loopback6 : bytes := map ascii_of_nat [0; 0; 0; 0; 0; 0; 0; 0; 0; 0; 0; 0; 0; 0; 0; 1].

(** [static_cast<uint16_t>], as [htons] takes it. *)
Definition to_uint16 (n : Z) : Z := (n mod 2 ^ 16)%Z.

Definition set_port (port : Z) (a : sockaddr_storage) : sockaddr_storage :=
  match a with Szero => Szero | Sin _ x => Sin port x | Sin6 _ x => Sin6 port x end.

Definition setup_tcp_listeners : M unit :=
  sv <- get;
  let cfg := cfg_ sv in
  if (tcp_port cfg =? 0)%Z then ret tt
  else
    let port := to_uint16 (tcp_port cfg) in
    if tcp_address cfg == [] then
      bind_one_tcp AfInet (Sin port loopback4) ;;
      bind_one_tcp AfInet6 (Sin6 port loopback6)
    else
      match parse_ip_address (tcp_address cfg) with
      | None => fail (#"invalid tcp_address: " ++ tcp_address cfg)
      | Some addr =>
          if (family addr =? AF_INET)%Z then bind_one_tcp AfInet (set_port port (storage addr))
          else if (family addr =? AF_INET6)%Z then bind_one_tcp AfInet6 (set_port port (storage addr))
          else fail (#"unsupported address family for tcp_address: " ++ tcp_address cfg)
      end.

(** ** [init] *)

(** One [if (!path.empty())] block: [opener], [meta] and [what] are the slot's. *)
Definition open_block (db_path : bytes)
    (opener : file_system -> bytes -> geo_state -> option (option bytes * geo_state))
    (meta : Z * Z * Z -> geo_state -> option (option GeoIpDbMetadata)) (what : bytes) : M unit :=
  if negb (db_path == []) then
    w <- call_ Databases;
    let '(fs, now) := w in
    sv <- get;
    r <- lift (of_option (opener fs db_path (geo_ sv)));
    let '(err, geo) := r in
    modify (set_geo geo) ;;
    match err with
    | Some e => fail e
    | None =>
        md <- lift (of_option (meta now geo));
        log_info (#"opened " ++ what ++ #" database: " ++ describe_db db_path md)
    end
  else ret tt.

Definition init : M unit :=
  setup_signals ;;
  sv <- get;
  let cfg := cfg_ sv in
  open_block (country_db cfg) (fun fs => open_country fs) (fun now => country_metadata now.1.1) #"country" ;;
  open_block (asn_db cfg) (fun fs => open_asn fs) (fun now => asn_metadata now.1.2) #"ASN" ;;
  open_block (city_db cfg) (fun fs => open_city fs) (fun now => city_metadata now.2) #"city" ;;
  sv <- get;
  let d := dbs (geo_ sv) in
  (if negb (country_open_ d) && negb (asn_open_ d) && negb (city_open_ d)
   then fail #"no databases configured (set country_db, asn_db, and/or city_db)" else ret tt) ;;
  setup_socket ;;
  setup_tcp_listeners ;;
  call_ (PoolStart (threads cfg)) ;;
  modify (set_pool true) ;;
  log_info (#"worker pool started with " ++ to_string (threads cfg) ++ #" threads").

(** ** Shut-down *)

(** [pool_->shutdown(); pool_.reset();]. *)
Definition stop_pool (sv : Server) : prog Server :=
  if pool_ sv then (_ <~ sys PoolShutdown ;; Ret (set_pool false sv)) else Ret sv.

Definition close_if_open (fd : Z) : prog unit := if (0 <=? fd)%Z then sys (CloseFd fd) else Ret tt.

Fixpoint close_all (l : list Z) : prog unit :=
  match l with [] => Ret tt | fd :: l' => _ <~ sys (CloseFd fd) ;; close_all l' end.

Definition cleanup (sv : Server) : prog Server :=
  _ <~ sys (LogLine Info #"shutting down") ;;
  sv1 <~ stop_pool sv ;;
  _ <~ close_if_open (listen_fd_ sv1) ;;
  _ <~ close_all (tcp_listen_fds_ sv1) ;;
  let sv2 := set_tcp_listen_fds [] (set_listen_fd (-1)%Z sv1) in
  sv3 <~ (if socket_created_ sv2 then
            let path := socket_path (cfg_ sv2) in
            r <~ sys (Unlink (c_str path)) ;;
            _ <~ (match r with
                  | inl e => if negb (e =? ENOENT)%Z
                             then sys (LogLine Warn (#"failed to remove socket " ++ path ++ #": " ++ strerror e))
                             else sys (LogLine Info (#"removed socket " ++ path))
                  | inr _ => sys (LogLine Info (#"removed socket " ++ path))
                  end) ;;
            Ret (set_socket_created false sv2)
          else Ret sv2) ;;
  _ <~ close_if_open (signal_fd_ sv3) ;;
  _ <~ sys (LogLine Info #"shutdown complete") ;;
  Ret (set_signal_fd (-1)%Z sv3).

(** The destructor; the databases close their handles in theirs. *)
Definition Server_destroy (sv : Server) : prog unit :=
  sv1 <~ stop_pool sv ;;
  _ <~ close_if_open (listen_fd_ sv1) ;;
  _ <~ close_all (tcp_listen_fds_ sv1) ;;
  _ <~ close_if_open (signal_fd_ sv1) ;;
  _ <~ (if socket_created_ sv1 then (_ <~ sys (Unlink (c_str (socket_path (cfg_ sv1)))) ;; Ret tt) else Ret tt) ;;
  _ <~ of_option (GeoIpDatabases_destroy (geo_ sv1)) ;;
  Ret tt.


(** ** The accept loop *)

(** [for (;;) accept4(...)] on one listener, for at most [fuel] connections;
    false when the fuel ran out before [accept4] failed. *)
Fixpoint accept_all (fuel : nat) (fd : Z) : prog bool :=
  match fuel with
  | O => Ret false
  | S fuel' =>
      r <~ sys (Accept4 fd) ;;
      match r with
      | inl e =>
          _ <~ (if negb (e =? EINTR)%Z && negb (e =? EAGAIN)%Z
                then sys (LogLine Warn (#"accept() failed: " ++ strerror e)) else Ret tt) ;;
          Ret true
      | inr client_fd => _ <~ sys (PoolSubmit client_fd) ;; accept_all fuel' fd
      end
  end.

(** The listeners that [poll] reports readable. *)
Fixpoint accept_ready (fuel : nat) (listeners : list Z) (revents : list bool) : prog bool :=
  match listeners, revents with
  | fd :: listeners', ready :: revents' =>
      drained <~ (if (ready : bool) then accept_all fuel fd else Ret true) ;;
      if (drained : bool) then accept_ready fuel listeners' revents' else Ret false
  | _, _ => Ret true
  end.

Fixpoint log_all (es : list effect) : prog unit :=
  match es with
  | [] => Ret tt
  | Log level msg :: es' => _ <~ sys (LogLine level msg) ;; log_all es'
  | _ :: es' => log_all es'
  end.

(** The signal descriptor, readable: the object, and whether the loop goes on. *)
Definition handle_signal (sv : Server) : prog (Server * bool) :=
  si <~ sys (ReadSignal (signal_fd_ sv)) ;;
  match si with
  | None => Ret (sv, true)
  | Some SIGHUP =>
      _ <~ sys (LogLine Info #"received SIGHUP, reloading databases") ;;
      w <~ sys Databases ;;
      r <~ of_option (reload_databases (cfg_ sv) w.1 w.2 (geo_ sv)) ;;
      _ <~ log_all r.2 ;;
      Ret (set_geo r.1 sv, true)
  | Some SIGTERM => _ <~ sys (LogLine Info #"received signal SIGTERM, shutting down") ;; Ret (sv, false)
  | Some SIGINT => _ <~ sys (LogLine Info #"received signal SIGINT, shutting down") ;; Ret (sv, false)
  end.

Definition write_metrics (sv : Server) : prog unit :=
  snap <~ sys Snapshot ;;
  let '(m, now, uptime) := snap in
  infos <~ of_option (collect_db_infos now (geo_ sv)) ;;
  let file := metrics_file (cfg_ sv) in
  let text := render_prometheus_metrics m infos NSHGEOIP_VERSION MMDB_lib_version uptime in
  a <~ sys (WriteMetrics file text) ;;
  log_all (write_metrics_file file text (strerror a.2) a.1 ∅).2.

Definition ns_per_ms : Z := 1000000.
Definition ns_per_second : Z := 1000000000.

(** [static_cast<int>], on the 32-bit [int]. *)
Definition to_int (n : Z) : Z := ((n + 2 ^ 31) mod 2 ^ 32 - 2 ^ 31)%Z.

Definition poll_timeout_ms (next_metrics_write now : Z) : Z :=
  let remaining_ms := Z.quot (next_metrics_write - now) ns_per_ms in
  to_int (if (0 <? remaining_ms)%Z then remaining_ms else 0)%Z.

(** How one turn of the loop ends. *)
Inductive turn := Continue (sv : Server) (next : Z) | Break (sv : Server) | OutOfFuel (sv : Server).

Definition run_turn (fuel : nat) (poll_fds : list Z) (sv : Server) (next : Z) : prog turn :=
  let periodic := negb (metrics_file (cfg_ sv) == []) in
  timeout <~ (if periodic then (now <~ sys SteadyNow ;; Ret (poll_timeout_ms next now)) else Ret (-1)%Z) ;;
  pr <~ sys (Poll poll_fds timeout) ;;
  match pr with
  | inl e =>
      if (e =? EINTR)%Z then Ret (Continue sv next)
      else _ <~ sys (LogLine Error (#"poll() failed: " ++ strerror e)) ;; Ret (Break sv)
  | inr revents =>
      drained <~ accept_ready fuel (removelast poll_fds) revents ;;
      if negb drained then Ret (OutOfFuel sv)
      else
        r <~ (if List.last revents false then handle_signal sv else Ret (sv, true)) ;;
        let '(sv1, running) := r in
        next1 <~ (if periodic then
                    (now <~ sys SteadyNow ;;
                     if (next <=? now)%Z then
                       (_ <~ write_metrics sv1 ;;
                        now2 <~ sys SteadyNow ;;
                        Ret (now2 + metrics_interval_seconds (cfg_ sv1) * ns_per_second)%Z)
                     else Ret next)
                  else Ret next) ;;
        Ret (if (running : bool) then Continue sv1 next1 else Break sv1)
  end.

(** At most [turns] turns; [None]: still running. *)
Fixpoint run_loop (turns fuel : nat) (poll_fds : list Z) (sv : Server) (next : Z) : prog (Server * option unit) :=
  match turns with
  | O => Ret (sv, None)
  | S turns' =>
      t <~ run_turn fuel poll_fds sv next ;;
      match t with
      | Continue sv' next' => run_loop turns' fuel poll_fds sv' next'
      | Break sv' => Ret (sv', Some tt)
      | OutOfFuel sv' => Ret (sv', None)
      end
  end.

(** The exit code, or [None] while the loop still runs. *)
Definition run (turns fuel : nat) (sv : Server) : prog (Server * option Z) :=
  _ <~ sys (LogLine Info #"nshgeoip ready") ;;
  let poll_fds := listen_fd_ sv :: tcp_listen_fds_ sv ++ [signal_fd_ sv] in
  next <~ sys SteadyNow ;;
  r <~ run_loop turns fuel poll_fds sv next ;;
  match r.2 with
  | None => Ret (r.1, None)
  | Some _ => sv' <~ cleanup r.1 ;; Ret (sv', Some 0%Z)
  end.


(** The end of [main]: the exit code, or [None] while the loop still runs. *)
Definition serve (turns fuel : nat) (cfg : Config) : prog (option Z) :=
  r <~ init (Server_new cfg) ;;
  match r with
  | (sv, inl err) =>
      _ <~ sys (LogLine Fatal (#"startup failed: " ++ err)) ;;
      _ <~ Server_destroy sv ;;
      Ret (Some 1%Z)
  | (sv, inr _) =>
      r <~ run turns fuel sv ;;
      match r with
      | (_, None) => Ret None
      | (sv', Some code) => _ <~ Server_destroy sv' ;; Ret (Some code)
      end
  end.

End Lifecycle.
