(* ===== verification/LifecycleSpec.v ===== *)
(** * The server's life: what it owns (correctness of [Lifecycle])

    The invariant says which descriptors and socket file the process owns at
    every moment of start-up, accept loop and shut-down, and that every
    database in use was found at a configured path.  From it: nothing is
    left behind, whichever call fails, no descriptor is used after its close
    or closed twice, and the behaviour is undefined only for a database whose
    metadata is. *)

From stdpp Require Import gmap.
From S2P Require Import Prelude CLib Log Double IpAddr Config GeoIp GeoIpSpec Metrics Response Server ServerSpec System Lifecycle.
From Stdlib Require Import Ascii.

Section LifecycleSpec.
Context {MM : MaxMindDB} {NP : InetPton} {LC : Libc}.
Context (o : oracle) (Ho : lawful o) (cfg : Config).

(** The database files of the configuration. *)
Definition db_files : list bytes := List.filter (fun path => negb (path == [])) [country_db cfg; asn_db cfg; city_db cfg].

Lemma db_file which : db_path_of cfg which <> [] -> db_path_of cfg which ∈ db_files.
Proof.
  intros Hp. apply list_elem_of_In, filter_In. split; [destruct which; cbn; auto|]. by apply negb_true_iff, bool_decide_eq_false.
Qed.

#[local] Notation triple := (System.triple (undatable db_files)).

(** ** The invariant *)

Definition open1 (fd : Z) : list Z := if (0 <=? fd)%Z then [fd] else [].

(** The descriptors the object holds. *)
Definition held (sv : Lifecycle.Server) : list Z := open1 (listen_fd_ sv) ++ tcp_listen_fds_ sv ++ open1 (signal_fd_ sv).

(** The databases in use were found at a configured path. *)
Definition found_all (evs : list event) (v : geo_view) : Prop :=
  forall which db, view_slot v which = Some db -> seen db_files evs db.

(** [extra]: descriptors of local variables. *)
Record live (extra : list Z) (sv : Lifecycle.Server) (s : os) : Prop := {
  lv_cfg : cfg_ sv = cfg;
  lv_nodup : NoDup (extra ++ held sv);
  lv_fds : forall fd, fd ∈ fds s <-> fd ∈ extra ++ held sv;
  lv_bound : bound s = if socket_created_ sv then [c_str (socket_path cfg)] else [];
  lv_misused : misused s = false;
  lv_geo : geo_inv (geo_ sv);
  lv_found : found_all (trace s) (view (geo_ sv));
}.

(** What a call leaves alone. *)
Definition neutral (c : call) (a : answer c) (s : os) : Prop :=
  makes c a = None /\ gives_up c = None /\ bound_after c a (bound s) = bound s.

Lemma uses_ok extra sv s c : live extra sv s -> Forall (fun fd => fd ∈ extra ++ held sv) (uses c) ->
  misused s || negb (forallb (fun fd => bool_decide (fd ∈ fds s)) (uses c)) = false.
Proof.
  intros L Hu. rewrite (lv_misused _ _ _ L). cbn [orb]. apply negb_false_iff, forallb_forall. intros fd Hin.
  rewrite Forall_forall in Hu. apply bool_decide_eq_true, (lv_fds _ _ _ L), Hu. by apply list_elem_of_In.
Qed.

Lemma found_after c a s v : found_all (trace s) v -> found_all (trace (after c a s)) v.
Proof. intros Hf which db Hdb. by apply seen_app, (Hf which). Qed.

Lemma live_neutral extra sv s c a : live extra sv s -> neutral c a s ->
  Forall (fun fd => fd ∈ extra ++ held sv) (uses c) -> live extra sv (after c a s).
Proof.
  intros L (Hm & Hg & Hb) Hu. pose proof (uses_ok _ _ _ _ L Hu) as Hmis.
  destruct L. split; cbn [after fds bound misused wall]; auto.
  - intros fd. unfold fds_after. rewrite Hm, Hg. apply lv_fds0.
  - by rewrite Hb.
  - by apply found_after.
Qed.

(** A call that makes a descriptor: it becomes a local one. *)
Lemma live_made extra sv s c a fd : live extra sv s -> allowed c a s -> makes c a = Some fd ->
  Forall (fun fd => fd ∈ extra ++ held sv) (uses c) -> (0 <= fd)%Z /\ live (fd :: extra) sv (after c a s).
Proof.
  intros L Ha Hm Hu. pose proof (uses_ok _ _ _ _ L Hu) as Hmis.
  assert (Hfd : (0 <= fd)%Z /\ fd ∉ fds s).
  { destruct c; cbn in Hm; try done; destruct a as [e|x]; try done; injection Hm as ->; by apply Ha. }
  destruct Hfd as [Hpos Hnew]. split; [done|]. destruct L. split; cbn [after fds bound misused wall app]; auto.
  - constructor; [by rewrite <- lv_fds0|done].
  - intros x. unfold fds_after. rewrite Hm.
    assert (gives_up c = None) as -> by (by destruct c). rewrite elem_of_cons, elem_of_union, elem_of_singleton, lv_fds0. done.
  - destruct c; done.
  - by apply found_after.
Qed.

(** A call that closes a local descriptor or hands it on. *)
Lemma live_given extra sv s c a fd : live (fd :: extra) sv s -> gives_up c = Some fd -> live extra sv (after c a s).
Proof.
  intros L Hg. assert (Hu : Forall (fun x => x ∈ (fd :: extra) ++ held sv) (uses c)).
  { destruct c; cbn in Hg; try done; injection Hg as ->; by repeat constructor. }
  pose proof (uses_ok _ _ _ _ L Hu) as Hmis. destruct L. cbn [app] in *. apply NoDup_cons in lv_nodup0 as [Hnin Hnd].
  split; cbn [after fds bound misused wall]; auto.
  - intros x. unfold fds_after. rewrite Hg. assert (makes c a = None) as -> by (by destruct c).
    rewrite elem_of_difference, elem_of_singleton, lv_fds0, elem_of_cons.
    split; [intros [[?|?] ?]; done|]. intros Hx. split; [by right|]. by intros ->.
  - destruct c; done.
  - by apply found_after.
Qed.

(** The object changes what it holds, in step with the local variables. *)
Lemma live_moved extra extra' sv sv' s : live extra sv s ->
  extra ++ held sv ≡ₚ extra' ++ held sv' -> cfg_ sv' = cfg_ sv -> socket_created_ sv' = socket_created_ sv ->
  geo_ sv' = geo_ sv -> live extra' sv' s.
Proof.
  intros L Hp Hc Hs Hg. destruct L. split; rewrite ?Hc, ?Hs, ?Hg; auto.
  - by rewrite <- Hp.
  - intros fd. by rewrite <- Hp.
Qed.

(** ** Triples of methods *)

Definition is_inr {A B} (r : A + B) : Prop := match r with inl _ => False | inr _ => True end.

(** [m] run on [sv] in [s] is defined, and [Q] holds of what it leaves. *)
Definition runs {A} (s : os) (sv : Lifecycle.Server) (m : M A)
    (Q : Lifecycle.Server -> bytes + A -> os -> Prop) : Prop :=
  triple o s (m sv) (fun r s' => Q r.1 r.2 s').

Lemma runs_bind {A B} s sv (m : M A) (f : A -> M B) R Q :
  runs s sv m R ->
  (forall sv' e s', R sv' (inl e) s' -> Q sv' (inl e) s') ->
  (forall sv' a s', R sv' (inr a) s' -> runs s' sv' (f a) Q) ->
  runs s sv (mbind_ m f) Q.
Proof.
  intros Hm He Hf. unfold runs, mbind_. eapply triple_bind; [exact Hm|].
  intros [sv' [e|a]] s' HR; [apply triple_ret; by apply He|by apply Hf].
Qed.

Lemma runs_ret {A} s sv (a : A) (Q : Lifecycle.Server -> bytes + A -> os -> Prop) : Q sv (inr a) s -> runs s sv (ret a) Q.
Proof. done. Qed.
Lemma runs_fail {A} s sv err (Q : Lifecycle.Server -> bytes + A -> os -> Prop) : Q sv (inl err) s -> runs s sv (fail err) Q.
Proof. done. Qed.
Lemma runs_call s sv c (Q : Lifecycle.Server -> bytes + answer c -> os -> Prop) :
  Q sv (inr (o c s)) (after c (o c s) s) -> runs s sv (call_ c) Q.
Proof. done. Qed.
Lemma runs_modify s sv f (Q : Lifecycle.Server -> bytes + unit -> os -> Prop) : Q (f sv) (inr tt) s -> runs s sv (modify f) Q.
Proof. done. Qed.
Lemma runs_get s sv (Q : Lifecycle.Server -> bytes + Lifecycle.Server -> os -> Prop) : Q sv (inr sv) s -> runs s sv get Q.
Proof. done. Qed.
Lemma runs_mono {A} s sv (m : M A) (R Q : Lifecycle.Server -> bytes + A -> os -> Prop) :
  runs s sv m R -> (forall sv' r s', R sv' r s' -> Q sv' r s') -> runs s sv m Q.
Proof. intros Hm HQ. eapply triple_mono; [exact Hm|]. intros [sv' r] s'. apply HQ. Qed.

(** Symbolic steps. *)
Lemma runs_call_bind {A} s sv c (f : answer c -> M A) Q :
  runs (after c (o c s) s) sv (f (o c s)) Q -> runs s sv (mbind_ (call_ c) f) Q.
Proof. done. Qed.
Lemma runs_modify_bind {A} s sv g (f : unit -> M A) Q : runs s (g sv) (f tt) Q -> runs s sv (mbind_ (modify g) f) Q.
Proof. done. Qed.
Lemma runs_get_bind {A} s sv (f : Lifecycle.Server -> M A) Q : runs s sv (f sv) Q -> runs s sv (mbind_ get f) Q.
Proof. done. Qed.
Lemma runs_ok_bind {A B} s sv (r : res A) err (f : A -> M B) Q :
  (forall e, r = inl e -> Q sv (inl (err (strerror e))) s) -> (forall a, r = inr a -> runs s sv (f a) Q) ->
  runs s sv (mbind_ (ok_or r err) f) Q.
Proof.
  intros He Hf. destruct r as [e|a]; [|by apply Hf]. by apply He.
Qed.

Lemma runs_guard {A} s sv (b : bool) err (f : unit -> M A) Q :
  (b = true -> Q sv (inl err) s) -> (b = false -> runs s sv (f tt) Q) ->
  runs s sv (mbind_ (if b then fail err else ret tt) f) Q.
Proof. intros He Hf. destruct b; [|by apply Hf]. by apply He. Qed.

(** Whatever the result, the invariant holds of what is left, and [P] of what
    else the object is. *)
Definition keeps (P : Lifecycle.Server -> Prop) {A} (m : M A) : Prop :=
  forall sv s, live [] sv s -> P sv -> runs s sv m (fun sv' _ s' => live [] sv' s' /\ P sv').

Lemma keeps_bind P {A B} (m : M A) (f : A -> M B) : keeps P m -> (forall a, keeps P (f a)) -> keeps P (mbind_ m f).
Proof.
  intros Hm Hf sv s L HP. eapply runs_bind; [by apply Hm|done|]. intros sv' a s' [L' HP']. by apply Hf.
Qed.
Lemma keeps_ret P {A} (a : A) : keeps P (ret a).
Proof. intros sv s L HP. by apply runs_ret. Qed.
Lemma keeps_fail P {A} err : keeps P (@fail _ A err).
Proof. intros sv s L HP. by apply runs_fail. Qed.
Lemma keeps_get P : keeps P get.
Proof. intros sv s L HP. by apply runs_get. Qed.
Lemma keeps_ok_or P {A} (r : res A) err : keeps P (ok_or r err).
Proof. destruct r; [apply keeps_fail|apply keeps_ret]. Qed.

(** Calls on nothing the process owns. *)
Definition detached (c : call) : Prop :=
  uses c = [] /\ forall a s, neutral c a s.
Lemma keeps_call P c : detached c -> keeps P (call_ c).
Proof.
  intros [Hu Hn] sv s L HP. apply runs_call. split; [|done]. apply live_neutral; [done|apply Hn|].
  rewrite Hu. constructor.
Qed.
Lemma keeps_if P {A} (b : bool) (m n : M A) : keeps P m -> keeps P n -> keeps P (if b then m else n).
Proof. by destruct b. Qed.

Ltac detached_call :=
  match goal with |- keeps _ (call_ ?c) => apply (keeps_call _ c); split; [done|by intros] end.
Ltac keep :=
  unfold log_info, log_warn, log_error;
  repeat first
    [ progress cbv zeta | apply keeps_ret | apply keeps_fail | apply keeps_get | apply keeps_ok_or | detached_call
    | apply keeps_bind; [|intros ?]
    | match goal with |- keeps _ (match ?x with _ => _ end) => destruct x end ].

(** A log line at the end of a method. *)
Lemma runs_log extra sv s level msg : live extra sv s ->
  runs s sv (call_ (LogLine level msg)) (fun sv' _ s' => live extra sv' s' /\ sv' = sv).
Proof. intros L. split; [|done]. by apply live_neutral; [..|constructor]. Qed.

(** ** Start-up *)

(** The UNIX listener is not there yet, and the signal descriptor is as [signals] says. *)
Definition before_listen (signals : Z -> Prop) (sv : Lifecycle.Server) : Prop :=
  listen_fd_ sv = (-1)%Z /\ socket_created_ sv = false /\ signals (signal_fd_ sv).
Definition none_yet (fd : Z) : Prop := fd = (-1)%Z.
Definition ready (fd : Z) : Prop := (0 <= fd)%Z.

(** The UNIX listener and the signal descriptor are there. *)
Definition listening (sv : Lifecycle.Server) : Prop := ready (listen_fd_ sv) /\ ready (signal_fd_ sv).

Lemma setup_signals_runs sv s : live [] sv s -> before_listen none_yet sv ->
  runs s sv setup_signals (fun sv' r s' => live [] sv' s' /\ (is_inr r -> before_listen ready sv')).
Proof.
  intros L (Hl & Hc & Hsig). unfold setup_signals. apply runs_call_bind, runs_ok_bind; intros r _.
  { split; [|done]. by apply live_neutral; [..|constructor]. }
  set (s1 := after Sigprocmask _ s). assert (L1 : live [] sv s1) by (by apply live_neutral; [..|constructor]).
  apply runs_call_bind, runs_modify_bind. pose proof (Ho Signalfd s1) as Ha.
  destruct (o Signalfd s1 : res Z) as [e|fd] eqn:E; apply runs_ok_bind; intros ? [= <-].
  - split; [|done]. eapply live_moved; [apply live_neutral; [exact L1|by repeat split|constructor]|..]; try done.
    unfold held. cbn. by rewrite Hsig.
  - destruct (live_made [] sv s1 Signalfd (inr fd) fd L1 Ha eq_refl ltac:(constructor)) as [Hfd L2].
    apply runs_ret. split; [|done]. eapply live_moved; [exact L2|..]; try done. unfold held. cbn. rewrite Hsig. unfold open1.
    rewrite (proj2 (Z.leb_le 0 fd) Hfd). change (0 <=? -1)%Z with false. cbv iota. rewrite app_nil_r, app_assoc.
    apply Permutation_cons_append.
Qed.

Lemma ensure_directory_keeps P path : keeps P (ensure_socket_directory path).
Proof.
  unfold ensure_socket_directory. keep.
Qed.

(** The probe closes its descriptor. *)
Lemma live_listener_keeps P path : keeps P (path_has_live_listener path).
Proof.
  intros sv s L HP. unfold path_has_live_listener. apply runs_call_bind. pose proof (Ho (Socket AfUnix false) s) as Ha.
  destruct (o (Socket AfUnix false) s : res Z) as [e|fd] eqn:E.
  { apply runs_ret. split; [|done]. apply live_neutral; [done|by repeat split|constructor]. }
  destruct (live_made [] sv s (Socket AfUnix false) (inr fd) fd L Ha eq_refl ltac:(constructor)) as [_ L1].
  apply runs_call_bind, runs_call_bind, runs_ret. split; [|done]. apply (live_given [] _ _ _ _ fd); [|done].
  apply live_neutral; [done|by repeat split|]. constructor; [by left|constructor].
Qed.

Lemma clear_stale_keeps signals path : keeps (before_listen signals) (clear_stale_socket path).
Proof.
  unfold clear_stale_socket. apply keeps_bind; [detached_call|]. intros [e|[]]; [keep| |keep..].
  apply keeps_bind; [apply live_listener_keeps|]. intros [|]; [keep|].
  intros sv s L (Hl & Hc & Hsig). apply runs_call_bind.
  assert (L1 : live [] sv (after (Unlink (c_str path)) (o (Unlink (c_str path)) s) s)).
  { apply live_neutral; [done| |constructor]. repeat split. cbn. rewrite (lv_bound _ _ _ L), Hc. by destruct (gone _). }
  match goal with |- runs _ _ ?m _ => assert (K : keeps (before_listen signals) m) by keep end.
  by apply K.
Qed.

Lemma sun_path_short path : (length path < sun_path_size) -> sun_path path = c_str path.
Proof.
  intros Hl. unfold sun_path. apply take_ge. transitivity (length path); [|unfold sun_path_size in *; lia].
  clear. induction path as [|c path IH]; [done|]. cbn. destruct (c == NUL); cbn; lia.
Qed.

(** The listening descriptor and the socket file once they are there. *)
Lemma live_listening sv s fd : live [fd] sv s -> (0 <= fd)%Z -> listen_fd_ sv = (-1)%Z -> live [] (set_listen_fd fd sv) s.
Proof.
  intros L Hfd Hl. eapply live_moved; [exact L|..]; try done. unfold held. cbn. rewrite Hl. unfold open1.
  by rewrite (proj2 (Z.leb_le 0 fd) Hfd).
Qed.

Lemma live_bound_socket sv s fd : live [] sv s -> socket_created_ sv = false -> fd ∈ held sv ->
  length (socket_path cfg) < sun_path_size ->
  live [] (set_socket_created true sv) (after (Bind fd (UnixAddr (sun_path (socket_path cfg)))) (inr tt) s).
Proof.
  intros L Hc Hfd Hlen.
  pose proof (uses_ok [] sv s (Bind fd (UnixAddr [])) L ltac:(by repeat constructor)) as Hmis.
  destruct L. split; cbn [after bound misused]; auto.
  - change (sun_path (socket_path cfg) :: bound s = [c_str (socket_path cfg)]). by rewrite lv_bound0, Hc, sun_path_short.
  - by apply found_after.
Qed.

Lemma setup_socket_runs sv s : live [] sv s -> before_listen ready sv ->
  runs s sv setup_socket (fun sv' r s' => live [] sv' s' /\ (is_inr r -> listening sv')).
Proof.
  intros L HP. unfold setup_socket. apply runs_get_bind. cbv zeta. rewrite (lv_cfg _ _ _ L). set (path := socket_path cfg).
  eapply runs_bind; [by apply ensure_directory_keeps|by intros ? ? ? [? _]|]. clear sv s L HP. intros sv _ s [L HP].
  eapply runs_bind; [by eapply clear_stale_keeps|by intros ? ? ? [? _]|]. clear sv s L HP. intros sv _ s [L (Hl & Hc & Hsig)].
  apply runs_call_bind, runs_modify_bind. pose proof (Ho (Socket AfUnix true) s) as Ha.
  destruct (o (Socket AfUnix true) s : res Z) as [e|fd] eqn:E.
  { apply runs_ok_bind; [|done]. intros ? _. split; [|done].
    eapply live_moved; [apply live_neutral; [exact L|by repeat split|constructor]|..]; try done. unfold held. cbn. by rewrite Hl. }
  destruct (live_made [] sv s (Socket AfUnix true) (inr fd) fd L Ha eq_refl ltac:(constructor)) as [Hfd L1].
  apply live_listening in L1; [|done..]. set (sv1 := set_listen_fd fd sv) in *. set (s1 := after (Socket AfUnix true) _ s) in *.
  assert (Hin : forall b, fd ∈ [] ++ held (set_socket_created b sv1)).
  { intros b. unfold held. cbn. unfold open1. rewrite (proj2 (Z.leb_le 0 fd) Hfd). by left. }
  apply runs_ok_bind; [done|]. intros ? [= <-].
  apply runs_guard; [done|]. intros Hlen%Nat.leb_gt. apply runs_call_bind.
  destruct (o (Bind fd _) s1 : res unit) as [e|[]] eqn:Eb; apply runs_ok_bind; intros ? [= <-].
  { split; [|done]. apply live_neutral; [done|by repeat split|]. constructor; [apply (Hin false)|constructor]. }
  apply runs_modify_bind. pose proof (live_bound_socket sv1 s1 fd L1 Hc (Hin false) Hlen) as L2.
  set (sv2 := set_socket_created true sv1) in *. set (s2 := after (Bind fd _) _ s1) in *.
  apply runs_call_bind. assert (L3 := live_neutral [] sv2 s2 (Chmod (c_str path) (socket_mode cfg)) (o _ s2) L2 ltac:(by repeat split) ltac:(constructor)).
  apply runs_ok_bind; intros ? _; [done|]. apply runs_call_bind.
  set (s3 := after (Chmod _ _) _ s2) in *.
  assert (L4 := live_neutral [] sv2 s3 (Listen fd) (o _ s3) L3 ltac:(by repeat split) ltac:(constructor; [apply (Hin true)|constructor])).
  apply runs_ok_bind; intros ? _; [done|]. eapply runs_mono; [by apply (runs_log [])|]. by intros sv' r s' [L' ->].
Qed.

(** *** TCP *)

Lemma or_close_runs sv s fd c failed what : live [fd] sv s -> neutral c (o c s) s -> uses c = [fd] ->
  runs s sv (or_close fd c failed what) (fun sv' r s' =>
    live (match r with inl _ => [] | inr _ => [fd] end) sv' s' /\ sv' = sv).
Proof.
  intros L Hn Hu. unfold or_close. apply runs_call_bind.
  assert (L1 : live [fd] sv (after c (o c s) s)).
  { apply live_neutral; [done..|]. rewrite Hu. constructor; [by left|constructor]. }
  destruct (failed (o c s)) as [e|]; [|by apply runs_ret].
  apply runs_call_bind, runs_fail. split; [by eapply live_given|done].
Qed.

Lemma or_close_bind {A} sv s fd c failed what (f : unit -> M A) Q :
  live [fd] sv s -> neutral c (o c s) s -> uses c = [fd] ->
  (forall e s', live [] sv s' -> Q sv (inl e) s') -> (forall s', live [fd] sv s' -> runs s' sv (f tt) Q) ->
  runs s sv (mbind_ (or_close fd c failed what) f) Q.
Proof.
  intros L Hn Hu He Hf. eapply runs_bind; [by apply or_close_runs|intros sv' e s' [L' ->]; by apply He|].
  intros sv' [] s' [L' ->]. by apply Hf.
Qed.

Lemma bind_one_tcp_keeps P family addr : (forall sv l, P sv -> P (set_tcp_listen_fds l sv)) -> keeps P (bind_one_tcp family addr).
Proof.
  intros HP sv s L HPsv. unfold bind_one_tcp. apply runs_call_bind. pose proof (Ho (Socket family true) s) as Ha.
  destruct (o (Socket family true) s : res Z) as [e|fd] eqn:E.
  { apply runs_ok_bind; [|done]. intros ? _. split; [|done]. apply live_neutral; [done|by repeat split|constructor]. }
  destruct (live_made [] sv s (Socket family true) (inr fd) fd L Ha eq_refl ltac:(constructor)) as [_ L1].
  apply runs_ok_bind; [done|]. intros ? [= <-]. set (s1 := after (Socket family true) _ s) in *. clearbody s1. clear s L Ha E.
  apply or_close_bind; [done..|]. clear s1 L1. intros s1 L1.
  assert (Hrest : forall s1, live [fd] sv s1 ->
    runs s1 sv (mbind_ (or_close fd (Bind fd (InetAddr addr)) failed_res #"bind() failed for TCP listener: ") (fun _ =>
      mbind_ (or_close fd (Listen fd) failed_res #"listen() failed for TCP listener: ") (fun _ =>
      mbind_ (modify (fun sv => set_tcp_listen_fds (tcp_listen_fds_ sv ++ [fd]) sv)) (fun _ =>
      log_info (#"listening on tcp " ++ inet_ntop addr ++ #":" ++ to_string (port_of addr))))))
      (fun sv' _ s' => live [] sv' s' /\ P sv')).
  { clear s1 L1. intros s1 L1. apply or_close_bind; [done..|]. clear s1 L1. intros s1 L1.
    apply or_close_bind; [done..|]. clear s1 L1. intros s1 L1. apply runs_modify_bind. eapply runs_mono.
    - apply (runs_log []). eapply live_moved; [exact L1|..]; try done. unfold held. cbn.
      rewrite <- !app_assoc. cbn. rewrite !(app_assoc (open1 _)). apply Permutation_middle.
    - intros sv' _ s' [L' ->]. split; [done|by apply HP]. }
  destruct family; [by apply Hrest..|]. apply or_close_bind; [done..|]. intros s2 L2. by apply Hrest.
Qed.

Lemma setup_tcp_keeps : keeps listening setup_tcp_listeners.
Proof.
  unfold setup_tcp_listeners. apply keeps_bind; [apply keeps_get|]. intros sv. cbv zeta.
  assert (B := fun family addr => bind_one_tcp_keeps listening family addr (fun _ _ => id)). destruct (_ =? 0)%Z; [keep|].
  destruct (tcp_address (cfg_ sv) == []); [by apply keeps_bind|].
  destruct (parse_ip_address _) as [addr|]; [|keep]. destruct (_ =? _)%Z; [done|]. destruct (_ =? _)%Z; [done|keep].
Qed.

(** *** Databases *)

Lemma live_geo sv s geo : live [] sv s -> geo_inv geo -> found_all (trace s) (view geo) -> live [] (set_geo geo sv) s.
Proof. intros L I Hb. destruct L. by split. Qed.

Lemma view_slot_view s which : view_slot (view s) which = slot_db s which.
Proof. by destruct which. Qed.

Lemma found_set evs v which db : found_all evs v -> seen db_files evs db -> found_all evs (set_slot which db v).
Proof.
  intros Hf Hdb w' db'. destruct w', which; cbn; intros E;
    first [exact (Hf Country db' E)|exact (Hf Asn db' E)|exact (Hf City db' E)|by injection E as <-].
Qed.

(** What [open_slot] does to the databases in use. *)
Lemma open_slot_found fs now which s geo :
  geo_inv geo -> found_all (trace s) (view geo) -> db_path_of cfg which <> [] ->
  exists err geo', open_slot fs which (db_path_of cfg which) geo = Some (err, geo') /\ geo_inv geo' /\
    found_all (trace (after Databases (fs, now) s)) (view geo') /\
    (err = None -> exists db, slot_db geo' which = Some db).
Proof.
  intros I Hf Hp. destruct (open_slot_refines fs which (db_path_of cfg which) geo I) as (err & geo' & E & I' & S). exists err, geo'.
  split; [done|]. split; [done|]. apply (found_after Databases (fs, now)) in Hf. unfold spec_open in S.
  destruct (fs (c_str (db_path_of cfg which))) as [st|db] eqn:Efs; pose proof (f_equal fst S) as Se; pose proof (f_equal snd S) as Sv;
    cbn [fst snd] in Se, Sv; rewrite <- Se, <- Sv; [done|]. split.
  - apply found_set; [done|]. exists fs, now, (db_path_of cfg which). split; [apply elem_of_app; right; by left|]. split; [by apply db_file|done].
  - intros _. exists db. rewrite <- view_slot_view, <- Sv. by destruct which.
Qed.

(** Where the metadata that was asked for last is not defined. *)
Lemma undatable_found sv s c a which t db : live [] sv (after c a s) -> slot_db (geo_ sv) which = Some db ->
  t ∈ read_times (Event c a) -> make_metadata t db = None -> undatable db_files (after c a s).
Proof.
  intros L Hdb Ht Hm. exists (Event c a), t, db. cbn. rewrite last_snoc. split; [done|]. split; [done|]. split; [|done].
  apply (lv_found _ _ _ L which). by rewrite view_slot_view.
Qed.

Lemma pick_time {A} which (now : A * A * A) : pick which now ∈ [now.1.1; now.1.2; now.2].
Proof. destruct which; cbn; rewrite !elem_of_cons; auto. Qed.

Definition stable (P : Lifecycle.Server -> Prop) : Prop := forall sv geo, P sv -> P (set_geo geo sv).

Lemma open_block_keeps P which path what : stable P -> path = db_path_of cfg which ->
  keeps P (open_block path (fun fs => open_slot fs which)
    (fun now geo => slot_metadata (pick which now) (slot_open which (dbs geo)) (slot_handle which (dbs geo)) (heap geo)) what).
Proof.
  intros HP -> sv s L HPsv. unfold open_block. case_bool_decide as Hp; cbn [negb]; [by apply runs_ret|].
  apply runs_call_bind. destruct (o Databases s) as [fs now] eqn:E.
  destruct (open_slot_found fs now which s (geo_ sv) (lv_geo _ _ _ L) (lv_found _ _ _ L) Hp) as (err & geo' & Eo & I & Hb & Hmd).
  pose proof (live_neutral [] sv s Databases (fs, now) L ltac:(done) ltac:(constructor)) as L1.
  apply runs_get_bind. set (s1 := after Databases (fs, now) s) in *.
  assert (L2 : live [] (set_geo geo' sv) s1) by (by apply live_geo).
  unfold runs, mbind_, lift. rewrite Eo. cbn [of_option bind modify]. destruct err as [e|].
  { apply triple_ret. split; [done|by apply HP]. }
  destruct (slot_metadata _ _ _ _) as [md|] eqn:Em; cbn [of_option bind].
  - split; [by apply live_neutral; [..|constructor]|by apply HP].
  - destruct (slot_metadata_undefined _ _ _ I Em) as (db & Hdb & Hm). apply triple_undefined.
    eapply undatable_found; [exact L2|exact Hdb|apply pick_time|exact Hm].
Qed.

Lemma init_runs sv s : live [] sv s -> before_listen none_yet sv ->
  runs s sv init (fun sv' r s' => live [] sv' s' /\ (is_inr r -> listening sv')).
Proof.
  intros L HP. unfold init. eapply runs_bind; [by apply setup_signals_runs|by intros ? ? ? [? _]|].
  clear sv s L HP. intros sv ? s [L HP']. assert (HP := HP' I). clear HP'. apply runs_get_bind. cbv zeta. rewrite (lv_cfg _ _ _ L).
  assert (B := fun which what => open_block_keeps (before_listen ready) which _ what (fun _ _ => id) eq_refl).
  eapply runs_bind; [exact (B Country _ sv s L HP)|by intros ? ? ? [? _]|]. clear s L HP. intros sv1 _ s [L HP].
  eapply runs_bind; [exact (B Asn _ sv1 s L HP)|by intros ? ? ? [? _]|]. clear s L HP. intros sv2 _ s [L HP].
  eapply runs_bind; [exact (B City _ sv2 s L HP)|by intros ? ? ? [? _]|]. clear s L HP. intros sv3 _ s [L HP].
  apply runs_get_bind. apply runs_guard; [done|]. intros _.
  eapply runs_bind; [by apply setup_socket_runs|by intros ? ? ? [? _]|]. clear s L HP. intros sv4 ? s [L HL'].
  assert (HL := HL' I). clear HL'.
  eapply runs_bind; [by apply setup_tcp_keeps|by intros ? ? ? [? _]|]. clear s L HL. intros sv5 _ s [L HL].
  apply runs_call_bind. assert (L1 := live_neutral [] sv5 s (PoolStart (threads cfg)) (o _ s) L ltac:(by repeat split) ltac:(constructor)).
  apply runs_modify_bind. eapply runs_mono.
  - apply (runs_log []). by eapply live_moved; [exact L1|reflexivity|..].
  - by intros sv' r s' [L' ->].
Qed.

(** ** Shut-down *)

Definition owns (l : list Z) (s : os) : Prop :=
  NoDup l /\ (forall fd, fd ∈ fds s <-> fd ∈ l) /\ misused s = false.

(** A socket file is left only if removing it failed. *)
Definition removed (s : os) : Prop :=
  forall p, p ∈ bound s -> exists e, e <> ENOENT /\ Event (Unlink p) (inl e) ∈ trace s.

Lemma removed_nil s : bound s = [] -> removed s.
Proof. intros Hb p. rewrite Hb. by intros Hin%elem_of_nil. Qed.

Definition no_files (c : call) : Prop := match c with Bind _ _ | Unlink _ => False | _ => True end.

Lemma bound_same c a s : no_files c -> bound (after c a s) = bound s.
Proof. by destruct c. Qed.

Lemma removed_after c a s : no_files c -> removed s -> removed (after c a s).
Proof.
  intros Hc Hr p. rewrite bound_same by done. intros (e & He & Hin)%Hr. exists e. split; [done|]. cbn. apply elem_of_app. by left.
Qed.

(** A call that closes nothing and makes nothing. *)
Definition inert (c : call) : Prop := uses c = [] /\ gives_up c = None /\ forall a, makes c a = None.

Lemma owns_inert l s c a : owns l s -> inert c -> owns l (after c a s).
Proof.
  intros (Hn & Hf & Hm) (Hu & Hg & Hmk). split; [done|]. cbn. split; [|by rewrite Hm, Hu].
  unfold fds_after. by rewrite Hg, Hmk.
Qed.

Lemma owns_closed fd l s : owns (fd :: l) s -> owns l (after (CloseFd fd) tt s).
Proof.
  intros (Hn & Hf & Hm). apply NoDup_cons in Hn as [Hnin Hn]. split; [done|]. split.
  - intros x. cbn. rewrite elem_of_difference, elem_of_singleton, Hf, elem_of_cons.
    split; [intros [[?|?] ?]; done|]. intros Hx. split; [by right|]. by intros ->.
  - cbn. rewrite Hm, bool_decide_eq_true_2; [done|]. apply Hf. by left.
Qed.

Lemma close_all_owns l rest s (Q : unit -> os -> Prop) : owns (l ++ rest) s ->
  (forall s', owns rest s' -> bound s' = bound s -> (removed s -> removed s') -> Q tt s') -> triple o s (close_all l) Q.
Proof.
  revert s. induction l as [|fd l IH]; intros s Ho' HQ; cbn [close_all].
  - apply triple_ret. by apply HQ.
  - apply triple_sys. destruct (o (CloseFd fd) s). cbn [bind]. apply owns_closed in Ho'. apply IH; [done|].
    intros s' Hs' Hb Hr. apply HQ; [done|by rewrite Hb|]. intros R. by apply Hr, removed_after.
Qed.

Lemma close_open_owns fd rest s (Q : unit -> os -> Prop) : owns (open1 fd ++ rest) s ->
  (forall s', owns rest s' -> bound s' = bound s -> (removed s -> removed s') -> Q tt s') -> triple o s (close_if_open fd) Q.
Proof.
  unfold open1, close_if_open. intros Ho' HQ. destruct (0 <=? fd)%Z; [|by apply triple_ret, HQ].
  apply triple_sys. destruct (o (CloseFd fd) s). apply triple_ret, HQ; [by apply owns_closed|done|intros; by apply removed_after].
Qed.

Lemma live_owns extra sv s : live extra sv s -> owns (extra ++ held sv) s.
Proof. intros L. by destruct L. Qed.

(** The pool is stopped first. *)
Lemma stop_pool_runs sv s : exists s', exec (stop_pool sv) o s = Some (set_pool false sv, s') /\
  (forall l, owns l s -> owns l s') /\ bound s' = bound s /\ (removed s -> removed s').
Proof.
  unfold stop_pool. destruct (pool_ sv) eqn:Ep.
  - eexists. split; [done|]. split; [intros l Hl; by apply owns_inert|]. split; [done|by apply removed_after].
  - exists s. split; [|done]. cbn. by destruct sv; cbn in *; subst.
Qed.

(** Removing the socket file. *)
Lemma unlink_removed r s : bound s = [c_str (socket_path cfg)] ->
  removed (after (Unlink (c_str (socket_path cfg))) r s).
Proof.
  intros Hb p. cbn. destruct (gone r) eqn:Eg; rewrite Hb; cbn.
  - rewrite bool_decide_refl. by intros Hin%elem_of_nil.
  - intros ->%list_elem_of_singleton. destruct r as [e|]; [|done]. cbn in Eg. exists e. split; [by intros ->|]. apply elem_of_app. right. by left.
Qed.

(** What the socket file's clause of the invariant leaves to do. *)
Definition file_ok (created : bool) (s : os) : Prop :=
  if created then bound s = [c_str (socket_path cfg)] else removed s.

Lemma live_file sv s : live [] sv s -> file_ok (socket_created_ sv) s.
Proof. intros L. unfold file_ok. pose proof (lv_bound _ _ _ L) as Hb. destruct (socket_created_ sv); [done|by apply removed_nil]. Qed.

Lemma file_ok_same created s s' : bound s' = bound s -> (removed s -> removed s') -> file_ok created s -> file_ok created s'.
Proof. destruct created; cbn; [by intros ->|auto]. Qed.

(** Nothing is held any more. *)
Record released (sv : Lifecycle.Server) (s : os) : Prop := {
  rl_held : listen_fd_ sv = (-1)%Z /\ tcp_listen_fds_ sv = [] /\ signal_fd_ sv = (-1)%Z;
  rl_owns : owns [] s;
  rl_file : socket_created_ sv = false /\ removed s;
  rl_geo : geo_inv (geo_ sv);
  rl_cfg : cfg_ sv = cfg;
}.

(** The listeners, as [cleanup] and the destructor close them. *)
Lemma close_listeners {A} sv s rest (k : prog A) Q : owns (open1 (listen_fd_ sv) ++ tcp_listen_fds_ sv ++ rest) s ->
  file_ok (socket_created_ sv) s ->
  (forall s', owns rest s' -> file_ok (socket_created_ sv) s' -> triple o s' k Q) ->
  triple o s (bind (close_if_open (listen_fd_ sv)) (fun _ => bind (close_all (tcp_listen_fds_ sv)) (fun _ => k))) Q.
Proof.
  intros Ho' Hf Hk. eapply triple_bind.
  - eapply (close_open_owns _ _ _ (fun _ s' => owns (tcp_listen_fds_ sv ++ rest) s' /\ file_ok (socket_created_ sv) s')); [exact Ho'|].
    intros s' Hs' Hb Hr. split; [done|by eapply file_ok_same].
  - intros _ s1 [Ho1 Hf1]. eapply triple_bind.
    + eapply (close_all_owns _ _ _ (fun _ s' => owns rest s' /\ file_ok (socket_created_ sv) s')); [exact Ho1|].
      intros s' Hs' Hb Hr. split; [done|by eapply file_ok_same].
    + intros _ s2 [Ho2 Hf2]. by apply Hk.
Qed.

Lemma cleanup_runs sv s : live [] sv s -> triple o s (cleanup sv) (fun sv' s' => released sv' s').
Proof.
  intros L. unfold cleanup. apply triple_sys. cbn [bind].
  set (s1 := after (LogLine Info _) _ s). assert (L1 : live [] sv s1) by (by apply live_neutral; [..|constructor]).
  destruct (stop_pool_runs sv s1) as (s2 & E & Hown & Hb & Hr). eapply triple_bind.
  { apply defined_triple. eexists _, _. split; [exact E|]. exact (conj eq_refl eq_refl : (fun a s' => a = set_pool false sv /\ s' = s2) _ _). }
  intros sv1 s2' [-> ->]. apply close_listeners with (rest := open1 (signal_fd_ sv)).
  { apply Hown. pose proof (live_owns _ _ _ L1) as Hl. cbn [app] in Hl. unfold held in Hl. exact Hl. }
  { eapply file_ok_same; [exact Hb|exact Hr|exact (live_file sv s1 L1)]. }
  intros s3 Ho3 Hf3. cbv zeta.
  set (sv2 := set_tcp_listen_fds [] (set_listen_fd (-1)%Z (set_pool false sv))).
  change (socket_created_ sv2) with (socket_created_ sv). change (cfg_ sv2) with (cfg_ sv). rewrite (lv_cfg _ _ _ L).
  eapply (triple_bind _ _ _ _ _ (fun sv3 s' => owns (open1 (signal_fd_ sv)) s' /\ removed s' /\ sv3 = set_socket_created false sv2)).
  { change (socket_created_ (set_pool false sv)) with (socket_created_ sv) in Hf3.
    destruct (socket_created_ sv) eqn:Ec; [|apply triple_ret; repeat split; [by apply Ho3..|done|]].
    - apply triple_sys. cbn [bind]. set (r := o (Unlink _) s3).
      assert (Ho4 : owns (open1 (signal_fd_ sv)) (after (Unlink (c_str (socket_path cfg))) r s3)) by (by apply owns_inert).
      assert (Hr4 : removed (after (Unlink (c_str (socket_path cfg))) r s3)) by (by apply unlink_removed).
      destruct (r : res unit) as [e|[]]; [destruct (negb _)|]; apply triple_sys; cbn [bind]; apply triple_ret;
        (split; [by apply owns_inert|split; [by apply removed_after|done]]).
    - unfold sv2. destruct sv; cbn in *. by subst. }
  intros sv3 s4 (Ho4 & Hr4 & ->). change (signal_fd_ (set_socket_created false sv2)) with (signal_fd_ sv).
  eapply triple_bind.
  { eapply (close_open_owns (signal_fd_ sv) [] s4 (fun _ s' => owns [] s' /\ removed s')); [by rewrite app_nil_r|]. auto. }
  intros _ s5 [Ho5 Hr5]. apply triple_sys. cbn [bind]. apply triple_ret. split; [done|by apply owns_inert|..].
  - split; [done|by apply removed_after].
  - exact (lv_geo _ _ _ L).
  - exact (lv_cfg _ _ _ L).
Qed.

Lemma destroy_runs sv s : owns (held sv) s -> file_ok (socket_created_ sv) s -> cfg_ sv = cfg -> geo_inv (geo_ sv) ->
  triple o s (Server_destroy sv) (fun _ s' => owns [] s' /\ removed s').
Proof.
  intros Hs Hf Hc I. unfold Server_destroy.
  destruct (stop_pool_runs sv s) as (s2 & E & Hown & Hb & Hr). eapply triple_bind.
  { apply defined_triple. eexists _, _. split; [exact E|]. exact (conj eq_refl eq_refl : (fun a s' => a = set_pool false sv /\ s' = s2) _ _). }
  intros sv1 s2' [-> ->]. apply close_listeners with (rest := open1 (signal_fd_ sv)).
  { by apply Hown. }
  { by eapply file_ok_same. }
  intros s3 Ho3 Hf3. eapply triple_bind.
  { eapply (close_open_owns (signal_fd_ sv) [] s3 (fun _ s' => owns [] s' /\ file_ok (socket_created_ sv) s')); [by rewrite app_nil_r|].
    intros s' Ho' Hb' Hr'. split; [done|by eapply file_ok_same]. }
  intros _ s4 [Ho4 Hf4]. eapply (triple_bind _ _ _ _ _ (fun _ s' => owns [] s' /\ removed s')).
  { change (socket_created_ (set_pool false sv)) with (socket_created_ sv). change (cfg_ (set_pool false sv)) with (cfg_ sv). rewrite Hc.
    destruct (socket_created_ sv); [|by apply triple_ret]. apply triple_sys. cbn [bind]. apply triple_ret.
    split; [by apply owns_inert|]. by apply unlink_removed. }
  intros _ s5 Hs5. change (geo_ (set_pool false sv)) with (geo_ sv). destruct (destroy_closes _ I) as (h & -> & _).
  by apply triple_ret.
Qed.

(** ** The accept loop *)

(** A call on what is held, in a program. *)
Lemma live_step {A} sv s c (k : answer c -> prog A) Q : live [] sv s -> neutral c (o c s) s ->
  Forall (fun fd => fd ∈ held sv) (uses c) ->
  (live [] sv (after c (o c s) s) -> triple o (after c (o c s) s) (k (o c s)) Q) -> triple o s (Sys c k) Q.
Proof. intros L Hn Hu Hk. apply triple_sys, Hk. by apply live_neutral. Qed.

Lemma log_step {A} sv s level msg (k : unit -> prog A) Q : live [] sv s ->
  (forall a s', live [] sv s' -> triple o s' (k a) Q) -> triple o s (bind (sys (LogLine level msg)) k) Q.
Proof. intros L Hk. apply (live_step sv s (LogLine level msg)); [done|done|constructor|]. apply Hk. Qed.

Lemma accept_all_keeps fuel fd sv s : live [] sv s -> fd ∈ held sv ->
  triple o s (accept_all fuel fd) (fun _ s' => live [] sv s').
Proof.
  revert s. induction fuel as [|fuel IH]; intros s L Hfd; [by apply triple_ret|]. cbn [accept_all].
  apply triple_sys. pose proof (Ho (Accept4 fd) s) as Ha. cbn [bind].
  assert (Hu : Forall (fun fd => fd ∈ [] ++ held sv) (uses (Accept4 fd))) by (constructor; [exact Hfd|constructor]).
  destruct (o (Accept4 fd) s : res Z) as [e|client] eqn:E.
  - assert (L1 : live [] sv (after (Accept4 fd) (inl e) s)) by (by apply live_neutral).
    destruct (_ && _); [|by apply triple_ret]. apply (log_step sv); [done|]. intros ? s' L'. by apply triple_ret.
  - destruct (live_made [] sv s (Accept4 fd) (inr client) client L Ha eq_refl Hu) as [_ L1].
    apply triple_sys. apply IH; [|done]. by eapply live_given.
Qed.

Lemma accept_ready_keeps fuel listeners revents sv s : live [] sv s -> Forall (fun fd => fd ∈ held sv) listeners ->
  triple o s (accept_ready fuel listeners revents) (fun _ s' => live [] sv s').
Proof.
  revert revents s. induction listeners as [|fd listeners IH]; intros revents s L Hl; [by apply triple_ret|].
  destruct revents as [|ready revents]; [by apply triple_ret|]. cbn [accept_ready].
  apply Forall_cons in Hl as [Hfd Hl]. eapply (triple_bind _ _ _ _ _ (fun _ s' => live [] sv s')).
  - destruct ready; [by apply accept_all_keeps|by apply triple_ret].
  - intros [|] s1 L1; [by apply IH|by apply triple_ret].
Qed.

Lemma log_all_keeps es sv s : live [] sv s -> triple o s (log_all es) (fun _ s' => live [] sv s').
Proof.
  revert s. induction es as [|[level msg| |] es IH]; intros s L; cbn [log_all]; [by apply triple_ret| |by apply IH..].
  apply (log_step sv); [done|]. intros ? s' L'. by apply IH.
Qed.

(** Reloading finds its databases at the configured paths. *)
Lemma found_reload fs now which v s : found_all (trace (after Databases (fs, now) s)) v ->
  found_all (trace (after Databases (fs, now) s)) (spec_reload fs which (db_path_of cfg which) v).1.
Proof.
  intros Hf. unfold spec_reload. case_bool_decide; [done|]. destruct (fs (c_str (db_path_of cfg which))) as [|db] eqn:E; [done|].
  apply found_set; [done|]. exists fs, now, (db_path_of cfg which). split; [apply elem_of_app; right; by left|]. split; [by apply db_file|done].
Qed.

Lemma found_reload_all fs now v s : found_all (trace s) v ->
  found_all (trace (after Databases (fs, now) s)) (spec_reload_all fs cfg v).1.
Proof.
  intros Hf%(found_after Databases (fs, now)). unfold spec_reload_all.
  apply (found_reload _ _ Country) in Hf. cbn in Hf. destruct (spec_reload fs Country _ v) as [v1 ok1].
  apply (found_reload _ _ Asn) in Hf. cbn in Hf. destruct (spec_reload fs Asn _ _) as [v2 ok2].
  apply (found_reload _ _ City) in Hf. cbn in Hf. by destruct (spec_reload fs City _ _) as [v3 ok3].
Qed.

(** The object's descriptors, which the loop does not change. *)
Definition same_fds (sv sv' : Lifecycle.Server) : Prop :=
  listen_fd_ sv' = listen_fd_ sv /\ tcp_listen_fds_ sv' = tcp_listen_fds_ sv /\ signal_fd_ sv' = signal_fd_ sv.

Lemma handle_signal_keeps sv s : live [] sv s -> signal_fd_ sv ∈ held sv ->
  triple o s (handle_signal sv) (fun r s' => live [] r.1 s' /\ same_fds sv r.1).
Proof.
  intros L Hfd. unfold handle_signal. apply (live_step sv s (ReadSignal (signal_fd_ sv))); [done|by repeat split|by repeat constructor|].
  intros L1. cbn [bind]. set (s1 := after (ReadSignal (signal_fd_ sv)) _ s) in *. clearbody s1. destruct (o (ReadSignal (signal_fd_ sv)) s : option signal) as [[]|]; [|apply (log_step sv); [done|]; intros; by apply triple_ret..|by apply triple_ret].
  clear s L. rename s1 into s, L1 into L. apply (log_step sv); [done|]. clear s L. intros _ s L.
  apply triple_sys. destruct (o Databases s) as [fs now] eqn:E.
  pose proof (live_neutral [] sv s Databases (fs, now) L ltac:(done) ltac:(constructor)) as L1.
  rewrite (lv_cfg _ _ _ L). cbn [bind fst snd].
  destruct (reload_databases_total cfg fs now (geo_ sv) (lv_geo _ _ _ L)) as [(geo & log & ok & -> & I & V & _)|(-> & which & db & Hp & Hdb & Hm)];
    cbn [of_option bind].
  - pose proof (found_reload_all fs now _ s (lv_found _ _ _ L)) as Hb. rewrite V in Hb.
    assert (L2 : live [] (set_geo geo sv) (after Databases (fs, now) s)) by (by apply live_geo).
    eapply triple_bind; [by apply log_all_keeps|]. intros ? s' L'. by apply triple_ret.
  - apply triple_undefined. exists (Event Databases (fs, now)), (pick which now), db. cbn [after trace]. rewrite last_snoc.
    split; [done|]. split; [apply pick_time|]. split; [|done]. exists fs, now, (db_path_of cfg which).
    split; [apply elem_of_app; right; by left|]. split; [by apply db_file|done].
Qed.

Lemma write_metrics_keeps sv s : live [] sv s -> triple o s (write_metrics sv) (fun _ s' => live [] sv s').
Proof.
  intros L. unfold write_metrics. apply triple_sys. destruct (o Snapshot s) as [[m now] uptime] eqn:E. cbn [bind].
  pose proof (live_neutral [] sv s Snapshot (m, now, uptime) L ltac:(done) ltac:(constructor)) as L1.
  destruct (collect_db_infos now (geo_ sv)) as [infos|] eqn:Ec; cbn [of_option bind].
  - apply (live_step sv _ (WriteMetrics _ _)); [done|done|constructor|]. intros L2. by apply log_all_keeps.
  - destruct (collect_undefined _ _ (lv_geo _ _ _ L) Ec) as (which & db & Hdb & Hm). apply triple_undefined.
    eapply undatable_found; [exact L1|exact Hdb|apply pick_time|exact Hm].
Qed.

Lemma held_listening sv : listening sv -> held sv = listen_fd_ sv :: tcp_listen_fds_ sv ++ [signal_fd_ sv].
Proof.
  unfold listening, ready, held, open1. intros [Hl Hs]. by rewrite (proj2 (Z.leb_le _ _) Hl), (proj2 (Z.leb_le _ _) Hs).
Qed.

Lemma same_held sv sv' : same_fds sv sv' -> held sv' = held sv.
Proof. unfold held. by intros (-> & -> & ->). Qed.

Definition turn_server (t : turn) : Lifecycle.Server := match t with Continue sv _ | Break sv | OutOfFuel sv => sv end.

Lemma run_turn_keeps fuel sv s next : live [] sv s -> listening sv ->
  triple o s (run_turn fuel (held sv) sv next) (fun t s' => live [] (turn_server t) s' /\ same_fds sv (turn_server t)).
Proof.
  intros L HL. unfold run_turn. cbv zeta.
  assert (Hself : same_fds sv sv) by done.
  eapply (triple_bind _ _ _ _ _ (fun _ s' => live [] sv s')).
  { destruct (negb _); [|by apply triple_ret]. apply (live_step sv _ SteadyNow); [done|done|constructor|]. intros L1. by apply triple_ret. }
  intros timeout s1 L1. apply (live_step sv s1 (Poll (held sv) timeout)); [done|done| |].
  { apply Forall_forall. done. }
  intros L2. cbn [bind]. set (s2 := after (Poll (held sv) timeout) _ s1) in *. clearbody s2. destruct (o (Poll (held sv) timeout) s1 : res (list bool)) as [e|revents].
  { destruct (e =? EINTR)%Z; [by apply triple_ret|]. apply (log_step sv); [done|]. intros ? s' L'. by apply triple_ret. }
  eapply triple_bind; [apply (accept_ready_keeps fuel (removelast (held sv)) revents sv s2 L2)|].
  { apply Forall_forall. intros fd Hin. rewrite (held_listening _ HL) in *. rewrite app_comm_cons in *.
    rewrite removelast_last in Hin. apply elem_of_app. by left. }
  intros [|] s3 L3; cbn [negb]; [|by apply triple_ret].
  eapply (triple_bind _ _ _ _ _ (fun r s' => live [] r.1 s' /\ same_fds sv r.1)).
  { destruct (List.last revents false); [|by apply triple_ret]. apply handle_signal_keeps; [done|].
    rewrite (held_listening _ HL), app_comm_cons. apply elem_of_app. right. by left. }
  intros [sv1 running] s4 [L4 Hs]. cbn [fst] in *.
  eapply (triple_bind _ _ _ _ _ (fun _ s' => live [] sv1 s')).
  { destruct (negb _); [|by apply triple_ret]. apply (live_step sv1 _ SteadyNow); [done|done|constructor|]. intros L5. cbn [bind].
    destruct (next <=? _)%Z; [|by apply triple_ret]. eapply triple_bind; [by apply write_metrics_keeps|]. intros ? s6 L6.
    apply (live_step sv1 _ SteadyNow); [done|done|constructor|]. intros L7. by apply triple_ret. }
  intros next1 s5 L5. by destruct running; apply triple_ret.
Qed.

Lemma run_loop_keeps turns fuel sv s next : live [] sv s -> listening sv ->
  triple o s (run_loop turns fuel (held sv) sv next) (fun r s' => live [] r.1 s' /\ same_fds sv r.1).
Proof.
  revert sv s next. induction turns as [|turns IH]; intros sv s next L HL; [by apply triple_ret|]. cbn [run_loop].
  eapply triple_bind; [by apply run_turn_keeps|]. intros t s1 [L1 Hs].
  destruct t as [sv1 next1|sv1|sv1]; cbn [turn_server] in *; [|by apply triple_ret..].
  rewrite <- (same_held _ _ Hs). destruct Hs as (E1 & E2 & E3).
  eapply triple_mono; [apply IH; [done|]|].
  - unfold listening in *. by rewrite E1, E3.
  - intros r s' (L' & E1' & E2' & E3'). split; [done|]. split; [congruence|]. split; congruence.
Qed.

Lemma run_keeps turns fuel sv s : live [] sv s -> listening sv ->
  triple o s (run turns fuel sv) (fun r s' => match r.2 with None => live [] r.1 s' | Some _ => released r.1 s' end).
Proof.
  intros L HL. unfold run. apply (log_step sv); [done|]. intros ? s1 L1. cbv zeta.
  apply (live_step sv _ SteadyNow); [done|done|constructor|]. intros L2. cbn [bind].
  rewrite <- (held_listening _ HL). eapply triple_bind; [by apply run_loop_keeps|].
  intros [sv' [[]|]] s3 [L3 _]; cbn [fst snd] in *; [|by apply triple_ret].
  eapply triple_bind; [by apply cleanup_runs|]. intros sv2 s4 HR. by apply triple_ret.
Qed.

Definition blank (s : os) : Prop := fds s = ∅ /\ bound s = [] /\ misused s = false.

Lemma live_blank s : blank s -> live [] (Server_new cfg) s.
Proof.
  intros (Hf & Hb & Hm). split; try done.
  - constructor.
  - intros fd. rewrite Hf. split; [intros []%elem_of_empty|intros []%elem_of_nil].
  - apply geo_inv_init.
  - by intros [] db.
Qed.

Lemma serve_keeps turns fuel s : blank s ->
  triple o s (serve turns fuel cfg) (fun r s' => misused s' = false /\ (r <> None -> fds s' = ∅ /\ removed s')).
Proof.
  intros Hs. unfold serve. eapply triple_bind; [apply init_runs; [by apply live_blank|by repeat split]|].
  assert (Hend : forall l s, owns l s -> l = [] -> removed s -> misused s = false /\ (fds s = ∅ /\ removed s)).
  { intros l s1 (_ & Hf & Hm) -> Hr. split; [done|]. split; [|done]. apply set_eq. intros fd. rewrite Hf. split; [intros []%elem_of_nil|intros []%elem_of_empty]. }
  intros [sv [err|[]]] s1 [L HL]; cbn [fst snd is_inr] in *.
  - apply (log_step sv); [done|]. intros ? s2 L2. eapply triple_bind.
    { apply destroy_runs; [exact (live_owns [] _ _ L2)|exact (live_file _ _ L2)|exact (lv_cfg _ _ _ L2)|exact (lv_geo _ _ _ L2)]. }
    intros ? s3 [Ho3 Hr3]. apply triple_ret. by destruct (Hend [] s3 Ho3 eq_refl Hr3).
  - eapply triple_bind; [exact (run_keeps turns fuel sv s1 L (HL I))|]. intros [sv1 [code|]] s2; cbn [fst snd].
    + intros [(Hl & Ht & Hg) Ho2 [Hc Hr] I Hcfg]. eapply triple_bind.
      { apply destroy_runs; [|by rewrite Hc|done..]. unfold held. by rewrite Hl, Ht, Hg. }
      intros ? s3 [Ho3 Hr3]. apply triple_ret. by destruct (Hend [] s3 Ho3 eq_refl Hr3).
    + intros L2. apply triple_ret. split; [by destruct L2|done].
Qed.
End LifecycleSpec.
