(* ===== verification/LifecycleTrace.v ===== *)
(** * The server's life: what it does (correctness of [Lifecycle])

    Properties of the traces of system calls: which socket file start-up may
    remove, in which order a listener is set up, which addresses are bound,
    that every accepted connection reaches the pool, when the loop ends and
    how long it sleeps. *)

From stdpp Require Import gmap.
From S2P Require Import Prelude CLib Log Double IpAddr Config ConfigSpec GeoIp GeoIpSpec Metrics ThreadPool Response Server ServerSpec.
From S2P Require Import System Lifecycle LifecycleSpec.
From Stdlib Require Import Ascii.

Section Methods.
Context {MM : MaxMindDB} {NP : InetPton} {LC : Libc}.

(** ** Methods *)

Definition each (P : call -> Prop) {A} (m : M A) : Prop := forall sv, every P (m sv).

Lemma each_bind P {A B} (m : M A) (f : A -> M B) : each P m -> (forall a, each P (f a)) -> each P (mbind_ m f).
Proof. intros Hm Hf sv. apply every_bind; [apply Hm|]. intros [sv' [e|a]]; [done|apply Hf]. Qed.
Lemma each_call (P : call -> Prop) c : P c -> each P (call_ c).
Proof. by intros Hc sv. Qed.
Lemma each_ok_or P {A} (r : res A) err : each P (ok_or r err).
Proof. by destruct r. Qed.

Lemma each_option (P : call -> Prop) {A} (x : option A) : each P (lift (of_option x)).
Proof. by destruct x. Qed.

Lemma emits_method {A B} (m : M A) (f : A -> M B) sv R (Q : Lifecycle.Server * (bytes + B) -> list event -> Prop) :
  emits (m sv) R ->
  (forall sv' e evs, R (sv', inl e) evs -> Q (sv', inl e) evs) ->
  (forall sv' a evs, R (sv', inr a) evs -> emits (f a sv') (fun r evs' => Q r (evs ++ evs'))) ->
  emits (mbind_ m f sv) Q.
Proof.
  intros Hm He Hf. eapply emits_bind; [exact Hm|]. intros [sv' [e|a]] evs HR; [|by apply Hf].
  apply emits_ret. rewrite app_nil_r. by apply He.
Qed.

Lemma emits_get {A} (f : Lifecycle.Server -> M A) sv Q : emits (f sv sv) Q -> emits (mbind_ get f sv) Q.
Proof. done. Qed.

(** A method leaves a part of the object as it was. *)
Definition preserves {X} (f : Lifecycle.Server -> X) {A} (m : M A) : Prop := forall sv, yields (fun r => f r.1 = f sv) (m sv).

Lemma preserves_bind {X} (f : Lifecycle.Server -> X) {A B} (m : M A) (k : A -> M B) :
  preserves f m -> (forall a, preserves f (k a)) -> preserves f (mbind_ m k).
Proof.
  intros Hm Hk sv. eapply yields_bind; [apply Hm|]. intros [sv' [e|a]]; cbn; intros E; [done|].
  rewrite <- E. apply Hk.
Qed.
Lemma preserves_option {X} (f : Lifecycle.Server -> X) {A} (x : option A) : preserves f (lift (of_option x)).
Proof. by destruct x. Qed.
Lemma preserves_ok_or {X} (f : Lifecycle.Server -> X) {A} (r : res A) err : preserves f (ok_or r err).
Proof. by destruct r. Qed.

End Methods.

Ltac each_tac :=
  unfold log_info, log_warn, log_error, or_close;
  repeat first
    [ progress cbv zeta
    | match goal with
      | |- each _ (ret _) => by intros ?
      | |- each _ (fail _) => by intros ?
      | |- each _ get => by intros ?
      | |- each _ (modify _) => by intros ?
      | |- each _ (ok_or _ _) => apply each_ok_or
      | |- each _ (lift (of_option _)) => apply each_option
      | |- each _ (call_ ?c) => apply (each_call _ c); done
      | |- each _ (mbind_ _ _) => apply each_bind; [|intros ?]
      | |- each _ (match ?x with _ => _ end) => destruct x
      end ].

Ltac preserves_tac :=
  unfold log_info, log_warn, log_error, or_close;
  repeat first
    [ progress cbv zeta
    | match goal with
      | |- preserves _ (ret _) => by intros ?
      | |- preserves _ (fail _) => by intros ?
      | |- preserves _ get => by intros ?
      | |- preserves _ (modify _) => by intros ?
      | |- preserves _ (ok_or _ _) => apply preserves_ok_or
      | |- preserves _ (lift (of_option _)) => apply preserves_option
      | |- preserves _ (call_ ?c) => by intros ?
      | |- preserves _ (mbind_ _ _) => apply preserves_bind; [|intros ?]
      | |- preserves _ (match ?x with _ => _ end) => destruct x
      end ].

Section LifecycleTrace.
Context {MM : MaxMindDB} {NP : InetPton} {LC : Libc}.

(** ** Removing a socket file *)

Definition keeps_files (c : call) : Prop := match c with Unlink _ => False | _ => True end.

Definition no_unlink (evs : list event) : Prop := Forall (fun e => keeps_files (ev_call e)) evs.

(** A probe of the path that nobody answered: there was no descriptor to probe
    with, or connecting failed, for whatever reason.  The address is the path
    as far as it fits ([sun_path_short]). *)
Definition unanswered_probe (path : bytes) (evs : list event) : Prop :=
  (exists e, evs = [Event (Socket AfUnix false) (inl e)]) \/
  (exists fd e u, evs = [Event (Socket AfUnix false) (inr fd); Event (Connect fd (UnixAddr (sun_path path))) (inl e);
                         Event (CloseFd fd) u]).

(** Nothing is removed, or once the path, after a socket was found there and
    its probe not answered. *)
Definition stale_only (path : bytes) (evs : list event) : Prop :=
  no_unlink evs \/
  exists pre probe a post, evs = pre ++ Event (Lstat (c_str path)) (inr NodeSocket) :: probe ++ Event (Unlink (c_str path)) a :: post /\
    unanswered_probe path probe /\ no_unlink pre /\ no_unlink post.

Lemma stale_only_app path evs1 evs2 : no_unlink evs1 -> stale_only path evs2 -> stale_only path (evs1 ++ evs2).
Proof.
  intros H1 [H2|(pre & probe & a & post & -> & Hp & Hpre & Hpost)]; [left; by apply Forall_app|].
  right. exists (evs1 ++ pre), probe, a, post. rewrite <- app_assoc. split; [done|]. split; [done|]. split; [by apply Forall_app|done].
Qed.

Lemma stale_only_app_r path evs1 evs2 : stale_only path evs1 -> no_unlink evs2 -> stale_only path (evs1 ++ evs2).
Proof.
  intros [H1|(pre & probe & a & post & -> & Hp & Hpre & Hpost)] H2; [left; by apply Forall_app|].
  right. exists pre, probe, a, (post ++ evs2). split; [|split; [done|split; [done|by apply Forall_app]]].
  by rewrite <- !app_assoc; cbn; rewrite <- app_assoc.
Qed.

Lemma live_listener_emits path sv :
  emits (path_has_live_listener path sv) (fun r evs => no_unlink evs /\ (forall s, r = (s, inr false) -> unanswered_probe path evs)).
Proof.
  unfold path_has_live_listener. apply emits_sys. intros [e|fd]; cbn.
  - apply emits_ret. split; [by repeat constructor|]. intros _ _. left. by exists e.
  - apply emits_sys. intros r. cbn. apply emits_sys. intros u. cbn. apply emits_ret. split; [by repeat constructor|].
    destruct r as [e|[]]; [|by intros]. intros _ _. right. by exists fd, e, u.
Qed.

Lemma clear_stale_emits path sv : emits (clear_stale_socket path sv) (fun _ evs => stale_only path evs).
Proof.
  unfold clear_stale_socket. apply emits_sys. intros st. cbn.
  assert (Hno : forall P (m : M P), each keeps_files m ->
    emits (m sv) (fun _ evs => stale_only path (Event (Lstat (c_str path)) st :: evs))).
  { intros P m Hm. eapply emits_mono; [by apply every_emits, Hm|]. intros ? evs He. left. by constructor. }
  destruct st as [e|[]]; [apply Hno; each_tac| |apply Hno; each_tac..].
  eapply emits_method; [apply live_listener_emits| |].
  - intros sv' e evs [He _]. left. by constructor.
  - intros sv' live evs [He Hp]. destruct live.
    { apply emits_ret. left. rewrite app_nil_r. by constructor. }
    apply emits_sys. intros r. cbn.
    match goal with |- emits (?m sv') _ => assert (Hm : each keeps_files m) by each_tac end.
    eapply emits_mono; [by apply every_emits, Hm|]. intros ? evs' He'. right.
    exists [], evs, r, evs'. split; [done|]. split; [by apply (Hp sv')|]. by repeat constructor.
Qed.

Lemma ensure_directory_each path : each keeps_files (ensure_socket_directory path).
Proof. unfold ensure_socket_directory. each_tac. Qed.

(** *** The whole of [setup_socket] *)

(** The calls that set the listener up, in order. *)
Definition listener_calls (path : bytes) (mode fd : Z) (u : unit) (line : bytes) : list event :=
  [Event (Socket AfUnix true) (inr fd); Event (Bind fd (UnixAddr (sun_path path))) (inr tt);
   Event (Chmod (c_str path) mode) (inr tt); Event (Listen fd) (inr tt); Event (LogLine Info line) u].

Definition listening_at (sv : Lifecycle.Server) (r : Lifecycle.Server * (bytes + unit)) (evs : list event) : Prop :=
  let path := socket_path (cfg_ sv) in
  r.2 = inr tt -> exists pre u line,
    evs = pre ++ listener_calls path (socket_mode (cfg_ sv)) (listen_fd_ r.1) u line /\ length path < sun_path_size.

(** After the socket file is out of the way. *)
Lemma bind_emits sv0 sv :
  let path := socket_path (cfg_ sv0) in
  emits (mbind_ (call_ (Socket AfUnix true)) (fun fd =>
    mbind_ (modify (set_listen_fd (match fd with inl _ => -1 | inr fd => fd end)%Z)) (fun _ =>
    mbind_ (ok_or fd (fun e => #"socket() failed: " ++ e)) (fun fd =>
    mbind_ (if (sun_path_size <=? length path)%nat then fail (#"socket path too long: " ++ path) else ret tt) (fun _ =>
    mbind_ (call_ (Bind fd (UnixAddr (sun_path path)))) (fun r =>
    mbind_ (ok_or r (fun e => #"bind(" ++ path ++ #") failed: " ++ e)) (fun _ =>
    mbind_ (modify (set_socket_created true)) (fun _ =>
    mbind_ (call_ (Chmod (c_str path) (socket_mode (cfg_ sv0)))) (fun r =>
    mbind_ (ok_or r (fun e => #"chmod(" ++ path ++ #") failed: " ++ e)) (fun _ =>
    mbind_ (call_ (Listen fd)) (fun r =>
    mbind_ (ok_or r (fun e => #"listen() failed: " ++ e)) (fun _ =>
    log_info (#"listening on unix socket " ++ path ++ #" (mode " ++ mode_octal (socket_mode (cfg_ sv0)) ++ #")")))))))))))) sv)
    (fun r evs => no_unlink evs /\ listening_at sv0 r evs).
Proof.
  intros path. destruct (Nat.leb_spec sun_path_size (length path)) as [_|Hlen].
  { apply emits_sys. intros [e|fd]; apply emits_ret; (split; [by repeat constructor|done]). }
  apply emits_sys. intros [e|fd]; cbn.
  { apply emits_ret. split; [by repeat constructor|done]. }
  cbn. apply emits_sys. intros [e|[]]; cbn.
  { apply emits_ret. split; [by repeat constructor|done]. }
  apply emits_sys. intros [e|[]]; cbn.
  { apply emits_ret. split; [by repeat constructor|done]. }
  apply emits_sys. intros [e|[]]; cbn.
  { apply emits_ret. split; [by repeat constructor|done]. }
  apply emits_sys. intros u. cbn. apply emits_ret. split; [by repeat constructor|]. intros _.
  eexists [], u, _. split; [reflexivity|done].
Qed.

Lemma setup_socket_emits sv :
  emits (setup_socket sv) (fun r evs => stale_only (socket_path (cfg_ sv)) evs /\ listening_at sv r evs).
Proof.
  unfold setup_socket. eapply (emits_method get); [by apply (emits_ret _ (fun r evs => r = (sv, inr sv) /\ evs = []))|by intros ? ? ? [? _]|].
  intros ? ? ? [[= -> ->] ->]. cbn [app]. cbv zeta.
  eapply emits_method; [apply every_emits, ensure_directory_each|intros sv1 e evs He; split; [by left|done]|].
  intros sv1 ? evs1 H1. eapply emits_method; [apply clear_stale_emits|intros sv2 e evs H2; split; [by apply stale_only_app|done]|].
  intros sv2 ? evs2 H2. eapply emits_mono; [apply bind_emits|]. intros r evs3 [H3 HL]. split.
  - by apply stale_only_app, stale_only_app_r.
  - intros (pre & u & line & -> & Hlen)%HL. exists (evs1 ++ evs2 ++ pre), u, line. split; [by rewrite <- !app_assoc|done].
Qed.

(** ** TCP addresses *)

(** The addresses a trace tries to bind. *)
Definition binds (evs : list event) : list sockaddr_storage :=
  omap (fun e => match ev_call e with Bind _ (InetAddr a) => Some a | _ => None end) evs.

(** The addresses the configuration asks for. *)
Definition wanted (cfg : Config) : list sockaddr_storage :=
  let port := to_uint16 (tcp_port cfg) in
  if (tcp_port cfg =? 0)%Z then []
  else if tcp_address cfg == [] then [Sin port loopback4; Sin6 port loopback6]
  else match parse_ip_address (tcp_address cfg) with Some addr => [set_port port (storage addr)] | None => [] end.

(** Each descriptor was bound to its address and listens. *)
Definition tcp_ready (evs : list event) (fds : list Z) (addrs : list sockaddr_storage) : Prop :=
  Forall2 (fun fd a => Event (Bind fd (InetAddr a)) (inr tt) ∈ evs /\ Event (Listen fd) (inr tt) ∈ evs) fds addrs.

Lemma binds_app e1 e2 : binds (e1 ++ e2) = binds e1 ++ binds e2.
Proof. apply omap_app. Qed.

Lemma tcp_ready_app e1 e2 fds1 fds2 a1 a2 : tcp_ready e1 fds1 a1 -> tcp_ready e2 fds2 a2 ->
  tcp_ready (e1 ++ e2) (fds1 ++ fds2) (a1 ++ a2).
Proof.
  intros H1 H2. apply Forall2_app.
  - apply (Forall2_impl _ _ _ _ H1). intros fd a [? ?]. rewrite !elem_of_app. auto.
  - apply (Forall2_impl _ _ _ _ H2). intros fd a [? ?]. rewrite !elem_of_app. auto.
Qed.

(** What a method that sets listeners up has done: bound a prefix of [addrs]
    when it fails, listens on all of them when it succeeds. *)
Definition sets_up (addrs : list sockaddr_storage) (sv : Lifecycle.Server) (r : Lifecycle.Server * (bytes + unit))
    (evs : list event) : Prop :=
  binds evs `prefix_of` addrs /\
  (r.2 = inr tt -> binds evs = addrs /\
     exists fds, tcp_listen_fds_ r.1 = tcp_listen_fds_ sv ++ fds /\ tcp_ready evs fds addrs).

Lemma sets_up_nothing addrs sv sv' e evs : binds evs = [] -> sets_up addrs sv (sv', inl e) evs.
Proof. intros Hb. split; [|done]. rewrite Hb. apply prefix_nil. Qed.
Lemma sets_up_one_failed a sv sv' e evs : binds evs = [a] -> sets_up [a] sv (sv', inl e) evs.
Proof. intros Hb. split; [|done]. by rewrite Hb. Qed.

Lemma bind_one_emits family a sv : emits (bind_one_tcp family a sv) (sets_up [a] sv).
Proof.
  unfold bind_one_tcp, or_close.
  assert (Hrest : forall fd pre, binds pre = [] ->
    emits (mbind_ (or_close fd (Bind fd (InetAddr a)) failed_res #"bind() failed for TCP listener: ") (fun _ =>
      mbind_ (or_close fd (Listen fd) failed_res #"listen() failed for TCP listener: ") (fun _ =>
      mbind_ (modify (fun sv => set_tcp_listen_fds (tcp_listen_fds_ sv ++ [fd]) sv)) (fun _ =>
      log_info (#"listening on tcp " ++ inet_ntop a ++ #":" ++ to_string (port_of a))))) sv)
      (fun r evs => sets_up [a] sv r (pre ++ evs))).
  { intros fd pre Hpre. assert (Hb : forall evs, binds (pre ++ evs) = binds evs) by (intros evs; by rewrite binds_app, Hpre).
    apply emits_sys. intros [e|[]]; cbn.
    { apply emits_sys. intros u. apply emits_ret, sets_up_one_failed. by rewrite Hb. }
    apply emits_sys. intros [e|[]]; cbn.
    { apply emits_sys. intros u. apply emits_ret, sets_up_one_failed. by rewrite Hb. }
    apply emits_sys. intros u. cbn. apply emits_ret. split; [by rewrite Hb|]. intros _. split; [by rewrite Hb|].
    exists [fd]. split; [done|]. constructor; [|constructor]. rewrite !elem_of_app, !elem_of_cons. auto. }
  apply emits_sys. intros [e|fd]; cbn; [by apply emits_ret, sets_up_nothing|].
  apply emits_sys. intros [e|[]]; cbn.
  { apply emits_sys. intros u. by apply emits_ret, sets_up_nothing. }
  destruct family; cbn; [by apply (Hrest fd [_; _])..|].
  apply emits_sys. intros [e|[]]; cbn.
  { apply emits_sys. intros u. by apply emits_ret, sets_up_nothing. }
  by apply (Hrest fd [_; _; _]).
Qed.

Lemma setup_tcp_emits sv : emits (setup_tcp_listeners sv) (sets_up (wanted (cfg_ sv)) sv).
Proof.
  unfold setup_tcp_listeners, wanted. eapply (emits_method get); [by apply (emits_ret _ (fun r evs => r = (sv, inr sv) /\ evs = []))|by intros ? ? ? [? _]|].
  intros ? ? ? [[= -> ->] ->]. cbn [app]. cbv zeta. destruct (tcp_port (cfg_ sv) =? 0)%Z.
  { apply emits_ret. split; [done|]. intros _. split; [done|]. exists []. rewrite app_nil_r. split; [done|constructor]. }
  destruct (tcp_address (cfg_ sv) == []).
  - eapply emits_method; [apply bind_one_emits| |].
    + intros sv' e evs [Hp _]. split; [|done]. etransitivity; [exact Hp|]. by exists [Sin6 (to_uint16 (tcp_port (cfg_ sv))) loopback6].
    + intros sv1 [] evs1 [_ H1]. destruct (H1 eq_refl) as (B1 & fds1 & F1 & R1). cbn [fst] in F1.
      eapply emits_mono; [apply bind_one_emits|]. intros r evs2 [Hp H2]. split.
      * rewrite binds_app, B1. by apply (prefix_app [_] _ [_]).
      * intros Hr. destruct (H2 Hr) as (B2 & fds2 & F2 & R2). split; [by rewrite binds_app, B1, B2|].
        exists (fds1 ++ fds2). split; [by rewrite F2, F1, app_assoc|]. by apply (tcp_ready_app _ _ _ _ [_] [_]).
  - destruct (parse_ip_address _) as [addr|]; [|by apply emits_ret, sets_up_nothing].
    destruct (_ =? _)%Z; [apply bind_one_emits|]. destruct (_ =? _)%Z; [apply bind_one_emits|]. by apply emits_ret, sets_up_nothing.
Qed.

(** ** The whole of [init] *)

(** The configuration and the TCP descriptors; the listening descriptor. *)
Definition config_part (sv : Lifecycle.Server) := (cfg_ sv, tcp_listen_fds_ sv).

Lemma signals_preserve : preserves config_part setup_signals.
Proof. unfold setup_signals. preserves_tac. Qed.
Lemma open_block_preserves path op meta what : preserves config_part (open_block path op meta what).
Proof. unfold open_block. preserves_tac. Qed.
Lemma socket_preserves : preserves config_part setup_socket.
Proof.
  unfold setup_socket, ensure_socket_directory, clear_stale_socket, path_has_live_listener. preserves_tac.
Qed.
Lemma tcp_preserves : preserves (fun sv => (cfg_ sv, listen_fd_ sv)) setup_tcp_listeners.
Proof. unfold setup_tcp_listeners, bind_one_tcp. preserves_tac. Qed.

(** Calls that touch neither files nor addresses. *)
Definition apart (c : call) : Prop := match c with Unlink _ | Bind _ _ => False | _ => True end.

Lemma signals_each : each apart setup_signals.
Proof. unfold setup_signals. each_tac. Qed.
Lemma open_block_each path op meta what : each apart (open_block path op meta what).
Proof. unfold open_block. each_tac. Qed.

(** Calls that bind no TCP address. *)
Definition no_tcp (c : call) : Prop := match c with Bind _ (InetAddr _) => False | _ => True end.
Definition binds_nothing (evs : list event) : Prop := Forall (fun e => no_tcp (ev_call e)) evs.

Lemma binds_nil evs : binds_nothing evs -> binds evs = [].
Proof. induction 1 as [|[c a] evs Hc _ IH]; [done|]. destruct c; try done. by destruct addr. Qed.

Lemma apart_no_unlink evs : Forall (fun e => apart (ev_call e)) evs -> no_unlink evs.
Proof. intros H. eapply Forall_impl; [exact H|]. by intros [[] ]. Qed.
Lemma apart_binds_nothing evs : Forall (fun e => apart (ev_call e)) evs -> binds_nothing evs.
Proof. intros H. eapply Forall_impl; [exact H|]. by intros [[] ]. Qed.

Lemma socket_each : each no_tcp setup_socket.
Proof. unfold setup_socket, ensure_socket_directory, clear_stale_socket, path_has_live_listener. each_tac. Qed.
Lemma tcp_each : each keeps_files setup_tcp_listeners.
Proof. unfold setup_tcp_listeners, bind_one_tcp. each_tac. Qed.

Lemma emits_both {A} (m : prog A) (R Q : A -> list event -> Prop) : emits m R -> emits m Q -> emits m (fun a evs => R a evs /\ Q a evs).
Proof.
  intros Hr Hq o s a s' E. destruct (Hr _ _ _ _ E) as (evs & Ht & HR), (Hq _ _ _ _ E) as (evs' & Ht' & HQ).
  exists evs. split; [done|]. split; [done|]. rewrite Ht in Ht'. by apply app_inv_head in Ht' as ->.
Qed.

(** What start-up has done before it binds a TCP address: [evs] so far, on
    an object whose configuration and TCP listeners are those of [sv]. *)
Definition quiet (sv sv' : Lifecycle.Server) (evs : list event) : Prop :=
  config_part sv' = config_part sv /\ Forall (fun e => apart (ev_call e)) evs.

Lemma quiet_emits {A} (m : M A) sv : preserves config_part m -> each apart m -> emits (m sv) (fun r evs => quiet sv r.1 evs).
Proof. intros Hp He. apply yields_emits; [apply Hp|apply every_emits, He]. Qed.

(** A method that is [quiet], then the rest. *)
Lemma quiet_then {A B} sv0 sv pre (m : M A) (f : A -> M B) Q :
  quiet sv0 sv pre -> preserves config_part m -> each apart m ->
  (forall sv' e evs, quiet sv0 sv' (pre ++ evs) -> Q (sv', inl e) (pre ++ evs)) ->
  (forall sv' a evs, quiet sv0 sv' (pre ++ evs) -> emits (f a sv') (fun r evs' => Q r ((pre ++ evs) ++ evs'))) ->
  emits (mbind_ m f sv) (fun r evs => Q r (pre ++ evs)).
Proof.
  intros [H1 H2] Hp He Hq Hf.
  assert (Hstep : forall sv' evs, quiet sv sv' evs -> quiet sv0 sv' (pre ++ evs)).
  { intros sv' evs [H3 H4]. split; [by rewrite H3|by apply Forall_app]. }
  eapply emits_method; [by apply quiet_emits|intros sv' e evs H3; exact (Hq _ e _ (Hstep _ _ H3))|].
  intros sv' a evs H3. eapply emits_mono; [exact (Hf _ a _ (Hstep _ _ H3))|]. intros r evs' HQ. cbn in *. by rewrite app_assoc.
Qed.

(** Set up: the listener's calls in order, the TCP listeners the
    configuration asks for and no others, then the workers. *)
Definition started (cfg : Config) (r : Lifecycle.Server * (bytes + unit)) (evs : list event) : Prop :=
  exists pre u line tcp v msg w,
    evs = pre ++ listener_calls (socket_path cfg) (socket_mode cfg) (listen_fd_ r.1) u line ++ tcp ++
          [Event (PoolStart (threads cfg)) v; Event (LogLine Info msg) w] /\
    length (socket_path cfg) < sun_path_size /\ binds_nothing pre /\ binds tcp = wanted cfg /\
    tcp_ready tcp (tcp_listen_fds_ r.1) (wanted cfg).

Definition start_up (cfg : Config) (r : Lifecycle.Server * (bytes + unit)) (evs : list event) : Prop :=
  stale_only (socket_path cfg) evs /\ binds evs `prefix_of` wanted cfg /\ (r.2 = inr tt -> started cfg r evs).

Lemma quiet_failed cfg sv evs r e : quiet (Server_new cfg) sv evs -> start_up cfg (r, inl e) evs.
Proof.
  intros [_ He]. split; [left; by apply apart_no_unlink|]. rewrite (binds_nil _ (apart_binds_nothing _ He)). split; [apply prefix_nil|done].
Qed.

Lemma binds_nothing_app e1 e2 : binds_nothing e1 -> binds_nothing e2 -> binds_nothing (e1 ++ e2).
Proof. intros. by apply Forall_app. Qed.
Lemma no_unlink_app e1 e2 : no_unlink e1 -> no_unlink e2 -> no_unlink (e1 ++ e2).
Proof. intros. by apply Forall_app. Qed.

(** From the UNIX socket on. *)
Lemma listeners_emits cfg sv pre : quiet (Server_new cfg) sv pre ->
  emits (mbind_ setup_socket (fun _ => mbind_ setup_tcp_listeners (fun _ =>
    mbind_ (call_ (PoolStart (threads cfg))) (fun _ => mbind_ (modify (set_pool true)) (fun _ =>
    log_info (#"worker pool started with " ++ to_string (threads cfg) ++ #" threads"))))) sv)
  (fun r evs => start_up cfg r (pre ++ evs)).
Proof.
  intros [Hsv He]. pose proof (apart_no_unlink _ He) as Hpu. pose proof (apart_binds_nothing _ He) as Hpb.
  injection Hsv as Hcfg Hfds. cbn in Hcfg, Hfds.
  assert (Hs : emits (setup_socket sv) (fun r evs => config_part r.1 = config_part sv /\
    (stale_only (socket_path cfg) evs /\ listening_at sv r evs) /\ binds_nothing evs)).
  { apply yields_emits; [apply socket_preserves|]. apply emits_both; [|apply every_emits, socket_each].
    rewrite <- Hcfg. apply setup_socket_emits. }
  eapply emits_method; [exact Hs| |]; cbn beta.
  { intros sv1 e evs (_ & [H1 _] & H2). split; [by apply stale_only_app|].
    rewrite (binds_nil (pre ++ evs)) by (by apply binds_nothing_app). split; [apply prefix_nil|done]. }
  intros sv1 [] evs1 (Hc1 & [Hst HL] & Hb1). cbn [fst] in Hc1. injection Hc1 as Hcfg1 Hfds1. rewrite Hcfg in Hcfg1.
  destruct (HL eq_refl) as (mid & u & line & Emid & Hlen). cbn [fst] in Emid. rewrite Hcfg in Emid, Hlen.
  assert (Ht : emits (setup_tcp_listeners sv1) (fun r evs => (cfg_ r.1, listen_fd_ r.1) = (cfg_ sv1, listen_fd_ sv1) /\
    sets_up (wanted cfg) sv1 r evs /\ no_unlink evs)).
  { apply yields_emits; [apply tcp_preserves|]. apply emits_both; [|apply every_emits, tcp_each].
    rewrite <- Hcfg1. apply setup_tcp_emits. }
  assert (Hbase : forall evs2, no_unlink evs2 -> binds evs2 `prefix_of` wanted cfg ->
    stale_only (socket_path cfg) (pre ++ evs1 ++ evs2) /\ binds (pre ++ evs1 ++ evs2) `prefix_of` wanted cfg).
  { intros evs2 H1 H2. split; [by apply stale_only_app, stale_only_app_r|].
    by rewrite !binds_app, (binds_nil pre), (binds_nil evs1). }
  eapply emits_method; [exact Ht| |]; cbn beta.
  { intros sv2 e evs2 (_ & [H1 _] & H2). destruct (Hbase evs2 H2 H1). by split. }
  intros sv2 [] evs2 (Hc2 & [Hp2 Hs2] & Hu2). destruct (Hs2 eq_refl) as (Hb2 & fds2 & Hf2 & Hr2). injection Hc2 as _ Hl2. cbn [fst] in Hf2, Hl2.
  apply emits_sys. intros v. apply emits_sys. intros w. cbn. apply emits_ret.
  set (tail := [Event _ v; Event _ w]).
  assert (Htail : binds (evs2 ++ tail) = wanted cfg) by (rewrite binds_app, Hb2; apply app_nil_r).
  destruct (Hbase (evs2 ++ tail)) as [H1 H2]; [apply no_unlink_app; [done|by repeat constructor]|by rewrite Htail|].
  split; [exact H1|]. split; [exact H2|]. intros _. exists (pre ++ mid), u, line, evs2, v, _, w. cbn [fst].
  rewrite Hfds1, Hfds in Hf2. cbn in Hf2. split; [|split; [done|split]].
  - change (listen_fd_ (set_pool true sv2)) with (listen_fd_ sv2). rewrite Hl2, Emid, <- !app_assoc. done.
  - apply binds_nothing_app; [done|]. rewrite Emid in Hb1. by apply Forall_app in Hb1 as [? _].
  - split; [done|]. change (tcp_ready evs2 (tcp_listen_fds_ sv2) (wanted cfg)). by rewrite Hf2.
Qed.

Lemma init_emits cfg : emits (init (Server_new cfg)) (start_up cfg).
Proof.
  unfold init. eapply emits_method; [apply quiet_emits; [apply signals_preserve|apply signals_each]| |].
  { intros sv e evs H. exact (quiet_failed _ _ _ _ _ H). }
  intros sv [] evs H. cbn [fst] in H.
  eapply emits_method; [by apply (emits_ret _ (fun r evs => r = (sv, inr sv) /\ evs = []))|by intros ? ? ? [? _]|].
  intros ? ? ? [[= -> ->] ->]. cbn [app]. cbv zeta.
  assert (Hcfg : cfg_ sv = cfg) by apply (f_equal fst (proj1 H)). rewrite Hcfg. clear Hcfg.
  do 3 (apply (quiet_then (Server_new cfg)); [done|apply open_block_preserves|apply open_block_each|intros ? ? ? H'; exact (quiet_failed _ _ _ _ _ H')|];
    clear sv H; intros sv [] evs' H; generalize dependent (evs ++ evs'); clear evs evs'; intros evs H).
  eapply emits_method; [by apply (emits_ret _ (fun r evs => r = (sv, inr sv) /\ evs = []))|by intros ? ? ? [? _]|].
  intros ? ? ? [[= -> ->] ->]. cbn [app]. cbv zeta. destruct (negb _ && _ && _).
  - apply emits_ret. rewrite app_nil_r. exact (quiet_failed _ _ _ _ _ H).
  - by apply listeners_emits.
Qed.

(** ** Leaving the path alone *)

(** Something is at the path that is not to be removed: a connection to a
    UNIX socket succeeded, or the path (a C string) is no socket. *)
Definition occupied (path : bytes) (e : event) : Prop :=
  match ev_call e as c return answer c -> Prop with
  | Connect _ _ => fun r => r = inr tt
  | Lstat p => fun r => p = path /\ NUL ∉ path /\ exists found, r = inr found /\ found <> NodeSocket
  | _ => fun _ => False
  end (ev_answer e).
Definition vacant (path : bytes) (evs : list event) : Prop := Forall (fun e => ~ occupied path e) evs.

(** Start-up fails, with nothing removed and nothing bound. *)
Definition refuses {A} (r : Lifecycle.Server * (bytes + A)) (evs : list event) : Prop :=
  (exists err, r.2 = inl err) /\ Forall (fun e => apart (ev_call e)) evs.

Definition no_probe (c : call) : Prop := match c with Connect _ _ | Lstat _ => False | _ => True end.

Lemma no_probe_vacant path evs : Forall (fun e => no_probe (ev_call e)) evs -> vacant path evs.
Proof. intros He. eapply Forall_impl; [exact He|]. intros [[] a]; cbn; auto. Qed.

Lemma no_probe_emits {A} path (m : M A) sv : each no_probe m -> emits (m sv) (fun _ evs => vacant path evs).
Proof. intros Hm. eapply emits_mono; [apply every_emits, Hm|]. intros ? evs. apply no_probe_vacant. Qed.

(** A stage of start-up before the path is looked at. *)
Definition harmless {A} (path : bytes) (sv : Lifecycle.Server) (r : Lifecycle.Server * (bytes + A)) (evs : list event) : Prop :=
  config_part r.1 = config_part sv /\ Forall (fun e => apart (ev_call e)) evs /\ (is_inr r.2 -> vacant path evs).
Definition so_far (path : bytes) (sv0 sv : Lifecycle.Server) (evs : list event) : Prop :=
  config_part sv = config_part sv0 /\ Forall (fun e => apart (ev_call e)) evs /\ vacant path evs.

Lemma harmless_then {A B} path sv0 sv pre (m : M A) (f : A -> M B) :
  so_far path sv0 sv pre -> emits (m sv) (harmless path sv) ->
  (forall sv' a pre', so_far path sv0 sv' pre' -> emits (f a sv') (fun r evs => vacant path (pre' ++ evs) \/ refuses r (pre' ++ evs))) ->
  emits (mbind_ m f sv) (fun r evs => vacant path (pre ++ evs) \/ refuses r (pre ++ evs)).
Proof.
  intros (H1 & H2 & H3) Hm Hf. eapply emits_method; [exact Hm| |].
  - intros sv' e evs (_ & H5 & _). right. split; [by eexists|by apply Forall_app].
  - intros sv' a evs (H4 & H5 & H6). eapply emits_mono; [apply (Hf sv' a (pre ++ evs))|].
    + split; [by rewrite <- H1|]. split; apply Forall_app; split; auto. by apply H6.
    + intros r evs'. by rewrite !app_assoc.
Qed.

Lemma harmless_each {A} path (m : M A) sv : preserves config_part m -> each apart m -> each no_probe m -> emits (m sv) (harmless path sv).
Proof.
  intros Hp Ha Hn. eapply emits_mono; [apply yields_emits; [apply Hp|]; apply emits_both; apply every_emits; [apply Ha|apply Hn]|].
  intros r evs (H1 & H2 & H3). split; [done|]. split; [done|]. intros _. by apply no_probe_vacant.
Qed.

Lemma signals_no_probe : each no_probe setup_signals.
Proof. unfold setup_signals. each_tac. Qed.
Lemma open_block_no_probe path op meta what : each no_probe (open_block path op meta what).
Proof. unfold open_block. each_tac. Qed.
Lemma tcp_no_probe : each no_probe setup_tcp_listeners.
Proof. unfold setup_tcp_listeners, bind_one_tcp. each_tac. Qed.

(** The directory is not the path itself. *)
Lemma directory_vacant path slash (a : res node) : find_last_of "/"%char path = Some slash ->
  ~ occupied path (Event (Lstat (c_str (substr path 0 slash))) a).
Proof.
  intros Hs (E & Hn & _). assert (Hlt : slash < length path) by (by eapply find_last_sat_lt).
  unfold substr in E. cbn [drop] in E. rewrite c_str_id in E.
  - apply (f_equal length) in E. rewrite length_take in E. lia.
  - intros Hin. apply Hn. assert (Happ : NUL ∈ take slash path ++ drop slash path) by (apply elem_of_app; by left).
    by rewrite take_drop in Happ.
Qed.

Lemma directory_harmless path sv : emits (ensure_socket_directory path sv) (harmless path sv).
Proof.
  unfold ensure_socket_directory. destruct (find_last_of "/"%char path) as [[|slash]|] eqn:Es;
    [by apply harmless_each; [intros ?|intros ?|intros ?]| |by apply harmless_each; [intros ?|intros ?|intros ?]].
  cbv zeta. apply emits_sys. intros [e|[]]; cbn.
  - destruct (negb _); [apply emits_ret; split; [done|]; split; [by repeat constructor|done]|].
    apply emits_sys. intros [e1|[]]; cbn; try (apply emits_ret; split; [done|]; split; [by repeat constructor|done]).
    apply emits_sys. intros [e2|[]]; cbn; apply emits_ret; (split; [done|]; split; [by repeat constructor|]); [done|intros _].
    repeat constructor; [by intros ?|by apply directory_vacant|by intros ?].
  - apply emits_sys. intros u. apply emits_ret. split; [done|]. split; [by repeat constructor|]. intros _.
    repeat constructor; by intros ?.
Qed.

(** The tests on the path. *)
Lemma clear_stale_vacant path sv : emits (clear_stale_socket path sv) (fun r evs => vacant path evs \/ refuses r evs).
Proof.
  unfold clear_stale_socket. apply emits_sys. intros st. cbn.
  assert (Hvac : forall st : res node, st = inr NodeSocket \/ (exists e, st = inl e) -> ~ occupied path (Event (Lstat (c_str path)) st)).
  { intros st' Hst. cbn. intros (_ & _ & found & Hr & Hf). destruct Hst as [Hst|[e Hst]]; rewrite Hst in Hr; [|done]. by injection Hr as <-. }
  destruct st as [e|[]].
  - destruct (negb _); apply emits_ret; left; (constructor; [apply Hvac; eauto|constructor]).
  - unfold path_has_live_listener. apply emits_sys. intros [e|fd]; cbn.
    + apply emits_sys. intros [e1|[]]; cbn; [apply emits_ret|apply emits_sys; intros u; apply emits_ret];
        left; (constructor; [apply Hvac; eauto|]; repeat constructor; by intros ?).
    + apply emits_sys. intros [e|[]]; cbn; apply emits_sys; intros u; cbn.
      * apply emits_sys. intros [e1|[]]; cbn; [apply emits_ret|apply emits_sys; intros u1; apply emits_ret];
          left; (constructor; [apply Hvac; eauto|]; repeat constructor; by intros ?).
      * apply emits_ret. right. split; [by eexists|by repeat constructor].
  - apply emits_ret. right. split; [by eexists|by repeat constructor].
  - apply emits_ret. right. split; [by eexists|by repeat constructor].
Qed.

Lemma refuses_app {A} (r : Lifecycle.Server * (bytes + A)) e1 e2 : Forall (fun e => apart (ev_call e)) e1 -> refuses r e2 -> refuses r (e1 ++ e2).
Proof. intros He [Hr Hf]. split; [done|by apply Forall_app]. Qed.

Lemma vacant_app path e1 e2 : vacant path e1 -> vacant path e2 -> vacant path (e1 ++ e2).
Proof. intros. by apply Forall_app. Qed.

Lemma socket_refuses sv : emits (setup_socket sv) (fun r evs => vacant (socket_path (cfg_ sv)) evs \/ refuses r evs).
Proof.
  set (path := socket_path (cfg_ sv)). unfold setup_socket. apply emits_get. cbv zeta. fold path.
  apply (harmless_then path sv sv []); [by repeat constructor|apply directory_harmless|].
  intros sv1 [] pre (Hc & Ha & Hv). eapply emits_method; [apply clear_stale_vacant| |].
  - intros sv2 e evs [H|H]; [left; by apply vacant_app|right; apply refuses_app; [done|]]. destruct H as [_ H]. split; [by eexists|done].
  - intros sv2 [] evs [H|[[err [=]] _]].
    match goal with |- emits (?m sv2) _ => assert (Hm : each no_probe m) by each_tac end.
    eapply emits_mono; [by apply (no_probe_emits path)|]. intros r evs' H'. left. apply vacant_app; [done|by apply vacant_app].
Qed.

Lemma init_refuses cfg : emits (init (Server_new cfg)) (fun r evs => vacant (socket_path cfg) evs \/ refuses r evs).
Proof.
  set (path := socket_path cfg). unfold init.
  apply (harmless_then path (Server_new cfg) (Server_new cfg) []); [by repeat constructor| |].
  { apply harmless_each; [apply signals_preserve|apply signals_each|apply signals_no_probe]. }
  intros sv [] pre H. apply emits_get. cbv zeta.
  assert (Hcfg : cfg_ sv = cfg) by apply (f_equal fst (proj1 H)). rewrite Hcfg. clear Hcfg.
  do 3 (apply (harmless_then path (Server_new cfg)); [done|apply harmless_each; [apply open_block_preserves|apply open_block_each|apply open_block_no_probe]|];
    clear sv pre H; intros sv [] pre H).
  apply emits_get. cbv zeta. apply (harmless_then path (Server_new cfg)); [done| |].
  { apply harmless_each; [preserves_tac|each_tac|each_tac]. }
  clear sv pre H; intros sv [] pre (Hc & Ha & Hv).
  assert (Hcfg : socket_path (cfg_ sv) = path) by exact (f_equal (fun c => socket_path c.1) Hc).
  eapply emits_method; [apply socket_refuses| |]; rewrite Hcfg.
  - intros sv2 e evs [H|H]; [left; by apply vacant_app|right; apply refuses_app; [done|]]. destruct H as [_ H]. split; [by eexists|done].
  - intros sv2 [] evs [H|[[err [=]] _]].
    match goal with |- emits (?m sv2) _ => assert (Hm : each no_probe m) by (repeat (apply each_bind; [apply tcp_no_probe || each_tac|intros ?]); each_tac) end.
    eapply emits_mono; [by apply (no_probe_emits path)|]. intros r evs' H'. left. apply vacant_app; [done|by apply vacant_app].
Qed.

End LifecycleTrace.
