(* ===== verification/LifecycleLoop.v ===== *)
(** * The accept loop: what it does (correctness of [Lifecycle.run])

    Every accepted connection reaches the pool, in order; the pool is started
    once and shut down once; the loop ends on a signal to stop, and on nothing
    else but a failing [poll]; and it never sleeps past the next metrics
    write. *)

From stdpp Require Import gmap.
From S2P Require Import Prelude CLib Log Double IpAddr Config ConfigSpec GeoIp GeoIpSpec Metrics ThreadPool Response Server ServerSpec.
From S2P Require Import System Lifecycle LifecycleSpec LifecycleTrace.
From Stdlib Require Import Ascii.

Section LifecycleLoop.
Context {MM : MaxMindDB} {NP : InetPton} {LC : Libc}.

(** ** Events *)

(** The connections a trace accepts. *)
Definition accepts (evs : list event) : list Z :=
  omap (fun e => match ev_call e as c return answer c -> option Z with
                 | Accept4 _ => fun r => match r with inr fd => Some fd | inl _ => None end
                 | _ => fun _ => None
                 end (ev_answer e)) evs.

(** What it asks of the pool. *)
Inductive pool_request := Start (num_threads : Z) | Give (fd : Z) | Stop.
Definition pool_requests (evs : list event) : list pool_request :=
  omap (fun e => match ev_call e with
                 | PoolStart n => Some (Start n) | PoolSubmit fd => Some (Give fd) | PoolShutdown => Some Stop
                 | _ => None
                 end) evs.

(** The events on which the server is to end. *)
Definition is_stop (e : event) : bool :=
  match ev_call e as c return answer c -> bool with
  | ReadSignal _ => fun r => match r with Some SIGTERM | Some SIGINT => true | _ => false end
  | Poll _ _ => fun r => match r with inl e => negb (e =? EINTR)%Z | inr _ => false end
  | _ => fun _ => false
  end (ev_answer e).
Definition stops (evs : list event) : bool := existsb is_stop evs.

Definition polls (evs : list event) : nat :=
  length (List.filter (fun e => match ev_call e with Poll _ _ => true | _ => false end) evs).

Lemma accepts_app e1 e2 : accepts (e1 ++ e2) = accepts e1 ++ accepts e2.
Proof. apply omap_app. Qed.
Lemma requests_app e1 e2 : pool_requests (e1 ++ e2) = pool_requests e1 ++ pool_requests e2.
Proof. apply omap_app. Qed.
Lemma stops_app e1 e2 : stops (e1 ++ e2) = stops e1 || stops e2.
Proof. apply existsb_app. Qed.
Lemma polls_app e1 e2 : polls (e1 ++ e2) = polls e1 + polls e2.
Proof. unfold polls. by rewrite List.filter_app, length_app. Qed.

(** Calls that concern none of this. *)
Definition plain (c : call) : Prop :=
  match c with Accept4 _ | PoolStart _ | PoolSubmit _ | PoolShutdown | ReadSignal _ | Poll _ _ => False | _ => True end.
Definition all_plain (evs : list event) : Prop := Forall (fun e => plain (ev_call e)) evs.

Record idle (evs : list event) : Prop := {
  id_accepts : accepts evs = [];
  id_requests : pool_requests evs = [];
  id_stops : stops evs = false;
  id_polls : polls evs = 0;
}.

Lemma plain_idle evs : all_plain evs -> idle evs.
Proof.
  induction 1 as [|[c a] evs Hc _ [IH1 IH2 IH3 IH4]]; [done|].
  destruct c; try done; split; cbn; try done; by rewrite ?IH1, ?IH2, ?IH3.
Qed.

Lemma idle_app e1 e2 : idle e1 -> idle e2 -> idle (e1 ++ e2).
Proof.
  intros [H1 H2 H3 H4] [G1 G2 G3 G4].
  by split; rewrite ?accepts_app, ?requests_app, ?stops_app, ?polls_app, ?H1, ?H2, ?H3, ?H4, ?G1, ?G2, ?G3, ?G4.
Qed.

Lemma plain_emits {A} (m : prog A) : every plain m -> emits m (fun _ evs => idle evs).
Proof. intros Hm. eapply emits_mono; [by apply every_emits|]. intros ? evs He. by apply plain_idle. Qed.

(** ** The loop *)

Definition served (evs : list event) : Prop := pool_requests evs = map Give (accepts evs).

Lemma idle_served evs : idle evs -> served evs.
Proof. intros [H1 H2 _ _]. unfold served. by rewrite H1, H2. Qed.
Lemma served_app e1 e2 : served e1 -> served e2 -> served (e1 ++ e2).
Proof. unfold served. intros H1 H2. by rewrite requests_app, accepts_app, H1, H2, map_app. Qed.

(** Draining one listener: no end of the fuel unless that many came. *)
Definition drained_ok (fuel : nat) (done : bool) (evs : list event) : Prop :=
  served evs /\ stops evs = false /\ polls evs = 0 /\ (done = false -> fuel <= length (accepts evs)).

Lemma accept_all_emits fuel fd : emits (accept_all fuel fd) (drained_ok fuel).
Proof.
  induction fuel as [|fuel IH]; [apply emits_ret; split; [done|]; split; [done|]; split; [done|intros _; cbn; lia]|].
  cbn [accept_all]. apply emits_sys. cbn [bind]. intros [e|client].
  - destruct (_ && _); [apply emits_sys; intros u; cbn [bind]|]; by apply emits_ret.
  - apply emits_sys. intros u. cbn [bind]. eapply emits_mono; [exact IH|]. intros b evs (H1 & H2 & H3 & H4).
    change (Event (Accept4 fd) (inr client) :: Event (PoolSubmit client) u :: evs)
      with ([Event (Accept4 fd) (inr client); Event (PoolSubmit client) u] ++ evs).
    split; [by apply served_app|]. split; [by rewrite stops_app, H2|]. split; [by rewrite polls_app, H3|].
    intros Hb. specialize (H4 Hb). rewrite accepts_app, length_app. cbn. lia.
Qed.

Lemma accept_ready_emits fuel listeners revents : emits (accept_ready fuel listeners revents) (drained_ok fuel).
Proof.
  revert revents. induction listeners as [|fd listeners IH]; intros revents; [by apply emits_ret|].
  destruct revents as [|r revents]; [by apply emits_ret|]. cbn [accept_ready].
  eapply (emits_bind _ _ (drained_ok fuel)); [destruct r; [apply accept_all_emits|by apply emits_ret]|].
  intros [|] evs (H1 & H2 & H3 & H4).
  - eapply emits_mono; [apply IH|]. intros b evs' (G1 & G2 & G3 & G4).
    split; [by apply served_app|]. split; [by rewrite stops_app, H2, G2|]. split; [by rewrite polls_app, H3, G3|].
    intros Hb. rewrite accepts_app, length_app. specialize (G4 Hb). lia.
  - apply emits_ret. rewrite app_nil_r. by split.
Qed.

Lemma log_all_plain es : every plain (log_all es).
Proof. induction es as [|[]]; cbn; try done. Qed.

Lemma handle_signal_emits sv : emits (handle_signal sv) (fun r evs =>
  pool_ r.1 = pool_ sv /\ served evs /\ polls evs = 0 /\ stops evs = negb r.2 /\ accepts evs = []).
Proof.
  unfold handle_signal. apply emits_sys. intros [[]|]; cbn [bind sys].
  - eapply emits_mono; [apply (yields_emits (fun r => pool_ r.1 = pool_ sv /\ r.2 = true) _ (fun _ evs => idle evs))|].
    + intros _ w. apply (yields_bind _ (fun _ => True)); [by apply yields_of_option|]. intros r _.
      apply (yields_bind _ (fun _ => True)); [apply yields_any|done].
    + apply plain_emits. split; [done|]. intros _. split; [done|]. intros w. apply every_bind; [apply every_of_option|]. intros r.
      apply every_bind; [apply log_all_plain|done].
    + intros [sv' b] evs [[Hp Hb] [H1 H2 H3 H4]]. cbn [fst snd] in *. unfold served.
      match goal with |- context [?e :: evs] => change (e :: evs) with ([e] ++ evs) end.
      by rewrite requests_app, accepts_app, polls_app, stops_app, H1, H2, H3, H4, Hb.
  - apply emits_sys. intros u. by apply emits_ret.
  - apply emits_sys. intros u. by apply emits_ret.
  - by apply emits_ret.
Qed.

Lemma write_metrics_plain sv : every plain (write_metrics sv).
Proof.
  unfold write_metrics. split; [done|]. intros [[m now] uptime]. cbn. apply every_bind; [apply every_of_option|].
  intros infos. split; [done|]. intros a. apply log_all_plain.
Qed.

(** One turn: a poll, and the end exactly when there is reason to. *)
Record turn_ok (fuel : nat) (sv : Lifecycle.Server) (t : turn) (evs : list event) : Prop := {
  tk_served : served evs;
  tk_polls : polls evs = 1;
  tk_pool : pool_ (turn_server t) = pool_ sv;
  tk_stops : stops evs = match t with Break _ => true | _ => false end;
  tk_fuel : forall sv', t = OutOfFuel sv' -> fuel <= length (accepts evs);
}.

Lemma idle_before fuel sv t e1 e2 : idle e1 -> turn_ok fuel sv t e2 -> turn_ok fuel sv t (e1 ++ e2).
Proof.
  intros H1 [G1 G2 G3 G4 G5]. split; [by apply served_app; [apply idle_served|]|..|done| |].
  - by rewrite polls_app, (id_polls _ H1).
  - by rewrite stops_app, (id_stops _ H1).
  - intros sv' E. rewrite accepts_app, (id_accepts _ H1). by eapply G5.
Qed.

(** The part of a turn after the poll, the metrics write last. *)
Definition tail_ok (sv : Lifecycle.Server) (t : turn) (evs : list event) : Prop :=
  served evs /\ polls evs = 0 /\ pool_ (turn_server t) = pool_ sv /\ stops evs = match t with Break _ => true | _ => false end /\
  (forall sv', t <> OutOfFuel sv').

Lemma metrics_emits (periodic running : bool) sv next :
  emits (next1 <~ (if periodic then
                    (now <~ sys SteadyNow ;;
                     if (next <=? now)%Z then
                       (_ <~ write_metrics sv ;;
                        now2 <~ sys SteadyNow ;;
                        Ret (now2 + metrics_interval_seconds (cfg_ sv) * ns_per_second)%Z)
                     else Ret next)
                  else Ret next) ;;
         Ret (if running then Continue sv next1 else Break sv))
    (fun t evs => idle evs /\ (t = Break sv /\ running = false \/ exists n, t = Continue sv n /\ running = true)).
Proof.
  eapply (emits_bind _ _ (fun _ evs => idle evs)).
  - apply plain_emits. destruct periodic; [|done]. split; [done|]. intros now. cbn [bind]. destruct (next <=? now)%Z; [|done].
    apply every_bind; [apply write_metrics_plain|done].
  - intros next1 evs He. apply emits_ret. rewrite app_nil_r. split; [done|]. destruct running; [right; by eexists|by left].
Qed.

Lemma run_turn_emits fuel poll_fds sv next : emits (run_turn fuel poll_fds sv next) (turn_ok fuel sv).
Proof.
  unfold run_turn. cbv zeta. eapply (emits_bind _ _ (fun _ evs => idle evs)).
  { apply plain_emits. by destruct (negb _). }
  intros timeout e0 H0. eapply emits_mono; [|intros t evs Ht; by apply (idle_before _ _ _ _ _ H0 Ht)].
  apply emits_sys. cbn [bind]. intros [e|revents].
  { destruct (e =? EINTR)%Z eqn:Ee; [|apply emits_sys; intros u; cbn [bind]]; apply emits_ret; (split; [done..| |done]); cbn; by rewrite Ee. }
  assert (Hpoll : forall evs, served evs -> served ([Event (Poll poll_fds timeout) (inr revents)] ++ evs)) by (intros; by apply served_app).
  eapply (emits_bind _ _ (drained_ok fuel)); [apply accept_ready_emits|]. intros drained e1 (H1 & H2 & H3 & H4).
  change (Event ?c ?x :: e1 ++ ?e) with ([Event c x] ++ e1 ++ e).
  destruct drained; cbn [negb].
  2: { apply emits_ret. rewrite app_nil_r. split; [by apply Hpoll| |done|exact H2|intros _ _; by apply H4].
     change (S (polls e1) = 1). by rewrite H3. }
  eapply (emits_bind _ _ (fun r evs => pool_ r.1 = pool_ sv /\ served evs /\ polls evs = 0 /\ stops evs = negb r.2 /\ accepts evs = [])).
  { destruct (List.last revents false); [apply handle_signal_emits|by apply emits_ret]. }
  intros [sv1 running] e2 (Hp & G1 & G2 & G3 & G4). cbn [fst snd] in *.
  eapply emits_mono; [apply metrics_emits|]. intros t e3 [H5 Ht].
  split.
  - apply Hpoll. apply served_app; [done|]. apply served_app; [done|by apply idle_served].
  - change (S (polls (e1 ++ e2 ++ e3)) = 1). by rewrite !polls_app, H3, G2, (id_polls _ H5).
  - destruct Ht as [[-> _]|(n & -> & _)]; done.
  - change (stops (e1 ++ e2 ++ e3) = match t with Break _ => true | _ => false end).
    rewrite !stops_app, H2, G3, (id_stops _ H5), orb_false_r. destruct Ht as [[-> ->]|(n & -> & ->)]; done.
  - intros sv' ->. destruct Ht as [[? _]|(n & ? & _)]; done.
Qed.

(** The loop, with the reason why it has not ended. *)
Record loop_ok (turns fuel : nat) (sv sv' : Lifecycle.Server) (ended : bool) (evs : list event) : Prop := {
  lk_served : served evs;
  lk_pool : pool_ sv' = pool_ sv;
  lk_stops : stops evs = ended;
  lk_fuel : ended = false -> turns <= polls evs \/ fuel <= length (accepts evs);
}.

Definition is_some {A} (x : option A) : bool := match x with Some _ => true | None => false end.

Lemma run_loop_emits turns fuel poll_fds sv next :
  emits (run_loop turns fuel poll_fds sv next) (fun r evs => loop_ok turns fuel sv r.1 (is_some r.2) evs).
Proof.
  revert sv next. induction turns as [|turns IH]; intros sv next.
  { apply emits_ret. split; [done..|]. intros _. left. cbn. lia. }
  cbn [run_loop]. eapply emits_bind; [apply run_turn_emits|]. intros t e1 [H1 H2 H3 H4 H5].
  destruct t as [sv1 next1|sv1|sv1]; cbn [turn_server] in H3; [|apply emits_ret; rewrite app_nil_r; split; try done|].
  - eapply emits_mono; [apply IH|]. intros [sv' r] e2 [G1 G2 G3 G4]. cbn [fst snd] in *. split.
    + by apply served_app.
    + by rewrite G2.
    + by rewrite stops_app, H4.
    + intros Hr. rewrite polls_app, accepts_app, length_app, H2. destruct (G4 Hr); [left|right]; lia.
  - apply emits_ret. rewrite app_nil_r. split; [done..|]. intros _. right. by eapply H5.
Qed.

(** ** Start-up and shut-down *)

Definition pool_part (sv : Lifecycle.Server) := (cfg_ sv, pool_ sv).

(** A method that leaves the configuration and the pool alone. *)
Definition calm {A} (m : M A) : Prop := forall sv, emits (m sv) (fun r evs => pool_part r.1 = pool_part sv /\ idle evs).

Lemma calm_method {A} (m : M A) : preserves pool_part m -> each plain m -> calm m.
Proof. intros Hp He sv. apply yields_emits; [apply Hp|by apply plain_emits]. Qed.

Ltac calm_tac := apply calm_method; [preserves_tac|each_tac].

Lemma signals_calm : calm setup_signals.
Proof. unfold setup_signals. calm_tac. Qed.
Lemma open_block_calm path op meta what : calm (open_block path op meta what).
Proof. unfold open_block. calm_tac. Qed.
Lemma socket_calm : calm setup_socket.
Proof. unfold setup_socket, ensure_socket_directory, clear_stale_socket, path_has_live_listener. calm_tac. Qed.
Lemma tcp_calm : calm setup_tcp_listeners.
Proof. unfold setup_tcp_listeners, bind_one_tcp. calm_tac. Qed.
Lemma guard_calm (b : bool) err : calm (if b then fail err else ret tt).
Proof. calm_tac. Qed.

(** The pool is there when start-up has succeeded, and was asked to start once. *)
Definition pool_started (cfg : Config) (r : Lifecycle.Server * (bytes + unit)) (evs : list event) : Prop :=
  match r.2 with
  | inl _ => pool_ r.1 = false /\ idle evs
  | inr _ => pool_ r.1 = true /\ pool_requests evs = [Start (threads cfg)] /\ accepts evs = [] /\ stops evs = false
  end.

Lemma calm_then {A} cfg (m : M A) (f : A -> M unit) sv : calm m -> pool_part sv = (cfg, false) ->
  (forall sv' a, pool_part sv' = (cfg, false) -> emits (f a sv') (pool_started cfg)) -> emits (mbind_ m f sv) (pool_started cfg).
Proof.
  intros Hm Hp Hf. eapply emits_method; [apply Hm|intros sv' e evs [H1 H2]; split; [|done]; rewrite Hp in H1; by injection H1|].
  intros sv' a evs [H1 H2]. eapply emits_mono; [apply Hf; by rewrite <- Hp|].
  unfold pool_started. intros [sv'' [e|u]] evs'; cbn -[app].
  - intros [? ?]. split; [done|by apply idle_app].
  - intros (? & G1 & G2 & G3). by rewrite requests_app, accepts_app, stops_app, (id_requests _ H2), (id_accepts _ H2), (id_stops _ H2).
Qed.

Lemma init_pool cfg : emits (init (Server_new cfg)) (pool_started cfg).
Proof.
  unfold init. apply calm_then; [apply signals_calm|done|]. intros sv _ Hp. apply emits_get. cbv zeta.
  assert (cfg_ sv = cfg) as -> by (by injection Hp).
  do 3 (apply calm_then; [apply open_block_calm|done|]; clear sv Hp; intros sv _ Hp).
  apply emits_get. cbv zeta. apply calm_then; [apply guard_calm|done|]. clear sv Hp. intros sv _ Hp.
  apply calm_then; [apply socket_calm|done|]. clear sv Hp. intros sv _ Hp.
  apply calm_then; [apply tcp_calm|done|]. clear sv Hp. intros sv _ Hp.
  apply emits_sys. intros u. apply emits_sys. intros v. by apply emits_ret.
Qed.

(** *** [run] *)

Lemma close_if_plain fd : every plain (close_if_open fd).
Proof. unfold close_if_open. by destruct (0 <=? fd)%Z. Qed.
Lemma close_all_plain l : every plain (close_all l).
Proof. by induction l. Qed.

Lemma yields_bind_any {A B} (Q : B -> Prop) (m : prog A) (f : A -> prog B) : (forall a, yields Q (f a)) -> yields Q (bind m f).
Proof. intros Hf. eapply yields_bind; [apply yields_any|]. intros a _. apply Hf. Qed.

Lemma idle_stop evs : idle evs -> forall u, pool_requests (Event PoolShutdown u :: evs) = [Stop] /\
  accepts (Event PoolShutdown u :: evs) = [] /\ stops (Event PoolShutdown u :: evs) = false.
Proof.
  intros [H1 H2 H3 _] u. change (Event PoolShutdown u :: evs) with ([Event PoolShutdown u] ++ evs).
  by rewrite requests_app, accepts_app, stops_app, H1, H2, H3.
Qed.

Lemma cleanup_emits sv : pool_ sv = true ->
  emits (cleanup sv) (fun sv' evs => pool_ sv' = false /\ pool_requests evs = [Stop] /\ accepts evs = [] /\ stops evs = false).
Proof.
  intros Hp. unfold cleanup, stop_pool. rewrite Hp. apply emits_sys. intros u. apply emits_sys. intros v. cbn [bind].
  eapply emits_mono; [apply (yields_emits (fun sv' => pool_ sv' = false) _ (fun _ evs => idle evs))|].
  - do 2 (apply yields_bind_any; intros _). apply (yields_bind _ (fun sv' => pool_ sv' = false)).
    + destruct (socket_created_ _); [|done]. cbv zeta. by do 2 (apply yields_bind_any; intros ?).
    + intros sv3 H3. by do 2 (apply yields_bind_any; intros ?).
  - apply plain_emits. apply every_bind; [apply close_if_plain|]. intros _. apply every_bind; [apply close_all_plain|]. intros _.
    apply every_bind.
    { destruct (socket_created_ _); [|done]. split; [done|]. intros [e|?]; cbn; [destruct (negb _)|]; done. }
    intros sv3. apply every_bind; [apply close_if_plain|done].
  - intros sv' evs [H1 H2]. split; [done|]. exact (idle_stop evs H2 v).
Qed.

Lemma destroy_emits sv : pool_ sv = false -> emits (Server_destroy sv) (fun _ evs => idle evs).
Proof.
  intros Hp. unfold Server_destroy, stop_pool. rewrite Hp. cbn [bind]. apply plain_emits.
  apply every_bind; [apply close_if_plain|]. intros _. apply every_bind; [apply close_all_plain|]. intros _.
  apply every_bind; [apply close_if_plain|]. intros _. apply every_bind; [by destruct (socket_created_ _)|]. intros _.
  apply every_bind; [apply every_of_option|done].
Qed.

(** Still running: every connection so far is with the pool. *)
Definition running (turns fuel : nat) (evs : list event) : Prop :=
  stops evs = false /\ (turns <= polls evs \/ fuel <= length (accepts evs)).

Lemma run_emits turns fuel sv : pool_ sv = true ->
  emits (run turns fuel sv) (fun r evs => match r.2 with
    | Some code => code = 0%Z /\ pool_ r.1 = false /\ pool_requests evs = map Give (accepts evs) ++ [Stop] /\ stops evs = true
    | None => served evs /\ running turns fuel evs
    end).
Proof.
  intros Hp. unfold run. eapply (emits_bind _ _ (fun _ evs => idle evs)); [by apply plain_emits|]. intros _ e0 H0. cbv zeta.
  eapply (emits_bind _ _ (fun _ evs => idle evs)); [by apply plain_emits|]. intros next e1 H1.
  eapply emits_bind; [apply run_loop_emits|]. intros [sv' r] e2 [G1 G2 G3 G4]. cbn [fst snd] in *.
  destruct (idle_app _ _ H0 H1) as [I1 I2 I3 I4].
  destruct r as [[]|]; cbn [is_some] in *.
  - eapply emits_bind; [apply cleanup_emits; by rewrite G2|]. intros sv2 e3 (K1 & K2 & K3 & K4).
    apply emits_ret. rewrite app_nil_r, app_assoc. cbn [fst snd]. split; [done|]. split; [done|].
    rewrite (requests_app (e0 ++ e1)), (accepts_app (e0 ++ e1)), (stops_app (e0 ++ e1)), I1, I2, I3. cbn [app orb].
    rewrite requests_app, accepts_app, stops_app, K2, K3, K4, G1, G3, app_nil_r. done.
  - apply emits_ret. rewrite app_nil_r, app_assoc. cbn [fst snd]. split; [apply served_app; [by apply idle_served|done]|].
    split; [by rewrite stops_app, I3, G3|]. rewrite polls_app, accepts_app, I1, I4. by apply G4.
Qed.

(** *** The whole life *)

Definition life (cfg : Config) (turns fuel : nat) (r : option Z) (evs : list event) : Prop :=
  match r with
  | Some code =>
      (code = 0%Z /\ pool_requests evs = Start (threads cfg) :: map Give (accepts evs) ++ [Stop] /\ stops evs = true) \/
      (code = 1%Z /\ idle evs)
  | None => pool_requests evs = Start (threads cfg) :: map Give (accepts evs) /\ running turns fuel evs
  end.

Lemma serve_emits turns fuel cfg : emits (serve turns fuel cfg) (life cfg turns fuel).
Proof.
  unfold serve. eapply emits_bind; [apply init_pool|]. intros [sv [err|[]]] e0; unfold pool_started; cbn [fst snd].
  - intros [Hp H0]. eapply (emits_bind _ _ (fun _ evs => idle evs)); [by apply plain_emits|]. intros _ e1 H1.
    eapply emits_bind; [by apply destroy_emits|]. intros ? e2 H2. apply emits_ret. right. split; [done|].
    rewrite app_nil_r. by apply idle_app, idle_app.
  - intros (Hp & H1 & H2 & H3). eapply emits_bind; [by apply run_emits|]. intros [sv' [code|]] e1; cbn [fst snd].
    + intros (-> & Hp' & G1 & G2). eapply emits_bind; [by apply destroy_emits|]. intros _ e2 [I1 I2 I3 _].
      apply emits_ret. left. rewrite app_nil_r, !requests_app, !accepts_app, !stops_app, H1, H2, G1, G2, I1, I2.
      split; [done|]. split; [cbn; by rewrite !app_nil_r|]. by rewrite orb_true_r.
    + intros [G1 [G2 G3]]. apply emits_ret. rewrite app_nil_r. unfold life, running.
      rewrite requests_app, accepts_app, stops_app, polls_app, H1, H2, H3, G1, G2. cbn [app orb length].
      split; [done|]. split; [done|]. destruct G3; [left; lia|by right].
Qed.

End LifecycleLoop.
