(* ===== verification/LifecycleTime.v ===== *)
(** * How long the accept loop sleeps (correctness of [Lifecycle.run])

    The timeout of every [poll], from the steady clock and the configured
    interval: no wrap-around of the 32-bit timeout, no sleep past the next
    metrics write. *)

From stdpp Require Import gmap.
From S2P Require Import Prelude CLib Log Double IpAddr Config ConfigSpec GeoIp GeoIpSpec Metrics Response Server ServerSpec.
From S2P Require Import System Lifecycle LifecycleSpec LifecycleTrace.
From Stdlib Require Import Ascii.

Section LifecycleTime.
Context {MM : MaxMindDB} {NP : InetPton} {LC : Libc}.
Context (o : oracle) (Ho : lawful o) (cfg : Config).

(** If [m] returns from [s], [Q] holds. *)
Definition ensures {A} (s : os) (m : prog A) (Q : A -> os -> Prop) : Prop :=
  forall a s', exec m o s = Some (a, s') -> Q a s'.

Lemma ensures_ret {A} s (a : A) (Q : A -> os -> Prop) : Q a s -> ensures s (Ret a) Q.
Proof. by intros HQ b s' [= <- <-]. Qed.

Lemma ensures_bind {A B} s (m : prog A) (f : A -> prog B) R (Q : B -> os -> Prop) :
  ensures s m R -> (forall a s', R a s' -> ensures s' (f a) Q) -> ensures s (bind m f) Q.
Proof.
  intros Hm Hf b s' E. rewrite exec_bind in E. destruct (exec m o s) as [[a s1]|] eqn:E1; [|done].
  exact (Hf a s1 (Hm a s1 E1) b s' E).
Qed.

Lemma ensures_sys {A} s c (k : answer c -> prog A) Q : ensures (after c (o c s) s) (k (o c s)) Q -> ensures s (Sys c k) Q.
Proof. done. Qed.

(** Time goes on. *)
Lemma clock_grows {A} (m : prog A) s : ensures s m (fun _ s' => (clock s <= clock s')%Z).
Proof.
  revert s. induction m as [a|c k IH|]; intros s; [by apply ensures_ret| |done].
  apply ensures_sys. intros a s' E. etransitivity; [|exact (IH _ _ _ _ E)].
  pose proof (Ho c s) as Ha. cbn. destruct c; cbn in *; try done; lia.
Qed.

(** ** Timeouts *)

Definition interval_ns : Z := (metrics_interval_seconds cfg * ns_per_second)%Z.

Definition timeout_ok (t : Z) : Prop :=
  if metrics_file cfg == [] then t = (-1)%Z else (0 <= t <= metrics_interval_seconds cfg * 1000)%Z.

(** Every [poll] so far. *)
Definition rested (s : os) : Prop :=
  Forall (fun e => match ev_call e with Poll _ t => timeout_ok t | _ => True end) (trace s).

Lemma rested_after c a s : rested s -> match c with Poll _ t => timeout_ok t | _ => True end -> rested (after c a s).
Proof. intros Hs Hc. unfold rested. cbn. apply Forall_app. split; [done|]. by constructor. Qed.

Definition no_poll (c : call) : Prop := match c with Poll _ _ => False | _ => True end.

Lemma no_poll_rested {A} (m : prog A) s : every no_poll m -> rested s ->
  ensures s m (fun _ s' => rested s' /\ (clock s <= clock s')%Z).
Proof.
  intros Hm Hs a s' E. split; [|by eapply clock_grows]. revert s Hs E. induction m as [b|c k IH|]; intros s Hs E; [by injection E as <- <-| |done].
  destruct Hm as [Hc Hk]. eapply (IH _ (Hk _)); [|exact E]. apply rested_after; [done|]. by destruct c.
Qed.

(** A timeout, when the next write is at most an interval away. *)
Lemma poll_timeout_range next now : config_ok cfg -> (next <= now + interval_ns)%Z ->
  (0 <= poll_timeout_ms next now <= metrics_interval_seconds cfg * 1000)%Z.
Proof.
  intros (_ & _ & _ & _ & Hi) Hn. unfold poll_timeout_ms, interval_ns, ns_per_second, ns_per_ms in *. cbv zeta.
  set (r := Z.quot (next - now) 1000000).
  assert (Hr : (r <= metrics_interval_seconds cfg * 1000)%Z).
  { destruct (Z.le_gt_cases 0 (next - now)) as [Hp|Hp].
    - unfold r. rewrite Z.quot_div_nonneg by lia. apply Z.div_le_upper_bound; lia.
    - assert (r <= 0)%Z; [|lia]. unfold r. rewrite <- (Z.opp_involutive (next - now)), Z.quot_opp_l by lia.
      assert (0 <= Z.quot (- (next - now)) 1000000)%Z by (apply Z.quot_pos; lia). lia. }
  unfold to_int. rewrite Z.mod_small; destruct (Z.ltb_spec 0 r); lia.
Qed.

(** ** The loop *)

Definition due (next : Z) (s : os) : Prop := (next <= clock s + interval_ns)%Z.

Lemma due_later next s s' : due next s -> (clock s <= clock s')%Z -> due next s'.
Proof. unfold due. lia. Qed.

Lemma log_all_no_poll es : every no_poll (log_all es).
Proof. induction es as [|[]]; cbn; try done. Qed.

Lemma accept_ready_no_poll fuel listeners revents : every no_poll (accept_ready fuel listeners revents).
Proof.
  assert (Ha : forall fuel fd, every no_poll (accept_all fuel fd)).
  { clear. induction fuel as [|fuel IH]; intros fd; [done|]. split; [done|]. intros [e|client]; cbn [bind].
    - apply every_bind; [by destruct (_ && _)|done].
    - split; [done|]. intros ?. apply IH. }
  revert revents. induction listeners as [|fd l IH]; intros [|r revents]; try done. cbn [accept_ready].
  apply every_bind; [destruct r; [apply Ha|done]|]. intros [|]; [apply IH|done].
Qed.

Lemma handle_signal_no_poll sv : every no_poll (handle_signal sv).
Proof.
  unfold handle_signal. split; [done|]. intros [[]|]; cbn [bind sys]; [|by split..|done].
  split; [done|]. intros ?. split; [done|]. intros w. apply every_bind; [apply every_of_option|]. intros r.
  apply every_bind; [apply log_all_no_poll|done].
Qed.

Lemma handle_signal_cfg sv : yields (fun r => cfg_ r.1 = cfg_ sv) (handle_signal sv).
Proof.
  unfold handle_signal. intros [[]|]; cbn [bind sys]; [|by intros ?..|done].
  intros ? w. apply (yields_bind _ (fun _ => True)); [by apply yields_of_option|]. intros r _.
  apply (yields_bind _ (fun _ => True)); [apply yields_any|done].
Qed.

Lemma write_metrics_no_poll sv : every no_poll (write_metrics sv).
Proof.
  unfold write_metrics. split; [done|]. intros [[m now] uptime]. cbn. apply every_bind; [apply every_of_option|].
  intros infos. split; [done|]. intros a. apply log_all_no_poll.
Qed.

(** Nothing is read of the clock between, or it is later. *)
Lemma no_poll_step {A} (m : prog A) s next : every no_poll m -> rested s -> due next s ->
  ensures s m (fun _ s' => rested s' /\ due next s').
Proof. intros Hm Hs Hd a s' E. destruct (no_poll_rested m s Hm Hs a s' E). split; [done|by eapply due_later]. Qed.

(** The poll of a turn sleeps no longer than until the next write, and the
    turn leaves a next write that is due in time. *)
Lemma run_turn_time fuel poll_fds sv next s : config_ok cfg -> cfg_ sv = cfg -> rested s -> due next s ->
  ensures s (run_turn fuel poll_fds sv next)
    (fun t s' => rested s' /\ cfg_ (turn_server t) = cfg /\ (forall sv' n, t = Continue sv' n -> due n s')).
Proof.
  intros Hok Hcfg Hs Hd. unfold run_turn. cbv zeta. rewrite Hcfg.
  eapply (ensures_bind _ _ _ (fun t s' => timeout_ok t /\ rested s' /\ due next s')).
  { unfold timeout_ok. destruct (metrics_file cfg == []); cbn [negb]; [by apply ensures_ret|].
    apply ensures_sys. cbn [bind]. apply ensures_ret. pose proof (Ho SteadyNow s) as Ha. cbn in Ha. set (now := o SteadyNow s) in *.
    split; [apply poll_timeout_range; [done|unfold due in Hd; lia]|]. split; [by apply rested_after|]. eapply due_later; [done|exact Ha]. }
  clear s Hs Hd. intros timeout s (Ht & Hs & Hd). apply ensures_sys. cbn [bind].
  assert (Hs1 : rested (after (Poll poll_fds timeout) (o (Poll poll_fds timeout) s) s)) by (by apply rested_after).
  assert (Hd1 : due next (after (Poll poll_fds timeout) (o (Poll poll_fds timeout) s) s)) by exact Hd.
  generalize dependent (after (Poll poll_fds timeout) (o (Poll poll_fds timeout) s) s). intros s1 Hs1 Hd1.
  destruct (o (Poll poll_fds timeout) s : res (list bool)) as [e|revents].
  { destruct (e =? EINTR)%Z; [apply ensures_ret; split; [done|split; [done|]]; by intros ? ? [= <- <-]|].
    apply ensures_sys. cbn [bind]. apply ensures_ret. split; [by apply rested_after|]. by split. }
  eapply ensures_bind; [by apply (no_poll_step _ _ next); [apply accept_ready_no_poll|..]|].
  clear s1 Hs1 Hd1. intros [|] s1 [Hs1 Hd1]; cbn [negb]; [|by apply ensures_ret].
  eapply (ensures_bind _ _ _ (fun r s' => (rested s' /\ due next s') /\ cfg_ r.1 = cfg)).
  { destruct (List.last revents false); [|by apply ensures_ret]. intros r s' E. split.
    - by eapply (no_poll_step (handle_signal sv)); [apply handle_signal_no_poll|..].
    - rewrite <- Hcfg. exact (yields_exec _ _ _ _ _ _ (handle_signal_cfg sv) E). }
  clear s1 Hs1 Hd1. intros [sv1 running] s1 [[Hs1 Hd1] Hc1]. cbn [fst snd] in *.
  eapply (ensures_bind _ _ _ (fun n s' => rested s' /\ due n s')).
  2: { intros n s' [Hs' Hd']. destruct running; apply ensures_ret; split; try done. split; [done|]. by intros ? ? [= <- <-]. }
  rewrite Hc1. destruct (negb _); [|by apply ensures_ret].
  apply ensures_sys. cbn [bind]. assert (Hs2 := rested_after SteadyNow (o SteadyNow s1) s1 Hs1 I).
  assert (Hd2 : due next (after SteadyNow (o SteadyNow s1) s1)) by (eapply due_later; [exact Hd1|exact (Ho SteadyNow s1)]).
  destruct (next <=? _)%Z; [|by apply ensures_ret].
  eapply ensures_bind; [by apply (no_poll_rested (write_metrics sv1)); [apply write_metrics_no_poll|]|].
  intros ? s3 [Hs3 _]. apply ensures_sys. cbn [bind]. apply ensures_ret. split; [by apply rested_after|].
  unfold due, interval_ns. cbn. lia.
Qed.

Lemma run_loop_time turns fuel poll_fds sv next s : config_ok cfg -> cfg_ sv = cfg -> rested s -> due next s ->
  ensures s (run_loop turns fuel poll_fds sv next) (fun r s' => rested s').
Proof.
  intros Hok. revert sv next s. induction turns as [|turns IH]; intros sv next s Hc Hs Hd; [by apply ensures_ret|].
  cbn [run_loop]. eapply ensures_bind; [by apply run_turn_time|]. intros [sv' n|sv'|sv'] s' (Hs' & Hc' & Hd'); [|by apply ensures_ret..].
  apply IH; [done..|]. by eapply Hd'.
Qed.

(** ** The whole life *)

Lemma init_no_poll sv : every no_poll (init sv).
Proof.
  revert sv. change (each no_poll init). unfold init, setup_signals, open_block, setup_socket, ensure_socket_directory, clear_stale_socket,
    path_has_live_listener, setup_tcp_listeners, bind_one_tcp. each_tac.
Qed.

Lemma init_cfg : preserves cfg_ init.
Proof.
  unfold init, setup_signals, open_block, setup_socket, ensure_socket_directory, clear_stale_socket,
    path_has_live_listener, setup_tcp_listeners, bind_one_tcp. preserves_tac.
Qed.

Lemma close_all_no_poll l : every no_poll (close_all l).
Proof. by induction l. Qed.

Lemma close_listeners_no_poll {A} sv (f : unit -> prog A) : every no_poll (f tt) ->
  every no_poll (bind (close_if_open (listen_fd_ sv)) (fun _ => bind (close_all (tcp_listen_fds_ sv)) f)).
Proof.
  intros Hf. apply every_bind; [unfold close_if_open; by destruct (0 <=? _)%Z|]. intros ?.
  apply every_bind; [apply close_all_no_poll|]. by intros [].
Qed.

Lemma stop_pool_no_poll sv : every no_poll (stop_pool sv).
Proof. unfold stop_pool. by destruct (pool_ sv). Qed.

Lemma cleanup_no_poll sv : every no_poll (cleanup sv).
Proof.
  unfold cleanup. apply every_bind; [done|]. intros ?. apply every_bind; [apply stop_pool_no_poll|]. intros sv1.
  apply close_listeners_no_poll. cbv zeta. apply every_bind.
  { destruct (socket_created_ _); [|done]. split; [done|]. intros [e|?]; cbn; [destruct (negb _)|]; done. }
  intros sv3. apply every_bind; [unfold close_if_open; by destruct (0 <=? _)%Z|done].
Qed.

Lemma destroy_no_poll sv : every no_poll (Server_destroy sv).
Proof.
  unfold Server_destroy. apply every_bind; [apply stop_pool_no_poll|]. intros sv1. apply close_listeners_no_poll.
  apply every_bind; [unfold close_if_open; by destruct (0 <=? _)%Z|]. intros ?.
  apply every_bind; [by destruct (socket_created_ _)|]. intros ?. apply every_bind; [apply every_of_option|done].
Qed.

Lemma serve_time turns fuel s : config_ok cfg -> rested s -> ensures s (serve turns fuel cfg) (fun _ s' => rested s').
Proof.
  intros Hok Hs. unfold serve. eapply (ensures_bind _ _ _ (fun r s' => rested s' /\ cfg_ r.1 = cfg)).
  { intros r s' E. split; [by eapply no_poll_rested; [apply init_no_poll|..]|exact (yields_exec _ _ _ _ _ _ (init_cfg (Server_new cfg)) E)]. }
  assert (Hend : forall sv s (r : option Z), rested s -> ensures s (_ <~ Server_destroy sv ;; Ret r) (fun _ s' => rested s')).
  { intros sv s1 r H1. eapply ensures_bind; [by apply no_poll_rested; [apply destroy_no_poll|]|]. intros ? s2 [H2 _]. by apply ensures_ret. }
  clear s Hs. intros [sv [err|[]]] s [Hs Hc]; cbn [fst] in Hc.
  { apply ensures_sys. cbn [bind]. by apply Hend, rested_after. }
  eapply (ensures_bind _ _ _ (fun _ s' => rested s')).
  { unfold run. apply ensures_sys. cbn [bind]. apply ensures_sys. cbn [bind]. eapply ensures_bind; [apply run_loop_time; try done|].
    - apply rested_after; [by apply rested_after|done].
    - destruct Hok as (_ & _ & _ & _ & Hi). unfold due, interval_ns, ns_per_second. cbn. lia.
    - intros r s1 H1. destruct (r.2); [|by apply ensures_ret]. eapply ensures_bind; [by apply no_poll_rested; [apply cleanup_no_poll|]|].
      intros ? s2 [H2 _]. by apply ensures_ret. }
  clear s Hs. intros [sv' [code|]] s Hs; [by apply Hend|by apply ensures_ret].
Qed.

End LifecycleTime.
