(* ===== verification/LifecycleProps.v ===== *)
(** * The server's life: properties (correctness of [Lifecycle])

    The theorems about start-up, accept loop and shut-down, each for every
    lawful system and every configuration, and a small system for their
    witnesses.  The only way for them to have no result is a database whose
    metadata is undefined ([ends]). *)

From stdpp Require Import gmap.
From S2P Require Import Prelude CLib Log Double IpAddr Config ConfigSpec GeoIp GeoIpSpec Metrics ThreadPool Response Server ServerSpec.
From S2P Require Import System Lifecycle LifecycleSpec LifecycleTrace LifecycleLoop LifecycleTime.
From Stdlib Require Import Ascii.

(** ** A system for the witnesses *)

Definition simple_libc : Libc := {| strerror := fun _ => #"error"; inet_ntop := fun _ => #"address" |}.
#[local] Existing Instance simple_libc.

(** A descriptor above all open ones. *)
Definition next_fd (s : @os simple_maxmind) : Z := (foldr Z.max 2 (elements (fds s)) + 1)%Z.

Lemma foldr_max_le (l : list Z) b x : x ∈ l -> (x <= foldr Z.max b l)%Z.
Proof. induction l as [|y l IH]; [by intros []%elem_of_nil|]. cbn. intros [->|H]%elem_of_cons; [lia|]. specialize (IH H). lia. Qed.
Lemma foldr_max_base (l : list Z) b : (b <= foldr Z.max b l)%Z.
Proof. induction l; cbn; lia. Qed.

Lemma next_fd_fresh s : (0 <= next_fd s)%Z /\ next_fd s ∉ fds s.
Proof.
  unfold next_fd. split; [pose proof (foldr_max_base (elements (fds s)) 2); lia|].
  intros H%elem_of_elements. apply (foldr_max_le _ 2) in H. lia.
Qed.

Definition now_of (s : @os simple_maxmind) : Z :=
  if (wall s <? year_2116)%Z then Z.max (wall s) 1701000000 else 1701000000%Z.

Lemma now_of_range s : (1701000000 <= now_of s < year_2116)%Z.
Proof. unfold now_of, year_2116. destruct (Z.ltb_spec (wall s) 4611686018); lia. Qed.

(** Nothing is at the socket path; two clients come, then SIGHUP, then
    SIGTERM; time goes on by a minute at each look. *)
Definition sample_oracle : @oracle simple_maxmind := fun c s =>
  let t := now_of s in
  match c return answer c with
  | Signalfd => inr (next_fd s)
  | Socket _ _ => inr (next_fd s)
  | Accept4 _ => if length (accepts (trace s)) <? 2 then inr (next_fd s) else inl EAGAIN
  | Lstat _ => inl ENOENT
  | Send _ data => inr (length data)
  | Receive _ _ => inr #"HTTP/1.1 200 OK"
  | ReadFile _ => Some #"city_db=/db"
  | Getenv => fun _ => None
  | IsRegular => fun _ => false
  | Concurrency => 8%Z
  | Databases => (sample_fs : @file_system simple_maxmind, (t, t, t))
  | Poll l _ => inr (repeat true (length l))
  | ReadSignal _ => Some (if polls (trace s) <=? 1 then SIGHUP else SIGTERM)
  | SteadyNow => (clock s + 60 * ns_per_second)%Z
  | Snapshot => (Metrics_zero, (t, t, t), double_of_Z 1)
  | WriteMetrics _ text => (mkAnswers true (length text) true 0 true, 0%Z)
  | Sigprocmask | Connect _ _ | Bind _ _ | Listen _ | Setsockopt _ _ | Mkdir _ _ | Access _ _ | Unlink _ | Chmod _ _ => inr tt
  | CloseFd _ | LogLine _ _ | SetDebugEnabled _ | Print _ _ | IgnoreSigpipe | PoolStart _ | PoolSubmit _ | PoolShutdown => tt
  end.

Lemma sample_fresh s : @fs_fresh simple_maxmind (now_of s) sample_fs.
Proof.
  pose proof (now_of_range s). unfold year_2116 in *. intros p db. unfold sample_fs. case_bool_decide; [|done].
  intros [= <-]. cbn [db_fresh]. change (build_epoch_field _) with 1700000000%Z. lia.
Qed.

Lemma sample_lawful : lawful sample_oracle.
Proof.
  intros c s. pose proof (next_fd_fresh s) as Hf. destruct c; try exact I; cbn -[Nat.ltb].
  - by intros fd [= <-].
  - by intros fd [= <-].
  - intros r [= <-]. apply repeat_length.
  - intros client. destruct (length (accepts (trace s)) <? 2); [by intros [= <-]|intros [=]].
  - unfold ns_per_second. lia.
Qed.

Lemma sample_timely : timely sample_oracle.
Proof.
  assert (Ht : forall s, (wall s < year_2116)%Z -> @now_ok simple_maxmind (now_of s, now_of s, now_of s) s).
  { intros s Hw. pose proof (now_of_range s). unfold now_ok. rewrite !Forall_cons, Forall_nil. cbn [fst snd].
    unfold now_of in *. rewrite (proj2 (Z.ltb_lt _ _) Hw) in *. lia. }
  intros c s. destruct c; try exact I; [|exact (Ht s)]. pose proof (sample_fresh s) as F. exact (conj (Ht s) (conj F (conj F F))).
Qed.

(** The default configuration with a database, a TCP port and a metrics file. *)
Definition sample_cfg : Config :=
  set_city_db #"/db" (set_tcp_port 8080 (set_metrics_file #"/m" (Config_default 8))).

Definition sample_life := exec (serve 10 10 sample_cfg) sample_oracle os_init.

Example sample_life_ends :
  (fun rs => (rs.1, elements (fds rs.2), bound rs.2, pool_requests (trace rs.2))) <$> sample_life =
  Some (Some 0%Z, [], [], [Start 8; Give 7; Give 7; Stop]%Z).
Proof. vm_compute. reflexivity. Qed.

Lemma os_init_blank `{MaxMindDB} : blank os_init.
Proof. done. Qed.

(** ** Properties *)

Section Properties.
Context {MM : MaxMindDB} {NP : InetPton} {LC : Libc}.

(** What [exec] adds to an empty trace. *)
Lemma emitted {A} (m : prog A) R o a s' : emits m R -> exec m o os_init = Some (a, s') -> R a (trace s').
Proof. intros Hm E. destruct (Hm _ _ _ _ E) as (evs & Ht & HR). cbn in Ht. by subst. Qed.

(** A program of the server ends, with a result and state that satisfy [Q]:
    its behaviour is undefined only where a database that was found at a
    configured path has no defined metadata at the time of day just read, and
    never when the time of day is not set back and databases are built before
    they are opened. *)
Definition ends (o : oracle) (cfg : Config) {A} (m : prog A) (Q : A -> os -> Prop) : Prop :=
  triple (undatable (db_files cfg)) o os_init m Q /\
  (timely o -> exists a s', exec m o os_init = Some (a, s')).

Lemma ends_intro o cfg {A} (m : prog A) (R Q : A -> os -> Prop) : triple (undatable (db_files cfg)) o os_init m R ->
  (forall a s', exec m o os_init = Some (a, s') -> R a s' -> Q a s') -> ends o cfg m Q.
Proof.
  unfold ends, triple. intros Hm HQ. pose proof (timely_datable m o (db_files cfg)) as Ht.
  destruct (exec m o os_init) as [[a s']|]; [split; [by apply HQ|by exists a, s']|]. split; [done|]. intros Hd. by destruct (Ht Hd).
Qed.

Lemma ends_exec o cfg {A} (m : prog A) (Q : A -> os -> Prop) : ends o cfg m Q -> timely o ->
  exists a s', exec m o os_init = Some (a, s') /\ ends o cfg m Q.
Proof. intros H Ht. destruct (proj2 H Ht) as (a & s' & E). by exists a, s'. Qed.

Lemma init_ends o (Ho : lawful o) cfg : triple (undatable (db_files cfg)) o os_init (init (Server_new cfg)) (fun _ _ => True).
Proof. eapply triple_mono; [apply (init_runs o Ho); [by apply live_blank|done]|done]. Qed.

(** C8. Start-up removes a file at most once, and only the configured path,
    after it found a socket there and a probe of that socket was not answered:
    the probe had no descriptor, or connecting failed, for whatever reason.
    (That a failing socket() counts is the finding at server.cpp:331.)  The
    address probed is the path itself where a UNIX address holds it.  Where
    the probe connected, or the path is there and is no socket, start-up fails
    and neither removes nor binds anything. *)
Theorem takes_over_unanswered_socket_only (o : oracle) (Ho : lawful o) (cfg : Config) :
  ends o cfg (init (Server_new cfg)) (fun r s' =>
    stale_only (socket_path cfg) (trace s') /\
    (length (socket_path cfg) < sun_path_size -> sun_path (socket_path cfg) = c_str (socket_path cfg)) /\
    (Exists (occupied (socket_path cfg)) (trace s') ->
       (exists err, r.2 = inl err) /\ Forall (fun e => apart (ev_call e)) (trace s'))).
Proof.
  eapply ends_intro; [by apply init_ends|]. intros r s' E _.
  split; [exact (proj1 (emitted _ _ _ _ _ (init_emits cfg) E))|]. split; [apply sun_path_short|].
  intros He. destruct (emitted _ _ _ _ _ (init_refuses cfg) E) as [Hv|Hr]; [|exact Hr].
  exfalso. apply Exists_exists in He as (e & Hin & Hocc). unfold vacant in Hv. rewrite Forall_forall in Hv. exact (Hv e Hin Hocc).
Qed.

(** C10. Start-up listens exactly where the configuration says: it never
    tries to bind a TCP address that was not asked for (none for port 0, the
    loopback addresses of both families for an empty address), and when it
    succeeds the UNIX socket was bound, given its mode and only then listened
    on, every TCP address is bound and listens, and the workers were started
    last, with the configured number of threads. *)
Theorem listens_as_configured (o : oracle) (Ho : lawful o) (cfg : Config) :
  ends o cfg (init (Server_new cfg)) (fun r s' =>
    binds (trace s') `prefix_of` wanted cfg /\
    (r.2 = inr tt -> binds (trace s') = wanted cfg /\ started cfg r (trace s'))).
Proof.
  eapply ends_intro; [by apply init_ends|]. intros [sv r] s' E _.
  destruct (emitted _ _ _ _ _ (init_emits cfg) E) as (_ & Hp & Hs). split; [done|]. intros Hr. specialize (Hs Hr). split; [|done].
  destruct Hs as (pre & u & line & tcp & v & msg & w & -> & _ & Hb & <- & _).
  rewrite !binds_app, (binds_nil _ Hb). apply app_nil_r.
Qed.

(** The call of the pool's owner that a step of the pool is. *)
Definition request_of (a : action) : list pool_request :=
  match a with Submit fd => [Give fd] | Shutdown => [Stop] | _ => [] end.

Lemma requests_client acts fds : flat_map request_of acts = map Give fds ++ [Stop] ->
  List.filter client acts = map Submit fds ++ [Shutdown].
Proof.
  assert (Hnil : forall acts, flat_map request_of acts = [] -> List.filter client acts = []).
  { clear. induction acts as [|[] acts IH]; cbn; auto; done. }
  revert fds. induction acts as [|a acts IH]; intros fds; cbn; [by destruct fds|].
  destruct a as [fd| | | | | | |]; try exact (IH fds); destruct fds as [|fd' fds]; cbn; intros [=].
  - subst. f_equal. by apply IH.
  - f_equal. by apply Hnil.
Qed.

(** A pool that is driven so and joined has handled all. *)
Lemma pool_served n fds acts p : (1 <= n)%Z -> pool_run acts (pool_init (Z.to_nat n)) = Some p -> thread p = Joined ->
  Start n :: flat_map request_of acts = Start n :: map Give fds ++ [Stop] ->
  finished p ≡ₚ fds /\ closed p = [] /\ queue_ p = [].
Proof.
  intros Hn Hrun Hj [= Ha]. apply requests_client in Ha.
  destruct (submitted_accepted acts fds (pool_init _) p (eq_refl : stop_ (pool_init _) = false) Ha Hrun) as [Hacc Hcl]. cbn in Hacc, Hcl.
  destruct (joined_drained (Z.to_nat n) acts p ltac:(lia) Hrun Hj) as (Hq & _ & Hf). by rewrite Hf, Hacc.
Qed.

(** C9. The loop ends when it should and only then: whatever is asked of it,
    the server ends with 0 exactly if SIGTERM or SIGINT was read or [poll]
    failed (an interruption is no failure); it ends with 1 only before it
    accepts anything; and if it has not ended, it has made as many turns as it
    was given, or accepted as many connections as one drain may. *)
Theorem ends_on_signal (o : oracle) (Ho : lawful o) (cfg : Config) (turns fuel : nat) :
  ends o cfg (serve turns fuel cfg) (fun r s' =>
    (r = Some 0%Z <-> stops (trace s') = true) /\
    (r <> None -> r <> Some 0%Z -> r = Some 1%Z /\ accepts (trace s') = [] /\ pool_requests (trace s') = []) /\
    (r = None -> turns <= polls (trace s') \/ fuel <= length (accepts (trace s')))).
Proof.
  eapply ends_intro; [by apply (serve_keeps o Ho), os_init_blank|]. intros r s' E _.
  apply (emitted _ _ _ _ _ (serve_emits turns fuel cfg)) in E. destruct r as [code|].
  - destruct E as [(-> & _ & ->)|(-> & [H1 H2 -> _])]; naive_solver.
  - destruct E as (_ & -> & Hf). naive_solver.
Qed.

(** C19. No sleep past the next metrics write: every [poll] waits without
    limit when no metrics file is configured, and otherwise between 0 and the
    configured interval, never the negative timeout that means no limit. *)
Theorem poll_timeouts_bounded (o : oracle) (Ho : lawful o) (cfg : Config) (turns fuel : nat) (Hok : config_ok cfg) :
  ends o cfg (serve turns fuel cfg) (fun _ s' => forall l t a, Event (Poll l t) a ∈ trace s' ->
    if metrics_file cfg == [] then t = (-1)%Z else (0 <= t <= metrics_interval_seconds cfg * 1000)%Z).
Proof.
  eapply ends_intro; [by apply (serve_keeps o Ho), os_init_blank|]. intros r s' E _.
  pose proof (serve_time o Ho cfg turns fuel os_init Hok ltac:(constructor) r s' E) as Hr.
  intros l t a Hin. unfold rested in Hr. rewrite Forall_forall in Hr. exact (Hr _ Hin).
Qed.

End Properties.

(** ** Witnesses *)

Lemma sample_cfg_ok : config_ok sample_cfg.
Proof. repeat split; by vm_compute. Qed.

(** Witness of C8. *)
Example takes_over_unanswered_socket_only_witness :
  ends sample_oracle sample_cfg (init (Server_new sample_cfg)) (fun r s' =>
    stale_only (socket_path sample_cfg) (trace s') /\
    (length (socket_path sample_cfg) < sun_path_size -> sun_path (socket_path sample_cfg) = c_str (socket_path sample_cfg)) /\
    (Exists (occupied (socket_path sample_cfg)) (trace s') ->
       (exists err, r.2 = inl err) /\ Forall (fun e => apart (ev_call e)) (trace s'))).
Proof. exact (takes_over_unanswered_socket_only sample_oracle sample_lawful sample_cfg). Defined.

(** Witness of C10. *)
Example listens_as_configured_witness :
  exists r s', exec (init (Server_new sample_cfg)) sample_oracle os_init = Some (r, s') /\
  ends sample_oracle sample_cfg (init (Server_new sample_cfg)) (fun r s' =>
    binds (trace s') `prefix_of` wanted sample_cfg /\
    (r.2 = inr tt -> binds (trace s') = wanted sample_cfg /\ started sample_cfg r (trace s'))).
Proof. exact (ends_exec _ _ _ _ (listens_as_configured sample_oracle sample_lawful sample_cfg) sample_timely). Defined.

Example sample_wanted : wanted sample_cfg = [Sin 8080 loopback4; Sin6 8080 loopback6].
Proof. reflexivity. Qed.

(** Witness of C9. *)
Example ends_on_signal_witness :
  exists r s', exec (serve 10 10 sample_cfg) sample_oracle os_init = Some (r, s') /\
  ends sample_oracle sample_cfg (serve 10 10 sample_cfg) (fun r s' =>
    (r = Some 0%Z <-> stops (trace s') = true) /\
    (r <> None -> r <> Some 0%Z -> r = Some 1%Z /\ accepts (trace s') = [] /\ pool_requests (trace s') = []) /\
    (r = None -> 10 <= polls (trace s') \/ 10 <= length (accepts (trace s')))).
Proof. exact (ends_exec _ _ _ _ (ends_on_signal sample_oracle sample_lawful sample_cfg 10 10) sample_timely). Defined.

(** Witness of C19. *)
Example poll_timeouts_bounded_witness :
  ends sample_oracle sample_cfg (serve 10 10 sample_cfg) (fun _ s' =>
    forall l t a, Event (Poll l t) a ∈ trace s' ->
      if metrics_file sample_cfg == [] then t = (-1)%Z else (0 <= t <= metrics_interval_seconds sample_cfg * 1000)%Z).
Proof. exact (poll_timeouts_bounded sample_oracle sample_lawful sample_cfg 10 10 sample_cfg_ok). Defined.

(** A socket at the path, and whether somebody answers there. *)
Definition socket_oracle (live : bool) : @oracle simple_maxmind := fun c s =>
  match c as c return answer c with
  | Lstat _ => inr NodeSocket
  | Connect _ _ => if live then inr tt else inl 111%Z
  | c => sample_oracle c s
  end.

Definition unlinked (rs : (Lifecycle.Server * (bytes + unit)) * os) : bool * list bytes :=
  (match rs.1.2 with inr _ => true | inl _ => false end,
   omap (fun e => match ev_call e with Unlink p => Some p | _ => None end) (trace rs.2)).

(** Start-up takes over a dead socket and leaves a live one alone. *)
Example socket_taken_over :
  unlinked <$> exec (init (Server_new sample_cfg)) (socket_oracle false) os_init = Some (true, [ #"/run/nshgeoip/nshgeoip.sock"]).
Proof. vm_compute. reflexivity. Qed.
Example live_socket_kept :
  unlinked <$> exec (init (Server_new sample_cfg)) (socket_oracle true) os_init = Some (false, []).
Proof. vm_compute. reflexivity. Qed.

(** ... and removes it also when it could not make the socket for its probe. *)
Definition no_probe_oracle : @oracle simple_maxmind := fun c s =>
  match c as c return answer c with Socket AfUnix false => inl 24%Z | c => socket_oracle true c s end.
Example unprobed_socket_removed :
  unlinked <$> exec (init (Server_new sample_cfg)) no_probe_oracle os_init = Some (true, [ #"/run/nshgeoip/nshgeoip.sock"]).
Proof. vm_compute. reflexivity. Qed.

(** A database built after the time of day: the conversion of its age is
    undefined, and start-up has no result. *)
Definition early_oracle : @oracle simple_maxmind := fun c s =>
  match c as c return answer c with Databases => (sample_fs : @file_system simple_maxmind, (0, 0, 0)%Z) | c => sample_oracle c s end.
Example database_from_the_future :
  bool_decide (is_Some (exec (init (Server_new sample_cfg)) early_oracle os_init)) = false.
Proof. vm_compute. reflexivity. Qed.
