(* ===== verification/Main.v ===== *)
(** * The command line (src/src/main.cpp)

    The arguments, the help text, the health check of a running instance, the
    database report and the start of the server, as programs over the system
    calls of [System]; the server itself is [Lifecycle.serve]. *)

From stdpp Require Import gmap.
From S2P Require Import Prelude CLib Log Double IpAddr Config GeoIp Metrics Response Report Server System Lifecycle.
From Stdlib Require Import Ascii.

(** ** Constants *)

Definition kDefaultConfigPath : bytes := #"/etc/nshgeoip/nshgeoip.conf".

Definition kDefaultGeoipDirs : list bytes := [ #"/var/lib/GeoIP"; #"/var/lib/crowdsec/data"].

Record ConfigParam := mkParam { key : bytes; env : bytes; desc : bytes; default_ : bytes }.

Definition kParams : list ConfigParam := [
    mkParam #"country_db=" #"NSHGEOIP_COUNTRY_DB" #"Country MMDB path" #"disabled";
    mkParam #"asn_db=" #"NSHGEOIP_ASN_DB" #"ASN MMDB path" #"disabled";
    mkParam #"city_db=" #"NSHGEOIP_CITY_DB" #"City MMDB path" #"disabled";
    mkParam #"socket=" #"NSHGEOIP_SOCKET" #"UNIX socket path" #"/run/nshgeoip/nshgeoip.sock";
    mkParam #"socket_mode=" #"NSHGEOIP_SOCKET_MODE" #"UNIX socket permissions (octal)" #"0660";
    mkParam #"threads=" #"NSHGEOIP_THREADS" #"Worker thread pool size (1-256)" #"CPU cores, clamped to 4-20";
    mkParam #"max_request_bytes=" #"NSHGEOIP_MAX_REQUEST_BYTES" #"Max request header bytes (256-1048576)" #"8192";
    mkParam #"debug_log=" #"NSHGEOIP_DEBUG_LOG" #"Log rejected/malformed requests" #"false";
    mkParam #"tcp_port=" #"NSHGEOIP_TCP_PORT" #"Optional TCP listener port (1-65535), 0=disabled" #"0";
    mkParam #"tcp_address=" #"NSHGEOIP_TCP_ADDRESS" #"TCP bind address, empty=IPv4+IPv6 loopback" #"(loopback)";
    mkParam #"metrics_file=" #"NSHGEOIP_METRICS_FILE" #"Path to periodically write Prometheus metrics to" #"disabled";
    mkParam #"metrics_interval_seconds=" #"NSHGEOIP_METRICS_INTERVAL_SECONDS" #"How often to write metrics_file (1-86400)" #"60"].

(** ** Help *)

(** [%-ns]. *)
Definition pad (n : nat) (s : bytes) : bytes := s ++ repeat " "%char (n - length s).

Definition help_row (k e d v : bytes) : bytes :=
  pad 27 k ++ #" " ++ pad 35 e ++ #" " ++ pad 52 d ++ #" " ++ v.

Definition text_lines (l : list bytes) : bytes := flat_map (fun s => s ++ [LF]) l.

(** The text before the table, after it, and after the directories. *)
Definition help_intro (argv0 : bytes) : list bytes := [
    #"nshgeoip is a small local GeoIP lookup daemon. It answers";
    #"'GET /lookup?ip=<address>' over a UNIX domain socket (and, optionally,";
    #"TCP) using MaxMind MMDB databases, for use with NGINX auth_request or";
    #"any other local client. It also always answers 'GET /health' (a minimal";
    #"text status by default, or JSON with 'Accept: application/json') and";
    #"'GET /metrics' (Prometheus text format) -- neither has its own on/off";
    #"switch; restrict access with NGINX (or your firewall) if needed.";
    [];
    #"Usage: " ++ argv0 ++ #" [--config PATH] | --check-db PATH [--format table|json|ini]";
    #"                | --health-check [--socket PATH | --port PORT] | --version | --help";
    [];
    #"  --config PATH        Path to config file (default: " ++ kDefaultConfigPath ++ #")";
    #"  --check-db PATH      Print an .mmdb file's own metadata (type, build date/age,";
    #"                       node count, languages, ...) and exit -- a diagnostic mode,";
    #"                       independent of any configured country_db/asn_db/city_db";
    #"  --format FORMAT      table (default), json, or ini -- only with --check-db;";
    #"                       json/ini use libmaxminddb's own field names (database_type,";
    #"                       ip_version, node_count, ...) plus build_date/age_days";
    #"  --health-check       Query a running instance's /health over its UNIX socket (or";
    #"                       TCP with --port) and exit 0 (HTTP 200) or 1 (anything else) --";
    #"                       meant for Docker HEALTHCHECK / Kubernetes probes; does not read";
    #"                       any config file or environment variable";
    #"  --socket PATH        UNIX socket to check -- only with --health-check";
    #"                       (default: " ++ socket_path (Config_default 0) ++ #")";
    #"  --port PORT          Check via TCP 127.0.0.1:PORT instead of a UNIX socket --";
    #"                       only with --health-check";
    #"  --version            Print version and exit";
    #"  --help               Print this help and exit";
    [];
    #"Every config file key below also has an NSHGEOIP_<KEY> environment";
    #"variable that overrides it. The config file itself is optional at the";
    #"default path (but not when --config names a path explicitly), so a";
    #"container can run on environment variables alone. Precedence:";
    #"environment > config file > default.";
    []].
Definition help_fallback : list bytes := [
    [];
    #"Any of country_db/asn_db/city_db left unset (by all of the above) falls";
    #"back to GeoLite2-{Country,ASN,City}.mmdb under the first of these";
    #"directories where that file actually exists (checked at startup, and";
    #"logged when a fallback is used):"].
Definition help_notes : list bytes := [
    #"country_db's auto-detection is skipped entirely once city_db ends up set";
    #"(by config or by this same auto-detection) -- a real GeoLite2-City.mmdb";
    #"already carries country/continent data, so there is nothing a separate";
    #"Country database would add."].

Definition print_help (argv0 : bytes) : bytes :=
  text_lines (help_intro argv0) ++
  text_lines [help_row #"CONFIG KEY" #"ENVIRONMENT VARIABLE" #"DESCRIPTION" #"DEFAULT"] ++
  text_lines (map (fun p => help_row (key p) (env p) (desc p) (default_ p)) kParams) ++
  text_lines help_fallback ++
  text_lines (map (fun dir => #"  " ++ dir) kDefaultGeoipDirs) ++
  text_lines help_notes.

(** ** Arguments *)

(** The local variables of [main] that arguments set. *)
Record options := mkOptions {
  config_path : bytes;
  config_path_explicit : bool;
  check_db_requested : bool;
  check_db_path : bytes;
  check_db_format : bytes;
  health_check_requested : bool;
  health_check_socket : bytes;
  health_check_port : Z;
}.

Definition options_init : options := mkOptions kDefaultConfigPath false false [] #"table" false [] 0.

Definition with_config p o := mkOptions p true (check_db_requested o) (check_db_path o) (check_db_format o) (health_check_requested o) (health_check_socket o) (health_check_port o).
Definition with_check_db p o := mkOptions (config_path o) (config_path_explicit o) true p (check_db_format o) (health_check_requested o) (health_check_socket o) (health_check_port o).
Definition with_format f o := mkOptions (config_path o) (config_path_explicit o) (check_db_requested o) (check_db_path o) f (health_check_requested o) (health_check_socket o) (health_check_port o).
Definition with_health_check o := mkOptions (config_path o) (config_path_explicit o) (check_db_requested o) (check_db_path o) (check_db_format o) true (health_check_socket o) (health_check_port o).
Definition with_socket p o := mkOptions (config_path o) (config_path_explicit o) (check_db_requested o) (check_db_path o) (check_db_format o) (health_check_requested o) p (health_check_port o).
Definition with_port p o := mkOptions (config_path o) (config_path_explicit o) (check_db_requested o) (check_db_path o) (check_db_format o) (health_check_requested o) (health_check_socket o) p.

(** The program ends here with what it prints, or goes on. *)
Inductive parsed := Exit (printed : list (stream * bytes)) (code : Z) | Go (opts : options).

(** The loop over [argv] from 1 on; the arguments are C strings. *)
Fixpoint parse_args (argv0 : bytes) (args : list bytes) (opts : options) : parsed :=
  match args with
  | [] => Go opts
  | arg :: rest =>
      if arg == #"--version" then Exit [(Stdout, #"nshgeoip " ++ NSHGEOIP_VERSION ++ [LF])] 0
      else if (arg == #"--help") || (arg == #"-h") then Exit [(Stdout, print_help argv0)] 0
      else if arg == #"--check-db" then
        match rest with
        | [] => Exit [(Stderr, #"--check-db requires a path argument" ++ [LF])] 2
        | value :: rest' => parse_args argv0 rest' (with_check_db value opts)
        end
      else if arg == #"--format" then
        match rest with
        | [] => Exit [(Stderr, #"--format requires a value (table, json, or ini)" ++ [LF])] 2
        | value :: rest' => parse_args argv0 rest' (with_format value opts)
        end
      else if arg == #"--config" then
        match rest with
        | [] => Exit [(Stderr, #"--config requires a path argument" ++ [LF])] 2
        | value :: rest' => parse_args argv0 rest' (with_config value opts)
        end
      else if arg == #"--health-check" then parse_args argv0 rest (with_health_check opts)
      else if arg == #"--socket" then
        match rest with
        | [] => Exit [(Stderr, #"--socket requires a path argument" ++ [LF])] 2
        | value :: rest' => parse_args argv0 rest' (with_socket value opts)
        end
      else if arg == #"--port" then
        match rest with
        | [] => Exit [(Stderr, #"--port requires a value" ++ [LF])] 2
        | value :: rest' =>
            match parse_port value with
            | Some port => parse_args argv0 rest' (with_port port opts)
            | None => Exit [(Stderr, #"invalid --port value: " ++ value ++ [LF])] 2
            end
        end
      else Exit [(Stderr, #"unknown argument: " ++ arg ++ [LF]); (Stdout, print_help argv0)] 2
  end.

Section Main.
Context `{MaxMindDB} `{InetPton} `{Libc}.

(** ** The health check *)

Definition kHealthCheckTimeoutSeconds : Z := 3.

Definition kRequest : bytes :=
  #"GET /health HTTP/1.1" ++ CRLF ++ #"Host: localhost" ++ CRLF ++ #"Connection: close" ++ CRLF ++ CRLF.

(** [err = ...; close(fd); return false;]. *)
Definition close_with (fd : Z) (err : bytes) : prog (bytes + Z) := sys (CloseFd fd) ;;; Ret (inl err).

(** The connected socket, or the error. *)
Definition connect_health (socket_path : bytes) (tcp_port : Z) : prog (bytes + Z) :=
  if negb (tcp_port =? 0)%Z then
    r <~ sys (Socket AfInet false) ;;
    match r with
    | inl e => Ret (inl (#"socket() failed: " ++ strerror e))
    | inr fd =>
        c <~ sys (Connect fd (InetAddr (Sin (to_uint16 tcp_port) loopback4))) ;;
        match c with
        | inl e => close_with fd (#"connect to 127.0.0.1:" ++ to_string tcp_port ++ #" failed: " ++ strerror e)
        | inr _ => Ret (inr fd)
        end
    end
  else
    r <~ sys (Socket AfUnix false) ;;
    match r with
    | inl e => Ret (inl (#"socket() failed: " ++ strerror e))
    | inr fd =>
        if (sun_path_size <=? length socket_path)%nat then close_with fd (#"socket path too long: " ++ socket_path)
        else
          c <~ sys (Connect fd (UnixAddr (sun_path socket_path))) ;;
          match c with
          | inl e => close_with fd (#"connect to " ++ socket_path ++ #" failed: " ++ strerror e)
          | inr _ => Ret (inr fd)
          end
    end.

(** [sizeof(buf) - 1]. *)
Definition health_buf : nat := 63.

(** The test of the status line, [buf] being NUL-terminated. *)
Definition status_ok (buf : bytes) : bool := take 12 (c_str buf) == #"HTTP/1.1 200".

(** The error, or [None] for true. *)
Definition check_health (socket_path : bytes) (tcp_port : Z) : prog (option bytes) :=
  c <~ connect_health socket_path tcp_port ;;
  match c with
  | inl err => Ret (Some err)
  | inr fd =>
      _ <~ sys (Setsockopt fd (RecvTimeout kHealthCheckTimeoutSeconds)) ;;
      _ <~ sys (Setsockopt fd (SendTimeout kHealthCheckTimeoutSeconds)) ;;
      w <~ sys (Send fd kRequest) ;;
      match w with
      | inl e => sys (CloseFd fd) ;;; Ret (Some (#"write failed: " ++ strerror e))
      | inr _ =>
          n <~ sys (Receive fd health_buf) ;;
          _ <~ sys (CloseFd fd) ;;
          match n with
          | inl e => Ret (Some (#"read failed: " ++ strerror e))
          | inr [] => Ret (Some #"connection closed with no response")
          | inr buf =>
              if negb (status_ok buf) then
                let line := c_str buf in
                Ret (Some (#"unexpected response: " ++
                           match find_str CRLF line with Some i => substr line 0 i | None => line end))
              else Ret None
          end
      end
  end.

(** ** The modes *)

Fixpoint print_all (l : list (stream * bytes)) : prog unit :=
  match l with [] => Ret tt | (to, text) :: l' => sys (Print to text) ;;; print_all l' end.

(** Print one line and exit. *)
Definition exit_with (to : stream) (line : bytes) (code : Z) : prog (option Z) :=
  sys (Print to (line ++ [LF])) ;;; Ret (Some code).

Definition read_format (name : bytes) : option DbMetadataFormat :=
  if name == #"table" then Some Table else if name == #"json" then Some Json else if name == #"ini" then Some Ini else None.

Definition run_check_db (opts : options) : prog (option Z) :=
  match read_format (check_db_format opts) with
  | None => exit_with Stderr (#"unknown --format value: " ++ check_db_format opts ++ #" (expected table, json, or ini)") 2
  | Some format =>
      w <~ sys Databases ;;
      r <~ of_option (print_db_metadata w.1 w.2.1.1 (check_db_path opts) format heap_empty) ;;
      match r.1 with
      | inl err => exit_with Stderr (#"Error: " ++ err) 1
      | inr text => sys (Print Stdout text) ;;; Ret (Some 0%Z)
      end
  end.

Definition run_health_check (opts : options) : prog (option Z) :=
  if negb (health_check_socket opts == []) && negb (health_check_port opts =? 0)%Z then
    exit_with Stderr #"--socket and --port are mutually exclusive" 2
  else
    let path := if health_check_socket opts == [] then socket_path (Config_default 0) else health_check_socket opts in
    r <~ check_health path (health_check_port opts) ;;
    match r with
    | Some err => exit_with Stderr (#"status=fail: " ++ err) 1
    | None => exit_with Stdout #"status=ok" 0
    end.

(** ** The server *)

Fixpoint log_lines (level : LogLevel) (msgs : list bytes) : prog unit :=
  match msgs with [] => Ret tt | msg :: msgs' => sys (LogLine level msg) ;;; log_lines level msgs' end.

(** [log_fatal(...); return 1;]. *)
Definition fatal {A} (msg : bytes) : prog (bytes + A) := sys (LogLine Fatal msg) ;;; Ret (inl msg).

(** The configuration file, when there is one. *)
Definition read_config_file (opts : options) (cfg : Config) : prog (bytes + Config) :=
  let path := config_path opts in
  a <~ sys (Access (c_str path) F_OK) ;;
  match a with
  | inr _ =>
      _ <~ sys (LogLine Info (#"using config file: " ++ path)) ;;
      file <~ sys (ReadFile (c_str path)) ;;
      let r := load_config path file cfg (Some []) in
      match lr_err r with
      | Some err => fatal (#"failed to load config: " ++ err)
      | None => log_lines Warn (default [] (lr_warnings r)) ;;; Ret (inr (lr_cfg r))
      end
  | inl _ =>
      if config_path_explicit opts then fatal (#"config file not found: " ++ path)
      else sys (LogLine Info (#"no config file at " ++ path ++ #", using defaults and environment variables")) ;;; Ret (inr cfg)
  end.

Definition or_disabled (v : bytes) : bytes := if v == [] then #"(disabled)" else v.

Definition config_summary (cfg : Config) : list bytes :=
  [ #"country_db = " ++ or_disabled (country_db cfg);
   #"asn_db = " ++ or_disabled (asn_db cfg);
   #"city_db = " ++ or_disabled (city_db cfg);
   #"socket = " ++ socket_path cfg;
   #"threads = " ++ to_string (threads cfg);
   #"tcp_port = " ++ (if negb (tcp_port cfg =? 0)%Z then to_string (tcp_port cfg) else #"(disabled)")] ++
  (if negb (tcp_port cfg =? 0)%Z
   then [ #"tcp_address = " ++ (if tcp_address cfg == [] then #"(loopback)" else tcp_address cfg)] else []) ++
  [ #"metrics_file = " ++ or_disabled (metrics_file cfg)] ++
  (if negb (metrics_file cfg == [])
   then [ #"metrics_interval_seconds = " ++ to_string (metrics_interval_seconds cfg)] else []).

(** File, environment and default databases, in this order. *)
Definition configure (opts : options) : prog (bytes + Config) :=
  _ <~ sys IgnoreSigpipe ;;
  _ <~ log_lines Info [ #"nshgeoip " ++ NSHGEOIP_VERSION ++ #" starting"; #"libmaxminddb version: " ++ MMDB_lib_version] ;;
  detected <~ sys Concurrency ;;
  f <~ read_config_file opts (Config_default detected) ;;
  match f with
  | inl err => Ret (inl err)
  | inr cfg =>
      getenv <~ sys Getenv ;;
      match apply_env_overrides getenv cfg with
      | (_, Some err) => fatal (#"failed to apply environment variables: " ++ err)
      | (cfg1, None) =>
          _ <~ sys (SetDebugEnabled (debug_log cfg1)) ;;
          is_regular <~ sys IsRegular ;;
          let r := apply_default_db_paths (fun path => is_regular (c_str path)) cfg1 kDefaultGeoipDirs (Some []) in
          _ <~ log_lines Info (default [] r.2) ;;
          _ <~ log_lines Info (config_summary r.1) ;;
          Ret (inr r.1)
      end
  end.

(** ** [main] *)

(** The exit code, or [None] while the server still runs after that many turns. *)
Definition main (turns fuel : nat) (argv0 : bytes) (args : list bytes) : prog (option Z) :=
  match parse_args argv0 args options_init with
  | Exit printed code => print_all printed ;;; Ret (Some code)
  | Go opts =>
      if check_db_requested opts then run_check_db opts
      else if negb (health_check_requested opts) &&
              (negb (health_check_socket opts == []) || negb (health_check_port opts =? 0)%Z) then
        exit_with Stderr #"--socket and --port only apply together with --health-check" 2
      else if health_check_requested opts then run_health_check opts
      else
        c <~ configure opts ;;
        match c with
        | inl _ => Ret (Some 1%Z)
        | inr cfg => serve turns fuel cfg
        end
  end.

End Main.
