(* ===== verification/MainSpec.v ===== *)
(** * The command line (correctness of [Main])

    Which command lines are accepted and what they mean, what the health
    check tells and leaves behind, that it agrees with the server's own
    answer, that the help text is true to the configuration, and the whole
    program from its arguments to its exit. *)

From stdpp Require Import gmap.
From S2P Require Import Prelude CLib Log Double IpAddr Http HttpSpec Config ConfigSpec GeoIp GeoIpSpec Metrics MetricsSpec.
From S2P Require Import Response ResponseSpec Report ReportSpec Server ServerSpec System Lifecycle LifecycleSpec LifecycleTrace LifecycleLoop ThreadPool LifecycleProps Main.
From Stdlib Require Import Ascii.

(** ** Arguments *)

(** What one option of the command line says. *)
Inductive setting :=
| SetConfig (path : bytes)
| CheckDb (path : bytes)
| SetFormat (name : bytes)
| HealthCheck
| SetSocket (path : bytes)
| SetPort (text : bytes) (port : Z).

Definition written (s : setting) : list bytes :=
  match s with
  | SetConfig path => [ #"--config"; path]
  | CheckDb path => [ #"--check-db"; path]
  | SetFormat name => [ #"--format"; name]
  | HealthCheck => [ #"--health-check"]
  | SetSocket path => [ #"--socket"; path]
  | SetPort text _ => [ #"--port"; text]
  end.

Definition valid (s : setting) : Prop := match s with SetPort text port => parse_port text = Some port | _ => True end.

Definition apply_setting (opts : options) (s : setting) : options :=
  match s with
  | SetConfig path => with_config path opts
  | CheckDb path => with_check_db path opts
  | SetFormat name => with_format name opts
  | HealthCheck => with_health_check opts
  | SetSocket path => with_socket path opts
  | SetPort _ port => with_port port opts
  end.

Lemma parse_written argv0 s rest opts : valid s ->
  parse_args argv0 (written s ++ rest) opts = parse_args argv0 rest (apply_setting opts s).
Proof. destruct s; cbn; try done. by intros ->. Qed.

Lemma parse_settings argv0 settings opts : Forall valid settings ->
  parse_args argv0 (flat_map written settings) opts = Go (fold_left apply_setting settings opts).
Proof.
  intros Hv. revert opts. induction Hv as [|s settings Hs _ IH]; intros opts; [done|].
  cbn [flat_map fold_left]. by rewrite parse_written.
Qed.

(** The list is consumed an option at a time. *)
Lemma parse_args_settings argv0 args opts opts' : parse_args argv0 args opts = Go opts' ->
  exists settings, args = flat_map written settings /\ Forall valid settings /\ opts' = fold_left apply_setting settings opts.
Proof.
  remember (length args) as n eqn:Hn. assert (Hle : length args <= n) by lia. clear Hn.
  revert args opts Hle. induction n as [|n IH]; intros [|arg rest] opts Hle; cbn in Hle; try lia; try (intros [= <-]; by exists []).
  assert (Hstep : forall s rest', valid s -> arg :: rest = written s ++ rest' ->
    parse_args argv0 (arg :: rest) opts = Go opts' ->
    exists settings, arg :: rest = flat_map written settings /\ Forall valid settings /\ opts' = fold_left apply_setting settings opts).
  { intros s rest' Hs E. rewrite E, parse_written by done. intros H.
    destruct (IH rest' (apply_setting opts s)) as (settings & -> & Hv & ->); [|done|].
    - apply (f_equal length) in E. rewrite length_app in E. destruct s; cbn in E; lia.
    - exists (s :: settings). split; [done|]. split; [by constructor|done]. }
  intros H. pose proof H as H'. cbn [parse_args] in H'.
  repeat (case_bool_decide as Harg; cbn [orb] in H'; [subst arg|clear Harg]); try done.
  - destruct rest as [|v rest]; [done|]. by apply (Hstep (CheckDb v) rest).
  - destruct rest as [|v rest]; [done|]. by apply (Hstep (SetFormat v) rest).
  - destruct rest as [|v rest]; [done|]. by apply (Hstep (SetConfig v) rest).
  - by apply (Hstep HealthCheck rest).
  - destruct rest as [|v rest]; [done|]. by apply (Hstep (SetSocket v) rest).
  - destruct rest as [|v rest]; [done|]. destruct (parse_port v) as [port|] eqn:Ep; [|done]. by apply (Hstep (SetPort v port) rest).
Qed.

(** The version or the help text, as the arguments ask. *)
Definition asked_for (argv0 : bytes) (args : list bytes) (printed : list (stream * bytes)) : Prop :=
  ( #"--version" ∈ args /\ printed = [(Stdout, #"nshgeoip " ++ NSHGEOIP_VERSION ++ [LF])]) \/
  (( #"--help" ∈ args \/ #"-h" ∈ args) /\ printed = [(Stdout, print_help argv0)]).

(** What an early exit prints. *)
Lemma parse_args_exit argv0 args opts printed code : parse_args argv0 args opts = Exit printed code ->
  (code = 0%Z /\ asked_for argv0 args printed) \/ (code = 2%Z /\ exists msg rest, printed = (Stderr, msg) :: rest).
Proof.
  remember (length args) as n eqn:Hn. assert (Hle : length args <= n) by lia. clear Hn.
  revert args opts Hle. induction n as [|n IH]; intros [|arg rest] opts Hle; cbn in Hle; try lia; try done.
  assert (Hrec : forall pre rest' opts', arg :: rest = pre ++ rest' -> length rest' <= n ->
    parse_args argv0 rest' opts' = Exit printed code ->
    (code = 0%Z /\ asked_for argv0 (arg :: rest) printed) \/ (code = 2%Z /\ exists msg rest, printed = (Stderr, msg) :: rest)).
  { intros pre rest' opts' E Hl Hp. destruct (IH rest' opts' Hl Hp) as [(-> & Hout)|(-> & Hout)]; [|by right].
    left. split; [done|]. unfold asked_for in *. rewrite E, !elem_of_app. tauto. }
  cbn [parse_args]. case_bool_decide as Hv; [intros [= <- <-]; left; subst arg; split; [done|]; left; split; [constructor|done]|].
  case_bool_decide as Hh; cbn [orb]; [intros [= <- <-]; left; subst arg; split; [done|]; right; split; [left; constructor|done]|].
  case_bool_decide as Hh2; [intros [= <- <-]; left; subst arg; split; [done|]; right; split; [right; constructor|done]|].
  repeat case_bool_decide; try (intros [= <- <-]; right; split; [done|]; by eexists _, _).
  all: try (apply (Hrec [arg]); [done|cbn in *; lia]).
  all: destruct rest as [|v rest]; [intros [= <- <-]; right; split; [done|]; by eexists _, _|].
  5: destruct (parse_port v); [|intros [= <- <-]; right; split; [done|]; by eexists _, _].
  all: apply (Hrec [arg; v]); [done|cbn in *; lia].
Qed.

(** ** The health check *)

Section Health.
Context {MM : MaxMindDB} {NP : InetPton} {LC : Libc}.

(** What was received, in order. *)
Definition received (evs : list event) : list bytes :=
  omap (fun e => match ev_call e as c return answer c -> option bytes with
                 | Receive _ _ => fun r => match r with inr data => Some data | inl _ => None end
                 | _ => fun _ => None
                 end (ev_answer e)) evs.

(** A status 200 was received. *)
Definition healthy (evs : list event) : Prop := exists data, received evs = [data] /\ status_ok data = true.

Lemma connect_health_emits path port : emits (connect_health path port) (fun _ evs => received evs = []).
Proof.
  unfold connect_health, close_with. destruct (negb _); apply emits_sys; (intros [e|fd]; [by apply emits_ret|]).
  - apply emits_sys. intros [e|?]; cbn [bind]; [apply emits_sys; intros u|]; by apply emits_ret.
  - destruct (sun_path_size <=? length path); [apply emits_sys; intros u; by apply emits_ret|].
    apply emits_sys. intros [e|?]; cbn [bind]; [apply emits_sys; intros u|]; by apply emits_ret.
Qed.

Lemma check_health_emits path port : emits (check_health path port) (fun r evs => r = None <-> healthy evs).
Proof.
  unfold check_health. eapply emits_bind; [apply connect_health_emits|]. intros [err|fd] evs He.
  { apply emits_ret. rewrite app_nil_r. split; [done|]. intros (d & Hd & _). by rewrite He in Hd. }
  apply emits_sys. intros x1. apply emits_sys. intros x2. cbn [bind]. apply emits_sys. cbn [bind].
  assert (Hr : forall evs', received (evs ++ evs') = received evs') by (intros evs'; unfold received in *; by rewrite omap_app, He).
  intros [e|n]; cbn [bind].
  { apply emits_sys. intros u. apply emits_ret. split; [done|]. intros (d & Hd & _). by rewrite Hr in Hd. }
  apply emits_sys. cbn [bind]. intros data. apply emits_sys. intros u. cbn [bind]. unfold healthy.
  destruct data as [e|data]; [|destruct data as [|c data]; [|destruct (status_ok (c :: data)) eqn:Es]]; apply emits_ret; rewrite Hr.
  - split; [done|]. by intros (d & ? & _).
  - split; [done|]. by intros (d & [= <-] & ?).
  - split; [|done]. by exists (c :: data).
  - split; [done|]. intros (d & [= <-] & Hd). congruence.
Qed.

(** *** Its descriptor *)

Context (o : oracle) (Ho : lawful o).

#[local] Notation triple := (System.triple (fun _ => False)).

Lemma owns_made l s c fd : owns l s -> makes c (o c s) = Some fd -> uses c = [] -> owns (fd :: l) (after c (o c s) s).
Proof.
  intros (Hn & Hf & Hm) Hmk Hu. pose proof (Ho c s) as Ha.
  assert (Hnew : fd ∉ fds s).
  { destruct c; cbn in Hmk; try done; destruct (o _ s) as [e|x]; try done; injection Hmk as ->; by apply Ha. }
  split; [constructor; [by rewrite <- Hf|done]|]. cbn. split; [|by rewrite Hm, Hu].
  intros x. unfold fds_after. rewrite Hmk. assert (gives_up c = None) as -> by (by destruct c).
  by rewrite elem_of_cons, elem_of_union, elem_of_singleton, Hf.
Qed.

(** A call on the one descriptor that is owned. *)
Lemma owns_used fd s c a : owns [fd] s -> uses c = [fd] -> gives_up c = None -> makes c a = None -> owns [fd] (after c a s).
Proof.
  intros (Hn & Hf & Hm) Hu Hg Hmk. split; [done|]. cbn. split; [unfold fds_after; by rewrite Hg, Hmk|].
  rewrite Hm, Hu. cbn. rewrite bool_decide_eq_true_2; [done|]. apply Hf. by left.
Qed.

Lemma close_with_owns fd err s : owns [fd] s -> triple o s (close_with fd err) (fun r s' => match r with inl _ => owns [] s' | inr fd => owns [fd] s' end).
Proof. intros H. apply triple_sys. cbn [bind]. apply triple_ret. destruct (o (CloseFd fd) s). by apply owns_closed. Qed.

Lemma connect_health_owns path port s : owns [] s ->
  triple o s (connect_health path port) (fun r s' => match r with inl _ => owns [] s' | inr fd => owns [fd] s' end).
Proof.
  intros Hs. unfold connect_health.
  assert (Hsock : forall d (k : answer (Socket d false) -> prog (bytes + Z)) Q,
    (forall e s', owns [] s' -> triple o s' (k (inl e)) Q) -> (forall fd s', owns [fd] s' -> triple o s' (k (inr fd)) Q) ->
    triple o s (Sys (Socket d false) k) Q).
  { intros d k Q H1 H2. apply triple_sys. destruct (o (Socket d false) s : res Z) as [e|fd] eqn:E.
    - apply H1. destruct Hs as (Hn & Hf & Hm). split; [done|]. cbn. split; [done|by rewrite Hm].
    - apply H2. rewrite <- E. apply owns_made; [done|by rewrite E|done]. }
  assert (Hconn : forall fd a s (err : Z -> bytes), owns [fd] s -> triple o s (c <~ sys (Connect fd a) ;;
      match c with inl e => close_with fd (err e) | inr _ => Ret (inr fd) end)
    (fun r s' => match r with inl _ => owns [] s' | inr fd => owns [fd] s' end)).
  { intros fd a s1 err H1. apply triple_sys. cbn [bind]. assert (H2 := owns_used fd s1 (Connect fd a) (o (Connect fd a) s1) H1 eq_refl eq_refl eq_refl).
    destruct (o (Connect fd a) s1 : res unit); [by apply close_with_owns|by apply triple_ret]. }
  destruct (negb _); apply Hsock; cbn [bind]; try (intros e s1 H1; by apply triple_ret); intros fd s1 H1.
  - by apply (Hconn fd _ s1 (fun e => #"connect to 127.0.0.1:" ++ to_string port ++ #" failed: " ++ strerror e)).
  - destruct (sun_path_size <=? length path); [by apply close_with_owns|].
    by apply (Hconn fd _ s1 (fun e => #"connect to " ++ path ++ #" failed: " ++ strerror e)).
Qed.

Lemma check_health_owns path port s : owns [] s -> triple o s (check_health path port) (fun _ s' => owns [] s').
Proof.
  intros Hs. unfold check_health. eapply triple_bind; [by apply connect_health_owns|].
  intros [err|fd] s1 H1; [by apply triple_ret|].
  assert (Hused : forall A c (k : answer c -> prog A) s Q, owns [fd] s -> uses c = [fd] -> gives_up c = None ->
    (forall a, makes c a = None) -> (owns [fd] (after c (o c s) s) -> triple o (after c (o c s) s) (k (o c s)) Q) -> triple o s (Sys c k) Q).
  { intros A c k s2 Q H2 Hu Hg Hmk Hk. apply triple_sys, Hk. by apply owns_used. }
  assert (Hclose : forall s (r : option bytes), owns [fd] s -> triple o s (sys (CloseFd fd) ;;; Ret r) (fun _ s' => owns [] s')).
  { intros s2 r H2. apply triple_sys. cbn [bind]. apply triple_ret. destruct (o (CloseFd fd) s2). by apply owns_closed. }
  apply Hused; [done..|]. clear H1. intros H1. cbn [bind]. apply Hused; [done..|]. clear H1. intros H1. cbn [bind].
  apply Hused; [done..|]. clear H1. intros H1. cbn [bind]. set (s2 := after (Send fd kRequest) _ _) in *.
  destruct (o (Send fd kRequest) _ : res nat); [by apply Hclose|].
  apply Hused; [done..|]. intros H2. cbn [bind]. set (s3 := after (Receive fd health_buf) _ s2) in *.
  destruct (o (Receive fd health_buf) s2 : res bytes) as [e|[|c data]]; [by apply Hclose..|].
  apply triple_sys. cbn [bind]. destruct (negb _); apply triple_ret; destruct (o (CloseFd fd) s3); by apply owns_closed.
Qed.

End Health.

(** ** The check against the server's own answer *)

Section Agreement.
Context {MM : MaxMindDB} {NP : InetPton}.

Lemma status_prefix (p rest : bytes) n : length p = 12 -> NUL ∉ p -> 12 <= n -> take 12 (c_str (take n (p ++ rest))) = p.
Proof.
  intros Hp Hnul Hn. rewrite take_app_ge by lia.
  assert (Hc : forall r, c_str (p ++ r) = p ++ c_str r).
  { intros r. clear -Hnul. induction p as [|c p IH]; [done|]. rewrite not_elem_of_cons in Hnul. destruct Hnul as [Hc Hp].
    cbn. rewrite bool_decide_eq_false_2 by congruence. by rewrite IH. }
  rewrite Hc, <- Hp. apply take_app_length.
Qed.

(** The first line of a response gives its status. *)
Lemma status_ok_response resp b n : known_status (status resp) -> 12 <= n ->
  status_ok (take n (build_http_response resp b)) = (status resp =? 200)%Z.
Proof.
  intros Hs Hn. unfold build_http_response, status_ok.
  assert (Hp : forall code rest, take 12 (c_str (take n (#"HTTP/1.1 " ++ to_string code ++ rest))) =
    #"HTTP/1.1 " ++ to_string code \/ length (to_string code) <> 3).
  { intros code rest. destruct (decide (length (to_string code) = 3)) as [E|]; [left|by right]. rewrite app_assoc.
    apply status_prefix; [by rewrite length_app, E| |done]. rewrite not_elem_of_app. split; [by apply find_char_None|].
    apply to_string_no_nul. }
  destruct Hs as [E|[E|[E|[E|E]]]]; rewrite E;
    match goal with |- context [to_string ?z ++ ?rest] => destruct (Hp z rest) as [->|Hl]; [by vm_compute|by destruct Hl] end.
Qed.

Lemma health_request_answered sv m : exists resp m', respond sv kRequest m = Some (resp, false, m', []) /\ status resp = 200%Z.
Proof.
  unfold respond. destruct (parse_http_request kRequest) as [req|] eqn:E; [|by vm_compute in E].
  assert (Hr : (method req, path req, accept req) = (#"GET", #"/health", [])).
  { assert (E' : (fun r => (method r, path r, accept r)) <$> parse_http_request kRequest = Some (#"GET", #"/health", []))
      by (vm_compute; reflexivity).
    rewrite E in E'. by apply (inj Some) in E'. }
  assert (Hm : method req = #"GET") by exact (f_equal (fun x => x.1.1) Hr).
  assert (Hp : path req = #"/health") by exact (f_equal (fun x => x.1.2) Hr).
  assert (Ha : accept req = []) by exact (f_equal snd Hr). rewrite Hm, Hp, Ha. cbn [negb andb]. unfold route. rewrite Hp. unfold handle_health. rewrite Ha.
  by do 2 eexists.
Qed.

(** C15. The health check and the server agree.  The server answers the bytes
    the check sends, however its databases are, with a status of 200 and logs
    nothing; and of any response the server can send, to any request, the
    check accepts the first bytes, if it gets at least twelve, exactly if its
    status is 200. *)
Theorem health_check_agrees (cfg : Config) (start : Z) (turns : list read_turn) (sv : server_view) (m : Metrics) :
  (forall w, read_http_head (Z.to_nat (max_request_bytes cfg)) 5 start turns = Some (ReadOk, kRequest, w) ->
     exists m' data, handle_connection cfg start turns sv m = Some (m', [WriteAll data; Close]) /\
       forall n, 12 <= n -> status_ok (take n data) = true) /\
  (forall raw resp h m' log n, respond sv raw m = Some (resp, h, m', log) -> 12 <= n ->
     (status_ok (take n (build_http_response resp (negb h))) = true <-> status resp = 200%Z)).
Proof.
  split.
  - intros w Hread. unfold handle_connection. rewrite Hread. cbn [mbind option_bind].
    destruct (health_request_answered sv m) as (resp & m' & -> & Hs). cbn [mbind option_bind].
    do 2 eexists. split; [done|]. intros n Hn. rewrite status_ok_response by (done || by left). by rewrite Hs.
  - intros raw resp h m' log n Hr Hn. apply respond_routed in Hr as ((_ & Hs) & _).
    rewrite status_ok_response by done. apply Z.eqb_eq.
Qed.

End Agreement.

(** Witness of C15: a server that reads the check's request in one piece. *)
Example health_check_agrees_witness :
  exists m' data, handle_connection (Config_default 8) 0 [mkTurn 0 PollReady (RecvData kRequest)] sample_server Metrics_zero =
      Some (m', [WriteAll data; Close]) /\ forall n, 12 <= n -> status_ok (take n data) = true.
Proof.
  apply (proj1 (health_check_agrees (Config_default 8) 0 [mkTurn 0 PollReady (RecvData kRequest)] sample_server Metrics_zero) [5000]%Z).
  by vm_compute.
Defined.

(** ** The help text *)

Lemma known_keys k value cfg : (apply_key k value cfg <> KeyUnknown) <-> k ++ #"=" ∈ map key kParams.
Proof.
  assert (Hin : k ++ #"=" ∈ map key kParams <-> k ∈ [ #"country_db"; #"asn_db"; #"city_db"; #"socket"; #"socket_mode"; #"threads";
    #"max_request_bytes"; #"debug_log"; #"tcp_port"; #"tcp_address"; #"metrics_file"; #"metrics_interval_seconds"]).
  { change (map key kParams) with (map (fun k => k ++ #"=") [ #"country_db"; #"asn_db"; #"city_db"; #"socket"; #"socket_mode"; #"threads";
      #"max_request_bytes"; #"debug_log"; #"tcp_port"; #"tcp_address"; #"metrics_file"; #"metrics_interval_seconds"]).
    rewrite list_elem_of_fmap. split; [|by exists k]. intros (k' & E & ?). by apply app_inv_tail in E as ->. }
  rewrite Hin. rewrite !elem_of_cons. unfold apply_key.
  repeat (case_bool_decide; [split; [intros _; tauto|intros _; unfold checked; first [done|by case_match]]|]).
  split; [intros Hu; by destruct (Hu eq_refl)|]. rewrite elem_of_nil. tauto.
Qed.

Lemma env_string_same g1 g2 name set c : g1 name = g2 name -> env_string g1 name set c = env_string g2 name set c.
Proof. unfold env_string. by intros ->. Qed.
Lemma env_checked_same {A} g1 g2 name (parse : bytes -> option A) set what c :
  g1 name = g2 name -> env_checked g1 name parse set what c = env_checked g2 name parse set what c.
Proof. unfold env_checked. by intros ->. Qed.

Lemma env_steps_same steps1 steps2 c : Forall2 (fun s1 s2 : env_step => forall c, s1 c = s2 c) steps1 steps2 ->
  env_steps steps1 c = env_steps steps2 c.
Proof.
  intros H. revert c. induction H as [|s1 s2 steps1 steps2 Hs _ IH]; intros c; [done|]. cbn [env_steps]. rewrite Hs.
  by destruct (s2 c) as [c' [err|]].
Qed.

Lemma known_variables g1 g2 cfg : Forall (fun p => g1 (env p) = g2 (env p)) kParams ->
  apply_env_overrides g1 cfg = apply_env_overrides g2 cfg.
Proof.
  intros H. unfold apply_env_overrides. apply env_steps_same. unfold kParams in H. rewrite !Forall_cons in H. cbn [env] in H.
  repeat (constructor; [intros c; first [apply env_string_same; tauto|apply env_checked_same; tauto]|]). constructor.
Qed.

Lemma row_printed argv0 p : p ∈ kParams ->
  exists pre post, print_help argv0 = pre ++ help_row (key p) (env p) (desc p) (default_ p) ++ [LF] ++ post.
Proof.
  intros (l1 & l2 & E)%list_elem_of_split. unfold print_help. rewrite E, map_app, map_cons.
  generalize (text_lines (help_intro argv0)) (text_lines help_notes) (text_lines (map (fun dir => #"  " ++ dir) kDefaultGeoipDirs)).
  generalize (text_lines [help_row #"CONFIG KEY" #"ENVIRONMENT VARIABLE" #"DESCRIPTION" #"DEFAULT"]) (text_lines help_fallback).
  intros t1 t2 t3 t4 t5. unfold text_lines. rewrite flat_map_app. cbn [flat_map].
  generalize (flat_map (fun s => s ++ [LF]) (map (fun p => help_row (key p) (env p) (desc p) (default_ p)) l1)).
  generalize (flat_map (fun s => s ++ [LF]) (map (fun p => help_row (key p) (env p) (desc p) (default_ p)) l2)).
  generalize (help_row (key p) (env p) (desc p) (default_ p)). intros r u2 u1.
  exists (t3 ++ t1 ++ u1), (u2 ++ t2 ++ t5 ++ t4). by rewrite <- !app_assoc.
Qed.

(** The key of a row without its equals sign. *)
Definition bare (k : bytes) : bytes := take (length k - 1) k.

(** An environment with one variable. *)
Definition only (name value : bytes) (n : bytes) : option bytes := if n == name then Some value else None.

Lemma skip_string g name set steps c : g name = None -> env_steps (env_string g name set :: steps) c = env_steps steps c.
Proof. intros E. cbn [env_steps]. unfold env_string. by rewrite E. Qed.
Lemma skip_checked {A} g name (parse : bytes -> option A) set what steps c :
  g name = None -> env_steps (env_checked g name parse set what :: steps) c = env_steps steps c.
Proof. intros E. cbn [env_steps]. unfold env_checked. by rewrite E. Qed.
Lemma hit_string g name set steps c v : g name = Some v -> env_steps (env_string g name set :: steps) c = env_steps steps (set v c).
Proof. intros E. cbn [env_steps]. unfold env_string. by rewrite E. Qed.
Lemma hit_checked {A} g name (parse : bytes -> option A) set what steps c v : g name = Some v ->
  env_steps (env_checked g name parse set what :: steps) c =
    match parse v with Some a => env_steps steps (set a c) | None => (c, Some (name ++ what)) end.
Proof. intros E. cbn [env_steps]. unfold env_checked. rewrite E. by destruct (parse v). Qed.

(** A variable does what the key of its row does in the file. *)
Definition same_setting (p : ConfigParam) : Prop := forall value cfg,
  match apply_key (bare (key p)) value cfg with
  | KeySet cfg' => apply_env_overrides (only (env p) value) cfg = (cfg', None)
  | KeyError _ => exists err, apply_env_overrides (only (env p) value) cfg = (cfg, Some err)
  | KeyUnknown => False
  end.

Ltac skip_variables :=
  repeat match goal with
  | |- context [env_steps (env_string ?g ?n ?s :: ?l) ?c] => rewrite (skip_string g n s l c) by (vm_compute; reflexivity)
  | |- context [env_steps (env_checked ?g ?n ?p ?s ?w :: ?l) ?c] => rewrite (skip_checked g n p s w l c) by (vm_compute; reflexivity)
  end.
Ltac hit_variable v :=
  match goal with
  | |- context [env_steps (env_string ?g ?n ?s :: ?l) ?c] => rewrite (hit_string g n s l c v) by (vm_compute; reflexivity)
  | |- context [env_steps (env_checked ?g ?n ?p ?s ?w :: ?l) ?c] =>
      rewrite (hit_checked g n p s w l c v) by (vm_compute; reflexivity); idtac
  end.
Ltac same_row :=
  intros value cfg; unfold apply_env_overrides; cbn [key env];
  match goal with |- match apply_key ?k _ _ with _ => _ end => let k' := eval vm_compute in k in change k with k' end;
  skip_variables; hit_variable value; skip_variables; cbn [env_steps]; unfold apply_key;
  repeat (rewrite bool_decide_eq_false_2 by (vm_compute; discriminate)); rewrite bool_decide_eq_true_2 by (vm_compute; reflexivity).

Lemma variables_as_keys : Forall same_setting kParams.
Proof.
  unfold kParams. repeat (apply Forall_cons; split; [same_row; unfold checked|]); [..|constructor].
  all: try done.
  all: match goal with |- context [match ?x with Some _ => _ | None => _ end] => destruct x end; try done; by eexists.
Qed.

(** The text a default is shown as; the number of threads depends on the machine. *)
Definition or_word (word v : bytes) : bytes := if v == [] then word else v.
Definition shown (k : bytes) (cfg : Config) : option bytes :=
  if k == #"country_db=" then Some (or_word #"disabled" (country_db cfg))
  else if k == #"asn_db=" then Some (or_word #"disabled" (asn_db cfg))
  else if k == #"city_db=" then Some (or_word #"disabled" (city_db cfg))
  else if k == #"socket=" then Some (socket_path cfg)
  else if k == #"socket_mode=" then Some (mode_octal (socket_mode cfg))
  else if k == #"max_request_bytes=" then Some (to_string (max_request_bytes cfg))
  else if k == #"debug_log=" then Some (if debug_log cfg then #"true" else #"false")
  else if k == #"tcp_port=" then Some (to_string (tcp_port cfg))
  else if k == #"tcp_address=" then Some (or_word #"(loopback)" (tcp_address cfg))
  else if k == #"metrics_file=" then Some (or_word #"disabled" (metrics_file cfg))
  else if k == #"metrics_interval_seconds=" then Some (to_string (metrics_interval_seconds cfg))
  else None.

(** The default column of a row, with [detected] CPU cores. *)
Definition default_shown (detected : Z) (p : ConfigParam) : Prop :=
  match shown (key p) (Config_default detected) with
  | Some text => default_ p = text
  | None => key p = #"threads=" /\ default_ p = #"CPU cores, clamped to 4-20" /\
      (0 < detected < 2 ^ 31 -> threads (Config_default detected) = Z.max 4 (Z.min 20 detected))%Z
  end.

Lemma clamped detected : (0 < detected < 2 ^ 31)%Z -> default_thread_count detected = Z.max 4 (Z.min 20 detected).
Proof.
  intros Hd. unfold default_thread_count. rewrite (proj2 (Z.eqb_neq _ _)) by lia. cbv zeta. rewrite Z.mod_small by lia.
  destruct (Z.ltb_spec (detected + 2 ^ 31 - 2 ^ 31) 4); [lia|]. destruct (Z.ltb_spec 20 (detected + 2 ^ 31 - 2 ^ 31)); lia.
Qed.

Lemma defaults_shown detected : Forall (default_shown detected) kParams.
Proof.
  assert (H : forallb (fun p => match shown (key p) (Config_default detected) with
    | Some text => default_ p == text
    | None => (key p == #"threads=") && (default_ p == #"CPU cores, clamped to 4-20")
    end) kParams = true).
  { unfold Config_default. generalize (default_thread_count detected). intros t. vm_compute. reflexivity. }
  apply forallb_Forall_true in H. eapply Forall_impl; [exact H|]. intros p Hp. unfold default_shown. cbn beta in Hp.
  destruct (shown (key p) (Config_default detected)) as [text|]; [by apply bool_decide_eq_true in Hp|].
  apply andb_prop in Hp as [Hk%bool_decide_eq_true Hd%bool_decide_eq_true]. split; [done|]. split; [done|]. apply clamped.
Qed.

(** C26. The help text's table is true of the code.  The keys a configuration
    file may have are exactly those of the table; the environment is read at
    exactly the variables of the table; a variable does what the key of its
    own row does in the file, for every value, and is refused where the key
    is; each row is printed; and the default column says what the built-in
    configuration has: the value itself, disabled or (loopback) for an empty
    text, and for the threads the number of cores clamped to 4 to 20.  The
    description column is free text and not covered (for its 0=disabled see the
    finding at config.cpp:98). *)
Theorem help_documents_configuration (argv0 : bytes) (cfg : Config) (detected : Z) :
  (forall k value, apply_key k value cfg <> KeyUnknown <-> k ++ #"=" ∈ map key kParams) /\
  (forall g1 g2, Forall (fun p => g1 (env p) = g2 (env p)) kParams -> apply_env_overrides g1 cfg = apply_env_overrides g2 cfg) /\
  (forall p, p ∈ kParams -> same_setting p) /\
  (forall p, p ∈ kParams -> exists pre post, print_help argv0 = pre ++ help_row (key p) (env p) (desc p) (default_ p) ++ [LF] ++ post) /\
  (forall p, p ∈ kParams -> default_shown detected p).
Proof.
  split; [intros; apply known_keys|]. split; [intros; by apply known_variables|].
  split; [apply Forall_forall, variables_as_keys|]. split; [intros; by apply row_printed|]. apply Forall_forall, defaults_shown.
Qed.

(** ** The whole program *)

Section Program.
Context {MM : MaxMindDB} {NP : InetPton} {LC : Libc}.

(** Calls of [main] outside the server and the health check. *)
Definition detached_call (c : call) : Prop :=
  match c with
  | IgnoreSigpipe | LogLine _ _ | SetDebugEnabled _ | Print _ _ | Concurrency | Access _ _ | ReadFile _ | Getenv | IsRegular => True
  | _ => False
  end.

Lemma log_lines_detached level msgs : every detached_call (log_lines level msgs).
Proof. by induction msgs. Qed.

Lemma fatal_detached {A} msg : every detached_call (fatal (A := A) msg).
Proof. done. Qed.

Lemma read_config_detached opts cfg : every detached_call (read_config_file opts cfg).
Proof.
  unfold read_config_file. split; [done|]. intros [e|u]; cbn [bind].
  - by destruct (config_path_explicit opts).
  - split; [done|]. intros u1. split; [done|]. intros file. cbn [bind]. cbv zeta. match goal with |- context [lr_err ?r] => destruct (lr_err r) end; [apply fatal_detached|].
    apply every_bind; [apply log_lines_detached|done].
Qed.

Lemma configure_detached opts : every detached_call (configure opts).
Proof.
  unfold configure. apply every_bind; [done|]. intros u. apply every_bind; [apply log_lines_detached|]. intros u1.
  apply every_bind; [done|]. intros d. apply every_bind; [apply read_config_detached|]. intros [err|cfg]; [done|].
  apply every_bind; [done|]. intros getenv. destruct (apply_env_overrides getenv cfg) as [cfg1 [err|]]; [apply fatal_detached|].
  apply every_bind; [done|]. intros u2. apply every_bind; [done|]. intros reg. cbv zeta.
  apply every_bind; [apply log_lines_detached|]. intros u3. apply every_bind; [apply log_lines_detached|done].
Qed.

(** The configuration the server gets is in range. *)
Lemma configure_in_range opts : yields (fun r => match r with inl _ => True | inr cfg => config_ok cfg end) (configure opts).
Proof.
  unfold configure. do 2 (apply yields_bind_any; intros ?). apply yields_bind_any. intros d.
  apply (yields_bind _ (fun r => match r with inl _ => True | inr cfg => config_ok cfg end)).
  - unfold read_config_file. intros [e|u]; cbn [bind].
    + destruct (config_path_explicit opts); intros ?; [done|]. apply config_default_ok.
    + intros u1 file. cbn [bind]. cbv zeta. match goal with |- context [lr_err ?r] => destruct (lr_err r) end; [by intros ?|]. apply yields_bind_any. intros ?.
      apply load_config_ok, config_default_ok.
  - intros [err|cfg] Hok; [done|]. apply yields_bind_any. intros getenv. pose proof (apply_env_overrides_ok getenv cfg Hok) as H1.
    destruct (apply_env_overrides getenv cfg) as [cfg1 [err|]]; [by intros ?|]. cbn [fst] in H1.
    do 2 (apply yields_bind_any; intros ?). cbv zeta. do 2 (apply yields_bind_any; intros ?). by apply apply_default_db_paths_ok.
Qed.

(** Such calls change nothing but the trace. *)
Lemma detached_blank {A} o (m : prog A) s : every detached_call m -> blank s ->
  match exec m o s with Some (_, s') => blank s' | None => True end.
Proof.
  revert s. induction m as [a|c k IH|]; intros s Hm Hs; [done| |done]. destruct Hm as [Hc Hk]. cbn. apply IH; [apply Hk|].
  destruct Hs as (Hf & Hb & Hmi). destruct c; try done; (split; [done|]; split; [done|]; by cbn; rewrite Hmi).
Qed.

(** ... and programs made of them are defined. *)
Fixpoint total {A} (m : prog A) : Prop :=
  match m with Ret _ => True | Sys c k => forall x, total (k x) | Undefined => False end.

Lemma total_bind {A B} (m : prog A) (f : A -> prog B) : total m -> (forall a, total (f a)) -> total (bind m f).
Proof. intros Hm Hf. induction m as [a|c k IH|]; [apply Hf| |done]. intros x. by apply IH. Qed.

Lemma total_exec {A} (m : prog A) o s : total m -> is_Some (exec m o s).
Proof. revert s. induction m as [a|c k IH|]; intros s Hm; [by eexists| |done]. apply IH, Hm. Qed.

Lemma log_lines_total level msgs : total (log_lines level msgs).
Proof. induction msgs; [done|]. by intros ?. Qed.

Lemma configure_total opts : total (configure opts).
Proof.
  unfold configure, read_config_file, fatal. apply total_bind; [done|]. intros u. apply total_bind; [apply log_lines_total|]. intros u1.
  apply total_bind; [done|]. intros d. apply total_bind.
  - intros [e|u2]; cbn [bind]; [by destruct (config_path_explicit opts)|]. intros u3 file. cbn [bind]. cbv zeta. match goal with |- context [lr_err ?r] => destruct (lr_err r) end; [done|].
    apply total_bind; [apply log_lines_total|done].
  - intros [err|cfg]; [done|]. apply total_bind; [done|]. intros getenv. destruct (apply_env_overrides getenv cfg) as [cfg1 [err|]]; [done|].
    apply total_bind; [done|]. intros u2. apply total_bind; [done|]. intros reg. cbv zeta.
    apply total_bind; [apply log_lines_total|]. intros u3. apply total_bind; [apply log_lines_total|done].
Qed.

(** *** Results and calls *)

Lemma every_mono (P Q : call -> Prop) {A} (m : prog A) : (forall c, P c -> Q c) -> every P m -> every Q m.
Proof. intros H. induction m as [a|c k IH|]; [done| |done]. intros [Hc Hk]. split; [by apply H|]. intros x. by apply IH. Qed.

Lemma detached_plain {A} (m : prog A) : every detached_call m -> every plain m.
Proof. apply every_mono. by intros []. Qed.

Lemma exit_with_plain to line code : every plain (exit_with to line code).
Proof. done. Qed.

Lemma print_all_detached l : every detached_call (print_all l).
Proof. by induction l as [|[to text] l]. Qed.

(** The calls of the health check. *)
Definition client_call (c : call) : Prop :=
  match c with
  | Socket _ _ | Connect _ _ | Setsockopt _ _ | Send _ _ | Receive _ _ | CloseFd _ | Print _ _ => True
  | _ => False
  end.

Lemma check_health_calls path port : every client_call (check_health path port).
Proof.
  unfold check_health. apply every_bind.
  - unfold connect_health, close_with. destruct (negb _); (split; [done|]; intros [e|fd]; cbn [bind]; [done|]).
    + split; [done|]. by intros [e|?].
    + destruct (sun_path_size <=? length path); [done|]. split; [done|]. by intros [e|?].
  - intros [err|fd]; [done|]. do 2 (split; [done|]; intros ?; cbn [bind]). split; [done|]. intros [e|n]; [done|].
    split; [done|]. intros data. split; [done|]. intros ?. cbn [bind]. destruct data as [e|[|c data]]; [done..|]. by destruct (negb _).
Qed.

Lemma run_check_db_plain opts : every plain (run_check_db opts).
Proof.
  unfold run_check_db. destruct (read_format _); [|done]. apply every_bind; [done|]. intros w.
  apply every_bind; [apply every_of_option|]. intros [[err|text] h]; done.
Qed.

Lemma run_health_check_calls opts : every client_call (run_health_check opts).
Proof.
  unfold run_health_check. destruct (_ && _); [done|]. apply every_bind; [apply check_health_calls|]. by intros [err|].
Qed.
Lemma run_health_check_plain opts : every plain (run_health_check opts).
Proof. eapply every_mono; [|apply run_health_check_calls]. by intros []. Qed.
Lemma run_health_check_no_files opts : every no_files (run_health_check opts).
Proof. eapply every_mono; [|apply run_health_check_calls]. by intros []. Qed.

(** What the program asks of the pool, if it ends. *)
Definition pool_use (r : option Z) (evs : list event) : Prop :=
  r <> None -> (pool_requests evs = [] /\ accepts evs = []) \/
    exists n, (1 <= n <= 256)%Z /\ pool_requests evs = Start n :: map Give (accepts evs) ++ [Stop].

Lemma idle_use r evs : idle evs -> pool_use r evs.
Proof. intros [H1 H2 _ _] _. by left. Qed.

Lemma main_emits turns fuel argv0 args : emits (main turns fuel argv0 args) pool_use.
Proof.
  assert (Hp : forall m : prog (option Z), every plain m -> emits m pool_use).
  { intros m Hm. eapply emits_mono; [by apply plain_emits|]. intros; by apply idle_use. }
  unfold main. destruct (parse_args argv0 args options_init) as [printed code|opts].
  { apply Hp, every_bind; [apply detached_plain, print_all_detached|done]. }
  destruct (check_db_requested opts); [apply Hp, run_check_db_plain|]. destruct (_ && _); [by apply Hp|].
  destruct (health_check_requested opts); [apply Hp, run_health_check_plain|].
  eapply emits_bind; [apply yields_emits; [apply configure_in_range|apply plain_emits, detached_plain, configure_detached]|].
  intros [err|cfg] e1 [Hok H1]; [apply emits_ret; rewrite app_nil_r; by apply idle_use|].
  eapply emits_mono; [apply serve_emits|]. intros r e2. unfold life, pool_use. destruct r as [code|]; [|done]. intros Hl _.
  rewrite requests_app, accepts_app, (id_requests _ H1), (id_accepts _ H1). cbn [app].
  destruct Hl as [(_ & Hr & _)|(_ & [H2 H3 _ _])]; [right|by left].
  exists (threads cfg). split; [by destruct Hok as (_ & ? & _)|done].
Qed.

Lemma blank_owns s : blank s -> owns [] s.
Proof. intros (Hf & _ & Hm). split; [constructor|]. split; [|done]. intros fd. rewrite Hf. split; [intros []%elem_of_empty|intros []%elem_of_nil]. Qed.

Lemma detached_triple {A} U o (m : prog A) s : total m -> every detached_call m -> blank s ->
  triple U o s m (fun a s' => exec m o s = Some (a, s') /\ blank s').
Proof.
  intros Ht Hm Hs. apply defined_triple. destruct (total_exec m o s Ht) as [[a s'] E]. exists a, s'. split; [done|]. split; [done|].
  pose proof (detached_blank o m s Hm Hs) as H. by rewrite E in H.
Qed.

(** Nothing is held, and a socket file is left only if removing it failed. *)
Definition clean (s : os) : Prop :=
  fds s = ∅ /\ forall p, p ∈ bound s -> exists e, e <> ENOENT /\ Event (Unlink p) (inl e) ∈ trace s.

Lemma owns_clean s : owns [] s -> bound s = [] -> misused s = false /\ clean s.
Proof.
  intros (_ & Hf & Hm) Hb. split; [done|]. split; [|exact (removed_nil s Hb)]. apply set_eq. intros fd. rewrite Hf.
  split; [intros []%elem_of_nil|intros []%elem_of_empty].
Qed.

Lemma no_files_bound {A} o (m : prog A) s a s' : every no_files m -> exec m o s = Some (a, s') -> bound s' = bound s.
Proof.
  revert s. induction m as [b|c k IH|]; intros s Hm E; [by injection E as _ <-| |done]. destruct Hm as [Hc Hk].
  rewrite (IH _ _ (Hk _) E). by apply bound_same.
Qed.

Definition good_exit (r : option Z) (s : os) : Prop :=
  misused s = false /\ forall code, r = Some code -> (code = 0 \/ code = 1 \/ code = 2)%Z /\ clean s.

Lemma exit_codes_printed argv0 args opts printed code : parse_args argv0 args opts = Exit printed code -> (code = 0 \/ code = 1 \/ code = 2)%Z.
Proof. intros [[-> _]|[-> _]]%parse_args_exit; auto. Qed.

Lemma exit_with_good U o s to line code : blank s -> (code = 0 \/ code = 1 \/ code = 2)%Z ->
  triple U o s (exit_with to line code) (fun r s' => good_exit r s').
Proof.
  intros Hs Hc. apply triple_sys. cbn [bind]. apply triple_ret.
  destruct (owns_clean (after (Print to (line ++ [LF])) (o _ s) s)) as [Hm Hcl]; [apply owns_inert; [by apply blank_owns|done]|apply Hs|].
  split; [done|]. by intros ? [= <-].
Qed.

Lemma health_check_good U o (Ho : lawful o) opts s : blank s -> triple U o s (run_health_check opts) (fun r s' => good_exit r s').
Proof.
  intros Hs. assert (Howns : triple (fun _ => False) o s (run_health_check opts) (fun r s' => owns [] s' /\ forall code, r = Some code -> (code = 0 \/ code = 1 \/ code = 2)%Z)).
  { assert (Hex : forall to line code s, owns [] s -> (code = 0 \/ code = 1 \/ code = 2)%Z ->
      triple (fun _ => False) o s (exit_with to line code) (fun r s' => owns [] s' /\ forall code, r = Some code -> (code = 0 \/ code = 1 \/ code = 2)%Z)).
    { intros to line code s1 H1 Hc. apply triple_sys. cbn [bind]. apply triple_ret. split; [by apply owns_inert|]. by intros ? [= <-]. }
    apply blank_owns in Hs. unfold run_health_check. destruct (_ && _); [apply Hex; auto|].
    eapply triple_bind; [by apply (check_health_owns o Ho)|]. intros [err|] s1 H1; apply Hex; auto. }
  apply triple_defined in Howns as (r & s' & E & H1 & Hc). apply defined_triple. exists r, s'. split; [done|].
  destruct (owns_clean s' H1) as [Hm Hcl]; [|split; [done|]; intros code Hr; split; [by apply Hc|done]].
  rewrite (no_files_bound _ _ _ _ _ (run_health_check_no_files opts) E). apply Hs.
Qed.

Lemma serve_good o (Ho : lawful o) turns fuel cfg s : blank s ->
  triple (undatable (db_files cfg)) o s (serve turns fuel cfg) (fun r s' => good_exit r s').
Proof.
  intros Hs. pose proof (serve_keeps o Ho cfg turns fuel s Hs) as Hk. unfold triple in *.
  destruct (exec (serve turns fuel cfg) o s) as [[r s']|] eqn:E; [|done]. destruct Hk as [Hm Hcl]. split; [done|].
  intros code ->. destruct (serve_emits turns fuel cfg _ _ _ _ E) as (evs & _ & Hl). split; [destruct Hl as [(-> & _)|(-> & _)]; auto|].
  exact (Hcl ltac:(done)).
Qed.

(** Where a database report is undefined: the file's metadata is, or it
    describes the database without a language or without a text. *)
Definition unreportable (path : bytes) (s : os) : Prop :=
  undatable [path] s \/
  exists db, seen [path] (trace s) db /\ mapM described (description (MMDB_metadata db)) = None.

Lemma check_db_good o opts s : blank s ->
  triple (unreportable (check_db_path opts)) o s (run_check_db opts) (fun r s' => good_exit r s').
Proof.
  intros Hs. unfold run_check_db. destruct (read_format _) as [format|]; [|apply exit_with_good; auto].
  apply triple_sys. cbn [bind]. destruct (o Databases s) as [fs now]. cbn [fst snd].
  set (path := check_db_path opts). set (s1 := after Databases (fs, now) s).
  assert (Hs1 : blank s1) by (destruct Hs as (Hf & Hb & Hm); split; [done|]; split; [done|]; by cbn; rewrite Hm).
  destruct (print_db_metadata fs now.1.1 path format heap_empty) as [[[err|text] h]|] eqn:E; cbn [of_option bind fst].
  - apply exit_with_good; auto.
  - apply triple_sys. cbn [bind]. apply triple_ret.
    destruct (owns_clean (after (Print Stdout text) (o _ s1) s1)) as [Hm Hcl]; [apply owns_inert; [by apply blank_owns|done]|apply Hs1|].
    split; [done|]. intros ? [= <-]. by split; [auto|].
  - apply triple_undefined. apply report_undefined in E as (db & Hdb & Hwhy); [|done].
    assert (Hseen : seen [path] (trace s1) db).
    { exists fs, now, path. split; [apply elem_of_app; right; by left|]. split; [by left|done]. }
    destruct Hwhy as [Hm|Hn]; [left|right; by exists db]. exists (Event Databases (fs, now)), now.1.1, db.
    cbn [after trace s1]. rewrite last_snoc. split; [done|]. split; [by left|done].
Qed.

(** Where the whole program is undefined. *)
Definition undefined_at (o : oracle) (argv0 : bytes) (args : list bytes) (s : os) : Prop :=
  exists opts, parse_args argv0 args options_init = Go opts /\
    if check_db_requested opts then unreportable (check_db_path opts) s
    else exists cfg s1, exec (configure opts) o os_init = Some (inr cfg, s1) /\ undatable (db_files cfg) s.

Lemma main_good o (Ho : lawful o) turns fuel argv0 args :
  triple (undefined_at o argv0 args) o os_init (main turns fuel argv0 args) (fun r s' => good_exit r s').
Proof.
  pose proof os_init_blank as Hs. unfold main. destruct (parse_args argv0 args options_init) as [printed code|opts] eqn:Ep.
  { eapply triple_bind; [apply detached_triple; [|apply print_all_detached|done]|].
    - clear. induction printed as [|[to text] l IH]; [done|]. intros ?. exact IH.
    - intros [] s1 [_ H1]. apply triple_ret. destruct (owns_clean s1) as [Hm Hcl]; [by apply blank_owns|apply H1|].
      split; [done|]. intros ? [= <-]. split; [by eapply exit_codes_printed|done]. }
  destruct (check_db_requested opts) eqn:Edb.
  { eapply triple_weaken; [by apply check_db_good|]. intros s Hu. exists opts. by rewrite Edb. }
  destruct (_ && _); [apply exit_with_good; auto|].
  destruct (health_check_requested opts); [by apply health_check_good|].
  eapply triple_bind; [apply detached_triple; [apply configure_total|apply configure_detached|done]|].
  intros [err|cfg] s1 [E H1].
  - apply triple_ret. destruct (owns_clean s1) as [Hm Hcl]; [by apply blank_owns|apply H1|]. split; [done|]. intros ? [= <-]. by split; [auto|].
  - eapply triple_weaken; [by apply serve_good|]. intros s Hu. exists opts. split; [done|]. rewrite Edb. by exists cfg, s1.
Qed.

(** C3. The program leaves nothing behind.  Whatever its arguments and
    whichever of its system calls fail: it uses only descriptors that are open
    and its own (so none is used after its close, or closed twice), and when
    it ends, with 0, 1 or 2, every descriptor is closed and the socket file it
    made is gone, unless removing it failed.  Its behaviour is undefined in one
    case: a database it found at a configured path (or at the path of
    --check-db) has no defined metadata at the time of day just read, or, with
    --check-db, describes itself with a null language or text.  The server and
    the health check are always defined when the time of day is not set back
    and databases are built before they are opened.  A connection counts as
    closed once the pool has it. *)
Theorem program_leaves_nothing (o : oracle) (Ho : lawful o) (turns fuel : nat) (argv0 : bytes) (args : list bytes) :
  triple (undefined_at o argv0 args) o os_init (main turns fuel argv0 args) (fun r s' => misused s' = false /\
    forall code, r = Some code -> (code = 0 \/ code = 1 \/ code = 2)%Z /\ fds s' = ∅ /\
      forall p, p ∈ bound s' -> exists e, e <> ENOENT /\ Event (Unlink p) (inl e) ∈ trace s') /\
  (timely o -> (forall opts, parse_args argv0 args options_init = Go opts -> check_db_requested opts = false) ->
   exists r s', exec (main turns fuel argv0 args) o os_init = Some (r, s')).
Proof.
  pose proof (main_good o Ho turns fuel argv0 args) as Hm. split; [exact Hm|]. intros Ht Hdb. unfold triple in Hm.
  destruct (exec _ _ _) as [[r s']|]; [by exists r, s'|]. destruct Hm as (opts & Ep & Hu). rewrite (Hdb opts Ep) in Hu.
  destruct Hu as (cfg & s1 & _ & Hu). by destruct (timely_datable _ _ _ Ht Hu).
Qed.

(** C4. A program that has ended has served everyone: either it accepted no
    connection and had no pool, or the pool was started once, with 1 to 256
    workers, got every accepted connection in the order of acceptance, and was
    shut down once, after the last; and in every run of the pool that these
    calls drive and that is joined, every accepted connection was handled to
    its end, exactly once, and none was turned away. *)
Theorem every_connection_served (o : oracle) (turns fuel : nat) (argv0 : bytes) (args : list bytes) (code : Z) (s' : os)
    (E : exec (main turns fuel argv0 args) o os_init = Some (Some code, s')) :
  (pool_requests (trace s') = [] /\ accepts (trace s') = []) \/
  exists n, (1 <= n <= 256)%Z /\ pool_requests (trace s') = Start n :: map Give (accepts (trace s')) ++ [Stop] /\
    forall acts p, pool_run acts (pool_init (Z.to_nat n)) = Some p -> thread p = Joined ->
      Start n :: flat_map request_of acts = pool_requests (trace s') ->
      finished p ≡ₚ accepts (trace s') /\ closed p = [] /\ queue_ p = [].
Proof.
  pose proof (emitted _ _ _ _ _ (main_emits turns fuel argv0 args) E) as Hu. destruct Hu as [Hu|(n & Hn & Hr)]; [done|by left|right].
  exists n. split; [done|]. split; [done|]. intros acts p Hrun Hj Hreq. apply (pool_served n (accepts (trace s')) acts p); try done; [lia|congruence].
Qed.

End Program.

(** ** Arguments and health check: properties *)

(** *** What the settings mean *)

Section CommandLine.
Context {MM : MaxMindDB} {NP : InetPton} {LC : Libc}.

(** The last value of an option. *)
Definition given {A} (value : setting -> option A) (settings : list setting) : option A := last (omap value settings).

Definition config_value s := match s with SetConfig path => Some path | _ => None end.
Definition check_db_value s := match s with CheckDb path => Some path | _ => None end.
Definition format_value s := match s with SetFormat name => Some name | _ => None end.
Definition health_value s := match s with HealthCheck => Some tt | _ => None end.
Definition socket_value s := match s with SetSocket path => Some path | _ => None end.
Definition port_value s := match s with SetPort _ port => Some port | _ => None end.

Lemma given_snoc {A} (value : setting -> option A) settings s :
  given value (settings ++ [s]) = match value s with Some a => Some a | None => given value settings end.
Proof. unfold given. rewrite omap_app. cbn. destruct (value s); [by rewrite last_snoc|by rewrite app_nil_r]. Qed.

(** The options after all settings: the last one of a kind counts. *)
Definition meaning (settings : list setting) : options :=
  mkOptions (default kDefaultConfigPath (given config_value settings)) (is_some (given config_value settings))
    (is_some (given check_db_value settings)) (default [] (given check_db_value settings))
    (default #"table" (given format_value settings)) (is_some (given health_value settings))
    (default [] (given socket_value settings)) (default 0%Z (given port_value settings)).

Lemma settings_meaning settings : fold_left apply_setting settings options_init = meaning settings.
Proof.
  induction settings as [|s settings IH] using rev_ind; [done|]. rewrite fold_left_app. cbn [fold_left]. rewrite IH.
  unfold meaning. rewrite !given_snoc. by destruct s.
Qed.

Lemma given_in {A} (value : setting -> option A) settings a : given value settings = Some a ->
  exists s, s ∈ settings /\ value s = Some a.
Proof. intros Hl%last_Some_elem_of. by apply list_elem_of_omap in Hl. Qed.

Lemma given_none {A} (value : setting -> option A) settings : Forall (fun s => value s = None) settings -> given value settings = None.
Proof.
  intros H. destruct (given value settings) as [a|] eqn:E; [|done]. apply given_in in E as (s & Hin & Hs).
  rewrite Forall_forall in H. by rewrite (H s Hin) in Hs.
Qed.

(** A port that was given is not 0. *)
Lemma given_port settings port : Forall valid settings -> given port_value settings = Some port -> (port =? 0)%Z = false.
Proof.
  intros Hv (s & Hin & Hs)%given_in. rewrite Forall_forall in Hv. specialize (Hv s Hin). destruct s; try done.
  injection Hs as ->. cbn in Hv. unfold parse_port in Hv. apply parse_in_range_bounds in Hv. lia.
Qed.

(** *** The modes *)

(** The server, with its configuration. *)
Definition server_mode (turns fuel : nat) (opts : options) : prog (option Z) :=
  c <~ configure opts ;;
  match c with inl _ => Ret (Some 1%Z) | inr cfg => serve turns fuel cfg end.

(** The report on one database. *)
Definition report_mode (path : bytes) (format : DbMetadataFormat) : prog (option Z) :=
  w <~ sys Databases ;;
  r <~ of_option (print_db_metadata w.1 w.2.1.1 path format heap_empty) ;;
  match r.1 with
  | inl err => exit_with Stderr (#"Error: " ++ err) 1
  | inr text => sys (Print Stdout text) ;;; Ret (Some 0%Z)
  end.

(** The health check over a UNIX socket, or over TCP for a port that is not 0. *)
Definition health_mode (path : bytes) (port : Z) : prog (option Z) :=
  r <~ check_health path port ;;
  match r with
  | Some err => exit_with Stderr (#"status=fail: " ++ err) 1
  | None => exit_with Stdout #"status=ok" 0
  end.

Definition server_option s : Prop := match s with SetConfig _ => True | _ => False end.
Definition report_option s : Prop := match s with CheckDb _ | SetFormat _ => True | _ => False end.
Definition health_option s : Prop := match s with HealthCheck | SetSocket _ | SetPort _ _ => True | _ => False end.

Lemma kind_none {A} (kind : setting -> Prop) (value : setting -> option A) settings :
  (forall s, kind s -> value s = None) -> Forall kind settings -> given value settings = None.
Proof. intros Hk Hs. apply given_none. by eapply Forall_impl. Qed.

Lemma main_settings turns fuel argv0 settings : Forall valid settings ->
  main turns fuel argv0 (flat_map written settings) =
    let opts := meaning settings in
    if check_db_requested opts then run_check_db opts
    else if negb (health_check_requested opts) &&
            (negb (health_check_socket opts == []) || negb (health_check_port opts =? 0)%Z) then
      exit_with Stderr #"--socket and --port only apply together with --health-check" 2
    else if health_check_requested opts then run_health_check opts else server_mode turns fuel opts.
Proof. intros Hv. unfold main. by rewrite parse_settings, settings_meaning. Qed.

Lemma health_given settings : HealthCheck ∈ settings <-> is_Some (given health_value settings).
Proof.
  split.
  - intros Hin. destruct (given health_value settings) eqn:E; [by eexists|]. exfalso. unfold given in E. apply last_None in E.
    assert (Hn : tt ∈ omap health_value settings) by (apply list_elem_of_omap; by exists HealthCheck). rewrite E in Hn. by apply elem_of_nil in Hn.
  - intros [[] (s & Hin & Hs)%given_in]. by destruct s.
Qed.

(** Options of one mode say nothing of the others. *)
Ltac no_option := by eapply kind_none; [|eassumption]; intros [].

Lemma main_server turns fuel argv0 settings : Forall valid settings -> Forall server_option settings ->
  main turns fuel argv0 (flat_map written settings) =
    server_mode turns fuel (match given config_value settings with Some path => with_config path options_init | None => options_init end).
Proof.
  intros Hv Hk. rewrite main_settings by done. unfold meaning. cbv zeta.
  assert (given check_db_value settings = None) as -> by no_option. assert (given format_value settings = None) as -> by no_option.
  assert (given health_value settings = None) as -> by no_option. assert (given socket_value settings = None) as -> by no_option.
  assert (given port_value settings = None) as -> by no_option. by destruct (given config_value settings).
Qed.

Lemma main_report turns fuel argv0 settings path format : Forall valid settings -> given check_db_value settings = Some path ->
  read_format (default #"table" (given format_value settings)) = Some format ->
  main turns fuel argv0 (flat_map written settings) = report_mode path format.
Proof.
  intros Hv Hp Hf. rewrite main_settings by done. unfold meaning. cbv zeta. cbn [check_db_requested]. rewrite Hp. cbn [is_some].
  unfold run_check_db. cbn [check_db_format check_db_path default]. by rewrite Hf.
Qed.

Lemma main_health turns fuel argv0 settings : Forall valid settings -> Forall health_option settings -> HealthCheck ∈ settings ->
  given socket_value settings = None \/ given port_value settings = None ->
  main turns fuel argv0 (flat_map written settings) =
    health_mode (match given socket_value settings with
                 | None | Some [] => socket_path (Config_default 0)
                 | Some path => path
                 end) (default 0%Z (given port_value settings)).
Proof.
  intros Hv Hk [[] Hh]%health_given Hone. rewrite main_settings by done. unfold meaning. cbv zeta. rewrite Hh.
  assert (given check_db_value settings = None) as -> by no_option. cbn [check_db_requested health_check_requested is_some negb andb].
  unfold run_health_check, health_mode. cbn [health_check_socket health_check_port].
  destruct Hone as [Hs|Hp]; [rewrite Hs; done|]. rewrite Hp. cbn [default]. rewrite andb_false_r.
  by destruct (given socket_value settings) as [[|c path]|].
Qed.

Lemma main_refused turns fuel argv0 settings : Forall valid settings ->
  (is_Some (given check_db_value settings) /\ read_format (default #"table" (given format_value settings)) = None) \/
  (given check_db_value settings = None /\ (HealthCheck ∈ settings ->
     default [] (given socket_value settings) <> [] /\ given port_value settings <> None) /\
   (default [] (given socket_value settings) <> [] \/ given port_value settings <> None)) ->
  exists msg, main turns fuel argv0 (flat_map written settings) = exit_with Stderr msg 2.
Proof.
  intros Hv Hr. rewrite main_settings by done. unfold meaning. cbv zeta. cbn [check_db_requested health_check_requested health_check_socket health_check_port].
  assert (Hport : given port_value settings <> None -> (default 0 (given port_value settings) =? 0)%Z = false).
  { destruct (given port_value settings) as [port|] eqn:Ep; [|done]. intros _. by eapply given_port. }
  destruct Hr as [[[path Hp] Hf]|(Hp & Hboth & Hor)]; rewrite Hp; cbn [is_some].
  { unfold run_check_db. cbn [check_db_format]. rewrite Hf. by eexists. }
  rewrite health_given in Hboth. destruct (given health_value settings) as [[]|]; cbn [is_some negb andb].
  - destruct (Hboth ltac:(done)) as [Hs Hg]. unfold run_health_check. cbn [health_check_socket health_check_port].
    rewrite (Hport Hg), bool_decide_eq_false_2 by done. by eexists.
  - destruct Hor as [Hs|Hg]; [rewrite bool_decide_eq_false_2 by done|rewrite (Hport Hg), orb_true_r]; by eexists.
Qed.

Lemma main_invalid turns fuel argv0 args : (forall settings, Forall valid settings -> args <> flat_map written settings) ->
  exists printed code, main turns fuel argv0 args = (print_all printed ;;; Ret (Some code)) /\
    ((code = 0%Z /\ asked_for argv0 args printed) \/ (code = 2%Z /\ exists msg rest, printed = (Stderr, msg) :: rest)).
Proof.
  intros Hn. unfold main. destruct (parse_args argv0 args options_init) as [printed code|opts] eqn:Ep.
  - exists printed, code. split; [done|]. by eapply parse_args_exit.
  - apply parse_args_settings in Ep as (settings & -> & Hv & _). by destruct (Hn settings Hv).
Qed.

End CommandLine.

(** C25. The command line.  Options may be repeated, the last of a kind
    counts.  With nothing but --config the program is the server, with the
    file named last; with --check-db, and maybe a known --format, it is the
    report on that file; with --health-check, and maybe one of --socket and
    --port (1 to 65535), it is the health check of that socket or port.  An
    unknown format with --check-db, --socket or --port without --health-check,
    and both of them with it, end it with 2 and a message on standard error
    (an empty --socket counts as none).
    What is no sequence of options with valid values ends it at once: with 0
    and the version or help if that was asked for, and otherwise with 2 and a
    message.  Combinations the help text does not allow but the code ignores
    (--format without --check-db, --socket or --port with it, the finding at
    main.cpp:254, or --config with another mode) are left open. *)
Theorem command_line_exact {MM : MaxMindDB} {NP : InetPton} {LC : Libc} (turns fuel : nat) (argv0 : bytes) :
  (forall settings, Forall valid settings -> Forall server_option settings ->
     main turns fuel argv0 (flat_map written settings) =
       server_mode turns fuel (match given config_value settings with Some path => with_config path options_init | None => options_init end)) /\
  (forall settings path format, Forall valid settings -> Forall report_option settings ->
     given check_db_value settings = Some path -> read_format (default #"table" (given format_value settings)) = Some format ->
     main turns fuel argv0 (flat_map written settings) = report_mode path format) /\
  (forall settings, Forall valid settings -> Forall health_option settings -> HealthCheck ∈ settings ->
     given socket_value settings = None \/ given port_value settings = None ->
     main turns fuel argv0 (flat_map written settings) =
       health_mode (match given socket_value settings with
                    | None | Some [] => socket_path (Config_default 0)
                    | Some path => path
                    end) (default 0%Z (given port_value settings))) /\
  (forall settings, Forall valid settings ->
     (is_Some (given check_db_value settings) /\ read_format (default #"table" (given format_value settings)) = None) \/
     (given check_db_value settings = None /\ (HealthCheck ∈ settings ->
        default [] (given socket_value settings) <> [] /\ given port_value settings <> None) /\
      (default [] (given socket_value settings) <> [] \/ given port_value settings <> None)) ->
     exists msg, main turns fuel argv0 (flat_map written settings) = exit_with Stderr msg 2) /\
  (forall args, (forall settings, Forall valid settings -> args <> flat_map written settings) ->
     exists printed code, main turns fuel argv0 args = (print_all printed ;;; Ret (Some code)) /\
       ((code = 0%Z /\ asked_for argv0 args printed) \/ (code = 2%Z /\ exists msg rest, printed = (Stderr, msg) :: rest))).
Proof.
  split; [intros; by apply main_server|]. split; [intros; by apply main_report|]. split; [intros; by apply main_health|].
  split; [intros; by apply main_refused|intros; by apply main_invalid].
Qed.

(** C16. The health check succeeds exactly if it received, in its one read,
    bytes that begin with the status line of a 200; it always returns, it
    closes the one descriptor it opens on every path, once, and uses no
    other. *)
Theorem check_health_spec {MM : MaxMindDB} {NP : InetPton} {LC : Libc} (o : oracle) (Ho : lawful o) (path : bytes) (port : Z) :
  exists r s', exec (check_health path port) o os_init = Some (r, s') /\ fds s' = ∅ /\ misused s' = false /\
    (r = None <-> exists data, received (trace s') = [data] /\ status_ok data = true).
Proof.
  destruct (triple_defined _ _ _ _ (check_health_owns o Ho path port os_init (blank_owns _ os_init_blank))) as (r & s' & E & (_ & Hf & Hm)).
  exists r, s'. split; [done|]. split; [|split; [done|exact (emitted _ _ _ _ _ (check_health_emits path port) E)]].
  apply set_eq. intros fd. rewrite Hf. split; [intros []%elem_of_nil|intros []%elem_of_empty].
Qed.

(** ** Witnesses *)

#[local] Existing Instance simple_libc.

(** Witness of C25: a report and a refused health check. *)
Example command_line_exact_witness :
  main 1 1 #"nshgeoip" [ #"--check-db"; #"/db"; #"--format"; #"json"] = report_mode #"/db" Report.Json /\
  main 1 1 #"nshgeoip" [ #"--health-check"; #"--port"; #"80"] = health_mode (socket_path (Config_default 0)) 80 /\
  exists msg, main 1 1 #"nshgeoip" [ #"--health-check"; #"--port"; #"80"; #"--socket"; #"/s"] = exit_with Stderr msg 2.
Proof.
  split; [|split].
  - apply (proj1 (proj2 (command_line_exact 1 1 #"nshgeoip")) [CheckDb #"/db"; SetFormat #"json"]); [by repeat constructor..|done|done].
  - apply (proj1 (proj2 (proj2 (command_line_exact 1 1 #"nshgeoip"))) [HealthCheck; SetPort #"80" 80]);
      [by repeat constructor|by repeat constructor|by left|by left].
  - apply (proj1 (proj2 (proj2 (proj2 (command_line_exact 1 1 #"nshgeoip")))) [HealthCheck; SetPort #"80" 80; SetSocket #"/s"]); [by repeat constructor|].
    right. split; [done|]. split; [done|]. by left.
Defined.

(** Witness of C3: the program without arguments. *)
Example program_leaves_nothing_witness :
  triple (undefined_at sample_oracle #"nshgeoip" []) sample_oracle os_init (main 10 10 #"nshgeoip" []) (fun r s' => misused s' = false /\
    forall code, r = Some code -> (code = 0 \/ code = 1 \/ code = 2)%Z /\ fds s' = ∅ /\
      forall p, p ∈ bound s' -> exists e, e <> ENOENT /\ Event (Unlink p) (inl e) ∈ trace s') /\
  exists r s', exec (main 10 10 #"nshgeoip" []) sample_oracle os_init = Some (r, s').
Proof.
  split; [exact (proj1 (program_leaves_nothing sample_oracle sample_lawful 10 10 #"nshgeoip" []))|].
  apply (program_leaves_nothing sample_oracle sample_lawful 10 10 #"nshgeoip" []); [exact sample_timely|]. by intros opts [= <-].
Defined.

Lemma sample_main_ends : exists s', exec (main 10 10 #"nshgeoip" []) sample_oracle os_init = Some (Some 0%Z, s').
Proof.
  assert (Hr : fst <$> exec (main 10 10 #"nshgeoip" []) sample_oracle os_init = Some (Some 0%Z)) by (vm_compute; reflexivity).
  destruct (exec _ _ _) as [[r s']|]; [|done]. cbn in Hr. injection Hr as ->. by exists s'.
Qed.

(** Witness of C4: two connections, then SIGHUP and SIGTERM. *)
Example every_connection_served_witness :
  exists s', exec (main 10 10 #"nshgeoip" []) sample_oracle os_init = Some (Some 0%Z, s') /\
  ((pool_requests (trace s') = [] /\ accepts (trace s') = []) \/
   exists n, (1 <= n <= 256)%Z /\ pool_requests (trace s') = Start n :: map Give (accepts (trace s')) ++ [Stop] /\
    forall acts p, pool_run acts (pool_init (Z.to_nat n)) = Some p -> thread p = Joined ->
      Start n :: flat_map request_of acts = pool_requests (trace s') ->
      finished p ≡ₚ accepts (trace s') /\ closed p = [] /\ queue_ p = []).
Proof.
  destruct sample_main_ends as [s' E]. exists s'. split; [exact E|].
  exact (every_connection_served sample_oracle 10 10 #"nshgeoip" [] 0 s' E).
Defined.

(** What that life asks of the pool. *)
Example sample_main_pool : (fun rs => pool_requests (trace rs.2)) <$> exec (main 10 10 #"nshgeoip" []) sample_oracle os_init =
  Some [Start 8; Give 5; Give 5; Stop]%Z.
Proof. vm_compute. reflexivity. Qed.

(** Witness of C16: a healthy server behind the sample system. *)
Example check_health_spec_witness :
  exists r s', exec (check_health #"/s" 0) sample_oracle os_init = Some (r, s') /\ fds s' = ∅ /\ misused s' = false /\
    (r = None <-> exists data, received (trace s') = [data] /\ status_ok data = true).
Proof. exact (check_health_spec sample_oracle sample_lawful #"/s" 0). Defined.

Example sample_check_healthy : fst <$> exec (check_health #"/s" 0) sample_oracle os_init = Some None.
Proof. vm_compute. reflexivity. Qed.
